(* ===== verification/_CoqProject ===== *)
-Q . S2P
Prelude.v
Errors.v
Constants.v
Text.v
Strategy.v
Strategies.v
Scored.v
WeightedRoundRobin.v
Registry.v
SipHash.v
Address.v
SocketAddr.v
Float64.v
Retry.v
Balancer.v
BalancerFacts.v
BalancerSpec.v
Sessions.v
Rounding.v
Backoff.v
Concurrent.v
Accounting.v
Statements.v
Cancel.v
PoolSpec.v
Locks.v
Scripts.v
Health.v
Discovery.v
Etcd.v
Lifecycle.v
Connection.v
Ffi.v
FfiThreads.v
Tower.v
Tls.v
Debug.v
UnitTests.v
