(* ===== verification/Prelude.v ===== *)
(** * rota-lb: a verification development

    rota-lb is a client-side load balancer: a [LoadBalancer] holds [N] backends
    and a [BalanceStrategy], and every [dial] lets the strategy pick a backend
    from a view of the per-backend metrics, dials it with timeouts and retries,
    and returns a connection whose drop guard releases the backend's counter.
    The pool can be reconfigured at run time, by hand or by service discovery;
    a health checker dials backends periodically and writes metrics of its own;
    the strategies are also exported through a C interface, and the balancer as
    a tower service.

    ** Files

    - [Prelude] (this file): outcomes (a value, a panic, a future that never
      resolves, fuel exhausted), the state-passing monad [M] in which a panic
      keeps what was already written, machine integers with the build profile
      as the class [Target] (overflow checks, debug assertions, pointer width),
      durations, and the generic least-index scan [argmin] with its laws.
    - [Errors], [Constants]: [errors/], [constants/].  [Text]: std's UTF-8
      validation, for [ffi/api.rs] and the etcd source.
    - [Strategy]: [traits/strategy.rs]: metrics, views, the trait as the class
      [BalanceStrategy], boxed strategies [dyn_strategy], and the contract
      [StrategyLaws]: an invariant every call keeps (also a panicking one), a
      picked index in range, and a budget [safe k] under which [k] more picks
      return.  The balancer and the C interface are proved against the contract.
    - [Strategies], [Scored], [WeightedRoundRobin]: the nine strategies of
      [strategies/], each with its instance of the contract.  [Registry]: the
      free constructors, the [FfiStrategy] enum and its [build].  [SipHash]:
      std's [DefaultHasher] as an instance of the strategies' [Hasher].
    - [Address]: [validate_dial_addr] of [services/balancer.rs].  [SocketAddr]:
      std's socket addresses, parsed and printed, for the etcd source.
    - [Float64], [Retry]: [utils/retry.rs] over binary64 arithmetic.  [Rounding],
      [Backoff]: the rounding errors of that arithmetic, and the cap of the
      exponential backoff they leave.
    - [Balancer]: [services/balancer.rs]: the balancer, its builder and the
      guard.  [BalancerFacts]: the well-formedness invariant and the effect of a
      dial.  [BalancerSpec]: the contract of each operation on every branch.
      [Sessions]: the calls of a client in sequence, and how the strategies
      distribute them.
    - [Concurrent]: dials in flight, cancellations, guard drops and
      reconfigurations interleaved, as a labelled step relation over atomic
      sections.  [Accounting]: what the counters of active connections say about
      the dials and connections that are open, across removals.
      [Statements]: the same calls statement by statement, with their
      locks, and the proof that this refines [Concurrent].  [Cancel]: the
      awaits at which a reconfiguration can be dropped.  [PoolSpec]: the abstract
      pool this system implements, whose dials and connections name backends
      instead of indices, and [dial] as a run of its steps.
      [Locks]: the lock operations and awaits of every asynchronous method, as
      scripts over fair locks in which a dial may be retried for ever.  [Scripts]: the scripts and the statements agree.
    - [Health]: [utils/health.rs].  [Discovery], [Etcd]: [utils/discovery.rs].
      [Lifecycle]: the background loops of both (spawn, [select!], shutdown,
      restart) with their handles and the users of what they share, as step
      relations.
    - [Connection]: [AsyncRead] and [AsyncWrite] of the guarded and the TLS
      connection.  [Tls]: [configs/tls.rs].  [Ffi]: [ffi/].  [FfiThreads]:
      the same functions split at their locks, called by threads that share a
      handle.  [Tower]: [tower.rs].
    - [Debug]: the hand-written [Debug] implementations of all files, over std's
      formatting.
    - [UnitTests]: the test functions inside [strategies/] and
      [services/balancer.rs], run on the model.

    ** What is a parameter

    Backends and connections are arbitrary types.  What a backend answers is the
    environment [Env], one [attempt] per call: its result or panic, its latency
    ([None]: never), the lag before the clock is read, and the random draw of a retry
    decision.  The thread-local generator is [Rng], the default hasher is the
    class [Hasher], rustls is the class [Rustls], a byte stream is the class
    [AsyncConnection], std's table of the further characters to escape is the class
    [Unicode]; the DNS resolver, the Consul and etcd clients and a user's
    factory are functions.  Hypotheses about them are named
    ([rng_ok], [unit_draw], [responsive], [bounded_policy], [verify_checks_name]) and met by
    concrete instances in the witnesses.

    ** What the theorems show

    - Strategies: every built-in stays in range and does not panic over
      [PICK_BUDGET] picks; round robin visits each backend once per window;
      weighted round robin is proportional to the weights, counted from the last
      change of the RTTs; the scoring ones
      return the first least index of their key; failover rotates.  Proved
      defects: failover stuck after a shrink, the 32-bit hash, score overflow.
    - Dialling: with a bounded policy and responsive backends a dial returns
      after at most [max 1 m] attempts, with the first connection or with the
      error on which the policy gave up, and updates exactly the picked backend;
      dropping the guard undoes the load if it gets the lock.  Exponential backoff
      stays below its maximum after all roundings, if the maximum survives the
      conversion to seconds; proved defects: maxima that do not.
    - Sessions: over the calls of a client, round robin dials each backend its
      share, least connections keeps the load level, failover settles on the
      first live backend, and hashing and stickiness keep a client where it is.
    - Reconfiguration: what removal, replacement, draining and construction do
      on every branch; stale guards are inert.
    - Interleavings: in every run the pool stays aligned, indices in flight stay
      in range and no backend is lost; the statement-level system refines the
      atomic one, the atomic one refines the abstract pool, and
      no backend is dialled once it was shut down; [active_connections] never
      undercounts but for the racing drop, also for connections from before a
      removal, is exact without losses, and an inflated count never converges (in
      release builds as long as no counter wraps around).  A reconfiguration that
      is dropped keeps the pool consistent except at three awaits, where it
      leaves fewer backends than metrics and later dials can panic.  Proved
      defects: those awaits, the race between a drop and a removal, the leaks.
    - Locks: the calls cannot deadlock, can always come to their end, and are
      served in order; on a balancer a
      backend that does not answer holds up nobody, through [Discover] it holds
      up everybody (a proved defect).
    - Discovery: reconciliation converges up to the first descriptor the factory
      cannot make, and is idempotent; Consul descriptors are dialable, DNS ones unless their
      target is the root or their port is 0; etcd addresses round
      trip through std's parser and are dialable unless their port is 0.  At most
      one loop is not told to stop; for all answers of source and factory, what a
      round does to the pool and to its loop (a panic ends it).
    - Health: the checker tracks each backend on its own, with hysteresis;
      whatever the others do to the shared metrics, its task ends only when its
      owner lets go, when a checked counter overflows or when a backend panics.
    - Connections: reads and writes through the wrappers are those of the wrapped
      stream; a balancer of TLS backends never hands out a plain connection.
    - C interface: threads within the contract never see an error and cannot
      deadlock; the interface is linearizable but for a reset that races with a
      change of the strategy, whose effect is a proved defect; metrics round
      trip; a panic disables a handle for good.
    - Debug output: strings of the caller cannot break a line or close their
      quotes.
    - TLS: the host name bypass asks for 0.0.0.0.

    ** Bounds and fuel

    The only unbounded loop is the retry loop: [dial_loop] takes fuel, and
    [dial_returns] proves that [max 1 m] iterations are enough for a policy that
    gives up by attempt [m].  [PICK_BUDGET] is [u64::MAX / 1000]: the weights are
    at most 1000, so that many picks cannot overflow weighted round robin's
    products.  [rtts_sane] bounds RTTs by 2^63 us so that scores fit a [u64].
    Runs of [Concurrent] are shorter than the generation counter's period where
    a theorem needs generations to be fresh, and [headroom] says that, without
    overflow checks, they are too short to wrap a counter around.

    ** Not modelled

    Logging, and derived [Debug] output nothing prints; when timers fire (a tick may happen at any time a
    loop waits; the body of a tick is one step, since only its locked part touches
    what is shared); raw memory behind the C pointers; the third-party clients
    (rustls, trust-dns, consulrs, etcd-client), which are parameters; re-exports
    and module files ([lib.rs], the [mod.rs] files).  The lines of the sources
    that no definition models are these, documentation, imports and the copies
    of the test helpers in each strategy file. *)

From stdpp Require Import base tactics list numbers strings.

Declare Scope rota_scope.
Delimit Scope rota_scope with rota.
Open Scope rota_scope.

(** ** Outcomes: what running a piece of Rust code can do *)

(** Why a panic was raised. *)
Inductive panic_reason :=
| Overflow
| DivByZero
| IndexOutOfBounds
| EmptyRange
| AssertFailed
| BadDuration
| Custom (msg : string).

(** A computation returns a value, panics, waits for ever on a future that
    never resolves, or (only in the executable model of an unbounded loop)
    runs out of the fuel it was given. *)
Inductive outcome (A : Type) :=
| Ret (a : A)
| Panic (p : panic_reason)
| Pending
| NoFuel.

Arguments Ret {A} _.
Arguments Panic {A} _.
Arguments Pending {A}.
Arguments NoFuel {A}.

(** Rust's [Result<T, E>]. *)
Inductive Result (T E : Type) :=
| Ok (t : T)
| Err (e : E).

Arguments Ok {T E} _.
Arguments Err {T E} _.

#[global] Instance panic_reason_eq_dec : EqDecision panic_reason.
Proof. solve_decision. Defined.
#[global] Instance outcome_eq_dec {A} `{EqDecision A} : EqDecision (outcome A).
Proof. solve_decision. Defined.
#[global] Instance Result_eq_dec {T E} `{EqDecision T, EqDecision E} :
  EqDecision (Result T E).
Proof. solve_decision. Defined.

#[global] Instance outcome_ret : MRet outcome := λ A a, Ret a.
#[global] Instance outcome_bind : MBind outcome := λ A B f m,
  match m with
  | Ret a => f a
  | Panic p => Panic p
  | Pending => Pending
  | NoFuel => NoFuel
  end.

Definition is_ok {T E} (r : Result T E) : bool :=
  match r with Ok _ => true | Err _ => false end.

(** ** State passing with panics

    [M S A] is code that runs on a mutable [S].  The state survives a panic:
    whatever was written before it stays written, as in the source. *)
Definition M (S A : Type) : Type := S → outcome A * S.

#[global] Instance M_ret {S} : MRet (M S) := λ A a s, (Ret a, s).
#[global] Instance M_bind {S} : MBind (M S) := λ A B f m s,
  match m s with
  | (Ret a, s') => f a s'
  | (Panic p, s') => (Panic p, s')
  | (Pending, s') => (Pending, s')
  | (NoFuel, s') => (NoFuel, s')
  end.

Definition get {S} : M S S := λ s, (Ret s, s).
Definition put {S} (s : S) : M S unit := λ _, (Ret tt, s).
Definition modify {S} (f : S → S) : M S unit := λ s, (Ret tt, f s).
Definition lift {S A} (o : outcome A) : M S A := λ s, (o, s).

(** Run code on a component of the state. *)
Definition zoom {S T A} (gt : S → T) (st : T → S → S) (m : M T A) : M S A :=
  λ s, let '(o, t) := m (gt s) in (o, st t s).

(** ** Machine integers

    Fixed-width integers are [Z] with their bounds written out; indices and
    lengths ([usize]) are [nat], with the width of [usize] checked where the
    source adds to one.  The build decides what an overflow does: the dev
    profile panics, the release profile wraps. *)
Class Target := {
  overflow_checks : bool;
  debug_assertions : bool;
  pointer_width : Z;
  pointer_width_ok : (pointer_width = 32 ∨ pointer_width = 64)%Z
}.

(** The two Cargo profiles on a 64-bit machine, and a 32-bit one. *)
Definition dev64 : Target :=
  {| overflow_checks := true; debug_assertions := true;
     pointer_width := 64; pointer_width_ok := or_intror eq_refl |}.
Definition release64 : Target :=
  {| overflow_checks := false; debug_assertions := false;
     pointer_width := 64; pointer_width_ok := or_intror eq_refl |}.
Definition release32 : Target :=
  {| overflow_checks := false; debug_assertions := false;
     pointer_width := 32; pointer_width_ok := or_introl eq_refl |}.

Definition u16_MAX : Z := 65535.
Definition u32_MAX : Z := 4294967295.
Definition u64_MAX : Z := 18446744073709551615.
Definition usize_MAX `{Target} : Z := (2 ^ pointer_width - 1)%Z.

(** A [w]-bit result: kept if it fits, else a panic or a wrap-around. *)
Definition fit `{Target} (max z : Z) : outcome Z :=
  if (z <=? max)%Z then Ret z
  else if overflow_checks then Panic Overflow
  else Ret (z mod (max + 1))%Z.

Definition u32_add `{Target} (a b : Z) : outcome Z := fit u32_MAX (a + b).
Definition u64_add `{Target} (a b : Z) : outcome Z := fit u64_MAX (a + b).
Definition u64_mul `{Target} (a b : Z) : outcome Z := fit u64_MAX (a * b).

Definition saturating_add (max a b : Z) : Z := (Z.min max (a + b))%Z.
Definition saturating_sub (a b : Z) : Z := (Z.max 0 (a - b))%Z.

Definition usize_add `{Target} (a b : nat) : outcome nat :=
  z ← fit usize_MAX (Z.of_nat a + Z.of_nat b); Ret (Z.to_nat z).

(** [a % b]: the remainder by zero panics in every profile. *)
Definition usize_rem (a b : nat) : outcome nat :=
  if decide (b = 0) then Panic DivByZero else Ret (a `mod` b).

(** The same on a [usize] that is too large to count out. *)
Definition usize_rem_Z (a : Z) (b : nat) : outcome nat :=
  if decide (b = 0) then Panic DivByZero else Ret (Z.to_nat (a mod Z.of_nat b)).

Definition debug_assert `{Target} {S} (b : bool) : M S unit :=
  lift (if debug_assertions && negb b then Panic AssertFailed else Ret tt).

(** [v[i]]: reads out of range panic. *)
Definition index {A} (l : list A) (i : nat) : outcome A :=
  match l !! i with Some a => Ret a | None => Panic IndexOutOfBounds end.

(** [v.remove(i)]: out of range panics. *)
Definition vec_remove {A} (l : list A) (i : nat) : outcome (A * list A) :=
  match l !! i with Some a => Ret (a, delete i l) | None => Panic IndexOutOfBounds end.

(** [iter().position(p)]. *)
Fixpoint position {A} (p : A → bool) (l : list A) : option nat :=
  match l with
  | [] => None
  | a :: l' => if p a then Some 0 else S <$> position p l'
  end.

(** ** Durations

    [std::time::Duration] holds [u64] seconds and nanoseconds below 10^9; its
    order and its conversions only depend on the total, which is what the
    model keeps. *)
Definition Duration := Z.
Definition NANOS_PER_SEC : Z := 1000000000.
Definition Duration_MAX : Duration := (u64_MAX * NANOS_PER_SEC + 999999999)%Z.
Definition from_secs (s : Z) : Duration := (s * NANOS_PER_SEC)%Z.
Definition from_millis (ms : Z) : Duration := (ms * 1000000)%Z.
Definition from_micros (us : Z) : Duration := (us * 1000)%Z.
Definition as_millis (d : Duration) : Z := (d / 1000000)%Z.
Definition as_micros (d : Duration) : Z := (d / 1000)%Z.
Definition Duration_wf (d : Duration) : Prop := (0 ≤ d ≤ Duration_MAX)%Z.

(** [u64::try_from(x).unwrap_or(d)] on a non-negative [u128]. *)
Definition try_from_or (max x d : Z) : Z := if (x <=? max)%Z then x else d.

(** ** Selecting the least element of a list, lowest index first *)
Section Argmin.
Context {K : Type} (ltb : K → K → bool).

Fixpoint scan_from (i best : nat) (kbest : K) (ks : list K) : nat :=
  match ks with
  | [] => best
  | k :: ks' =>
      if ltb k kbest then scan_from (S i) i k ks' else scan_from (S i) best kbest ks'
  end.

Definition argmin (ks : list K) : nat :=
  match ks with [] => 0 | k :: ks' => scan_from 1 0 k ks' end.

(** [i] holds a least key, and every earlier key is strictly larger. *)
Definition is_argmin (ks : list K) (i : nat) : Prop :=
  ∃ k, ks !! i = Some k ∧
    ∀ j kj, ks !! j = Some kj → ltb kj k = false ∧ (j < i → ltb k kj = true).

(** A strict weak order on the keys that satisfy [ok]. *)
Class StrictWeakOn (ok : K → Prop) : Prop := {
  swo_irrefl a : ok a → ltb a a = false;
  swo_asym a b : ok a → ok b → ltb a b = true → ltb b a = false;
  swo_neg_trans a b c : ok a → ok b → ok c →
    ltb a b = false → ltb b c = false → ltb a c = false
}.
End Argmin.

#[global] Arguments is_argmin {K} ltb ks i.
#[global] Arguments argmin {K} ltb ks.
#[global] Arguments scan_from {K} ltb i best kbest ks.
#[global] Arguments swo_irrefl {K ltb ok _} a.
#[global] Arguments swo_asym {K ltb ok _} a b.
#[global] Arguments swo_neg_trans {K ltb ok _} a b c.

#[global] Arguments fit {_} max z : simpl never.
#[global] Arguments usize_add {_} a b : simpl never.
#[global] Arguments usize_rem a b : simpl never.
#[global] Arguments usize_rem_Z a b : simpl never.
#[global] Arguments u32_add {_} a b : simpl never.
#[global] Arguments u64_add {_} a b : simpl never.
#[global] Arguments u64_mul {_} a b : simpl never.
#[global] Arguments index {A} l i : simpl never.
#[global] Arguments vec_remove {A} l i : simpl never.
#[global] Arguments u32_MAX : simpl never.
#[global] Arguments u64_MAX : simpl never.
#[global] Arguments Duration_MAX : simpl never.
#[global] Arguments Nat.ltb n m : simpl never.
#[global] Arguments Nat.leb n m : simpl never.
#[global] Arguments Nat.eqb n m : simpl never.

(** ** Automation *)

(** Unfold the monads' operations and compute as far as the scrutinees allow. *)
Ltac mrun :=
  repeat (unfold mbind, mret, M_bind, M_ret, outcome_bind, outcome_ret,
            get, put, modify, lift, zoom, debug_assert in *; cbn in *).

(** One case split on the scrutinee of the goal, or of a hypothesis. *)
Ltac msplit :=
  match goal with
  | |- context [match ?x with _ => _ end] => destruct x eqn:?; cbn in *
  | H : context [match ?x with _ => _ end] |- _ => destruct x eqn:?; cbn in *
  end.

(** Turn boolean comparisons on [Z] and [nat] into propositions. *)
Ltac breflect :=
  repeat match goal with
  | H : (_ <? _)%Z = true |- _ => apply Z.ltb_lt in H
  | H : (_ <? _)%Z = false |- _ => apply Z.ltb_ge in H
  | H : (_ <=? _)%Z = true |- _ => apply Z.leb_le in H
  | H : (_ <=? _)%Z = false |- _ => apply Z.leb_gt in H
  | H : (_ =? _)%Z = true |- _ => apply Z.eqb_eq in H
  | H : (_ =? _)%Z = false |- _ => apply Z.eqb_neq in H
  | H : (_ <? _)%nat = true |- _ => apply Nat.ltb_lt in H
  | H : (_ <? _)%nat = false |- _ => apply Nat.ltb_ge in H
  | H : (_ =? _)%nat = true |- _ => apply Nat.eqb_eq in H
  | H : (_ =? _)%nat = false |- _ => apply Nat.eqb_neq in H
  | |- (_ <? _)%Z = true => apply Z.ltb_lt
  | |- (_ <? _)%Z = false => apply Z.ltb_ge
  | |- (_ <=? _)%Z = true => apply Z.leb_le
  | |- (_ <=? _)%Z = false => apply Z.leb_gt
  end.

Create HintDb rota discriminated.
Create Rewrite HintDb rota.

(** A run is its result and its state: to evaluate a concrete run it is enough
    to evaluate its result. *)
Lemma run_eq {A S} (r : outcome A * S) o : r.1 = o → r = (o, r.2).
Proof. destruct r. by intros <-. Qed.

(** ** Lemmas on machine integers *)

Section MachineLemmas.
Context `{T : Target}.

Lemma usize_MAX_ge_u32 : (u32_MAX ≤ usize_MAX)%Z.
Proof. unfold usize_MAX. destruct pointer_width_ok as [-> | ->]; done. Qed.

Lemma usize_MAX_le_u64 : (usize_MAX ≤ u64_MAX)%Z.
Proof. unfold usize_MAX. destruct pointer_width_ok as [-> | ->]; done. Qed.

Lemma fit_small max z : (z ≤ max)%Z → fit max z = Ret z.
Proof. intros H. unfold fit. apply Z.leb_le in H. by rewrite H. Qed.

Lemma fit_overflow max z :
  overflow_checks = true → (max < z)%Z → fit max z = Panic Overflow.
Proof. intros Hc H. unfold fit. apply Z.leb_gt in H. by rewrite H, Hc. Qed.

(** Whatever the profile, a value that comes out is in range. *)
Lemma fit_range max z r : (0 ≤ max)%Z → (0 ≤ z)%Z → fit max z = Ret r → (0 ≤ r ≤ max)%Z.
Proof.
  unfold fit. intros. destruct (z <=? max)%Z eqn:?; breflect; simplify_eq; [lia|].
  destruct overflow_checks; simplify_eq.
  pose proof (Z.mod_pos_bound z (max + 1)). lia.
Qed.

Lemma fit_panic_or_ret max z : fit max z = Panic Overflow ∨ ∃ r, fit max z = Ret r.
Proof. unfold fit. repeat case_match; eauto. Qed.

Lemma usize_add_small a b :
  (Z.of_nat a + Z.of_nat b ≤ usize_MAX)%Z → usize_add a b = Ret (a + b).
Proof. intros H. unfold usize_add. rewrite fit_small by done. cbn. f_equal. lia. Qed.

Lemma usize_rem_pos a b : 0 < b → usize_rem a b = Ret (a `mod` b).
Proof. intros. unfold usize_rem. rewrite decide_False by lia. done. Qed.

Lemma usize_rem_lt a b i : usize_rem a b = Ret i → i < b.
Proof.
  unfold usize_rem. case_decide; intros; simplify_eq. by apply Nat.mod_upper_bound.
Qed.

Lemma usize_rem_Z_pos a b : 0 < b → usize_rem_Z a b = Ret (Z.to_nat (a mod Z.of_nat b)).
Proof. intros. unfold usize_rem_Z. by rewrite decide_False by lia. Qed.

Lemma usize_rem_Z_lt a b i : usize_rem_Z a b = Ret i → i < b.
Proof.
  unfold usize_rem_Z. case_decide; intros; simplify_eq.
  pose proof (Z.mod_pos_bound a (Z.of_nat b)). lia.
Qed.

Lemma index_lookup {A} (l : list A) i a : l !! i = Some a → index l i = Ret a.
Proof. intros H. unfold index. by rewrite H. Qed.

Lemma index_lt {A} (l : list A) i : i < length l → ∃ a, l !! i = Some a ∧ index l i = Ret a.
Proof.
  intros [a Ha]%lookup_lt_is_Some_2. exists a. split; [done|by apply index_lookup].
Qed.

Lemma vec_remove_lookup {A} (l : list A) i a :
  l !! i = Some a → vec_remove l i = Ret (a, delete i l).
Proof. intros H. unfold vec_remove. by rewrite H. Qed.
End MachineLemmas.

#[export] Hint Rewrite @fit_small @usize_add_small @usize_rem_pos using lia : rota.
#[export] Hint Resolve usize_MAX_ge_u32 usize_MAX_le_u64 : rota.

(** ** Lemmas on [position] *)

Lemma position_Some {A} (p : A → bool) l i :
  position p l = Some i →
  ∃ a, l !! i = Some a ∧ p a = true ∧ ∀ j b, j < i → l !! j = Some b → p b = false.
Proof.
  revert i. induction l as [|a l IH]; intros i; cbn; [done|].
  destruct (p a) eqn:Hp; [intros [= <-]; exists a; repeat split; [done|lia]|].
  destruct (position p l) as [k|]; cbn; [|done]. intros [= <-].
  destruct (IH k eq_refl) as (b & Hb & Hpb & Hlt). exists b.
  repeat split; [done..|]. intros [|j] c ?; cbn; [by intros [= <-]|].
  apply Hlt. lia.
Qed.

Lemma position_None {A} (p : A → bool) l :
  position p l = None ↔ ∀ a, a ∈ l → p a = false.
Proof.
  induction l as [|a l IH]; cbn; [split; [intros _ a; inversion 1|done]|].
  destruct (p a) eqn:Hp.
  - split; [done|]. intros H.
    rewrite (H a (list_elem_of_here _ _)) in Hp. done.
  - rewrite fmap_None, IH. split.
    + intros H b Hb. apply elem_of_cons in Hb as [->|?]; eauto.
    + intros H b Hb. apply H. by apply list_elem_of_further.
Qed.

(** ** Lemmas on [argmin] *)

Section ArgminLemmas.
Context {K : Type} {ltb : K → K → bool} {ok : K → Prop} `{!StrictWeakOn ltb ok}.

(** The loop invariant: [best] is the argmin of the prefix scanned so far. *)
Lemma scan_from_spec pre ks best kbest :
  Forall ok pre → Forall ok ks → pre !! best = Some kbest →
  (∀ j kj, pre !! j = Some kj → ltb kj kbest = false ∧ (j < best → ltb kbest kj = true)) →
  is_argmin ltb (pre ++ ks) (scan_from ltb (length pre) best kbest ks).
Proof.
  revert pre best kbest. induction ks as [|k ks IH]; intros pre best kbest Hpre Hks Hb Hinv.
  { rewrite app_nil_r. exists kbest. eauto. }
  apply Forall_cons in Hks as [Hk Hks].
  assert (Hkb : ok kbest) by exact (Forall_lookup_1 _ _ _ _ Hpre Hb).
  assert (Hpre' : Forall ok (pre ++ [k])) by (apply Forall_app_2; [done|by repeat constructor]).
  cbn. rewrite (cons_middle k pre ks), app_assoc.
  replace (S (length pre)) with (length (pre ++ [k])) by (rewrite length_app; cbn; lia).
  destruct (ltb k kbest) eqn:Hlt.
  - apply IH; [done..| |].
    + by rewrite lookup_app_r, Nat.sub_diag by lia.
    + intros j kj [Hj | [? Hj]]%lookup_app_Some.
      * assert (ok kj) by exact (Forall_lookup_1 _ _ _ _ Hpre Hj).
        destruct (Hinv j kj Hj) as [Hge _].
        assert (ltb k kj = true).
        { destruct (ltb k kj) eqn:?; [done|].
          rewrite (swo_neg_trans k kj kbest) in Hlt; done. }
        split; [by apply swo_asym|done].
      * apply list_lookup_singleton_Some in Hj as [? <-].
        split; [by apply swo_irrefl|lia].
  - apply IH; [done..| |].
    + by apply lookup_app_l_Some.
    + intros j kj [Hj | [? Hj]]%lookup_app_Some; [by apply Hinv|].
      apply list_lookup_singleton_Some in Hj as [? <-].
      apply lookup_lt_Some in Hb. split; [done|lia].
Qed.

Lemma argmin_spec ks : ks ≠ [] → Forall ok ks → is_argmin ltb ks (argmin ltb ks).
Proof.
  destruct ks as [|k ks]; [done|]. intros _ [Hk Hks]%Forall_cons. cbn.
  apply (scan_from_spec [k]); [by constructor|done..|].
  intros [|j] kj; [intros [= <-]|done]. split; [by apply swo_irrefl|lia].
Qed.

Lemma argmin_lt ks : ks ≠ [] → Forall ok ks → argmin ltb ks < length ks.
Proof.
  intros H1 H2. destruct (argmin_spec ks H1 H2) as (k & Hk & _).
  by eapply lookup_lt_Some.
Qed.

(** The specification determines the index. *)
Lemma is_argmin_unique ks i j :
  Forall ok ks → is_argmin ltb ks i → is_argmin ltb ks j → i = j.
Proof.
  intros Hok (k & Hk & Hi) (k' & Hk' & Hj).
  destruct (Hi j k' Hk') as [H1 H2], (Hj i k Hk) as [H3 H4].
  destruct (lt_eq_lt_dec i j) as [[?|?]|?]; [|done|].
  - rewrite H4 in H1 by done. done.
  - rewrite H2 in H3 by done. done.
Qed.
End ArgminLemmas.

#[global] Instance Zltb_swo : StrictWeakOn Z.ltb (λ _, True).
Proof. split; intros; breflect; lia. Qed.

(** ** Sums over a list *)

Lemma sum_insert {A} (f : A → nat) (l : list A) i x y :
  l !! i = Some x → sum_list (f <$> <[i := y]> l) + f x = sum_list (f <$> l) + f y.
Proof.
  revert i. induction l as [|z l IH]; intros [|i] Hi; cbn in *; try done.
  - injection Hi as ->. unfold lookup, insert. cbn. lia.
  - specialize (IH i Hi). unfold lookup, insert in *. cbn in *. lia.
Qed.
