(* ===== verification/Errors.v ===== *)
(** * Errors of the load balancer

    The error enum of [src/src/errors/] with its convenience constructors and
    its [Display] texts.  [std::io::Error] is represented by the text it
    displays, the only part of it the crate reads. *)

From stdpp Require Import base list strings pretty.
From S2P Require Import Prelude.

Open Scope rota_scope.

(** ** Data *)

Record BackendError := { BackendError_0 : string }.
Record FactoryError := { FactoryError_0 : string }.
Record InvalidAddress := { addr : string; reason : string }.
Record IoError := { IoError_0 : string }.
Record NoBackends := {}.

Module Error.
Inductive t :=
| InvalidAddress (e : InvalidAddress)
| NoBackends (e : NoBackends)
| Factory (e : FactoryError)
| Backend (e : BackendError)
| Io (e : IoError).

(** ** Constructors *)

Definition backend (msg : string) : t := Backend {| BackendError_0 := msg |}.
Definition factory (msg : string) : t := Factory {| FactoryError_0 := msg |}.
Definition no_backends : t := NoBackends (Build_NoBackends).
Definition invalid_address (a r : string) : t :=
  InvalidAddress {| addr := a; reason := r |}.
Definition from_io (e : string) : t := Io {| IoError_0 := e |}.
End Error.

#[global] Instance BackendError_eq_dec : EqDecision BackendError.
Proof. solve_decision. Defined.
#[global] Instance FactoryError_eq_dec : EqDecision FactoryError.
Proof. solve_decision. Defined.
#[global] Instance InvalidAddress_eq_dec : EqDecision InvalidAddress.
Proof. solve_decision. Defined.
#[global] Instance IoError_eq_dec : EqDecision IoError.
Proof. solve_decision. Defined.
#[global] Instance NoBackends_eq_dec : EqDecision NoBackends.
Proof. solve_decision. Defined.
#[global] Instance Error_eq_dec : EqDecision Error.t.
Proof. solve_decision. Defined.

(** ** Display *)

(** One character of [{:?}] on a string: Rust escapes the quote, the
    backslash and the ASCII controls.  Bytes of non-ASCII characters are left
    as they are, as Rust does for printable ones. *)
Definition hex_digit (n : nat) : string :=
  default "" (["0"; "1"; "2"; "3"; "4"; "5"; "6"; "7"; "8"; "9";
               "a"; "b"; "c"; "d"; "e"; "f"] !! n).

Definition debug_char (c : Ascii.ascii) : string :=
  let n := Ascii.nat_of_ascii c in
  if decide (n = 0) then "\0"
  else if decide (n = 9) then "\t"
  else if decide (n = 10) then "\n"
  else if decide (n = 13) then "\r"
  else if decide (n = 34 ∨ n = 92) then String (Ascii.ascii_of_nat 92) (String c EmptyString)
  else if decide (n < 32 ∨ n = 127) then
    "\u{" +:+ (if decide (n < 16) then hex_digit n else hex_digit (n / 16) +:+ hex_digit (n `mod` 16)) +:+ "}"
  else String c EmptyString.

Fixpoint debug_chars (s : string) : string :=
  match s with
  | EmptyString => EmptyString
  | String c s' => debug_char c +:+ debug_chars s'
  end.

Definition quote : string := String (Ascii.ascii_of_nat 34) EmptyString.
Definition debug_str (s : string) : string := quote +:+ debug_chars s +:+ quote.

Definition BackendError_fmt (e : BackendError) : string :=
  "backend operation failed: " +:+ BackendError_0 e.
Definition FactoryError_fmt (e : FactoryError) : string :=
  "backend factory failed: " +:+ FactoryError_0 e.
Definition InvalidAddress_fmt (e : InvalidAddress) : string :=
  "invalid dial address " +:+ debug_str (addr e) +:+ ": " +:+ reason e.
Definition IoError_fmt (e : IoError) : string := "i/o error: " +:+ IoError_0 e.
Definition NoBackends_fmt (e : NoBackends) : string :=
  "no backends available — pool is empty".

(** [#[error(transparent)]]: the variant's own text. *)
Definition Error_fmt (e : Error.t) : string :=
  match e with
  | Error.InvalidAddress e => InvalidAddress_fmt e
  | Error.NoBackends e => NoBackends_fmt e
  | Error.Factory e => FactoryError_fmt e
  | Error.Backend e => BackendError_fmt e
  | Error.Io e => IoError_fmt e
  end.
