(* ===== verification/Constants.v ===== *)
(** * Constants of the crate ([src/src/constants/]) *)

From stdpp Require Import base list numbers strings.
From S2P Require Import Prelude.

Open Scope rota_scope.
Local Open Scope Z_scope.

(** ** General, health and retry constants *)

Definition DEFAULT_DIAL_TIMEOUT : Duration := from_secs 10.
Definition MAX_BACKENDS : Z := 10000.
Definition MIN_BACKENDS : Z := 1.
Definition DEFAULT_SRV_PREFIX : string := "_http._tcp".

Definition DEFAULT_HEALTH_CHECK_INTERVAL : Duration := from_secs 30.
Definition DEFAULT_HEALTH_CHECK_TIMEOUT : Duration := from_secs 5.
Definition DEFAULT_UNHEALTHY_THRESHOLD : Z := 3.
Definition DEFAULT_HEALTHY_THRESHOLD : Z := 2.

Definition DEFAULT_MAX_RETRY_DELAY : Duration := from_secs 30.

(** ** Strategy constants *)

Definition MS_PER_SECOND : Z := 1000.
Definition MIN_WEIGHT : Z := 1.
Definition ERROR_PENALTY_US : Z := 500000.
Definition LOAD_PENALTY_US : Z := 10000.
Definition DEFAULT_RTT_US : Z := 1000000.

Definition STRATEGY_NAMES : list string :=
  ["round_robin"; "random"; "lowest_rtt"; "least_connections"; "hash_by_addr";
   "weighted_round_robin"; "failover"; "health_weighted"; "sticky"].

(** [STRATEGY_NAMES[i]]; the strategies only use indices in range. *)
Definition STRATEGY_NAME (i : nat) : string := default "" (STRATEGY_NAMES !! i).

(** [calculate_weight]: the out-of-range milliseconds count as 0, then 1. *)
Definition calculate_weight (rtt : Duration) : Z :=
  let ms := Z.max (try_from_or u64_MAX (as_millis rtt) 0) 1 in
  try_from_or u32_MAX (Z.max (MS_PER_SECOND / ms) MIN_WEIGHT) MIN_WEIGHT.
