(* ===== verification/Text.v ===== *)
(** * UTF-8 text

    What the sources use of std's UTF-8 validation: whether a C string is valid
    ([CStr::to_str] in [src/src/ffi/api.rs]) and, for the etcd source of
    [src/src/utils/discovery.rs], [String::from_utf8] with the error it reports:
    where the valid prefix ends and how long the bad sequence is. *)

From Stdlib Require Import Ascii.
From stdpp Require Import base tactics list numbers strings pretty.
From S2P Require Import Prelude.

Open Scope rota_scope.

Definition byte_in (lo hi : nat) (a : ascii) : bool :=
  (lo <=? nat_of_ascii a)%nat && (nat_of_ascii a <=? hi)%nat.
Definition cont : ascii → bool := byte_in 128 191.

(** The second byte of a three or four byte sequence, by its first byte. *)
Definition second3 (a b : ascii) : bool :=
  if byte_in 224 224 a then byte_in 160 191 b
  else if byte_in 237 237 a then byte_in 128 159 b else cont b.
Definition second4 (a b : ascii) : bool :=
  if byte_in 240 240 a then byte_in 144 191 b
  else if byte_in 244 244 a then byte_in 128 143 b else cont b.

(** The well-formed byte sequences of the Unicode standard. *)
Fixpoint utf8_valid (s : string) : bool :=
  match s with
  | EmptyString => true
  | String a s1 =>
      if byte_in 0 127 a then utf8_valid s1
      else match s1 with
      | EmptyString => false
      | String b s2 =>
          if byte_in 194 223 a then cont b && utf8_valid s2
          else match s2 with
          | EmptyString => false
          | String c s3 =>
              if byte_in 224 239 a then second3 a b && cont c && utf8_valid s3
              else match s3 with
              | EmptyString => false
              | String d s4 =>
                  byte_in 240 244 a && second4 a b && cont c && cont d && utf8_valid s4
              end
          end
      end
  end.

(** ** [String::from_utf8] *)

Record Utf8Error := { valid_up_to : nat; error_len : option nat }.

(** The validation loop: [i] is the offset of the character being read. *)
Fixpoint utf8_check (i : nat) (s : string) : option Utf8Error :=
  let err n := Some {| valid_up_to := i; error_len := n |} in
  match s with
  | EmptyString => None
  | String a s1 =>
      if byte_in 0 127 a then utf8_check (i + 1) s1
      else if byte_in 194 223 a then
        match s1 with
        | EmptyString => err None
        | String b s2 => if cont b then utf8_check (i + 2) s2 else err (Some 1)
        end
      else if byte_in 224 239 a then
        match s1 with
        | EmptyString => err None
        | String b s2 =>
            if negb (second3 a b) then err (Some 1)
            else match s2 with
            | EmptyString => err None
            | String c s3 => if cont c then utf8_check (i + 3) s3 else err (Some 2)
            end
        end
      else if byte_in 240 244 a then
        match s1 with
        | EmptyString => err None
        | String b s2 =>
            if negb (second4 a b) then err (Some 1)
            else match s2 with
            | EmptyString => err None
            | String c s3 =>
                if negb (cont c) then err (Some 2)
                else match s3 with
                | EmptyString => err None
                | String d s4 => if cont d then utf8_check (i + 4) s4 else err (Some 3)
                end
            end
        end
      else err (Some 1)
  end.

Definition from_utf8 (bytes : string) : Result string Utf8Error :=
  match utf8_check 0 bytes with None => Ok bytes | Some e => Err e end.

(** [Display] of the error. *)
Definition utf8_error_text (e : Utf8Error) : string :=
  match error_len e with
  | Some n => "invalid utf-8 sequence of " +:+ pretty n +:+ " bytes from index " +:+
              pretty (valid_up_to e)
  | None => "incomplete utf-8 byte sequence from index " +:+ pretty (valid_up_to e)
  end.

(** ** Lemmas *)

(** Induction on the length of a string. *)
Lemma string_length_ind (P : string → Prop) :
  (∀ s, (∀ s', String.length s' < String.length s → P s') → P s) → ∀ s, P s.
Proof.
  intros IH s. apply IH. induction s as [|a s IHs]; cbn; intros s' Hs'; [lia|].
  apply IH. intros s'' ?. apply IHs. lia.
Qed.

(** The loop accepts exactly the well-formed strings. *)
Lemma utf8_check_None i s : utf8_check i s = None ↔ utf8_valid s = true.
Proof.
  revert i. induction s as [s IH] using string_length_ind. intros i.
  destruct s as [|a s1]; cbn; [done|].
  destruct (byte_in 0 127 a) eqn:H1; [apply IH; cbn; lia|].
  destruct s1 as [|b s2]; [by repeat case_match|].
  destruct (byte_in 194 223 a) eqn:H2; [destruct (cont b); [apply IH; cbn; lia|done]|].
  destruct s2 as [|c s3].
  { by repeat case_match. }
  destruct (byte_in 224 239 a) eqn:H3.
  { destruct (second3 a b), (cont c); cbn; [apply IH; cbn; lia|done..]. }
  destruct s3 as [|d s4]; [by repeat case_match|].
  destruct (byte_in 240 244 a), (second4 a b), (cont c), (cont d); cbn;
    [apply IH; cbn; lia|done..].
Qed.

Lemma from_utf8_ok bytes s : from_utf8 bytes = Ok s ↔ s = bytes ∧ utf8_valid bytes = true.
Proof.
  unfold from_utf8. rewrite <-(utf8_check_None 0).
  destruct (utf8_check 0 bytes); split; [done|by intros []|by intros [= ->]|by intros [-> _]].
Qed.

(** Bytes of the ASCII range need no check. *)
Fixpoint is_ascii (s : string) : bool :=
  match s with EmptyString => true | String a s' => byte_in 0 127 a && is_ascii s' end.

Lemma ascii_utf8_valid s : is_ascii s = true → utf8_valid s = true.
Proof. induction s as [|a s IH]; cbn; [done|]. by intros [-> ?%IH]%andb_prop. Qed.

(** The error texts, with the offsets and lengths std documents. *)
Example utf8_error_texts :
  (λ s, utf8_error_text <$> utf8_check 0 s) <$>
    ["ok"; String "a" (String (ascii_of_nat 255) "b");
     String "a" (String (ascii_of_nat 226) (String (ascii_of_nat 130) ""));
     String (ascii_of_nat 240) (String (ascii_of_nat 159) (String "a" "bc"))] =
  [None; Some "invalid utf-8 sequence of 1 bytes from index 1";
   Some "incomplete utf-8 byte sequence from index 1";
   Some "invalid utf-8 sequence of 2 bytes from index 0"].
Proof. vm_compute. reflexivity. Qed.
