(* ===== verification/Strategy.v ===== *)
(** * The strategy interface ([src/src/traits/strategy.rs])

    Per-backend metrics, the view a strategy picks from, the [BalanceStrategy]
    trait as a class, boxed strategies, and the contract ([StrategyLaws]) the
    load balancer relies on and every built-in strategy discharges. *)

From stdpp Require Import base tactics list numbers strings.
From S2P Require Import Prelude.

Open Scope rota_scope.

(** ** Data *)

Record TunnelMetrics := {
  rtt : option Duration;
  active_connections : Z;
  recent_errors : Z;
  total_dials : Z;
  total_errors : Z
}.

#[global] Instance TunnelMetrics_eq_dec : EqDecision TunnelMetrics.
Proof. solve_decision. Defined.

(** [TunnelMetrics::default()]. *)
Definition TunnelMetrics_default : TunnelMetrics :=
  {| rtt := None; active_connections := 0; recent_errors := 0;
     total_dials := 0; total_errors := 0 |}.

Definition set_active_connections (n : Z) (m : TunnelMetrics) : TunnelMetrics :=
  {| rtt := rtt m; active_connections := n; recent_errors := recent_errors m;
     total_dials := total_dials m; total_errors := total_errors m |}.
Definition set_recent_errors (n : Z) (m : TunnelMetrics) : TunnelMetrics :=
  {| rtt := rtt m; active_connections := active_connections m; recent_errors := n;
     total_dials := total_dials m; total_errors := total_errors m |}.
Definition set_total_dials (n : Z) (m : TunnelMetrics) : TunnelMetrics :=
  {| rtt := rtt m; active_connections := active_connections m;
     recent_errors := recent_errors m; total_dials := n; total_errors := total_errors m |}.
Definition set_total_errors (n : Z) (m : TunnelMetrics) : TunnelMetrics :=
  {| rtt := rtt m; active_connections := active_connections m;
     recent_errors := recent_errors m; total_dials := total_dials m; total_errors := n |}.

Record PoolView := { dial_addr : string; metrics : list TunnelMetrics }.

Definition PoolView_len (v : PoolView) : nat := length (metrics v).
Definition PoolView_is_empty (v : PoolView) : bool := bool_decide (metrics v = []).

(** ** The trait *)

(** The thread-local random generator, as the answers [gen_range(0..n)] gives
    during one call. *)
Definition Rng := nat → nat.

Class BalanceStrategy (S : Type) := {
  pick : Rng → PoolView → M S nat;
  name : S → string;
  report_error : nat → M S unit;
  report_success : nat → M S unit
}.

(** The trait's default for [report_error] and [report_success]. *)
Definition report_noop {S} (idx : nat) : M S unit := mret tt.

(** [Box<dyn BalanceStrategy>]: a strategy of some type, with its state. *)
Record dyn_strategy := Dyn {
  dyn_type : Type;
  dyn_impl : BalanceStrategy dyn_type;
  dyn_state : dyn_type
}.
Arguments Dyn {dyn_type dyn_impl} dyn_state : rename.

(** Call a method of the boxed strategy and keep the box. *)
Definition dyn_call {A} (m : ∀ S, BalanceStrategy S → M S A) : M dyn_strategy A :=
  λ d, let '(o, s) := m (dyn_type d) (dyn_impl d) (dyn_state d) in
       (o, @Dyn (dyn_type d) (dyn_impl d) s).

(** The blanket impl: a box forwards every method to what it holds. *)
#[global] Instance dyn_BalanceStrategy : BalanceStrategy dyn_strategy := {|
  pick ρ v := dyn_call (λ S _, pick ρ v);
  name d := @name _ (dyn_impl d) (dyn_state d);
  report_error i := dyn_call (λ S _, report_error i);
  report_success i := dyn_call (λ S _, report_success i)
|}.

(** ** Running a strategy *)

(** A sequence of picks, one per view, each with its random draws. *)
Fixpoint pick_many {S : Type} `{!BalanceStrategy S} (calls : list (Rng * PoolView)) : M S (list nat) :=
  match calls with
  | [] => mret []
  | (ρ, v) :: rest => i ← pick ρ v; js ← pick_many rest; mret (i :: js)
  end.

(** Dials that all fail: each pick is followed by its error report. *)
Fixpoint pick_failing {S : Type} `{!BalanceStrategy S} (calls : list (Rng * PoolView)) : M S (list nat) :=
  match calls with
  | [] => mret []
  | (ρ, v) :: rest =>
      i ← pick ρ v; report_error i;; js ← pick_failing rest; mret (i :: js)
  end.

(** Views for evaluation: the tests' [make_metrics]. *)
Definition make_metrics (rtts_ms : list (option Z)) (counts : list Z) : list TunnelMetrics :=
  imap (λ i r, {| rtt := from_millis <$> r; active_connections := default 0%Z (counts !! i);
                  recent_errors := 0; total_dials := 0; total_errors := 0 |}) rtts_ms.
Definition test_view (rtts_ms : list (option Z)) (counts : list Z) : PoolView :=
  {| dial_addr := "h"; metrics := make_metrics rtts_ms counts |}.

(** ** Well-formed views *)

Definition opt_wf (P : Z → Prop) (o : option Z) : Prop :=
  match o with None => True | Some z => P z end.

(** Every field of a metrics record is in the range of its type. *)
Definition TunnelMetrics_wf (m : TunnelMetrics) : Prop :=
  opt_wf Duration_wf (rtt m) ∧
  (0 ≤ active_connections m ≤ u32_MAX)%Z ∧ (0 ≤ recent_errors m ≤ u32_MAX)%Z ∧
  (0 ≤ total_dials m ≤ u64_MAX)%Z ∧ (0 ≤ total_errors m ≤ u64_MAX)%Z.

(** The generator's documented contract: a draw from a non-empty range is in it. *)
Definition rng_ok (ρ : Rng) : Prop := ∀ n, 0 < n → ρ n < n.

(** A view of a pool the machine can hold: well-typed metrics, and fewer
    entries than [usize] can count. *)
Definition view_wf `{Target} (v : PoolView) : Prop :=
  Forall TunnelMetrics_wf (metrics v) ∧ (Z.of_nat (PoolView_len v) < usize_MAX)%Z.

(** Round-trip times below 2^63 microseconds (292 thousand years): what
    [HealthWeighted] needs for its score to fit a [u64]. *)
Definition rtts_sane (v : PoolView) : Prop :=
  Forall (λ m, opt_wf (λ d, (as_micros d < 2 ^ 63)%Z) (rtt m)) (metrics v).

(** Concrete views are well formed by evaluation. *)
Ltac solve_wf :=
  repeat first [apply Forall_nil_2 | apply Forall_cons_2 | split | progress cbn];
  unfold Duration_wf; vm_compute; try done; intuition discriminate.

(** ** The contract *)

(** What the load balancer needs of a strategy.  [inv] is kept by every call,
    even by one that panics, and under it a pick from a non-empty pool that
    returns is in range, in both build profiles.  [safe k] is the budget
    reading: from a [safe] state, [k] more picks from sane views return
    without panicking. *)
Class StrategyLaws `{Target} (S : Type) `{!BalanceStrategy S} := {
  inv : S → Prop;
  safe : Z → S → Prop;
  safe_inv k s : safe k s → inv s;
  safe_mono k k' s : (k' ≤ k)%Z → safe k s → safe k' s;
  pick_inv ρ v s : inv s → inv (pick ρ v s).2;
  pick_range ρ v s i s' : inv s → rng_ok ρ → 0 < PoolView_len v →
    pick ρ v s = (Ret i, s') → i < PoolView_len v;
  pick_safe k ρ v s : (0 ≤ k)%Z → safe (k + 1) s → rng_ok ρ → view_wf v → rtts_sane v →
    0 < PoolView_len v → ∃ i s', pick ρ v s = (Ret i, s') ∧ safe k s';
  report_error_inv i s : inv s → inv (report_error i s).2;
  report_error_safe k i s : safe k s → (Z.of_nat i < usize_MAX)%Z →
    ∃ s', report_error i s = (Ret tt, s') ∧ safe k s';
  report_success_inv i s : inv s → inv (report_success i s).2;
  report_success_safe k i s : safe k s →
    ∃ s', report_success i s = (Ret tt, s') ∧ safe k s'
}.

(** A boxed strategy keeps the contract when what it holds does. *)
Definition dyn_inv `{Target} (d : dyn_strategy) : Prop :=
  ∃ L : @StrategyLaws _ (dyn_type d) (dyn_impl d), @inv _ _ _ L (dyn_state d).
Definition dyn_safe `{Target} (k : Z) (d : dyn_strategy) : Prop :=
  ∃ L : @StrategyLaws _ (dyn_type d) (dyn_impl d), @safe _ _ _ L k (dyn_state d).

#[global] Instance dyn_StrategyLaws `{Target} : StrategyLaws dyn_strategy.
Proof.
  refine {| inv := dyn_inv; safe := dyn_safe |}; cbn; unfold dyn_call.
  - intros k d [L Hs]. exists L. by eapply safe_inv.
  - intros k k' d Hk [L Hs]. exists L. by eapply safe_mono.
  - intros ρ v [S I s] [L Hi]; cbn in *. destruct (pick ρ v s) as [o s'] eqn:E.
    exists L. cbn. change s' with (o, s').2. rewrite <-E. by apply pick_inv.
  - intros ρ v [S I s] i d' [L Hi] Hρ Hv; cbn in *. destruct (pick ρ v s) as [o s'] eqn:E.
    intros [= -> _]. by eapply (pick_range (StrategyLaws := L)).
  - intros k ρ v [S I s] Hk [L Hs] Hρ Hv Hr Hl; cbn in *.
    edestruct (pick_safe (StrategyLaws := L)) as (i & s' & E & Hs'); [done..|].
    rewrite E. do 2 eexists. split; [done|]. by exists L.
  - intros i [S I s] [L Hi]; cbn in *. destruct (report_error i s) as [o s'] eqn:E.
    exists L. cbn. change s' with (o, s').2. rewrite <-E. by apply report_error_inv.
  - intros k i [S I s] [L Hs] Hi; cbn in *.
    edestruct (report_error_safe (StrategyLaws := L)) as (s' & E & Hs'); [done..|].
    rewrite E. eexists. split; [done|]. by exists L.
  - intros i [S I s] [L Hi]; cbn in *. destruct (report_success i s) as [o s'] eqn:E.
    exists L. cbn. change s' with (o, s').2. rewrite <-E. by apply report_success_inv.
  - intros k i [S I s] [L Hs]; cbn in *.
    edestruct (report_success_safe (StrategyLaws := L)) as (s' & E & Hs'); [done..|].
    rewrite E. eexists. split; [done|]. by exists L.
Defined.

(** Clients reason about boxes through the contract. *)
#[global] Arguments dyn_BalanceStrategy : simpl never.

(** ** Lemmas for clients of the contract *)

Definition sane_call `{Target} (c : Rng * PoolView) : Prop :=
  rng_ok c.1 ∧ view_wf c.2 ∧ rtts_sane c.2 ∧ 0 < PoolView_len c.2.

Section Client.
Context `{Target} {S : Type} `{!BalanceStrategy S} `{!StrategyLaws S}.

(** A pick from a safe state, with everything the contract says of it. *)
Lemma pick_ok k ρ v s :
  (0 ≤ k)%Z → safe (k + 1) s → sane_call (ρ, v) →
  ∃ i s', pick ρ v s = (Ret i, s') ∧ i < PoolView_len v ∧ safe k s'.
Proof.
  intros Hk Hs (Hρ & Hv & Hr & Hl); cbn in *.
  destruct (pick_safe k ρ v s Hk Hs Hρ Hv Hr Hl) as (i & s' & E & Hs').
  exists i, s'. repeat split; [done| |done].
  eapply pick_range; [exact (safe_inv _ _ Hs)|done..|exact E].
Qed.

Lemma pick_many_safe calls s :
  Forall sane_call calls → safe (Z.of_nat (length calls)) s →
  ∃ js s', pick_many calls s = (Ret js, s') ∧ Forall2 (λ i c, i < PoolView_len c.2) js calls.
Proof.
  intros Hc. revert s. induction Hc as [|[ρ v] calls Hv _ IH]; intros s Hs.
  { exists [], s. by repeat constructor. }
  cbn [length] in Hs. rewrite Nat2Z.inj_succ, <-Z.add_1_r in Hs.
  destruct (pick_ok _ ρ v s (Nat2Z.is_nonneg _) Hs Hv) as (i & s1 & E & Hi & Hs1).
  destruct (IH s1 Hs1) as (js & s' & E' & Hjs). cbn. mrun. rewrite E, E'.
  exists (i :: js), s'. split; [done|]. by constructor.
Qed.
End Client.
