(* ===== verification/Strategies.v ===== *)
(** * Strategies that rotate, pin or draw

    [RoundRobin], [Random], [HashByAddr], [Failover], [LowestRtt] and [Sticky]
    ([src/src/strategies/]): each type with its state, its methods, its
    instance of the trait and its instance of the contract. *)

From stdpp Require Import base tactics list numbers strings.
From S2P Require Import Prelude Constants Strategy.

Open Scope rota_scope.

(** [DefaultHasher]: std leaves the algorithm of this 64-bit hash open, so it
    is a parameter. *)
Class Hasher := {
  hash_str : string → Z;
  hash_str_u64 s : (0 ≤ hash_str s ≤ u64_MAX)%Z
}.

(** ** RoundRobin *)

Module RoundRobin.
Record t := { next : nat }.

Definition new : t := {| next := 0 |}.

Definition pick `{Target} (ρ : Rng) (view : PoolView) : M t nat :=
  let len := PoolView_len view in
  debug_assert (0 <? len)%nat;;
  self ← get;
  idx ← lift (usize_rem (next self) len);
  next' ← lift (usize_add idx 1);
  put {| next := next' |};;
  mret idx.

Definition name (self : t) : string := STRATEGY_NAME 0.
End RoundRobin.

#[global] Instance RoundRobin_strategy `{Target} : BalanceStrategy RoundRobin.t := {|
  pick := RoundRobin.pick;
  name := RoundRobin.name;
  report_error := report_noop;
  report_success := report_noop
|}.

(** ** Random *)

Module Random.
Record t := {}.

Definition new : t := Build_t.

Definition pick (ρ : Rng) (view : PoolView) : M t nat :=
  let len := PoolView_len view in
  lift (if decide (len = 0) then Panic EmptyRange else Ret (ρ len)).

Definition name (self : t) : string := STRATEGY_NAME 1.
End Random.

#[global] Instance Random_strategy : BalanceStrategy Random.t := {|
  pick := Random.pick;
  name := Random.name;
  report_error := report_noop;
  report_success := report_noop
|}.

(** ** HashByAddr *)

Module HashByAddr.
Record t := {}.

Definition new : t := Build_t.

Definition pick `{Target, Hasher} (ρ : Rng) (view : PoolView) : M t nat :=
  let hash := try_from_or usize_MAX (hash_str (dial_addr view)) 0 in
  lift (usize_rem_Z hash (PoolView_len view)).

Definition name (self : t) : string := STRATEGY_NAME 4.
End HashByAddr.

#[global] Instance HashByAddr_strategy `{Target, Hasher} : BalanceStrategy HashByAddr.t := {|
  pick := HashByAddr.pick;
  name := HashByAddr.name;
  report_error := report_noop;
  report_success := report_noop
|}.

(** ** Failover *)

Module Failover.
Record t := { primary : nat; len : nat }.

Definition new : t := {| primary := 0; len := 0 |}.
Definition with_backend_count (backend_count : nat) : t :=
  {| primary := 0; len := backend_count |}.

Definition pick (ρ : Rng) (view : PoolView) : M t nat :=
  modify (λ self, {| primary := primary self; len := PoolView_len view |});;
  self ← get;
  if decide (len self = 0) then mret 0
  else lift (usize_rem (primary self) (len self)).

Definition report_error `{Target} (idx : nat) : M t unit :=
  self ← get;
  n ← (if decide (0 < len self) then mret (len self) else lift (usize_add idx 1));
  if decide (idx = primary self) then
    succ ← lift (usize_add idx 1);
    p ← lift (usize_rem succ n);
    put {| primary := p; len := len self |}
  else mret tt.

Definition name (self : t) : string := STRATEGY_NAME 6.
End Failover.

#[global] Instance Failover_strategy `{Target} : BalanceStrategy Failover.t := {|
  pick := Failover.pick;
  name := Failover.name;
  report_error := Failover.report_error;
  report_success := report_noop
|}.

(** ** LowestRtt *)

Module LowestRtt.
Record t := {}.

Definition new : t := Build_t.

(** The loop of [find_lowest_rtt]: [i] is the index of the head of [ms]. *)
Fixpoint find_lowest_rtt_loop (i best : nat) (best_rtt : Duration)
    (ms : list TunnelMetrics) : nat :=
  match ms with
  | [] => best
  | m :: ms' =>
      match rtt m with
      | Some r =>
          if (r <? best_rtt)%Z then find_lowest_rtt_loop (S i) i r ms'
          else find_lowest_rtt_loop (S i) best best_rtt ms'
      | None => find_lowest_rtt_loop (S i) best best_rtt ms'
      end
  end.

Definition find_lowest_rtt (ms : list TunnelMetrics) : nat :=
  find_lowest_rtt_loop 0 0 Duration_MAX ms.

Definition pick (ρ : Rng) (view : PoolView) : M t nat :=
  mret (find_lowest_rtt (metrics view)).

Definition name (self : t) : string := STRATEGY_NAME 2.
End LowestRtt.

#[global] Instance LowestRtt_strategy : BalanceStrategy LowestRtt.t := {|
  pick := LowestRtt.pick;
  name := LowestRtt.name;
  report_error := report_noop;
  report_success := report_noop
|}.

(** ** Sticky *)

Module Sticky.
Record t := { pinned : option nat }.

Definition new : t := {| pinned := None |}.

(** [sticky.rs] carries its own copy of the function of [lowest_rtt.rs]. *)
Definition find_lowest_rtt (ms : list TunnelMetrics) : nat :=
  LowestRtt.find_lowest_rtt_loop 0 0 Duration_MAX ms.

Definition pick (ρ : Rng) (view : PoolView) : M t nat :=
  self ← get;
  match pinned self with
  | Some idx => mret (idx `min` (PoolView_len view - 1))
  | None =>
      let best := find_lowest_rtt (metrics view) in
      put {| pinned := Some best |};;
      mret best
  end.

Definition report_error (idx : nat) : M t unit := mret tt.

Definition name (self : t) : string := STRATEGY_NAME 8.
End Sticky.

#[global] Instance Sticky_strategy : BalanceStrategy Sticky.t := {|
  pick := Sticky.pick;
  name := Sticky.name;
  report_error := Sticky.report_error;
  report_success := report_noop
|}.

(** ** Lemmas: the lowest-RTT scan *)

(** The RTT a scan compares: an unmeasured backend counts as the maximum. *)
Definition rtt_key (m : TunnelMetrics) : Z := default Duration_MAX (rtt m).

Lemma rtt_key_le m : TunnelMetrics_wf m → (rtt_key m ≤ Duration_MAX)%Z.
Proof. intros [Hr _]. unfold rtt_key. destruct (rtt m); cbn in *; [apply Hr|done]. Qed.

Lemma find_lowest_rtt_loop_lt ms i best b n :
  best < n → i + length ms ≤ n → LowestRtt.find_lowest_rtt_loop i best b ms < n.
Proof.
  revert i best b. induction ms as [|m ms IH]; intros i best b; cbn; [done|].
  intros. repeat case_match; apply IH; lia.
Qed.

Lemma find_lowest_rtt_lt ms : 0 < length ms → LowestRtt.find_lowest_rtt ms < length ms.
Proof. intros. by apply find_lowest_rtt_loop_lt. Qed.

Lemma find_lowest_rtt_loop_scan ms i best b :
  (b ≤ Duration_MAX)%Z →
  LowestRtt.find_lowest_rtt_loop i best b ms = scan_from Z.ltb i best b (rtt_key <$> ms).
Proof.
  revert i best b. induction ms as [|m ms IH]; intros i best b Hb; cbn; [done|].
  change (rtt_key m) with (default Duration_MAX (rtt m)). destruct (rtt m) as [r|]; cbn.
  - destruct (r <? b)%Z eqn:?; breflect; apply IH; lia.
  - replace (Duration_MAX <? b)%Z with false by (symmetry; breflect; lia). by apply IH.
Qed.

Lemma find_lowest_rtt_argmin ms :
  Forall TunnelMetrics_wf ms →
  LowestRtt.find_lowest_rtt ms = argmin Z.ltb (rtt_key <$> ms).
Proof.
  intros Hwf. unfold LowestRtt.find_lowest_rtt. rewrite find_lowest_rtt_loop_scan by done.
  destruct Hwf as [|m ms Hm _]; cbn; [done|]. apply rtt_key_le in Hm.
  destruct (rtt_key m <? Duration_MAX)%Z eqn:?; breflect; [done|].
  by replace (rtt_key m) with Duration_MAX by lia.
Qed.

(** ** The contract *)

Ltac law_noop := solve [intros; cbn; unfold report_noop; mrun; eauto].

#[global] Instance RoundRobin_laws `{Target} : StrategyLaws RoundRobin.t.
Proof.
  refine {| inv _ := True; safe _ _ := True |}; try law_noop; cbn.
  - intros ρ v s i s' _ _ Hlen E. unfold RoundRobin.pick in E. mrun.
    repeat case_match; simplify_eq/=. by eapply usize_rem_lt.
  - intros k ρ v s _ _ _ [_ Hlen] _ Hpos. unfold RoundRobin.pick. mrun.
    rewrite usize_rem_pos by done.
    assert (RoundRobin.next s `mod` PoolView_len v < PoolView_len v)
      by (apply Nat.mod_upper_bound; lia).
    rewrite usize_add_small by lia.
    apply Nat.ltb_lt in Hpos. rewrite Hpos, andb_false_r. eauto.
Defined.

#[global] Instance Random_laws `{Target} : StrategyLaws Random.t.
Proof.
  refine {| inv _ := True; safe _ _ := True |}; try law_noop; cbn.
  - intros ρ v s i s' _ Hρ Hlen E. unfold Random.pick in E. mrun.
    case_decide; simplify_eq/=. by apply Hρ.
  - intros. unfold Random.pick. mrun. rewrite decide_False by lia. eauto.
Defined.

#[global] Instance HashByAddr_laws `{Target, Hasher} : StrategyLaws HashByAddr.t.
Proof.
  refine {| inv _ := True; safe _ _ := True |}; try law_noop; cbn.
  - intros ρ v s i s' _ _ Hlen E. unfold HashByAddr.pick in E. mrun.
    simplify_eq. by eapply usize_rem_Z_lt.
  - intros. unfold HashByAddr.pick. mrun. rewrite usize_rem_Z_pos by done. eauto.
Defined.

#[global] Instance LowestRtt_laws `{Target} : StrategyLaws LowestRtt.t.
Proof.
  refine {| inv _ := True; safe _ _ := True |}; try law_noop; cbn.
  intros ρ v s i s' _ _ Hlen E. unfold LowestRtt.pick in E. mrun. simplify_eq.
  by apply find_lowest_rtt_lt.
Defined.

#[global] Instance Sticky_laws `{Target} : StrategyLaws Sticky.t.
Proof.
  refine {| inv _ := True; safe _ _ := True |}; try law_noop; cbn.
  - intros ρ v s i s' _ _ Hlen E. unfold Sticky.pick in E. mrun.
    case_match; simplify_eq/=; [lia|]. by apply find_lowest_rtt_lt.
  - intros. unfold Sticky.pick. mrun. case_match; eauto.
Defined.

Lemma failover_pick_eq ρ v s :
  Failover.pick ρ v s =
    (Ret (if decide (PoolView_len v = 0) then 0 else Failover.primary s `mod` PoolView_len v),
     {| Failover.primary := Failover.primary s; Failover.len := PoolView_len v |}).
Proof.
  unfold Failover.pick. mrun. case_decide; [done|]. by rewrite usize_rem_pos by lia.
Qed.

Lemma failover_report_error_eq `{Target} idx s :
  (Z.of_nat idx < usize_MAX)%Z →
  Failover.report_error idx s =
    (Ret tt,
     if decide (idx = Failover.primary s) then
       {| Failover.primary :=
            S idx `mod` (if decide (0 < Failover.len s) then Failover.len s else S idx);
          Failover.len := Failover.len s |}
     else s).
Proof.
  intros. unfold Failover.report_error. mrun.
  rewrite usize_add_small by lia.
  replace (idx + 1) with (S idx) by lia.
  repeat case_decide; cbn; try done; rewrite usize_rem_pos by lia; done.
Qed.

#[global] Instance Failover_laws `{Target} : StrategyLaws Failover.t.
Proof.
  refine {| inv _ := True; safe _ _ := True |}; try law_noop; cbn.
  - intros ρ v s i s' _ _ Hlen. rewrite failover_pick_eq.
    rewrite decide_False by lia. intros [= <- _]. apply Nat.mod_upper_bound. lia.
  - intros. rewrite failover_pick_eq. eauto.
  - intros. rewrite failover_report_error_eq by done. eauto.
Defined.

(** ** Lemmas on runs *)

Lemma round_robin_pick_eq `{Target} ρ v s :
  0 < PoolView_len v → (Z.of_nat (PoolView_len v) < usize_MAX)%Z →
  RoundRobin.pick ρ v s =
    (Ret (RoundRobin.next s `mod` PoolView_len v),
     {| RoundRobin.next := S (RoundRobin.next s `mod` PoolView_len v) |}).
Proof.
  intros Hpos Hlen. unfold RoundRobin.pick. mrun.
  pose proof (Nat.mod_upper_bound (RoundRobin.next s) (PoolView_len v)).
  rewrite usize_rem_pos by done. rewrite usize_add_small by lia.
  apply Nat.ltb_lt in Hpos. rewrite Hpos, andb_false_r. cbn.
  do 2 f_equal. f_equal. lia.
Qed.

(** The indices a walk of [k] steps from [a] visits in a pool of [n]. *)
Definition walk (a n k : nat) : list nat := (λ t, (a + t) `mod` n) <$> seq 0 k.

#[global] Arguments walk a n k : simpl never.

Lemma walk_S a n k : walk a n (S k) = a `mod` n :: walk (S a) n k.
Proof.
  unfold walk. cbn. rewrite Nat.add_0_r. f_equal.
  rewrite <-fmap_S_seq, <-list_fmap_compose. apply list_fmap_ext.
  intros ? t _. cbn. f_equal. lia.
Qed.

Lemma walk_mod a n k : walk (a `mod` n) n k = walk a n k.
Proof.
  apply list_fmap_ext. intros ? t _. cbn. by rewrite Nat.Div0.add_mod_idemp_l.
Qed.

Lemma walk_S_mod a n k : walk (S (a `mod` n)) n k = walk (S a) n k.
Proof.
  rewrite <-(walk_mod (S (a `mod` n))), <-(walk_mod (S a)). f_equal.
  change (S (a `mod` n)) with (1 + a `mod` n). by rewrite Nat.Div0.add_mod_idemp_r.
Qed.

Lemma walk_perm a n : 0 < n → walk a n n ≡ₚ seq 0 n.
Proof.
  intros Hn. apply NoDup_Permutation_bis.
  - apply NoDup_ListNoDup, NoDup_fmap_2_strong; [|apply NoDup_seq].
    intros x y Hx%elem_of_seq Hy%elem_of_seq E.
    assert (Z.of_nat (a + x) mod Z.of_nat n = Z.of_nat (a + y) mod Z.of_nat n)%Z as E'
      by (rewrite <-!Nat2Z.inj_mod; lia).
    pose proof (Z.div_mod (Z.of_nat (a + x)) (Z.of_nat n) ltac:(lia)).
    pose proof (Z.div_mod (Z.of_nat (a + y)) (Z.of_nat n) ltac:(lia)).
    assert (Z.of_nat (a + x) / Z.of_nat n = Z.of_nat (a + y) / Z.of_nat n)%Z by nia.
    lia.
  - unfold walk. by rewrite length_fmap.
  - intros x. rewrite <-!list_elem_of_In. unfold walk. rewrite list_elem_of_fmap.
    intros (t & -> & _). apply elem_of_seq.
    pose proof (Nat.mod_upper_bound (a + t) n). lia.
Qed.

Definition same_len (n : nat) (calls : list (Rng * PoolView)) : Prop :=
  Forall (λ c, PoolView_len c.2 = n) calls.

#[global] Instance same_len_dec n calls : Decision (same_len n calls).
Proof. unfold same_len. apply _. Defined.

Lemma round_robin_walk `{Target} n calls s :
  0 < n → (Z.of_nat n < usize_MAX)%Z → same_len n calls →
  ∃ s', pick_many calls s = (Ret (walk (RoundRobin.next s) n (length calls)), s').
Proof.
  intros Hn Hmax Hc. revert s. induction Hc as [|[ρ v] calls Hv _ IH]; intros s; cbn in *.
  { by eexists. }
  mrun. rewrite round_robin_pick_eq by lia. rewrite Hv.
  edestruct IH as [s' ->]. eexists. f_equal. f_equal.
  rewrite walk_S. cbn. by rewrite walk_S_mod.
Qed.

Lemma failover_walk `{Target} n calls s :
  0 < n → (Z.of_nat n < usize_MAX)%Z → same_len n calls → Failover.primary s < n →
  ∃ s', pick_failing calls s = (Ret (walk (Failover.primary s) n (length calls)), s').
Proof.
  intros Hn Hmax Hc. revert s. induction Hc as [|[ρ v] calls Hv _ IH]; intros s Hp; cbn in *.
  { by eexists. }
  mrun. rewrite failover_pick_eq, Hv. rewrite decide_False by lia.
  rewrite (Nat.mod_small (Failover.primary s)) by done.
  rewrite failover_report_error_eq by lia. cbn.
  rewrite decide_True by done. rewrite decide_True by done.
  destruct (IH {| Failover.primary := S (Failover.primary s) `mod` n; Failover.len := n |})
    as [s' ->]; [apply Nat.mod_upper_bound; lia|].
  eexists. do 2 f_equal. rewrite walk_S. cbn. rewrite walk_mod.
  by rewrite Nat.mod_small.
Qed.

(** ** Properties *)

(** Round robin is fair.  From any state, a window of [n] consecutive
    picks on a pool of [n] backends returns, without panicking, each index of
    the pool exactly once. *)
Theorem round_robin_visits_each_once `{Target} n calls s :
  0 < n → (Z.of_nat n < usize_MAX)%Z → same_len n calls → length calls = n →
  ∃ js s', pick_many (S := RoundRobin.t) calls s = (Ret js, s') ∧ js ≡ₚ seq 0 n.
Proof.
  intros Hn Hmax Hc Hl. destruct (round_robin_walk n calls s Hn Hmax Hc) as [s' E].
  do 2 eexists. split; [exact E|]. rewrite Hl. by apply walk_perm.
Qed.

(** Failover takes over in order.  When every dial fails, successive
    picks on a pool of [n] walk the pool from the current primary and wrap. *)
Theorem failover_rotates_in_order `{Target} n calls s :
  0 < n → (Z.of_nat n < usize_MAX)%Z → same_len n calls → Failover.primary s < n →
  ∃ s', pick_failing calls s =
    (Ret ((λ t, (Failover.primary s + t) `mod` n) <$> seq 0 (length calls)), s').
Proof. apply failover_walk. Qed.

(** After the pool shrinks to [n] at or below the primary's index,
    failover stops failing over: it compares the failed index, already reduced
    modulo [n], with the unreduced primary, so every later pick returns the
    same failing backend, however many errors are reported. *)
Theorem failover_stuck_after_shrink `{Target} n calls s :
  0 < n → (Z.of_nat n < usize_MAX)%Z → same_len n calls → n ≤ Failover.primary s →
  ∃ s', pick_failing calls s =
    (Ret (replicate (length calls) (Failover.primary s `mod` n)), s').
Proof.
  intros Hn Hmax Hc. revert s. induction Hc as [|[ρ v] calls Hv _ IH]; intros s Hp; cbn in *.
  { by eexists. }
  mrun. rewrite failover_pick_eq, Hv. rewrite decide_False by lia.
  pose proof (Nat.mod_upper_bound (Failover.primary s) n).
  rewrite failover_report_error_eq by lia. cbn. rewrite decide_False by lia.
  destruct (IH {| Failover.primary := Failover.primary s; Failover.len := n |}) as [s' ->];
    [done|]. eauto.
Qed.

(** Sticky never moves.  Once pinned to [i], every later pick returns
    [i], whatever the metrics, the random draws and the reported errors, as
    long as the pool still has an index [i]. *)
Theorem sticky_stays_pinned (calls : list (Rng * PoolView)) i s :
  Sticky.pinned s = Some i → Forall (λ c, i < PoolView_len c.2) calls →
  pick_failing calls s = (Ret (replicate (length calls) i), s).
Proof.
  intros Hs. induction 1 as [|[ρ v] calls Hv _ IH]; [done|].
  cbn -[Nat.min] in *. unfold Sticky.pick. mrun. rewrite Hs. mrun. rewrite IH.
  by rewrite Nat.min_l by lia.
Qed.

(** Lowest-RTT picks the backend of least measured RTT, the lowest index
    among equals, and an unmeasured backend only when nothing measured is
    below the maximum duration. *)
Theorem lowest_rtt_picks_least ρ v s :
  metrics v ≠ [] → Forall TunnelMetrics_wf (metrics v) →
  ∃ i, LowestRtt.pick ρ v s = (Ret i, s) ∧ is_argmin Z.ltb (rtt_key <$> metrics v) i.
Proof.
  intros Hne Hwf. eexists. split; [done|].
  rewrite find_lowest_rtt_argmin by done. apply (argmin_spec (ok := λ _, True)).
  - by intros ?%fmap_nil_inv.
  - by apply Forall_true.
Qed.

(** Hashing is stable.  Two picks for the same address on pools of the
    same size agree, whatever the metrics and random draws. *)
Theorem hash_by_addr_stable `{Target, Hasher} ρ1 ρ2 v1 v2 s1 s2 :
  dial_addr v1 = dial_addr v2 → PoolView_len v1 = PoolView_len v2 →
  (HashByAddr.pick ρ1 v1 s1).1 = (HashByAddr.pick ρ2 v2 s2).1.
Proof. intros Ha Hl. unfold HashByAddr.pick. by rewrite Ha, Hl. Qed.

(** On a 32-bit target an address whose 64-bit hash does not fit [usize]
    is sent to backend 0, so hashing no longer distributes. *)
Theorem hash_by_addr_32bit_degenerates `{Target, Hasher} ρ v s :
  pointer_width = 32%Z → (u32_MAX < hash_str (dial_addr v))%Z → 0 < PoolView_len v →
  HashByAddr.pick ρ v s = (Ret 0, s).
Proof.
  intros Hw Hh Hl. unfold HashByAddr.pick, try_from_or, usize_MAX. rewrite Hw.
  replace (hash_str (dial_addr v) <=? 2 ^ 32 - 1)%Z with false
    by (symmetry; breflect; exact Hh).
  mrun. rewrite usize_rem_Z_pos by done. by rewrite Z.mod_0_l by lia.
Qed.

(** ** Witnesses *)

Definition rng0 : Rng := λ _, 0.
Definition view3 : PoolView := test_view [Some 30%Z; Some 10%Z; Some 20%Z] [].
Definition view2 : PoolView := test_view [Some 30%Z; Some 10%Z] [].

(** A hash that adds up the bytes: enough to instantiate the parameter. *)
Fixpoint byte_sum (s : string) : Z :=
  match s with
  | EmptyString => 0
  | String c s' => (Z.of_nat (Ascii.nat_of_ascii c) + byte_sum s')%Z
  end.
Program Definition sum_hasher : Hasher :=
  {| hash_str s := Z.min u64_MAX (Z.max 0 (byte_sum s)) |}.
Next Obligation. intros s. cbv beta. unfold u64_MAX. lia. Qed.
Program Definition max_hasher : Hasher := {| hash_str _ := u64_MAX |}.
Next Obligation. intros s. unfold u64_MAX. lia. Qed.

Lemma round_robin_visits_each_once_witness :
  ∃ js s', pick_many (S := RoundRobin.t) (BalanceStrategy0 := @RoundRobin_strategy dev64)
      (replicate 3 (rng0, view3)) {| RoundRobin.next := 5 |} = (Ret js, s') ∧ js ≡ₚ seq 0 3.
Proof.
  apply (round_robin_visits_each_once (H := dev64) 3); [lia|done| |done].
  by apply (bool_decide_unpack _).
Defined.

Lemma failover_rotates_in_order_witness :
  ∃ s', pick_failing (BalanceStrategy0 := @Failover_strategy dev64)
      (replicate 4 (rng0, view3)) Failover.new =
    (Ret ((λ t, (0 + t) `mod` 3) <$> seq 0 4), s').
Proof.
  apply (failover_rotates_in_order (H := dev64) 3 (replicate 4 (rng0, view3)) Failover.new);
    [lia|done|by apply (bool_decide_unpack _)|cbn; lia].
Defined.

(** The primary is 2 after two failures on three backends; then one is removed. *)
Lemma failover_stuck_after_shrink_witness :
  ∃ s', pick_failing (BalanceStrategy0 := @Failover_strategy dev64)
      (replicate 4 (rng0, view2))
      (pick_failing (BalanceStrategy0 := @Failover_strategy dev64)
         (replicate 2 (rng0, view3)) Failover.new).2 = (Ret (replicate 4 0), s').
Proof.
  apply (failover_stuck_after_shrink (H := dev64) 2 (replicate 4 (rng0, view2))
           {| Failover.primary := 2; Failover.len := 3 |});
    [lia|done|by apply (bool_decide_unpack _)|cbn; lia].
Defined.

Lemma sticky_stays_pinned_witness :
  pick_failing [(rng0, view3); (rng0, view2)] (Sticky.pick rng0 view3 Sticky.new).2 =
    (Ret [1; 1], {| Sticky.pinned := Some 1 |}).
Proof.
  apply (sticky_stays_pinned [(rng0, view3); (rng0, view2)] 1 {| Sticky.pinned := Some 1 |});
    [done|]. by apply (bool_decide_unpack _).
Defined.

Lemma lowest_rtt_picks_least_witness :
  ∃ i, LowestRtt.pick rng0 view3 LowestRtt.new = (Ret i, LowestRtt.new) ∧
       is_argmin Z.ltb (rtt_key <$> metrics view3) i.
Proof. apply lowest_rtt_picks_least; [done|solve_wf]. Defined.

Lemma hash_by_addr_stable_witness :
  (@HashByAddr.pick dev64 sum_hasher rng0 view3 HashByAddr.new).1 =
  (@HashByAddr.pick dev64 sum_hasher (λ n, n - 1) (test_view [None; None; None] [7%Z])
     HashByAddr.new).1.
Proof. apply (hash_by_addr_stable (H := dev64) (H0 := sum_hasher)); done. Defined.

Lemma hash_by_addr_32bit_degenerates_witness :
  @HashByAddr.pick release32 max_hasher rng0 view3 HashByAddr.new = (Ret 0, HashByAddr.new).
Proof.
  apply (hash_by_addr_32bit_degenerates (H := release32) (H0 := max_hasher)); [done..|].
  vm_compute. lia.
Defined.
