(* ===== verification/Scored.v ===== *)
(** * Strategies that score every backend

    [LeastConnections] and [HealthWeighted] ([src/src/strategies/]): one scan
    over the metrics that keeps the best index so far, shown equal to the
    first argmin of the key the source documents. *)

From stdpp Require Import base tactics list numbers strings.
From S2P Require Import Prelude Constants Strategy Strategies.

Open Scope rota_scope.

(** ** LeastConnections *)

Module LeastConnections.
Record t := {}.

Definition new : t := Build_t.

(** The loop of [pick]: [all] is [view.metrics], [i] the index of the head of [ms]. *)
Fixpoint pick_loop (all : list TunnelMetrics) (i best : nat) (best_count : Z)
    (ms : list TunnelMetrics) : outcome nat :=
  match ms with
  | [] => Ret best
  | m :: ms' =>
      if (active_connections m <? best_count)%Z then
        pick_loop all (S i) i (active_connections m) ms'
      else if (active_connections m =? best_count)%Z then
        b ← index all best;
        let best_rtt := default Duration_MAX (rtt b) in
        let my_rtt := default Duration_MAX (rtt m) in
        if (my_rtt <? best_rtt)%Z then pick_loop all (S i) i best_count ms'
        else pick_loop all (S i) best best_count ms'
      else pick_loop all (S i) best best_count ms'
  end.

Definition pick (ρ : Rng) (view : PoolView) : M t nat :=
  lift (pick_loop (metrics view) 0 0 u32_MAX (metrics view)).

Definition name (self : t) : string := STRATEGY_NAME 3.
End LeastConnections.

#[global] Instance LeastConnections_strategy : BalanceStrategy LeastConnections.t := {|
  pick := LeastConnections.pick;
  name := LeastConnections.name;
  report_error := report_noop;
  report_success := report_noop
|}.

(** ** HealthWeighted *)

Module HealthWeighted.
Record t := {}.

Definition new : t := Build_t.

Definition rtt_us (m : TunnelMetrics) : Z :=
  match rtt m with
  | None => DEFAULT_RTT_US
  | Some r => try_from_or u64_MAX (as_micros r) DEFAULT_RTT_US
  end.

Definition score `{Target} (m : TunnelMetrics) : outcome Z :=
  error_penalty ← u64_mul (recent_errors m) ERROR_PENALTY_US;
  load_penalty ← u64_mul (active_connections m) LOAD_PENALTY_US;
  s ← u64_add (rtt_us m) error_penalty;
  u64_add s load_penalty.

Fixpoint pick_loop `{Target} (i best : nat) (best_score : Z)
    (ms : list TunnelMetrics) : outcome nat :=
  match ms with
  | [] => Ret best
  | m :: ms' =>
      s ← score m;
      if (s <? best_score)%Z then pick_loop (S i) i s ms'
      else pick_loop (S i) best best_score ms'
  end.

Definition pick `{Target} (ρ : Rng) (view : PoolView) : M t nat :=
  lift (pick_loop 0 0 u64_MAX (metrics view)).

Definition name (self : t) : string := STRATEGY_NAME 7.
End HealthWeighted.

#[global] Instance HealthWeighted_strategy `{Target} : BalanceStrategy HealthWeighted.t := {|
  pick := HealthWeighted.pick;
  name := HealthWeighted.name;
  report_error := report_noop;
  report_success := report_noop
|}.

(** ** Lemmas: least connections *)

(** Fewest connections first, then lowest RTT. *)
Definition lexb (a b : Z * Z) : bool :=
  (a.1 <? b.1)%Z || ((a.1 =? b.1)%Z && (a.2 <? b.2)%Z).

#[global] Instance lexb_swo : StrictWeakOn lexb (λ _, True).
Proof. unfold lexb. split; intros; lia. Qed.

Definition load_key (m : TunnelMetrics) : Z * Z := (active_connections m, rtt_key m).

Lemma least_connections_loop_scan all ms i best b :
  all !! best = Some b → ms = drop i all →
  LeastConnections.pick_loop all i best (active_connections b) ms =
    Ret (scan_from lexb i best (load_key b) (load_key <$> ms)).
Proof.
  revert i best b. induction ms as [|m ms IH]; intros i best b Hb Hms; cbn; [done|].
  assert (Hi : all !! i = Some m).
  { rewrite <-(Nat.add_0_r i), <-lookup_drop, <-Hms. done. }
  assert (Hms' : ms = drop (S i) all).
  { replace (S i) with (i + 1) by lia. by rewrite <-drop_drop, <-Hms. }
  unfold lexb at 1, load_key at 2 3; cbn.
  destruct (active_connections m <? active_connections b)%Z eqn:?; cbn; [by apply IH|].
  destruct (active_connections m =? active_connections b)%Z eqn:?; cbn; [|by apply IH].
  rewrite (index_lookup _ _ _ Hb). cbn. unfold rtt_key at 1 2. breflect.
  destruct (_ <? _)%Z; [|by apply IH].
  replace (active_connections b) with (active_connections m). by apply IH.
Qed.

Lemma least_connections_argmin ms :
  Forall TunnelMetrics_wf ms →
  LeastConnections.pick_loop ms 0 0 u32_MAX ms = Ret (argmin lexb (load_key <$> ms)).
Proof.
  intros Hwf. destruct ms as [|m ms]; [done|].
  apply Forall_cons in Hwf as [(_ & [_ Hle] & _) _]. cbn.
  pose proof (least_connections_loop_scan (m :: ms) ms 1 0 m eq_refl eq_refl) as E.
  destruct (_ <? _)%Z eqn:?; [done|]. breflect.
  replace u32_MAX with (active_connections m) by lia. rewrite Z.eqb_refl.
  rewrite (index_lookup (m :: ms) 0 m eq_refl). cbn. by case_match.
Qed.

(** In range even for metrics out of the type's range. *)
Lemma least_connections_loop_lt all ms i best c :
  best < length all → i + length ms ≤ length all →
  ∃ r, LeastConnections.pick_loop all i best c ms = Ret r ∧ r < length all.
Proof.
  revert i best c. induction ms as [|m ms IH]; intros i best c Hb Hi; cbn in *; [eauto|].
  destruct (_ <? _)%Z; [apply IH; lia|]. destruct (_ =? _)%Z; [|apply IH; lia].
  destruct (index_lt all best Hb) as (b & _ & ->). cbn. case_match; apply IH; lia.
Qed.

#[global] Instance LeastConnections_laws `{Target} : StrategyLaws LeastConnections.t.
Proof.
  refine {| inv _ := True; safe _ _ := True |}; try law_noop; cbn.
  - intros ρ v s i s' _ _ Hlen E. unfold LeastConnections.pick in E. mrun.
    destruct (least_connections_loop_lt (metrics v) (metrics v) 0 0 u32_MAX) as (r & Er & Hr);
      [done..|]. rewrite Er in E. by simplify_eq.
  - intros k ρ v s _ _ _ _ _ Hlen. unfold LeastConnections.pick. mrun.
    destruct (least_connections_loop_lt (metrics v) (metrics v) 0 0 u32_MAX) as (r & Er & Hr);
      [done..|]. rewrite Er. eauto.
Defined.

(** ** Lemmas: health weighted *)

(** The documented score, as a mathematical integer. *)
Definition health_score (m : TunnelMetrics) : Z :=
  (HealthWeighted.rtt_us m + recent_errors m * ERROR_PENALTY_US +
   active_connections m * LOAD_PENALTY_US)%Z.

Definition scores_fit (ms : list TunnelMetrics) : Prop :=
  Forall (λ m, TunnelMetrics_wf m ∧ health_score m ≤ u64_MAX)%Z ms.

Lemma rtt_us_nonneg m : TunnelMetrics_wf m → (0 ≤ HealthWeighted.rtt_us m ≤ u64_MAX)%Z.
Proof.
  intros [Hr _]. unfold HealthWeighted.rtt_us, try_from_or.
  destruct (rtt m) as [r|]; cbn in *; [|done].
  destruct (as_micros r <=? u64_MAX)%Z eqn:?; breflect; [|done].
  unfold as_micros in *. destruct Hr. split; [|done]. by apply Z.div_pos.
Qed.

Lemma score_eq `{Target} m :
  TunnelMetrics_wf m → (health_score m ≤ u64_MAX)%Z →
  HealthWeighted.score m = Ret (health_score m).
Proof.
  intros Hwf Hs. pose proof (rtt_us_nonneg m Hwf). destruct Hwf as (_ & Ha & He & _).
  unfold HealthWeighted.score, u64_mul, u64_add, health_score in *.
  unfold ERROR_PENALTY_US, LOAD_PENALTY_US in *.
  rewrite (fit_small _ (recent_errors m * _)) by lia. cbn.
  rewrite (fit_small _ (active_connections m * _)) by lia. cbn.
  rewrite (fit_small _ (_ + recent_errors m * _)) by lia. cbn.
  by rewrite fit_small by lia.
Qed.

Lemma health_weighted_loop_scan `{Target} ms i best b :
  scores_fit ms →
  HealthWeighted.pick_loop i best b ms = Ret (scan_from Z.ltb i best b (health_score <$> ms)).
Proof.
  intros Hf. revert i best b. induction Hf as [|m ms [Hm Hs] _ IH]; intros i best b; [done|].
  cbn. rewrite score_eq by done. cbn. case_match; apply IH.
Qed.

Lemma health_weighted_argmin `{Target} ms :
  scores_fit ms →
  HealthWeighted.pick_loop 0 0 u64_MAX ms = Ret (argmin Z.ltb (health_score <$> ms)).
Proof.
  intros Hf. rewrite health_weighted_loop_scan by done. f_equal.
  destruct Hf as [|m ms [_ Hs] _]; [done|]. cbn.
  destruct (health_score m <? u64_MAX)%Z eqn:?; breflect; [done|].
  by replace (health_score m) with u64_MAX by lia.
Qed.

Lemma sane_scores_fit `{Target} v : view_wf v → rtts_sane v → scores_fit (metrics v).
Proof.
  intros [Hwf _] Hs. apply Forall_lookup_2. intros i m Hm.
  pose proof (Forall_lookup_1 _ _ _ _ Hwf Hm) as Hwm. split; [done|].
  pose proof (Forall_lookup_1 _ _ _ _ Hs Hm) as Hsm. cbn in Hsm.
  destruct Hwm as (_ & Ha & He & _). unfold health_score, HealthWeighted.rtt_us, try_from_or.
  unfold u32_MAX, u64_MAX, ERROR_PENALTY_US, LOAD_PENALTY_US, DEFAULT_RTT_US in *.
  destruct (rtt m) as [r|]; cbn in *; [|lia]. case_match; breflect; lia.
Qed.

Lemma health_weighted_loop_lt `{Target} ms i best b n r :
  best < n → i + length ms ≤ n → HealthWeighted.pick_loop i best b ms = Ret r → r < n.
Proof.
  revert i best b. induction ms as [|m ms IH]; intros i best b Hb Hi E; cbn in *; [by simplify_eq|].
  destruct (HealthWeighted.score m); cbn in E; try done.
  case_match; (eapply IH; [..|exact E]); lia.
Qed.

#[global] Instance HealthWeighted_laws `{Target} : StrategyLaws HealthWeighted.t.
Proof.
  refine {| inv _ := True; safe _ _ := True |}; try law_noop; cbn.
  - intros ρ v s i s' _ _ Hlen E. unfold HealthWeighted.pick in E. mrun. simplify_eq.
    by eapply (health_weighted_loop_lt (metrics v) 0 0 u64_MAX (PoolView_len v)).
  - intros k ρ v s _ _ _ Hwf Hs Hlen. unfold HealthWeighted.pick. mrun.
    rewrite health_weighted_argmin by (by apply sane_scores_fit). eauto.
Defined.

Lemma health_weighted_least `{Target} ρ v s :
  metrics v ≠ [] → view_wf v → rtts_sane v →
  ∃ i, HealthWeighted.pick ρ v s = (Ret i, s) ∧
       is_argmin Z.ltb (health_score <$> metrics v) i.
Proof.
  intros Hne Hwf Hs. eexists. split.
  { unfold HealthWeighted.pick. mrun.
    by rewrite health_weighted_argmin by (by apply sane_scores_fit). }
  apply (argmin_spec (ok := λ _, True)); [by intros ?%fmap_nil_inv|by apply Forall_true].
Qed.

(** ** Properties *)

(** Least-connections picks a backend with the fewest open connections;
    among those the one of least RTT (unmeasured counts as the maximum), and
    among those the lowest index. *)
Theorem least_connections_picks_least ρ v s :
  metrics v ≠ [] → Forall TunnelMetrics_wf (metrics v) →
  ∃ i, LeastConnections.pick ρ v s = (Ret i, s) ∧ is_argmin lexb (load_key <$> metrics v) i.
Proof.
  intros Hne Hwf. eexists. split.
  { unfold LeastConnections.pick. mrun. by rewrite least_connections_argmin. }
  apply (argmin_spec (ok := λ _, True)); [by intros ?%fmap_nil_inv|by apply Forall_true].
Qed.

(** C36: health-weighted picks a backend of least score
    [rtt_us + 500000 * recent_errors + 10000 * active_connections], the lowest
    index among equals, and no arithmetic of the score overflows for RTTs
    below 2^63 microseconds. *)
Theorem health_weighted_picks_least `{Target} ρ v s :
  metrics v ≠ [] → view_wf v → rtts_sane v →
  ∃ i, HealthWeighted.pick ρ v s = (Ret i, s) ∧
       is_argmin Z.ltb (health_score <$> metrics v) i.
Proof. apply health_weighted_least. Qed.

(** Draining works under health-weighted.  A backend marked as draining
    ([recent_errors] at its maximum) is not picked while some backend scores
    below the penalty of that mark. *)
Theorem health_weighted_avoids_draining `{Target} ρ v s i m j mj :
  view_wf v → rtts_sane v →
  metrics v !! i = Some m → recent_errors m = u32_MAX →
  metrics v !! j = Some mj → (health_score mj < u32_MAX * ERROR_PENALTY_US)%Z →
  (HealthWeighted.pick ρ v s).1 ≠ Ret i.
Proof.
  intros Hwf Hs Hi Hm Hj Hlow E.
  destruct (health_weighted_least ρ v s) as (r & Er & k & Hk & Hmin); [|done..|].
  { intros Hnil. by rewrite Hnil in Hi. }
  rewrite Er in E. simplify_eq/=.
  destruct (Hmin j (health_score mj)) as [Hge _]; [by rewrite list_lookup_fmap, Hj|].
  rewrite list_lookup_fmap, Hi in Hk. simplify_eq/=. breflect.
  destruct Hwf as [Hwf _]. pose proof (Forall_lookup_1 _ _ _ _ Hwf Hi) as Hwm.
  pose proof (rtt_us_nonneg m Hwm). destruct Hwm as (_ & Ha & _).
  assert (u32_MAX * ERROR_PENALTY_US ≤ health_score m)%Z; [|lia].
  unfold health_score, LOAD_PENALTY_US. rewrite Hm. lia.
Qed.

(** The score is not protected against overflow.  A backend whose score
    exceeds [u64::MAX], at the head of the pool, makes a pick panic when
    overflow checks are on. *)
Theorem health_weighted_overflow_panics `{Target} ρ v s m ms :
  overflow_checks = true → metrics v = m :: ms → TunnelMetrics_wf m →
  (u64_MAX < health_score m)%Z → HealthWeighted.pick ρ v s = (Panic Overflow, s).
Proof.
  intros Hc Hv Hwf Hs. pose proof (rtt_us_nonneg m Hwf). destruct Hwf as (_ & Ha & He & _).
  unfold HealthWeighted.pick. mrun. rewrite Hv. cbn. f_equal.
  unfold HealthWeighted.score, u64_mul, u64_add, health_score, ERROR_PENALTY_US,
    LOAD_PENALTY_US in *.
  rewrite (fit_small _ (recent_errors m * _)) by (unfold u32_MAX, u64_MAX in *; lia). cbn.
  rewrite (fit_small _ (active_connections m * _)) by (unfold u32_MAX, u64_MAX in *; lia). cbn.
  destruct (decide (HealthWeighted.rtt_us m + recent_errors m * 500000 ≤ u64_MAX)%Z).
  - rewrite fit_small by done. cbn. by rewrite fit_overflow.
  - rewrite fit_overflow by (done || lia). done.
Qed.

(** ** Witnesses *)

Definition busy_view : PoolView :=
  test_view [Some 10%Z; Some 30%Z; Some 20%Z] [5%Z; 2%Z; 2%Z].

Lemma least_connections_picks_least_witness :
  ∃ i, LeastConnections.pick rng0 busy_view LeastConnections.new =
         (Ret i, LeastConnections.new) ∧
       is_argmin lexb (load_key <$> metrics busy_view) i.
Proof. apply least_connections_picks_least; [done|solve_wf]. Defined.

Lemma health_weighted_picks_least_witness :
  ∃ i, @HealthWeighted.pick dev64 rng0 busy_view HealthWeighted.new =
         (Ret i, HealthWeighted.new) ∧
       is_argmin Z.ltb (health_score <$> metrics busy_view) i.
Proof. apply (health_weighted_picks_least (H := dev64)); [done|solve_wf..]. Defined.

Definition draining_view : PoolView :=
  {| dial_addr := "h";
     metrics := [set_recent_errors u32_MAX TunnelMetrics_default; TunnelMetrics_default] |}.

Lemma health_weighted_avoids_draining_witness :
  (@HealthWeighted.pick dev64 rng0 draining_view HealthWeighted.new).1 ≠ Ret 0.
Proof.
  eapply (health_weighted_avoids_draining (H := dev64) _ _ _ 0 _ 1);
    [solve_wf|solve_wf|reflexivity|reflexivity|reflexivity|vm_compute; reflexivity].
Defined.

Definition huge_rtt_view : PoolView :=
  {| dial_addr := "h";
     metrics := [set_recent_errors 1
       {| rtt := Some (from_micros u64_MAX); active_connections := 0; recent_errors := 0;
          total_dials := 0; total_errors := 0 |}] |}.

Lemma health_weighted_overflow_panics_witness :
  @HealthWeighted.pick dev64 rng0 huge_rtt_view HealthWeighted.new =
    (Panic Overflow, HealthWeighted.new).
Proof.
  eapply (health_weighted_overflow_panics (H := dev64));
    [reflexivity|reflexivity|solve_wf|vm_compute; reflexivity].
Defined.
