(* ===== verification/WeightedRoundRobin.v ===== *)
(** * Weighted round robin ([src/src/strategies/weighted_round_robin.rs])

    Weights are inverse RTTs; every pick goes to the backend with the least
    ratio of picks to weight.  The products are [u64]; the budget under which
    they cannot overflow is [PICK_BUDGET] picks since the last rebuild. *)

From stdpp Require Import base tactics list numbers strings.
From S2P Require Import Prelude Constants Strategy Strategies.

Open Scope rota_scope.

Module WeightedRoundRobin.
Record t := {
  rtts : list (option Duration);
  weights : list Z;
  picks : list Z
}.

Definition new : t := {| rtts := []; weights := []; picks := [] |}.

(** The closure of [rebuild]: the weight of one RTT. *)
Definition weight_of (r : option Duration) : Z :=
  match r with
  | None => MIN_WEIGHT
  | Some d =>
      let ms := Z.max (try_from_or u64_MAX (as_millis d) 1) 1 in
      try_from_or u32_MAX (Z.max (MS_PER_SECOND / ms) MIN_WEIGHT) MIN_WEIGHT
  end.

Definition rebuild : M t unit :=
  modify (λ self, {| rtts := rtts self;
                     weights := weight_of <$> rtts self;
                     picks := replicate (length (rtts self)) 0%Z |}).

(** The loop of [pick]: [js] are the indices still to visit. *)
Fixpoint pick_loop `{Target} (ws ps : list Z) (js : list nat) (best : nat) : outcome nat :=
  match js with
  | [] => Ret best
  | i :: js' =>
      pi ← index ps i; wb ← index ws best; a ← u64_mul pi wb;
      pb ← index ps best; wi ← index ws i; b ← u64_mul pb wi;
      pick_loop ws ps js' (if (a <? b)%Z then i else best)
  end.

Definition pick `{Target} (ρ : Rng) (view : PoolView) : M t nat :=
  let new_rtts := rtt <$> metrics view in
  stale ← get;
  (if decide (new_rtts = rtts stale) then mret tt
   else put {| rtts := new_rtts; weights := weights stale; picks := picks stale |};; rebuild);;
  self ← get;
  if decide (weights self = []) then mret 0
  else
    best ← lift (pick_loop (weights self) (picks self) (seq 1 (length (weights self) - 1)) 0);
    p ← lift (index (picks self) best);
    p' ← lift (u64_add p 1);
    put {| rtts := rtts self; weights := weights self; picks := <[best := p']> (picks self) |};;
    mret best.

Definition name (self : t) : string := STRATEGY_NAME 5.
End WeightedRoundRobin.

#[global] Instance WeightedRoundRobin_strategy `{Target} :
    BalanceStrategy WeightedRoundRobin.t := {|
  pick := WeightedRoundRobin.pick;
  name := WeightedRoundRobin.name;
  report_error := report_noop;
  report_success := report_noop
|}.

(** ** Invariants *)

Import WeightedRoundRobin.

(** Picks a backend may have had since the last rebuild before the products
    can leave [u64]: weights are at most 1000. *)
Definition PICK_BUDGET : Z := (u64_MAX / 1000)%Z.

(** One weight and one pick counter per cached RTT. *)
Definition wrr_inv (s : t) : Prop :=
  weights s = weight_of <$> rtts s ∧ length (picks s) = length (rtts s) ∧
  Forall (λ p, 0 ≤ p)%Z (picks s).

Definition wrr_safe (k : Z) (s : t) : Prop :=
  wrr_inv s ∧ (k ≤ PICK_BUDGET)%Z ∧ Forall (λ p, p + k ≤ PICK_BUDGET)%Z (picks s).

(** No backend is more than one pick ahead of another, relative to weight. *)
Definition fair_counts (ps ws : list Z) : Prop :=
  ∀ i j pi pj wi wj, ps !! i = Some pi → ps !! j = Some pj →
    ws !! i = Some wi → ws !! j = Some wj → ((pi - 1) * wj ≤ pj * wi)%Z.

Definition fair (s : t) : Prop := fair_counts (picks s) (weights s).

(** The state [rebuild] leaves. *)
Definition rebuilt (rs : list (option Duration)) : t :=
  {| rtts := rs; weights := weight_of <$> rs; picks := replicate (length rs) 0%Z |}.

(** The order of [pick]'s comparison: the smaller ratio of picks to weight. *)
Definition ratio_ltb (a b : Z * Z) : bool := (a.1 * b.2 <? b.1 * a.2)%Z.

#[global] Instance ratio_swo : StrictWeakOn ratio_ltb (λ k, 0 ≤ k.1 ∧ 0 < k.2)%Z.
Proof.
  unfold ratio_ltb. split; intros; breflect; nia.
Qed.

(** ** Lemmas: weights *)

Lemma weight_of_range r : (1 ≤ weight_of r ≤ 1000)%Z.
Proof.
  unfold weight_of. destruct r as [d|]; [|by unfold MIN_WEIGHT].
  set (ms := Z.max (try_from_or _ _ _) 1). assert (1 ≤ ms)%Z by lia.
  unfold try_from_or, MIN_WEIGHT, MS_PER_SECOND.
  assert (1000 / ms ≤ 1000)%Z by (apply Z.div_le_upper_bound; lia).
  case_match; lia.
Qed.

Lemma weights_range rs : Forall (λ w, 1 ≤ w ≤ 1000)%Z (weight_of <$> rs).
Proof. apply Forall_fmap, Forall_true. intros r. apply weight_of_range. Qed.

(** ** Lemmas: the budget *)

Lemma PICK_BUDGET_u64 : (0 ≤ PICK_BUDGET ∧ PICK_BUDGET * 1000 ≤ u64_MAX)%Z.
Proof. done. Qed.

Lemma budget_fits ps ws p w :
  Forall (λ p, 0 ≤ p)%Z ps → Forall (λ w, 1 ≤ w ≤ 1000)%Z ws →
  Forall (λ p, p ≤ PICK_BUDGET)%Z ps → p ∈ ps → w ∈ ws → (p * w ≤ u64_MAX)%Z.
Proof.
  rewrite !Forall_forall. intros Hnn Hwr Hb Hp Hw.
  specialize (Hnn p Hp). specialize (Hb p Hp). specialize (Hwr w Hw). cbn in *.
  pose proof PICK_BUDGET_u64. nia.
Qed.

Lemma ratio_keys_ok ps ws :
  Forall (λ p, 0 ≤ p)%Z ps → Forall (λ w, 1 ≤ w ≤ 1000)%Z ws →
  Forall (λ k, 0 ≤ k.1 ∧ 0 < k.2)%Z (zip ps ws).
Proof.
  intros Hnn Hwr. apply Forall_lookup_2.
  intros i [p w] (? & ? & [= <- <-] & Hp & Hw)%lookup_zip_with_Some.
  pose proof (Forall_lookup_1 _ _ _ _ Hnn Hp).
  pose proof (Forall_lookup_1 _ _ _ _ Hwr Hw). cbn in *. lia.
Qed.

(** ** Lemmas: the scan *)

Section Scan.
Context `{Target}.

Lemma wrr_loop_scan ws ps i best pb wb :
  length ws = length ps → ps !! best = Some pb → ws !! best = Some wb →
  (∀ p w, p ∈ ps → w ∈ ws → (p * w ≤ u64_MAX)%Z) →
  pick_loop ws ps (seq i (length ws - i)) best =
    Ret (scan_from ratio_ltb i best (pb, wb) (drop i (zip ps ws))).
Proof.
  intros Hlen. remember (length ws - i) as k eqn:Hk. revert i Hk best pb wb.
  induction k as [|k IH]; intros i Hk best pb wb Hpb Hwb Hfit.
  { rewrite drop_ge; [done|]. rewrite length_zip. lia. }
  destruct (lookup_lt_is_Some_2 ps i) as [pi Hpi]; [lia|].
  destruct (lookup_lt_is_Some_2 ws i) as [wi Hwi]; [lia|].
  assert (Hz : zip ps ws !! i = Some (pi, wi)) by (by apply lookup_zip_with_Some; eauto 6).
  rewrite (drop_S _ _ _ Hz). cbn.
  rewrite (index_lookup _ _ _ Hpi), (index_lookup _ _ _ Hwb), (index_lookup _ _ _ Hpb),
    (index_lookup _ _ _ Hwi). cbn. unfold u64_mul.
  rewrite fit_small by (apply Hfit; by eapply list_elem_of_lookup_2). cbn.
  rewrite fit_small by (apply Hfit; by eapply list_elem_of_lookup_2). cbn.
  unfold ratio_ltb at 1. cbn. case_match; apply IH; (done || lia).
Qed.

(** Any returned index is in range, wrap-around or not. *)
Lemma wrr_loop_lt ws ps js best n r :
  best < n → Forall (λ j, j < n) js → pick_loop ws ps js best = Ret r → r < n.
Proof.
  intros Hb Hjs. revert best Hb. induction Hjs as [|j js Hj _ IH]; intros best Hb E; cbn in E.
  { by simplify_eq. }
  repeat match type of E with
  | (?o ≫= _) = _ => destruct o; cbn in E; try done
  end.
  eapply IH; [|exact E]. by case_match.
Qed.
End Scan.

(** ** Lemmas: one pick *)

Section Pick.
Context `{Target}.

(** The state a pick works on: the caller's, or the rebuilt one. *)
Definition refreshed (v : PoolView) (s : t) : t :=
  if decide (rtt <$> metrics v = rtts s) then s else rebuilt (rtt <$> metrics v).

Lemma refreshed_inv v s : wrr_inv s → wrr_inv (refreshed v s).
Proof.
  intros Hs. unfold refreshed. case_decide; [done|]. repeat split; cbn.
  - by rewrite length_replicate.
  - by apply Forall_replicate.
Qed.

Lemma refreshed_safe k v s : wrr_safe k s → wrr_safe k (refreshed v s).
Proof.
  intros (Hi & Hk & Hp). split; [by apply refreshed_inv|]. split; [done|].
  unfold refreshed. case_decide; [done|]. cbn. by apply Forall_replicate.
Qed.

Lemma refreshed_rtts v s : rtts (refreshed v s) = rtt <$> metrics v.
Proof. unfold refreshed. by case_decide. Qed.

Lemma refreshed_len v s : wrr_inv s →
  length (weights (refreshed v s)) = PoolView_len v ∧
  length (picks (refreshed v s)) = PoolView_len v.
Proof.
  intros (-> & -> & _)%(refreshed_inv v).
  by rewrite length_fmap, refreshed_rtts, length_fmap.
Qed.

Lemma pick_refreshed ρ v s :
  pick ρ v s =
    (if decide (weights (refreshed v s) = []) then mret 0
     else
       best ← lift (pick_loop (weights (refreshed v s)) (picks (refreshed v s))
                      (seq 1 (length (weights (refreshed v s)) - 1)) 0);
       p ← lift (index (picks (refreshed v s)) best);
       p' ← lift (u64_add p 1);
       put {| rtts := rtts (refreshed v s); weights := weights (refreshed v s);
              picks := <[best := p']> (picks (refreshed v s)) |};;
       mret best) (refreshed v s).
Proof. unfold pick, refreshed. mrun. by case_decide. Qed.

Lemma pick_keeps_inv ρ v s : wrr_inv s → wrr_inv (pick ρ v s).2.
Proof.
  intros Hs. rewrite pick_refreshed. pose proof (refreshed_inv v s Hs) as Hr.
  case_decide; [done|]. mrun.
  destruct (pick_loop _ _ _ _) as [b| | |]; cbn; try done.
  unfold index. destruct (picks (refreshed v s) !! b) as [p|] eqn:Hb; cbn; [|done].
  destruct (u64_add p 1) as [p'| | |] eqn:Hp; cbn; try done.
  destruct Hr as (Hw & Hl & Hf). split; [done|]. cbn. rewrite length_insert.
  split; [done|]. apply Forall_insert; [done|].
  pose proof (Forall_lookup_1 _ _ _ _ Hf Hb). cbn in *.
  by eapply (fit_range u64_MAX (p + 1)); [..|exact Hp]; [|lia].
Qed.

Lemma pick_in_range ρ v s i s' :
  wrr_inv s → 0 < PoolView_len v → pick ρ v s = (Ret i, s') → i < PoolView_len v.
Proof.
  intros Hs Hv. destruct (refreshed_len v s Hs) as [Hlw _]. rewrite pick_refreshed.
  case_decide; mrun; [intros; by simplify_eq|].
  destruct (pick_loop _ _ _ _) as [b| | |] eqn:E; cbn; try done.
  intros E'. repeat case_match; simplify_eq/=.
  eapply wrr_loop_lt; [..|exact E]; [done|]. rewrite Hlw. apply Forall_seq. lia.
Qed.

(** Under the budget a pick returns the backend of least ratio, and only its
    counter changes. *)
Lemma pick_budget k ρ v s :
  (0 ≤ k)%Z → wrr_safe (k + 1) s → 0 < PoolView_len v →
  ∃ b p w, let r := refreshed v s in
    pick ρ v s =
      (Ret b, {| rtts := rtts r; weights := weights r; picks := <[b := (p + 1)%Z]> (picks r) |}) ∧
    picks r !! b = Some p ∧ weights r !! b = Some w ∧ (p + 1 + k ≤ PICK_BUDGET)%Z ∧
    ∀ j pj wj, picks r !! j = Some pj → weights r !! j = Some wj → (p * wj ≤ pj * w)%Z.
Proof.
  intros Hk Hs Hv. pose proof (refreshed_len v s (proj1 Hs)) as [Hlw Hlp].
  destruct (refreshed_safe _ v s Hs) as ((Hw & _ & Hnn) & _ & Hbud). rewrite pick_refreshed.
  remember (refreshed v s) as r eqn:Er. clear Er Hs s. destruct r as [rs ws ps]; cbn in *.
  pose proof (weights_range rs) as Hwr. rewrite <-Hw in Hwr.
  pose proof (ratio_keys_ok ps ws Hnn Hwr) as Hok.
  assert (Hfit : ∀ p w, p ∈ ps → w ∈ ws → (p * w ≤ u64_MAX)%Z)
    by (intros; eapply budget_fits; eauto; eapply Forall_impl; [exact Hbud|cbn; lia]).
  destruct ps as [|p0 ps]; [cbn in *; lia|]. destruct ws as [|w0 ws]; [cbn in *; lia|].
  rewrite decide_False by done.
  rewrite (wrr_loop_scan (w0 :: ws) (p0 :: ps) 1 0 p0 w0) by (cbn in *; done || lia). mrun.
  destruct (argmin_spec (ltb := ratio_ltb) (zip (p0 :: ps) (w0 :: ws))) as ([p w] & Hz & Hmin);
    [done|done|].
  change (scan_from _ 1 0 _ _) with (argmin ratio_ltb (zip (p0 :: ps) (w0 :: ws))).
  set (b := argmin _ _) in *.
  apply lookup_zip_with_Some in Hz as (? & ? & [= <- <-] & Hp & Hww).
  pose proof (Forall_lookup_1 _ _ _ _ Hbud Hp) as Hb. cbn in Hb.
  rewrite (index_lookup _ _ _ Hp). unfold u64_add.
  rewrite fit_small by (pose proof PICK_BUDGET_u64; lia).
  exists b, p, w. repeat split; [done..|lia|].
  intros j pj wj Hpj Hwj. destruct (Hmin j (pj, wj)) as [Hge _].
  { apply lookup_zip_with_Some. eauto 6. }
  unfold ratio_ltb in Hge. cbn in Hge. breflect. lia.
Qed.

Lemma budget_safe k ρ v s b p w :
  wrr_safe (k + 1) s →
  pick ρ v s = (Ret b, {| rtts := rtts (refreshed v s); weights := weights (refreshed v s);
                          picks := <[b := (p + 1)%Z]> (picks (refreshed v s)) |}) →
  weights (refreshed v s) !! b = Some w → (p + 1 + k ≤ PICK_BUDGET)%Z →
  wrr_safe k (pick ρ v s).2.
Proof.
  intros Hs E _ Hb. split; [apply pick_keeps_inv, Hs|]. rewrite E. cbn.
  destruct (refreshed_safe _ v s Hs) as (_ & ? & Hf). split; [lia|].
  apply Forall_insert; [|lia]. eapply Forall_impl; [exact Hf|]. cbn. lia.
Qed.

(** The picked backend is a least one, so one more pick keeps everyone fair. *)
Lemma fair_insert ps ws b p w :
  Forall (λ w, 1 ≤ w)%Z ws → fair_counts ps ws → ps !! b = Some p → ws !! b = Some w →
  (∀ j pj wj, ps !! j = Some pj → ws !! j = Some wj → (p * wj ≤ pj * w)%Z) →
  fair_counts (<[b := (p + 1)%Z]> ps) ws.
Proof.
  intros Hpos Hf Hb Hw Hmin i j pi pj wi wj Hpi Hpj Hwi Hwj.
  pose proof (Forall_lookup_1 _ _ _ _ Hpos Hwi). pose proof (Forall_lookup_1 _ _ _ _ Hpos Hwj).
  cbn in *. assert (b < length ps) by (by eapply lookup_lt_Some).
  rewrite list_lookup_insert in Hpi, Hpj.
  destruct (decide (b = i)) as [<-|]; destruct (decide (b = j)) as [<-|];
    repeat case_decide; destruct_and?; simplify_eq; try (exfalso; naive_solver lia).
  - nia.
  - specialize (Hmin j pj wj Hpj Hwj). lia.
  - pose proof (Hf i b pi p wi w Hpi Hb Hwi Hw). nia.
  - by eapply Hf.
Qed.
End Pick.

#[global] Instance WeightedRoundRobin_laws `{Target} : StrategyLaws WeightedRoundRobin.t.
Proof.
  refine {| inv := wrr_inv; safe := wrr_safe |}; cbn.
  - by intros k s [? _].
  - intros k k' s Hk (Hi & Hb & Hp). split; [done|]. split; [lia|].
    eapply Forall_impl; [exact Hp|]. cbn. lia.
  - apply pick_keeps_inv.
  - intros. by eapply pick_in_range.
  - intros k ρ v s Hk Hs _ _ _ Hv.
    destruct (pick_budget k ρ v s Hk Hs Hv) as (b & p & w & E & _ & Hw & Hb & _).
    pose proof (budget_safe k ρ v s b p w Hs E Hw Hb) as Hs'. rewrite E in *. eauto.
  - done.
  - by intros; eexists.
  - done.
  - by intros; eexists.
Defined.

(** ** Lemmas: runs *)

Definition Zsum (l : list Z) : Z := foldr Z.add 0%Z l.
Definition count (i : nat) (js : list nat) : Z := Z.of_nat (length (filter (eq i) js)).

(** Calls whose views all show the RTTs [rs]. *)
Definition same_rtts (rs : list (option Duration)) (calls : list (Rng * PoolView)) : Prop :=
  Forall (λ c, rtt <$> metrics c.2 = rs) calls.

#[global] Arguments Zsum l : simpl never.

Lemma count_cons i b js : count i (b :: js) = ((if decide (i = b) then 1 else 0) + count i js)%Z.
Proof. unfold count. rewrite filter_cons. case_decide; cbn [length]; lia. Qed.

Lemma Zsum_cons x l : Zsum (x :: l) = (x + Zsum l)%Z.
Proof. done. Qed.

Lemma Zsum_insert l i x y :
  l !! i = Some x → Zsum (<[i := y]> l) = (Zsum l - x + y)%Z.
Proof.
  revert i. induction l as [|z l IH]; intros [|i] Hi; simplify_eq/=.
  - rewrite !Zsum_cons. lia.
  - rewrite !Zsum_cons, (IH i Hi). lia.
Qed.

Lemma Zsum_replicate_0 n : Zsum (replicate n 0%Z) = 0%Z.
Proof. induction n as [|n IH]; [done|]. cbn. by rewrite Zsum_cons, IH. Qed.

Lemma Zsum_ratio_l a b ps ws :
  Forall2 (λ p w, a * w ≤ p * b)%Z ps ws → (a * Zsum ws ≤ Zsum ps * b)%Z.
Proof. induction 1; [unfold Zsum; cbn; lia|]. rewrite !Zsum_cons. lia. Qed.

Lemma Zsum_ratio_r a b ps ws :
  Forall2 (λ p w, (p - 1) * a ≤ b * w)%Z ps ws →
  ((Zsum ps - Z.of_nat (length ps)) * a ≤ b * Zsum ws)%Z.
Proof. induction 1; [unfold Zsum; cbn; lia|]. rewrite !Zsum_cons. cbn [length]. lia. Qed.

Section Runs.
Context `{Target}.

(** A run from a state that has already cached [rs]. *)
Lemma wrr_run rs calls s :
  rs ≠ [] → same_rtts rs calls → rtts s = rs →
  wrr_safe (Z.of_nat (length calls)) s → fair s →
  ∃ js s', pick_many calls s = (Ret js, s') ∧ length js = length calls ∧
    rtts s' = rs ∧ weights s' = weights s ∧ fair s' ∧ length (picks s') = length (picks s) ∧
    Zsum (picks s') = (Zsum (picks s) + Z.of_nat (length calls))%Z ∧
    ∀ i p, picks s !! i = Some p → picks s' !! i = Some (p + count i js)%Z.
Proof.
  intros Hne Hc. revert s. induction Hc as [|[ρ v] calls Hv Hc IH]; intros s Hrs Hs Hf.
  { exists [], s. repeat split; [done..|cbn; lia|]. intros i p Hp. rewrite Hp. f_equal. unfold count. cbn. lia. }
  cbn [length] in Hs. rewrite Nat2Z.inj_succ, <-Z.add_1_r in Hs. cbn in Hv.
  assert (Hlen : 0 < PoolView_len v).
  { unfold PoolView_len. rewrite <-Hv in Hne. destruct (metrics v); cbn in *; [done|lia]. }
  destruct (pick_budget (Z.of_nat (length calls)) ρ v s ltac:(lia) Hs Hlen) as (b & p & w & E & Hp & Hw & Hb & Hmin).
  assert (Hr : refreshed v s = s) by (unfold refreshed; by rewrite decide_True by congruence).
  rewrite Hr in *.
  pose proof (budget_safe _ ρ v s b p w Hs) as Hs1. rewrite Hr in Hs1.
  specialize (Hs1 E Hw Hb). rewrite E in Hs1. cbn in Hs1.
  assert (Hpos : Forall (λ w, 1 ≤ w)%Z (weights s)).
  { destruct Hs as ((-> & _) & _). eapply Forall_impl; [apply weights_range|]. cbn. lia. }
  edestruct (λ H1, IH _ H1 Hs1) as (js & s' & E1 & Hl & Hrs' & Hw' & Hf' & Hlp & Hsum & Hcnt).
  { exact Hrs. }
  { by apply (fair_insert _ _ _ _ w). }
  cbn [picks rtts weights] in *. exists (b :: js), s'.
  cbn [pick_many]. unfold mbind, M_bind.
  change (Strategy.pick ρ v s) with (WeightedRoundRobin.pick ρ v s). rewrite E, E1.
  repeat split; [cbn; lia|done|done|done|by rewrite Hlp, length_insert| |].
  - rewrite Hsum, (Zsum_insert _ _ _ _ Hp). cbn [length]. lia.
  - intros i q Hq. rewrite count_cons. rewrite Z.add_assoc. apply Hcnt.
    rewrite list_lookup_insert. case_decide as Hd.
    + destruct Hd as [-> _]. rewrite decide_True by done. congruence.
    + apply lookup_lt_Some in Hp. rewrite (decide_False (P := i = b)) by naive_solver.
      rewrite Hq. f_equal. lia.
Qed.
End Runs.

Lemma rebuilt_fair rs : fair (rebuilt rs).
Proof.
  intros i j pi pj wi wj Hpi Hpj Hwi Hwj. cbn in *.
  apply lookup_replicate in Hpi as [-> _], Hpj as [-> _].
  pose proof (Forall_lookup_1 _ _ _ _ (weights_range rs) Hwj). cbn in *. lia.
Qed.

Lemma rebuilt_safe k rs : (k ≤ PICK_BUDGET)%Z → wrr_safe k (rebuilt rs).
Proof.
  intros Hk. split; [|split; [done|]]; cbn; [|by apply Forall_replicate].
  repeat split; cbn; [by rewrite length_replicate|by apply Forall_replicate].
Qed.

(** Fair counters are proportional to the weights, up to one round. *)
Lemma fair_proportional ps ws i p w :
  length ps = length ws → fair_counts ps ws → ps !! i = Some p → ws !! i = Some w →
  ((Zsum ps - Z.of_nat (length ps)) * w ≤ p * Zsum ws ≤ Zsum ps * w + Zsum ws)%Z.
Proof.
  intros Hl Hf Hp Hw. split.
  - apply Zsum_ratio_r, Forall2_same_length_lookup_2; [done|]. intros j pj wj Hpj Hwj.
    by eapply (Hf j i).
  - assert ((p - 1) * Zsum ws ≤ Zsum ps * w)%Z; [|lia].
    apply Zsum_ratio_l, Forall2_same_length_lookup_2; [done|]. intros j pj wj Hpj Hwj.
    by eapply (Hf i j).
Qed.

(** The first pick on new RTTs forgets the old state. *)
Lemma pick_many_rebuilt `{Target} rs calls s :
  same_rtts rs calls → calls ≠ [] → rtts s ≠ rs →
  pick_many calls s = pick_many calls (rebuilt rs).
Proof.
  intros [|[ρ v] calls' Hv _] Hne Hs; [done|]. cbn [pick_many fst snd] in *.
  unfold mbind, M_bind. cbn [Strategy.pick WeightedRoundRobin_strategy].
  rewrite (pick_refreshed ρ v s), (pick_refreshed ρ v (rebuilt rs)).
  assert (refreshed v s = rebuilt rs) as ->
    by (unfold refreshed; rewrite Hv, decide_False by done; done).
  assert (refreshed v (rebuilt rs) = rebuilt rs) as ->
    by (unfold refreshed; rewrite Hv, decide_True by done; done).
  done.
Qed.

(** ** Properties *)

(** C8: weighted round robin shares picks in proportion to the weights.  In a
    run of [T] picks on a pool of [n] backends whose RTTs have just changed to
    [rs], no pick panics, and backend [i] of weight [w] (out of a total [W]) is
    picked between [(T - n) * w / W] and [T * w / W + 1] times, within the
    budget of picks that keeps the [u64] products exact.  The picks are counted
    from the change; a window of later picks can be less even (with weights 3, 1
    and 1 the picks go 0, 1, 2, 0, 0, 0). *)
Theorem wrr_proportional `{Target} rs calls s :
  rs ≠ [] → same_rtts rs calls → rtts s ≠ rs →
  (Z.of_nat (length calls) ≤ PICK_BUDGET)%Z →
  ∃ js s', pick_many (S := WeightedRoundRobin.t) calls s = (Ret js, s') ∧
    ∀ i w, (weight_of <$> rs) !! i = Some w →
      let T := Z.of_nat (length calls) in
      let n := Z.of_nat (length rs) in
      let W := Zsum (weight_of <$> rs) in
      ((T - n) * w ≤ count i js * W ≤ T * w + W)%Z.
Proof.
  intros Hne Hc Hs Hk.
  destruct (wrr_run rs calls (rebuilt rs) Hne Hc eq_refl (rebuilt_safe _ rs Hk) (rebuilt_fair rs))
    as (js & s' & E & _ & _ & Hw & Hf & Hlp & Hsum & Hcnt).
  exists js, (if decide (calls = []) then s else s'). split.
  { case_decide as Hd; [|by rewrite (pick_many_rebuilt rs)]. subst. mrun. by simplify_eq. }
  intros i w Hi. cbn zeta. cbn in Hw, Hsum, Hlp, Hcnt.
  rewrite Zsum_replicate_0 in Hsum. rewrite length_replicate in Hlp.
  specialize (Hcnt i 0%Z). rewrite lookup_replicate in Hcnt.
  assert (i < length rs) by (apply lookup_lt_Some in Hi; by rewrite length_fmap in Hi).
  pose proof (fair_proportional (picks s') (weights s') i (0 + count i js) w) as Hp.
  rewrite Hw, Hsum, Hlp, length_fmap in Hp. apply Hp; [done|..|by apply Hcnt|done].
  unfold fair in Hf. by rewrite Hw in Hf.
Qed.

(** The helper the constants module exports computes the same weight as
    the strategy, and it is between 1 and 1000. *)
Theorem calculate_weight_agrees d :
  calculate_weight d = weight_of (Some d) ∧ (1 ≤ calculate_weight d ≤ 1000)%Z.
Proof.
  assert (E : calculate_weight d = weight_of (Some d)).
  { unfold calculate_weight, weight_of. do 2 f_equal. f_equal.
    unfold try_from_or. case_match; [done|lia]. }
  split; [done|]. rewrite E. apply weight_of_range.
Qed.

(** ** Witnesses *)

(** RTTs of 333 ms, 1 s and 1 s: weights 3, 1 and 1. *)
Definition wrr_view : PoolView := test_view [Some 333%Z; Some 1000%Z; Some 1000%Z] [].

(** The sequence the crate's own test expects. *)
Example wrr_sequence :
  (pick_many (S := WeightedRoundRobin.t) (BalanceStrategy0 := @WeightedRoundRobin_strategy dev64)
     (replicate 5 (rng0, wrr_view)) new).1 = Ret [0; 1; 2; 0; 0].
Proof. vm_compute. reflexivity. Qed.

Lemma wrr_proportional_witness :
  ∃ js s', pick_many (S := WeightedRoundRobin.t)
      (BalanceStrategy0 := @WeightedRoundRobin_strategy dev64)
      (replicate 50 (rng0, wrr_view)) new = (Ret js, s') ∧
    ∀ i w, (weight_of <$> (rtt <$> metrics wrr_view)) !! i = Some w →
      ((50 - 3) * w ≤ count i js * 5 ≤ 50 * w + 5)%Z.
Proof.
  destruct (wrr_proportional (H := dev64) (rtt <$> metrics wrr_view)
              (replicate 50 (rng0, wrr_view)) new) as (js & s' & E & Hb).
  - done.
  - by apply Forall_replicate.
  - done.
  - vm_compute. discriminate.
  - exists js, s'. split; [exact E|]. intros i w Hi. specialize (Hb i w Hi). cbn zeta in Hb.
    change (Zsum _) with 5%Z in Hb. exact Hb.
Defined.
