(* ===== verification/Registry.v ===== *)
(** * Built-in strategies by name and by number

    The free constructors of [src/src/strategies/mod.rs], the [FfiStrategy]
    enum of [src/src/enums/ffi.rs] and its [build] of
    [src/src/ffi/strategy.rs]; and the proof that every built-in strategy
    keeps the contract of [Strategy]. *)

From stdpp Require Import base tactics list numbers strings.
From S2P Require Import Prelude Constants Strategy Strategies Scored WeightedRoundRobin.

Open Scope rota_scope.

Section Constructors.
Context `{Target, Hasher}.

Definition round_robin : dyn_strategy := Dyn RoundRobin.new.
Definition random : dyn_strategy := Dyn Random.new.
Definition lowest_rtt : dyn_strategy := Dyn LowestRtt.new.
Definition least_connections : dyn_strategy := Dyn LeastConnections.new.
Definition hash_by_addr : dyn_strategy := Dyn HashByAddr.new.
Definition weighted_round_robin : dyn_strategy := Dyn WeightedRoundRobin.new.
Definition failover : dyn_strategy := Dyn Failover.new.
Definition health_weighted : dyn_strategy := Dyn HealthWeighted.new.
Definition sticky : dyn_strategy := Dyn Sticky.new.
End Constructors.

Module FfiStrategy.
Inductive t :=
| RoundRobin
| Random
| LowestRtt
| LeastConnections
| HashByAddr
| WeightedRoundRobin
| Failover
| HealthWeighted
| Sticky.

(** The [#[repr(i32)]] discriminant. *)
Definition discriminant (k : t) : Z :=
  match k with
  | RoundRobin => 0
  | Random => 1
  | LowestRtt => 2
  | LeastConnections => 3
  | HashByAddr => 4
  | WeightedRoundRobin => 5
  | Failover => 6
  | HealthWeighted => 7
  | Sticky => 8
  end.

Definition from_i32 (n : Z) : option t :=
  match n with
  | 0 => Some RoundRobin
  | 1 => Some Random
  | 2 => Some LowestRtt
  | 3 => Some LeastConnections
  | 4 => Some HashByAddr
  | 5 => Some WeightedRoundRobin
  | 6 => Some Failover
  | 7 => Some HealthWeighted
  | 8 => Some Sticky
  | _ => None
  end%Z.

Definition name (k : t) : string :=
  match k with
  | RoundRobin => "round_robin"
  | Random => "random"
  | LowestRtt => "lowest_rtt"
  | LeastConnections => "least_connections"
  | HashByAddr => "hash_by_addr"
  | WeightedRoundRobin => "weighted_round_robin"
  | Failover => "failover"
  | HealthWeighted => "health_weighted"
  | Sticky => "sticky"
  end.

Definition build `{Target, Hasher} (k : t) (backend_count : nat) : dyn_strategy :=
  match k with
  | RoundRobin => Dyn Strategies.RoundRobin.new
  | Random => Dyn Strategies.Random.new
  | LowestRtt => Dyn Strategies.LowestRtt.new
  | LeastConnections => Dyn Scored.LeastConnections.new
  | HashByAddr => Dyn Strategies.HashByAddr.new
  | WeightedRoundRobin => Dyn WeightedRoundRobin.WeightedRoundRobin.new
  | Failover => Dyn (Strategies.Failover.with_backend_count backend_count)
  | HealthWeighted => Dyn Scored.HealthWeighted.new
  | Sticky => Dyn Strategies.Sticky.new
  end.
End FfiStrategy.

#[global] Instance FfiStrategy_eq_dec : EqDecision FfiStrategy.t.
Proof. solve_decision. Defined.

(** ** The contract holds for every built-in *)

Lemma wrr_new_safe : wrr_safe PICK_BUDGET WeightedRoundRobin.new.
Proof. repeat split; cbn; (done || constructor). Qed.

Lemma dyn_safe_intro `{Target} {S : Type} `{!BalanceStrategy S} (L : StrategyLaws S) k (s : S) :
  safe k s → dyn_safe k (Dyn s).
Proof. by exists L. Qed.

(** A fresh built-in strategy can serve [PICK_BUDGET] picks. *)
Lemma build_safe `{Target, Hasher} k n : dyn_safe PICK_BUDGET (FfiStrategy.build k n).
Proof. destruct k; apply (dyn_safe_intro _); (exact I || apply wrr_new_safe). Qed.

(** ** Properties *)

(** C7: every built-in strategy stays in range and does not panic.  A run of
    up to [PICK_BUDGET] picks from sane, non-empty views of any sizes returns,
    in both build profiles, one index per view, each valid for its view. *)
Theorem builtin_picks_in_range `{Target, Hasher} k n calls :
  Forall sane_call calls →
  (Z.of_nat (length calls) ≤ PICK_BUDGET)%Z →
  ∃ js s', pick_many calls (FfiStrategy.build k n) = (Ret js, s') ∧
    Forall2 (λ i c, i < PoolView_len c.2) js calls.
Proof.
  intros Hc Hk. apply pick_many_safe; [done|].
  eapply safe_mono; [exact Hk|]. apply build_safe.
Qed.

(** Names agree.  The name a built strategy reports is the enum's name and
    the entry of [STRATEGY_NAMES] at its discriminant. *)
Theorem strategy_names_agree `{Target, Hasher} k n :
  name (FfiStrategy.build k n) = FfiStrategy.name k ∧
  STRATEGY_NAMES !! Z.to_nat (FfiStrategy.discriminant k) = Some (FfiStrategy.name k).
Proof. by destruct k. Qed.

(** The C-side number round trips.  [from_i32] accepts exactly the
    discriminants of the enum and returns the variant they belong to. *)
Theorem from_i32_discriminant n k :
  FfiStrategy.from_i32 n = Some k ↔ FfiStrategy.discriminant k = n.
Proof.
  split; [|by intros <-; destruct k].
  unfold FfiStrategy.from_i32. repeat case_match; intros; by simplify_eq.
Qed.

(** ** Witnesses *)

Lemma builtin_picks_in_range_witness :
  ∃ js s', pick_many [(rng0, view3); (rng0, view2)]
      (@FfiStrategy.build dev64 sum_hasher FfiStrategy.HealthWeighted 3) = (Ret js, s') ∧
    Forall2 (λ i (c : Rng * PoolView), i < PoolView_len c.2) js [(rng0, view3); (rng0, view2)].
Proof.
  apply (builtin_picks_in_range (H := dev64) (H0 := sum_hasher)); [|vm_compute; discriminate].
  repeat constructor; try (intros n Hn; exact Hn); solve_wf.
Defined.
