(* ===== verification/SipHash.v ===== *)
(** * The hash behind [HashByAddr]

    [DefaultHasher::new()] ([src/src/strategies/hash_by_addr.rs]) leaves its
    algorithm open, so the strategy is modelled over any [Hasher]; today's std
    has SipHash-1-3 with zero keys, and a [str] is hashed as its bytes followed
    by 0xff.  This file is that instance, on 64-bit words with their wrap-around,
    checked against the published vectors. *)

From Stdlib Require Import Ascii.
From stdpp Require Import base tactics list numbers strings.
From S2P Require Import Prelude Strategy Strategies.

Open Scope rota_scope.
Local Open Scope Z_scope.

Definition wrap64 (x : Z) : Z := x mod 2 ^ 64.
Definition wrapping_add (a b : Z) : Z := wrap64 (a + b).
Definition rotate_left (x : Z) (n : Z) : Z :=
  Z.lor (wrap64 (Z.shiftl x n)) (Z.shiftr x (64 - n)).

(** The state of a SipHash. *)
Record sip := { v0 : Z; v1 : Z; v2 : Z; v3 : Z }.

Definition compress (s : sip) : sip :=
  let a := wrapping_add (v0 s) (v1 s) in
  let c := wrapping_add (v2 s) (v3 s) in
  let b := Z.lxor (rotate_left (v1 s) 13) a in
  let d := Z.lxor (rotate_left (v3 s) 16) c in
  let a := rotate_left a 32 in
  let a' := wrapping_add a d in
  let c' := wrapping_add c b in
  {| v0 := a'; v1 := Z.lxor (rotate_left b 17) c'; v2 := rotate_left c' 32;
     v3 := Z.lxor (rotate_left d 21) a' |}.

Definition rounds (n : nat) (s : sip) : sip := Nat.iter n compress s.

Definition sip_init (k0 k1 : Z) : sip :=
  {| v0 := Z.lxor k0 0x736f6d6570736575; v1 := Z.lxor k1 0x646f72616e646f6d;
     v2 := Z.lxor k0 0x6c7967656e657261; v3 := Z.lxor k1 0x7465646279746573 |}.

(** Absorb one word. *)
Definition absorb (c : nat) (m : Z) (s : sip) : sip :=
  let s := rounds c {| v0 := v0 s; v1 := v1 s; v2 := v2 s; v3 := Z.lxor (v3 s) m |} in
  {| v0 := Z.lxor (v0 s) m; v1 := v1 s; v2 := v2 s; v3 := v3 s |}.

(** Little-endian words. *)
Fixpoint word (bs : list Z) : Z :=
  match bs with [] => 0 | b :: bs' => b + 256 * word bs' end.

(** The message in words of eight bytes; the last one holds what is left and
    the length.  A fuel of the message's length is enough. *)
Fixpoint sip_words (fuel : nat) (len : Z) (bs : list Z) : list Z :=
  match fuel with
  | O => []
  | S fuel' =>
      if decide (length bs < 8)%nat then [Z.lor (Z.shiftl (len mod 256) 56) (word bs)]
      else word (take 8 bs) :: sip_words fuel' len (drop 8 bs)
  end.

Definition siphash (c d : nat) (k0 k1 : Z) (bs : list Z) : Z :=
  let ms := sip_words (S (length bs)) (Z.of_nat (length bs)) bs in
  let s := foldl (λ s m, absorb c m s) (sip_init k0 k1) ms in
  let s := rounds d {| v0 := v0 s; v1 := v1 s; v2 := Z.lxor (v2 s) 0xff; v3 := v3 s |} in
  Z.lxor (Z.lxor (v0 s) (v1 s)) (Z.lxor (v2 s) (v3 s)).

Fixpoint bytes_of (s : string) : list Z :=
  match s with EmptyString => [] | String a s' => Z.of_nat (nat_of_ascii a) :: bytes_of s' end.

(** [view.dial_addr.hash(&mut hasher); hasher.finish()]. *)
Definition default_hash (s : string) : Z := siphash 1 3 0 0 (bytes_of s ++ [0xff]).

(** ** Lemmas: words stay words *)

Definition is_word (x : Z) : Prop := 0 ≤ x < 2 ^ 64.

Lemma wrap64_word x : is_word (wrap64 x).
Proof. apply Z.mod_pos_bound. lia. Qed.

Lemma word_below x : 0 ≤ x → (∀ i, 64 ≤ i → Z.testbit x i = false) → is_word x.
Proof.
  intros Hx Hb. split; [done|]. destruct (decide (x < 2 ^ 64)) as [?|Hge]; [done|].
  exfalso. assert (0 < x) by lia. pose proof (Z.bit_log2 x ltac:(lia)) as Hbit.
  rewrite Hb in Hbit; [done|]. apply Z.log2_le_pow2; lia.
Qed.

Lemma word_testbit x i : is_word x → 64 ≤ i → Z.testbit x i = false.
Proof.
  intros [H0 H1] Hi. destruct (decide (x = 0)) as [->|]; [apply Z.bits_0|].
  apply Z.bits_above_log2; [done|]. apply Z.log2_lt_pow2; [lia|].
  eapply Z.lt_le_trans; [exact H1|]. apply Z.pow_le_mono_r; lia.
Qed.

Lemma lxor_word x y : is_word x → is_word y → is_word (Z.lxor x y).
Proof.
  intros Hx Hy. apply word_below.
  - apply Z.lxor_nonneg. destruct Hx, Hy. tauto.
  - intros i Hi. by rewrite Z.lxor_spec, !word_testbit.
Qed.

Lemma rotate_word x n : is_word x → 0 ≤ n ≤ 64 → is_word (rotate_left x n).
Proof.
  intros Hx Hn. unfold rotate_left. apply word_below.
  - apply Z.lor_nonneg. split; [apply wrap64_word|]. apply Z.shiftr_nonneg. apply Hx.
  - intros i Hi. rewrite Z.lor_spec, (word_testbit (wrap64 _)) by (done || apply wrap64_word).
    rewrite Z.shiftr_spec by lia. apply word_testbit; [done|lia].
Qed.

Definition sip_ok (s : sip) : Prop :=
  is_word (v0 s) ∧ is_word (v1 s) ∧ is_word (v2 s) ∧ is_word (v3 s).

Create HintDb word discriminated.
#[local] Hint Resolve wrap64_word lxor_word : word.
#[local] Hint Extern 1 (is_word (rotate_left _ _)) => apply rotate_word; [|lia] : word.
#[local] Hint Extern 1 (is_word (wrapping_add _ _)) => apply wrap64_word : word.

Lemma compress_ok s : sip_ok s → sip_ok (compress s).
Proof. intros (? & ? & ? & ?). unfold compress, sip_ok; cbn. auto 8 with word. Qed.

Lemma rounds_ok n s : sip_ok s → sip_ok (rounds n s).
Proof. intros Hs. induction n as [|n IH]; [done|]. by apply compress_ok. Qed.

Lemma absorb_ok c m s : is_word m → sip_ok s → sip_ok (absorb c m s).
Proof.
  intros Hm (? & ? & ? & ?). unfold absorb.
  destruct (rounds_ok c {| v0 := v0 s; v1 := v1 s; v2 := v2 s; v3 := Z.lxor (v3 s) m |}) as (? & ? & ? & ?).
  { unfold sip_ok; cbn. auto with word. }
  unfold sip_ok; cbn. auto with word.
Qed.

Lemma word_range bs k :
  Forall (λ b, 0 ≤ b < 256) bs → Z.of_nat (length bs) ≤ k → 0 ≤ word bs < 256 ^ k.
Proof.
  revert k. induction bs as [|b bs IH]; intros k Hb Hk; cbn [word].
  { split; [done|]. apply Z.pow_pos_nonneg; cbn in Hk; lia. }
  apply Forall_cons in Hb as [Hb Hbs]. cbn [length] in Hk. rewrite Nat2Z.inj_succ in Hk.
  destruct (IH (k - 1) Hbs) as [H0 H1]; [lia|].
  replace k with (Z.succ (k - 1)) by lia. rewrite Z.pow_succ_r by lia. lia.
Qed.

Lemma lor_word x y : is_word x → is_word y → is_word (Z.lor x y).
Proof.
  intros Hx Hy. apply word_below.
  - apply Z.lor_nonneg. destruct Hx, Hy. tauto.
  - intros i Hi. by rewrite Z.lor_spec, !word_testbit.
Qed.

Lemma length_word len : is_word (Z.shiftl (len mod 256) 56).
Proof.
  rewrite Z.shiftl_mul_pow2 by lia. pose proof (Z.mod_pos_bound len 256 ltac:(lia)).
  unfold is_word. change (2 ^ 64) with (256 * 2 ^ 56). lia.
Qed.

Lemma eight_bytes_word bs :
  Forall (λ b, 0 ≤ b < 256) bs → (length bs ≤ 8)%nat → is_word (word bs).
Proof.
  intros Hb Hl. unfold is_word. change (2 ^ 64) with (256 ^ 8). apply word_range; [done|lia].
Qed.

Lemma sip_words_ok fuel len bs :
  Forall (λ b, 0 ≤ b < 256) bs → Forall is_word (sip_words fuel len bs).
Proof.
  revert bs. induction fuel as [|fuel IH]; intros bs Hb; cbn [sip_words]; [constructor|].
  case_decide as Hl; constructor; [|constructor| |].
  - apply lor_word; [apply length_word|]. apply eight_bytes_word; [done|lia].
  - apply eight_bytes_word; [by apply Forall_take|]. rewrite length_take. lia.
  - by apply IH, Forall_drop.
Qed.

Lemma siphash_word c d k0 k1 bs :
  is_word k0 → is_word k1 → Forall (λ b, 0 ≤ b < 256) bs → is_word (siphash c d k0 k1 bs).
Proof.
  intros Hk0 Hk1 Hb. unfold siphash.
  assert (Hs : sip_ok (foldl (λ s m, absorb c m s) (sip_init k0 k1)
    (sip_words (S (length bs)) (Z.of_nat (length bs)) bs))).
  { pose proof (sip_words_ok (S (length bs)) (Z.of_nat (length bs)) bs Hb) as Hw. revert Hw.
    assert (Hi : sip_ok (sip_init k0 k1)).
    { unfold sip_ok, sip_init; cbn. by split_and!; (apply lxor_word; [done|]); vm_compute. }
    generalize dependent (sip_init k0 k1). induction (sip_words _ _ _) as [|m ms IH]; intros s Hs Hw;
      [done|]. apply Forall_cons in Hw as [Hm Hw]. cbn. apply IH; [by apply absorb_ok|done]. }
  destruct Hs as (? & ? & ? & ?). set (s := foldl _ _ _) in *.
  destruct (rounds_ok d {| v0 := v0 s; v1 := v1 s; v2 := Z.lxor (v2 s) 255; v3 := v3 s |})
    as (? & ? & ? & ?).
  { unfold sip_ok; cbn. split_and!; try done. by apply lxor_word. }
  auto with word.
Qed.

Lemma bytes_of_range s : Forall (λ b, 0 ≤ b < 256) (bytes_of s).
Proof.
  induction s as [|a s IH]; cbn; [constructor|]. constructor; [|done].
  pose proof (nat_ascii_bounded a). lia.
Qed.

(** The hash is a [u64]: std's hasher is an instance of the parameter. *)
Lemma default_hash_word s : 0 ≤ default_hash s ≤ u64_MAX.
Proof.
  destruct (siphash_word 1 3 0 0 (bytes_of s ++ [0xff])) as [H0 H1]; [done|done| |].
  { apply Forall_app_2; [apply bytes_of_range|]. by repeat constructor. }
  unfold default_hash, u64_MAX. lia.
Qed.

Definition DefaultHasher : Hasher := {| hash_str := default_hash; hash_str_u64 := default_hash_word |}.

(** The vectors of the SipHash paper (2-4, key and message 00 01 02 ...) and
    the first of std's for 1-3. *)
Definition k0_test : Z := word [0; 1; 2; 3; 4; 5; 6; 7].
Definition k1_test : Z := word [8; 9; 10; 11; 12; 13; 14; 15].
Example siphash_vectors :
  siphash 2 4 k0_test k1_test [] = 0x726fdb47dd0e0e31 ∧
  siphash 2 4 k0_test k1_test [0] = 0x74f839c593dc67fd ∧
  siphash 2 4 k0_test k1_test [0; 1] = 0x0d6c8009d9a94f5a ∧
  siphash 2 4 k0_test k1_test [0; 1; 2; 3; 4; 5; 6; 7; 8; 9; 10; 11; 12; 13; 14] = 0xa129ca6149be45e5 ∧
  siphash 1 3 k0_test k1_test [] = 0xabac0158050fc4dc.
Proof. vm_compute. auto 6. Qed.
