(* ===== verification/Address.v ===== *)
(** * Dial addresses

    [validate_dial_addr] of [src/src/services/balancer.rs] with the parts of
    std it calls: [str::rsplit_once] on a character and [u16::from_str].
    Strings are byte strings; both functions only look at ASCII bytes. *)

From Stdlib Require Import Ascii.
From stdpp Require Import base tactics list numbers strings pretty.
From S2P Require Import Prelude Errors.

Open Scope rota_scope.

(** [s.rsplit_once(c)]: split at the last [c]. *)
Fixpoint rsplit_once (c : Ascii.ascii) (s : string) : option (string * string) :=
  match s with
  | EmptyString => None
  | String a s' =>
      match rsplit_once c s' with
      | Some (h, p) => Some (String a h, p)
      | None => if decide (a = c) then Some (EmptyString, s') else None
      end
  end.

Definition digit (a : Ascii.ascii) : option Z :=
  let n := Z.of_nat (Ascii.nat_of_ascii a) in
  if (48 <=? n)%Z && (n <=? 57)%Z then Some (n - 48)%Z else None.

(** The digit loop of [from_str_radix(10)]: [None] on a bad digit or overflow. *)
Fixpoint parse_digits (max acc : Z) (s : string) : option Z :=
  match s with
  | EmptyString => Some acc
  | String a s' =>
      match digit a with
      | None => None
      | Some d =>
          let acc' := (acc * 10 + d)%Z in
          if (acc' <=? max)%Z then parse_digits max acc' s' else None
      end
  end.

(** [s.parse::<u16>()]: one leading plus is allowed, then at least one digit. *)
Definition parse_u16 (s : string) : option Z :=
  match s with
  | EmptyString => None
  | String a s' =>
      if decide (a = "+"%char) then
        match s' with EmptyString => None | _ => parse_digits u16_MAX 0 s' end
      else parse_digits u16_MAX 0 s
  end.

Definition validate_dial_addr (addr : string) : Result unit Error.t :=
  match rsplit_once ":"%char addr with
  | None => Err (Error.invalid_address addr ("expected " +:+ quote +:+ "host:port" +:+ quote))
  | Some (host, port) =>
      if decide (host = EmptyString) then Err (Error.invalid_address addr "empty host")
      else
        match parse_u16 port with
        | None => Err (Error.invalid_address addr "port must be 1-65535")
        | Some p =>
            if (p =? 0)%Z then Err (Error.invalid_address addr "port must be 1-65535")
            else Ok tt
        end
  end.

(** [format!("{host}:{port}")] for a port number. *)
Definition host_port (host : string) (port : N) : string := host +:+ ":" +:+ pretty port.

(** ** Lemmas *)

Fixpoint no_char (c : Ascii.ascii) (s : string) : Prop :=
  match s with EmptyString => True | String a s' => a ≠ c ∧ no_char c s' end.

Lemma rsplit_once_None c s : rsplit_once c s = None ↔ no_char c s.
Proof.
  induction s as [|a s IH]; cbn; [done|].
  destruct (rsplit_once c s) as [[h p]|] eqn:E.
  - split; [done|]. intros [_ Hn%IH]. done.
  - case_decide; [by split; [|intros []]|]. tauto.
Qed.

Lemma rsplit_once_Some c s h p :
  rsplit_once c s = Some (h, p) ↔ s = h +:+ String c p ∧ no_char c p.
Proof.
  revert h. induction s as [|a s IH]; intros h; cbn.
  { split; [done|]. by destruct h as [|? h]; intros [? _]. }
  destruct (rsplit_once c s) as [[h' p']|] eqn:E.
  - split.
    + intros [= <- <-]. destruct (proj1 (IH h') eq_refl) as [-> ?]. done.
    + intros [Hs Hp]. destruct h as [|a' h]; injection Hs as -> Hs.
      * exfalso. subst. apply rsplit_once_None in Hp. congruence.
      * pose proof (proj2 (IH h) (conj Hs Hp)). by simplify_eq.
  - pose proof (proj1 (rsplit_once_None c s) E) as Hn. case_decide as Ha.
    + subst. split; [by intros [= <- <-]|]. intros [Hs Hp].
      destruct h as [|a' h]; injection Hs as Hs; [by subst|].
      by pose proof (proj2 (IH h) (conj H Hp)).
    + split; [done|]. intros [Hs Hp]. destruct h as [|a' h]; injection Hs as ? Hs; [done|].
      by pose proof (proj2 (IH h) (conj Hs Hp)).
Qed.

Lemma parse_digits_no_colon max acc s p : parse_digits max acc s = Some p → no_char ":"%char s.
Proof.
  revert acc. induction s as [|a s IH]; intros acc; cbn; [done|].
  destruct (digit a) as [d|] eqn:Hd; [|done]. case_match; [|done]. intros E.
  split; [|by eapply IH]. by intros ->.
Qed.

Lemma parse_u16_no_colon s p : parse_u16 s = Some p → no_char ":"%char s.
Proof.
  destruct s as [|a s]; [done|]. unfold parse_u16. case_decide; [|apply parse_digits_no_colon].
  destruct s as [|a' s]; [done|]. intros E%parse_digits_no_colon. subst. by split.
Qed.

Lemma digit_range a d : digit a = Some d → (0 ≤ d ≤ 9)%Z.
Proof. unfold digit. case_match eqn:E; [|done]. intros [= <-]. lia. Qed.

Lemma parse_digits_range max acc s p :
  (0 ≤ acc ≤ max)%Z → parse_digits max acc s = Some p → (0 ≤ p ≤ max)%Z.
Proof.
  revert acc. induction s as [|a s IH]; intros acc Hacc; cbn; [by intros [= <-]|].
  destruct (digit a) as [d|] eqn:Hd; [|done]. apply digit_range in Hd.
  case_match; breflect; [|done]. apply IH. lia.
Qed.

Lemma parse_u16_range s p : parse_u16 s = Some p → (0 ≤ p ≤ u16_MAX)%Z.
Proof.
  unfold parse_u16. destruct s as [|a s]; [done|].
  repeat case_match; try done; by apply parse_digits_range.
Qed.

(** Printing then parsing. *)
Lemma digit_pretty x : (x < 10)%N → digit (pretty_N_char x) = Some (Z.of_N x).
Proof.
  intros Hx. assert (x = 0 ∨ x = 1 ∨ x = 2 ∨ x = 3 ∨ x = 4 ∨ x = 5 ∨ x = 6 ∨ x = 7 ∨
    x = 8 ∨ x = 9)%N as Hc by lia.
  by destruct_or! Hc; subst.
Qed.

Lemma parse_digits_pretty_go max x s :
  (Z.of_N x ≤ max)%Z → parse_digits max 0 (pretty_N_go x s) = parse_digits max (Z.of_N x) s.
Proof.
  revert s. induction (N.lt_wf_0 x) as [x _ IH]; intros s Hx.
  destruct (decide (x = 0%N)) as [->|Hne]; [by rewrite pretty_N_go_0|].
  rewrite pretty_N_go_step by lia.
  pose proof (N.div_mod x 10 ltac:(done)). pose proof (N.mod_lt x 10 ltac:(done)).
  assert (Hlt : (x `div` 10 < x)%N) by (apply N.div_lt; lia).
  rewrite IH; [|done|clear -Hlt Hx; lia]. cbn.
  rewrite digit_pretty by done.
  replace (Z.of_N (x `div` 10) * 10 + Z.of_N (x `mod` 10))%Z with (Z.of_N x) by lia.
  apply Z.leb_le in Hx. by rewrite Hx.
Qed.

Lemma parse_u16_pretty x : (Z.of_N x ≤ u16_MAX)%Z → parse_u16 (pretty x) = Some (Z.of_N x).
Proof.
  intros Hx. destruct (decide (x = 0%N)) as [->|Hne]; [done|].
  assert (E : parse_digits u16_MAX 0 (pretty x) = Some (Z.of_N x)).
  { unfold pretty, pretty_N. rewrite decide_False by done. by rewrite parse_digits_pretty_go. }
  unfold parse_u16. destruct (pretty x) as [|a s] eqn:Ep; cbn in E.
  - simplify_eq. lia.
  - rewrite decide_False; [exact E|]. intros ->. by cbn in E.
Qed.

Lemma validate_split host port :
  no_char ":"%char port →
  validate_dial_addr (host +:+ String ":" port) =
    if decide (host = EmptyString)
    then Err (Error.invalid_address (host +:+ String ":" port) "empty host")
    else match parse_u16 port with
         | Some p => if (p =? 0)%Z
                     then Err (Error.invalid_address (host +:+ String ":" port) "port must be 1-65535")
                     else Ok tt
         | None => Err (Error.invalid_address (host +:+ String ":" port) "port must be 1-65535")
         end.
Proof.
  intros Hn. unfold validate_dial_addr.
  by rewrite (proj2 (rsplit_once_Some ":"%char (host +:+ String ":" port) host port)).
Qed.

(** Formatting and parsing a port. *)
Lemma pretty_port port :
  (1 ≤ port ≤ 65535)%N →
  parse_u16 (pretty port) = Some (Z.of_N port) ∧ no_char ":"%char (pretty port).
Proof.
  intros Hp. assert (E : parse_u16 (pretty port) = Some (Z.of_N port)).
  { apply parse_u16_pretty. unfold u16_MAX. lia. }
  split; [done|]. by eapply parse_u16_no_colon.
Qed.

Lemma host_port_valid host port :
  host ≠ EmptyString → (1 ≤ port ≤ 65535)%N → validate_dial_addr (host_port host port) = Ok tt.
Proof.
  intros Hh Hp. destruct (pretty_port port Hp) as [E Hn]. unfold host_port.
  change (":" +:+ pretty port) with (String ":" (pretty port)).
  rewrite validate_split by done. rewrite decide_False, E by done.
  by replace (Z.of_N port =? 0)%Z with false by lia.
Qed.

(** A joined address is accepted exactly when both parts are there. *)
Lemma host_port_dialable host port :
  (port ≤ 65535)%N → validate_dial_addr (host_port host port) = Ok tt ↔ host ≠ EmptyString ∧ port ≠ 0%N.
Proof.
  intros Hp. destruct (decide (port = 0%N)) as [->|Hne].
  - split; [|by intros [_ ?]]. unfold host_port. change (":" +:+ pretty 0%N) with (String ":" "0").
    rewrite validate_split by done. by case_decide.
  - split; [|intros [Hh _]; apply host_port_valid; [done|lia]]. intros E. split; [|done]. intros ->. revert E.
    destruct (pretty_port port) as [_ Hn]; [lia|]. unfold host_port.
    change (":" +:+ pretty port) with (String ":" (pretty port)). by rewrite validate_split.
Qed.

(** ** Properties *)

(** C35: an address is accepted exactly when it is a non-empty host, a colon
    and a decimal port between 1 and 65535 (which [u16::from_str] also reads
    with leading zeros or one leading plus). *)
Theorem validate_accepts_iff addr :
  validate_dial_addr addr = Ok tt ↔
  ∃ host port p, addr = host +:+ String ":" port ∧ host ≠ EmptyString ∧
    parse_u16 port = Some p ∧ (1 ≤ p ≤ 65535)%Z.
Proof.
  split.
  - intros E. unfold validate_dial_addr in E.
    destruct (rsplit_once ":"%char addr) as [[host port]|] eqn:Hr; [|done].
    apply rsplit_once_Some in Hr as [-> _]. case_decide; [done|].
    destruct (parse_u16 port) as [p|] eqn:Hp; [|done]. pose proof (parse_u16_range _ _ Hp) as Hb.
    destruct (p =? 0)%Z eqn:?; breflect; [done|]. exists host, port, p.
    unfold u16_MAX in Hb. repeat split; [done..|lia|lia].
  - intros (host & port & p & -> & Hh & Hp & Hr).
    rewrite validate_split by (by eapply parse_u16_no_colon).
    rewrite decide_False, Hp by done. by replace (p =? 0)%Z with false by lia.
Qed.

(** An address printed from a host and a port number is accepted: for
    every non-empty host and port from 1 to 65535, formatting the pair gives an
    address whose last part parses back to the port. *)
Theorem formatted_addr_accepted host port :
  host ≠ EmptyString → (1 ≤ port ≤ 65535)%N →
  validate_dial_addr (host_port host port) = Ok tt ∧
  rsplit_once ":"%char (host_port host port) = Some (host, pretty port) ∧
  parse_u16 (pretty port) = Some (Z.of_N port).
Proof.
  intros Hh Hp. destruct (pretty_port port Hp) as [E Hn].
  split; [by apply host_port_valid|]. split; [|done]. by apply rsplit_once_Some.
Qed.

(** A rejected address is reported back unchanged with the reason of the
    first check it fails: no colon, then an empty host, then a bad port. *)
Theorem validate_error_reason addr e :
  validate_dial_addr addr = Err e →
  ∃ r, e = Error.invalid_address addr r ∧
    ((no_char ":"%char addr ∧ r = "expected " +:+ quote +:+ "host:port" +:+ quote) ∨
     (∃ host port, addr = host +:+ String ":" port ∧ no_char ":"%char port ∧
        ((host = EmptyString ∧ r = "empty host") ∨
         (host ≠ EmptyString ∧ (parse_u16 port = None ∨ parse_u16 port = Some 0%Z) ∧
          r = "port must be 1-65535")))).
Proof.
  unfold validate_dial_addr.
  destruct (rsplit_once ":"%char addr) as [[host port]|] eqn:Hr.
  - apply rsplit_once_Some in Hr as [Hr Hn]. case_decide as Hh.
    + intros [= <-]. eexists. split; [done|]. right. eauto 10.
    + intros E. exists "port must be 1-65535". destruct (parse_u16 port) as [p|] eqn:Hp.
      * destruct (p =? 0)%Z eqn:?; breflect; [|done]. simplify_eq. split; [done|].
        right. exists host, port. auto 10.
      * simplify_eq. split; [done|]. right. exists host, port. auto 10.
  - apply rsplit_once_None in Hr. intros [= <-]. eexists. split; [done|]. by left.
Qed.

(** ** Witnesses *)

(** The addresses of the crate's own tests. *)
Example validate_examples :
  (is_ok ∘ validate_dial_addr) <$>
    ["example.com:443"; "10.0.0.1:80"; "example.com"; ":443"; "example.com:0";
     "example.com:notaport"; "[::1]:8080"; "h:65536"; "h:+80"] =
  [true; true; false; false; false; false; true; false; true].
Proof. vm_compute. reflexivity. Qed.

Lemma formatted_addr_accepted_witness :
  validate_dial_addr (host_port "10.0.0.1" 8080) = Ok tt ∧
  rsplit_once ":"%char (host_port "10.0.0.1" 8080) = Some ("10.0.0.1", pretty 8080%N) ∧
  parse_u16 (pretty 8080%N) = Some 8080%Z.
Proof. apply (formatted_addr_accepted "10.0.0.1" 8080); [done|lia]. Defined.

Lemma validate_error_reason_witness :
  ∃ r, Error.invalid_address "example.com:0" "port must be 1-65535" =
         Error.invalid_address "example.com:0" r ∧
    ((no_char ":"%char "example.com:0" ∧
      r = "expected " +:+ quote +:+ "host:port" +:+ quote) ∨
     (∃ host port, "example.com:0" = host +:+ String ":" port ∧ no_char ":"%char port ∧
        ((host = EmptyString ∧ r = "empty host") ∨
         (host ≠ EmptyString ∧ (parse_u16 port = None ∨ parse_u16 port = Some 0%Z) ∧
          r = "port must be 1-65535")))).
Proof. apply validate_error_reason. vm_compute. reflexivity. Defined.
