(* ===== verification/SocketAddr.v ===== *)
(** * Socket addresses

    The part of std the etcd source uses: [str::parse::<SocketAddr>] and
    [SocketAddr::to_string].  The parser is std's recursive descent over bytes
    (a failed reader leaves its input unread), the printer its [Display]. *)

From Stdlib Require Import Ascii.
From stdpp Require Import base tactics list numbers strings pretty.
From S2P Require Import Prelude Errors Address.

Open Scope rota_scope.

(** ** Addresses *)

Record Ipv4Addr := { oct0 : N; oct1 : N; oct2 : N; oct3 : N }.
(** The eight 16-bit segments. *)
Definition Ipv6Addr := list N.

Inductive SocketAddr :=
| V4 (ip : Ipv4Addr) (port : N)
| V6 (ip : Ipv6Addr) (port flowinfo scope_id : N).

Definition port (a : SocketAddr) : N :=
  match a with V4 _ p => p | V6 _ p _ _ => p end.

#[global] Instance Ipv4Addr_eq_dec : EqDecision Ipv4Addr.
Proof. solve_decision. Defined.
#[global] Instance SocketAddr_eq_dec : EqDecision SocketAddr.
Proof. solve_decision. Defined.

(** ** Readers *)

(** A reader consumes a prefix of its input. *)
Definition reader (A : Type) : Type := string → option (A * string).

Definition read_given_char (c : ascii) : reader unit := λ s,
  match s with String a s' => if decide (a = c) then Some (tt, s') else None | _ => None end.

(** [read_separator(sep, index, inner)]: the separator before all but the first. *)
Definition read_separator {A} (sep : ascii) (first : bool) (inner : reader A) : reader A := λ s,
  if first then inner s else '(_, s') ← read_given_char sep s; inner s'.

(** [char::to_digit]. *)
Definition to_digit (radix : N) (a : ascii) : option N :=
  let n := N_of_ascii a in
  let d := if (48 <=? n)%N && (n <=? 57)%N then Some (n - 48)%N
           else if (97 <=? n)%N && (n <=? 122)%N then Some (n - 87)%N
           else if (65 <=? n)%N && (n <=? 90)%N then Some (n - 55)%N
           else None in
  match d with Some d => if (d <? radix)%N then Some d else None | None => None end.

(** The digit loop of [read_number]: more than [max_digits] digits fail, or,
    without a limit, a value beyond the type's maximum. *)
Fixpoint read_digits (radix : N) (max_digits : option nat) (tmax acc : N) (count : nat) (s : string) :
    option (N * nat * string) :=
  match s with
  | EmptyString => Some (acc, count, s)
  | String a s' =>
      match to_digit radix a with
      | None => Some (acc, count, s)
      | Some d =>
          let acc' := (acc * radix + d)%N in
          let fail := match max_digits with
                      | Some m => bool_decide (m < S count)
                      | None => bool_decide (tmax < acc')%N
                      end in
          if fail then None else read_digits radix max_digits tmax acc' (S count) s'
      end
  end.

(** [read_number] at a type with maximum [tmax]. *)
Definition read_number (radix : N) (max_digits : option nat) (tmax : N) (allow_zero_prefix : bool) :
    reader N := λ s,
  let has_leading_zero := match s with String a _ => bool_decide (a = "0"%char) | _ => false end in
  '(x, count, s') ← read_digits radix max_digits tmax 0 0 s;
  if decide (count = 0) then None
  else if negb allow_zero_prefix && has_leading_zero && bool_decide (1 < count) then None
  else if (x <=? tmax)%N then Some (x, s') else None.

Definition read_octet : reader N := read_number 10 (Some 3) 255 false.
Definition read_group : reader N := read_number 16 (Some 4) 65535 true.

Definition read_ipv4_addr : reader Ipv4Addr := λ s,
  '(a, s) ← read_separator "." true read_octet s;
  '(b, s) ← read_separator "." false read_octet s;
  '(c, s) ← read_separator "." false read_octet s;
  '(d, s) ← read_separator "." false read_octet s;
  Some ({| oct0 := a; oct1 := b; oct2 := c; oct3 := d |}, s).

(** [u16::from_be_bytes] on the two halves of an embedded address. *)
Definition v4_groups (a : Ipv4Addr) : list N :=
  [(oct0 a * 256 + oct1 a)%N; (oct2 a * 256 + oct3 a)%N].

(** [read_groups] with [k] slots left: the groups read, whether an embedded
    IPv4 address ended them, and what was left. *)
Fixpoint read_groups (k : nat) (first : bool) (s : string) : list N * bool * string :=
  match k with
  | 0 => ([], false, s)
  | S k' =>
      match (if decide (1 < k) then read_separator ":" first read_ipv4_addr s else None) with
      | Some (v4, s') => (v4_groups v4, true, s')
      | None =>
          match read_separator ":" first read_group s with
          | Some (g, s') => let '(gs, ipv4, s'') := read_groups k' false s' in (g :: gs, ipv4, s'')
          | None => ([], false, s)
          end
      end
  end.

Definition read_ipv6_addr : reader Ipv6Addr := λ s,
  let '(head, head_ipv4, s) := read_groups 8 true s in
  if decide (length head = 8) then Some (head, s)
  else if head_ipv4 : bool then None
  else
    '(_, s) ← read_given_char ":" s;
    '(_, s) ← read_given_char ":" s;
    let '(tail, _, s) := read_groups (8 - (length head + 1)) true s in
    Some (head ++ replicate (8 - length head - length tail) 0%N ++ tail, s).

Definition read_port : reader N := λ s,
  '(_, s) ← read_given_char ":" s; read_number 10 None 65535 true s.
Definition read_scope_id : reader N := λ s,
  '(_, s) ← read_given_char "%" s; read_number 10 None 4294967295 true s.

Definition read_socket_addr_v4 : reader SocketAddr := λ s,
  '(ip, s) ← read_ipv4_addr s; '(p, s) ← read_port s; Some (V4 ip p, s).
Definition read_socket_addr_v6 : reader SocketAddr := λ s,
  '(_, s) ← read_given_char "[" s;
  '(ip, s) ← read_ipv6_addr s;
  let '(scope, s) := default (0%N, s) (read_scope_id s) in
  '(_, s) ← read_given_char "]" s;
  '(p, s) ← read_port s;
  Some (V6 ip p 0 scope, s).

(** [str::parse::<SocketAddr>()]: the whole input must be read. *)
Definition parse_socket_addr (s : string) : option SocketAddr :=
  match (match read_socket_addr_v4 s with Some r => Some r | None => read_socket_addr_v6 s end) with
  | Some (a, EmptyString) => Some a
  | _ => None
  end.

(** ** Printing *)

Definition hex_char (d : N) : ascii :=
  ascii_of_N (if (d <? 10)%N then 48 + d else 87 + d).
(** [{:x}], digit by digit from the right; four steps are enough for a [u16]. *)
Fixpoint hex_go (fuel : nat) (x : N) (s : string) : string :=
  match fuel with
  | 0 => s
  | S fuel' =>
      let s' := String (hex_char (x `mod` 16)) s in
      if (x `div` 16 =? 0)%N then s' else hex_go fuel' (x `div` 16) s'
  end.
Definition hex (x : N) : string := hex_go 4 x "".

Definition ipv4_text (a : Ipv4Addr) : string :=
  pretty (oct0 a) +:+ "." +:+ pretty (oct1 a) +:+ "." +:+ pretty (oct2 a) +:+ "." +:+ pretty (oct3 a).

(** [to_ipv4_mapped]. *)
Definition to_ipv4_mapped (ip : Ipv6Addr) : option Ipv4Addr :=
  match ip with
  | [0; 0; 0; 0; 0; 65535; ab; cd]%N =>
      Some {| oct0 := ab `div` 256; oct1 := ab `mod` 256; oct2 := cd `div` 256; oct3 := cd `mod` 256 |}%N
  | _ => None
  end.

(** The first longest run of zero segments: its start and length. *)
Fixpoint zero_span (i : nat) (longest current : nat * nat) (segs : list N) : nat * nat :=
  match segs with
  | [] => longest
  | x :: segs' =>
      if decide (x = 0%N) then
        let current := (if decide (current.2 = 0) then i else current.1, S current.2) in
        let longest := if decide (longest.2 < current.2) then current else longest in
        zero_span (S i) longest current segs'
      else zero_span (S i) longest (0, 0) segs'
  end.

Fixpoint groups_text (first : bool) (segs : list N) : string :=
  match segs with
  | [] => ""
  | x :: segs' => (if first then "" else ":") +:+ hex x +:+ groups_text false segs'
  end.

Definition ipv6_text (ip : Ipv6Addr) : string :=
  match to_ipv4_mapped ip with
  | Some v4 => "::ffff:" +:+ ipv4_text v4
  | None =>
      let '(start, len) := zero_span 0 (0, 0) (0, 0) ip in
      if decide (1 < len) then
        groups_text true (take start ip) +:+ "::" +:+ groups_text true (drop (start + len) ip)
      else groups_text true ip
  end.

(** [SocketAddr::to_string]. *)
Definition socket_addr_text (a : SocketAddr) : string :=
  match a with
  | V4 ip p => host_port (ipv4_text ip) p
  | V6 ip p _ 0 => host_port ("[" +:+ ipv6_text ip +:+ "]") p
  | V6 ip p _ scope => host_port ("[" +:+ ipv6_text ip +:+ "%" +:+ pretty scope +:+ "]") p
  end.

(** The values of the types. *)
Definition ipv4_wf (a : Ipv4Addr) : Prop :=
  (oct0 a < 256 ∧ oct1 a < 256 ∧ oct2 a < 256 ∧ oct3 a < 256)%N.
Definition ipv6_wf (ip : Ipv6Addr) : Prop :=
  length ip = 8 ∧ Forall (λ x, x < 65536)%N ip.
Definition socket_addr_wf (a : SocketAddr) : Prop :=
  match a with
  | V4 ip p => ipv4_wf ip ∧ (p < 65536)%N
  | V6 ip p _ scope => ipv6_wf ip ∧ (p < 65536)%N ∧ (scope < 4294967296)%N
  end.

(** Accepted and refused texts, as std's tests have them. *)
Example parse_examples :
  (λ s, socket_addr_text <$> parse_socket_addr s) <$>
    ["77.88.21.11:80"; "77.88.21.11:00080"; "077.88.21.11:80"; "1.2.3:80"; "1.2.3.256:1"; "1.2.3.4:65536";
     "[2a02:6b8:0:1::1]:53"; "[::127.0.0.1]:22"; "[::FFFF:127.0.0.1]:22"; "[8::]:22"; "[::]:0";
     "[fe80::1%12]:0"; "[1:2:3:4:5:6:7::]:9"; "[1:2:3:4:5:6:7:8::]:9"; "::1:22"; "1.2.3.4"; "host:80";
     "[1:0:0:4:0:0:0:8]:1"; "[1:2:3:4:5:6:1.2.3.4]:1"; "1.2.3.4:80x"] =
  [Some "77.88.21.11:80"; Some "77.88.21.11:80"; None; None; None; None;
   Some "[2a02:6b8:0:1::1]:53"; Some "[::7f00:1]:22"; Some "[::ffff:127.0.0.1]:22"; Some "[8::]:22";
   Some "[::]:0"; Some "[fe80::1%12]:0"; Some "[1:2:3:4:5:6:7:0]:9"; None; None; None; None;
   Some "[1:0:0:4::8]:1"; Some "[1:2:3:4:5:6:102:304]:1"; None].
Proof. vm_compute. reflexivity. Qed.

(** ** Lemmas: numbers *)

Lemma string_app_nil (s : string) : s +:+ "" = s.
Proof. induction s as [|a s IH]; [done|]. change (String a (s +:+ "") = String a s). by rewrite IH. Qed.

Lemma string_app_assoc (s t u : string) : (s +:+ t) +:+ u = s +:+ (t +:+ u).
Proof.
  induction s as [|a s IH]; [done|].
  change (String a ((s +:+ t) +:+ u) = String a (s +:+ (t +:+ u))). by rewrite IH.
Qed.

#[local] Arguments read_separator {A} sep first inner s : simpl never.
#[local] Arguments read_given_char c s : simpl never.
#[local] Arguments read_number radix max_digits tmax allow_zero_prefix s : simpl never.

Lemma read_char_same c s : read_given_char c (String c s) = Some (tt, s).
Proof. unfold read_given_char. by rewrite decide_True. Qed.

Lemma read_sep_same {A} c (inner : reader A) s :
  read_separator c false inner (String c s) = inner s.
Proof. unfold read_separator. by rewrite read_char_same. Qed.

Lemma read_sep_first {A} c (inner : reader A) s : read_separator c true inner s = inner s.
Proof. done. Qed.

Lemma string_char_app a (s : string) : String a "" +:+ s = String a s.
Proof. done. Qed.

(** The value of a text that only has digits. *)
Fixpoint spelled (radix acc : N) (s : string) : option N :=
  match s with
  | EmptyString => Some acc
  | String a s' => d ← to_digit radix a; spelled radix (acc * radix + d) s'
  end.

(** What may follow a number: no further digit. *)
Definition ends_number (radix : N) (s : string) : Prop :=
  match s with EmptyString => True | String a _ => to_digit radix a = None end.

Lemma spelled_ge radix acc s v : (0 < radix)%N → spelled radix acc s = Some v → (acc ≤ v)%N.
Proof.
  intros Hr. revert acc. induction s as [|a s IH]; intros acc; cbn; [intros [= ->]; lia|].
  destruct (to_digit radix a) as [d|]; cbn; [|done]. intros E%IH. nia.
Qed.

(** The digit loop reads a spelled number. *)
Lemma read_digits_spelled radix md tmax acc count s v rest :
  (0 < radix)%N → spelled radix acc s = Some v → ends_number radix rest →
  match md with Some m => count + String.length s ≤ m | None => (v ≤ tmax)%N end →
  read_digits radix md tmax acc count (s +:+ rest) = Some (v, count + String.length s, rest).
Proof.
  intros Hr. revert acc count. induction s as [|a s IH]; intros acc count Hv Hrest Hmax.
  { injection Hv as ->. change ("" +:+ rest) with rest. cbn [String.length]. rewrite Nat.add_0_r.
    destruct rest as [|a rest]; [done|]. cbn in Hrest |- *. by rewrite Hrest. }
  change (String a s +:+ rest) with (String a (s +:+ rest)). cbn in Hv, Hmax |- *.
  destruct (to_digit radix a) as [d|]; cbn in Hv; [|done]. pose proof (spelled_ge _ _ _ _ Hr Hv).
  rewrite Nat.add_succ_r. destruct md as [m|].
  - rewrite bool_decide_false by lia. rewrite IH by (done || lia). done.
  - rewrite bool_decide_false by lia. rewrite IH by done. done.
Qed.

(** A leading zero is refused only before further digits. *)
Definition no_leading_zero (s : string) : Prop :=
  match s with String "0" (String _ _) => False | _ => True end.

Lemma read_number_spelled radix md tmax allow s v rest :
  (0 < radix)%N → spelled radix 0 s = Some v → ends_number radix rest → s ≠ "" → (v ≤ tmax)%N →
  match md with Some m => String.length s ≤ m | None => True end →
  (allow = true ∨ no_leading_zero s) →
  read_number radix md tmax allow (s +:+ rest) = Some (v, rest).
Proof.
  intros Hr Hv Hrest Hne Hmax Hlen Hz. unfold read_number.
  rewrite (read_digits_spelled radix md tmax 0 0 s v rest) by (done || by destruct md). cbn.
  destruct s as [|a s]; [done|]. cbn [String.length]. rewrite decide_False by lia.
  change (String a s +:+ rest) with (String a (s +:+ rest)). cbn.
  apply N.leb_le in Hmax. rewrite Hmax.
  destruct Hz as [->|Hz]; [done|]. destruct allow; [done|]. cbn.
  case_bool_decide as Ha; cbn; [|done]. subst a. destruct s as [|b s]; [|done]. done.
Qed.

(** *** Decimal *)

Lemma to_digit_pretty x : (x < 10)%N → to_digit 10 (pretty_N_char x) = Some x.
Proof.
  intros Hx. assert (x = 0 ∨ x = 1 ∨ x = 2 ∨ x = 3 ∨ x = 4 ∨ x = 5 ∨ x = 6 ∨ x = 7 ∨
    x = 8 ∨ x = 9)%N as Hc by lia.
  by destruct_or! Hc; subst.
Qed.

Lemma pretty_go_spelled x s : spelled 10 0 (pretty_N_go x s) = spelled 10 x s.
Proof.
  revert s. induction (N.lt_wf_0 x) as [x _ IH]; intros s.
  destruct (decide (x = 0%N)) as [->|Hne]; [by rewrite pretty_N_go_0|].
  rewrite pretty_N_go_step, IH by (lia || (apply N.div_lt; lia)). cbn [spelled].
  pose proof (N.mod_lt x 10 ltac:(done)). rewrite to_digit_pretty by done. cbn.
  f_equal. pose proof (N.div_mod x 10 ltac:(done)). lia.
Qed.

Lemma pretty_go_length k x s :
  (x < 10 ^ N.of_nat k)%N → String.length (pretty_N_go x s) ≤ k + String.length s.
Proof.
  revert x s. induction k as [|k IH]; intros x s Hx.
  { assert (x = 0)%N as -> by (cbn in Hx; lia). by rewrite pretty_N_go_0. }
  destruct (decide (x = 0%N)) as [->|Hne]; [rewrite pretty_N_go_0; lia|].
  rewrite pretty_N_go_step by lia. etrans; [apply IH|cbn; lia].
  apply N.Div0.div_lt_upper_bound. by rewrite Nat2N.inj_succ, N.pow_succ_r' in Hx.
Qed.

Lemma pretty_go_first x s :
  (0 < x)%N → ∃ a s', pretty_N_go x s = String a s' ∧ a ≠ "0"%char.
Proof.
  revert s. induction (N.lt_wf_0 x) as [x _ IH]; intros s Hx. rewrite pretty_N_go_step by done.
  destruct (decide (x `div` 10 = 0)%N) as [E|Hne]; [|apply IH; [by apply N.div_lt|by apply N.neq_0_lt_0]].
  rewrite E, pretty_N_go_0. eexists _, _. split; [done|].
  apply N.div_small_iff in E; [|done]. rewrite N.mod_small by done.
  intros Heq. pose proof (to_digit_pretty x E) as Hd. rewrite Heq in Hd. injection Hd as <-. lia.
Qed.

Lemma pretty_spelled x : spelled 10 0 (pretty x) = Some x.
Proof.
  unfold pretty, pretty_N. case_decide as Hx; [by subst|]. by rewrite pretty_go_spelled.
Qed.

Lemma pretty_no_leading_zero (x : N) : no_leading_zero (pretty x) ∧ pretty x ≠ "".
Proof.
  unfold pretty, pretty_N. case_decide as Hx; [done|].
  destruct (pretty_go_first x "" ltac:(lia)) as (a & s & -> & Ha). split; [|done].
  cbn. repeat case_match; done.
Qed.

Lemma read_octet_pretty x rest :
  (x < 256)%N → ends_number 10 rest → read_octet (pretty x +:+ rest) = Some (x, rest).
Proof.
  intros Hx Hrest. pose proof (pretty_no_leading_zero x) as [Hz Hne].
  apply read_number_spelled; [done|apply pretty_spelled|done|done|lia| |by right].
  unfold pretty, pretty_N. case_decide; [cbn; lia|]. etrans; [apply (pretty_go_length 3)|done].
  cbn. lia.
Qed.

Lemma read_decimal_pretty tmax x rest :
  (x ≤ tmax)%N → ends_number 10 rest →
  read_number 10 None tmax true (pretty x +:+ rest) = Some (x, rest).
Proof.
  intros Hx Hrest. apply read_number_spelled; [done|apply pretty_spelled|done| |done|done|by left].
  apply pretty_no_leading_zero.
Qed.

Lemma read_ipv4_text a rest :
  ipv4_wf a → ends_number 10 rest → read_ipv4_addr (ipv4_text a +:+ rest) = Some (a, rest).
Proof.
  intros (H0 & H1 & H2 & H3) Hrest. unfold ipv4_text. rewrite !string_app_assoc, !string_char_app.
  unfold read_ipv4_addr. rewrite read_sep_first, read_octet_pretty by done. cbn.
  do 3 (rewrite read_sep_same, read_octet_pretty by done; cbn).
  by destruct a.
Qed.

(** ** Lemmas: IPv6 groups *)

Lemma to_digit_hex d : (d < 16)%N → to_digit 16 (hex_char d) = Some d.
Proof.
  intros Hd. assert (d = 0 ∨ d = 1 ∨ d = 2 ∨ d = 3 ∨ d = 4 ∨ d = 5 ∨ d = 6 ∨ d = 7 ∨ d = 8 ∨ d = 9 ∨
    d = 10 ∨ d = 11 ∨ d = 12 ∨ d = 13 ∨ d = 14 ∨ d = 15)%N as Hc by lia.
  by destruct_or! Hc; subst.
Qed.

Lemma hex_go_spelled fuel x s :
  (x < 16 ^ N.of_nat fuel)%N → spelled 16 0 (hex_go fuel x s) = spelled 16 x s.
Proof.
  revert x s. induction fuel as [|fuel IH]; intros x s Hx.
  { assert (x = 0)%N as -> by (cbn in Hx; lia). done. }
  pose proof (N.mod_lt x 16 ltac:(done)) as Hm. pose proof (N.div_mod x 16 ltac:(done)) as Hdm.
  cbn [hex_go]. destruct (N.eqb_spec (x `div` 16) 0) as [E|Hne].
  - cbn [spelled]. rewrite to_digit_hex by done. cbn. f_equal. lia.
  - rewrite IH by (apply N.Div0.div_lt_upper_bound; by rewrite Nat2N.inj_succ, N.pow_succ_r' in Hx).
    cbn [spelled]. rewrite to_digit_hex by done. cbn. f_equal. lia.
Qed.

Lemma hex_go_length fuel x s : String.length (hex_go fuel x s) ≤ fuel + String.length s.
Proof.
  revert x s. induction fuel as [|fuel IH]; intros x s; [done|]. cbn [hex_go].
  case_match; [cbn; lia|]. etrans; [apply IH|cbn; lia].
Qed.

Lemma hex_go_ne fuel x s : s ≠ "" ∨ 0 < fuel → hex_go fuel x s ≠ "".
Proof.
  revert x s. induction fuel as [|fuel IH]; intros x s Hs; [cbn; by destruct Hs; [|lia]|].
  cbn [hex_go]. case_match; [done|]. apply IH. by left.
Qed.

Lemma hex_spelled x : (x < 65536)%N → spelled 16 0 (hex x) = Some x.
Proof. intros Hx. unfold hex. by rewrite hex_go_spelled. Qed.

Lemma read_group_hex x rest :
  (x < 65536)%N → ends_number 16 rest → read_group (hex x +:+ rest) = Some (x, rest).
Proof.
  intros Hx Hrest. apply read_number_spelled; [done|by apply hex_spelled|done| |lia| |by left].
  - apply hex_go_ne. right. lia.
  - apply (hex_go_length 4 x "").
Qed.

Lemma read_number_none radix md tmax allow s :
  ends_number radix s → read_number radix md tmax allow s = None.
Proof.
  intros Hs. unfold read_number. destruct s as [|a s]; cbn in Hs |- *; [done|]. by rewrite Hs.
Qed.

(** What follows a group inside the brackets, and what follows the last one. *)
Definition group_end (s : string) : Prop :=
  match s with EmptyString => True | String a _ => a = ":"%char ∨ a = "%"%char ∨ a = "]"%char end.
Definition groups_end (s : string) : Prop :=
  match s with
  | EmptyString => True
  | String a s' =>
      (a = ":"%char ∧ match s' with String b _ => b = ":"%char | _ => False end) ∨
      a = "%"%char ∨ a = "]"%char
  end.

Lemma group_end_number s : group_end s → ends_number 16 s ∧ ends_number 10 s.
Proof. destruct s as [|a s]; [done|]. by intros [->|[->| ->]]. Qed.

Lemma groups_end_group s : groups_end s → group_end s.
Proof. destruct s as [|a s]; [done|]. cbn. tauto. Qed.

(** A hexadecimal group is not taken for the start of an IPv4 address. *)
Lemma read_digits_group md tmax acc0 acc count s v rest r :
  spelled 16 acc0 s = Some v → group_end rest →
  read_digits 10 md tmax acc count (s +:+ rest) = Some r → read_given_char "." r.2 = None.
Proof.
  revert acc0 acc count. induction s as [|a s IH]; intros acc0 acc count Hv Hrest.
  { change ("" +:+ rest) with rest. destruct rest as [|a rest]; [by intros [= <-]|].
    destruct Hrest as [->|[->| ->]]; cbn; by intros [= <-]. }
  change (String a s +:+ rest) with (String a (s +:+ rest)). cbn in Hv |- *.
  destruct (to_digit 10 a) eqn:Hd.
  - destruct (to_digit 16 a); [|done]. cbn in Hv.
    match goal with |- context [if ?b then None else _] => destruct b; [done|] end.
    by eapply IH.
  - intros [= <-]. cbn. unfold read_given_char. case_decide; [|done]. by subst.
Qed.

Lemma read_ipv4_group x rest :
  (x < 65536)%N → group_end rest → read_ipv4_addr (hex x +:+ rest) = None.
Proof.
  intros Hx Hrest. unfold read_ipv4_addr. rewrite read_sep_first.
  destruct (read_octet _) as [[a s]|] eqn:E; [|done]. cbn. unfold read_octet, read_number in E.
  destruct (read_digits _ _ _ _ _ _) as [[[v n] s']|] eqn:Ed; [|done]. cbn in E.
  pose proof (read_digits_group _ _ _ _ _ _ _ _ _ (hex_spelled x Hx) Hrest Ed) as Hdot. cbn in Hdot.
  repeat case_match; try done; injection E as <- <-; unfold read_separator; by rewrite Hdot.
Qed.

Lemma read_ipv4_end s : ends_number 10 s → read_ipv4_addr s = None.
Proof.
  intros Hs. unfold read_ipv4_addr. rewrite read_sep_first. unfold read_octet.
  by rewrite read_number_none.
Qed.

(** Where the groups end, neither reader finds another one. *)
Lemma groups_end_none {A} (inner : reader A) first s :
  groups_end s → (∀ s', group_end s' → inner s' = None) → read_separator ":" first inner s = None.
Proof.
  intros Hs Hi. destruct first; [apply Hi; by apply groups_end_group|].
  destruct s as [|a s]; [done|]. destruct Hs as [[-> Hs]|[->| ->]]; [|done..].
  rewrite read_sep_same. apply Hi. destruct s; [done|]. by left.
Qed.

Lemma read_groups_end k first s : groups_end s → read_groups k first s = ([], false, s).
Proof.
  intros Hs. destruct k as [|k]; [done|]. cbn [read_groups].
  rewrite (groups_end_none read_ipv4_addr) by (done || intros ??; by apply read_ipv4_end, group_end_number).
  rewrite (groups_end_none read_group)
    by (done || intros ??; by apply read_number_none, group_end_number).
  by case_decide.
Qed.

Lemma read_sep_text {A} (inner : reader A) first s :
  read_separator ":" first inner ((if first then "" else ":") +:+ s) = inner s.
Proof. destruct first; [done|]. apply read_sep_same. Qed.

Lemma groups_text_end segs rest : groups_end rest → group_end (groups_text false segs +:+ rest).
Proof. destruct segs; [apply groups_end_group|]. by left. Qed.

Lemma read_groups_text k first segs rest :
  Forall (λ x, x < 65536)%N segs → length segs ≤ k → groups_end rest →
  read_groups k first (groups_text first segs +:+ rest) = (segs, false, rest).
Proof.
  revert k first. induction segs as [|x segs IH]; intros k first Hs Hk Hrest.
  { by apply read_groups_end. }
  apply Forall_cons in Hs as [Hx Hs]. destruct k as [|k]; cbn in Hk; [lia|].
  cbn [groups_text read_groups]. rewrite !string_app_assoc, !read_sep_text.
  pose proof (groups_text_end segs rest Hrest) as He.
  rewrite read_ipv4_group, read_group_hex by (done || by apply group_end_number).
  rewrite IH by (done || lia). by case_decide.
Qed.

(** ** Lemmas: IPv6 addresses *)

(** [ip] has zeros in [start, start + len). *)
Definition zeros (ip : list N) (start len : nat) : Prop :=
  ∀ j, start ≤ j < start + len → ip !! j = Some 0%N.

(** The spans kept by the scan are runs of zeros that end before it. *)
Lemma zero_span_zeros pre segs longest current :
  zeros pre longest.1 longest.2 → zeros pre current.1 current.2 →
  (current.2 = 0 ∨ current.1 + current.2 = length pre) → longest.1 + longest.2 ≤ length pre →
  let r := zero_span (length pre) longest current segs in
  zeros (pre ++ segs) r.1 r.2 ∧ r.1 + r.2 ≤ length (pre ++ segs).
Proof.
  revert pre longest current. induction segs as [|x segs IH]; intros pre [ls ll] [cs cl] Hl Hc Hcur Hle.
  { by rewrite app_nil_r. }
  cbn [zero_span fst snd] in *. rewrite (cons_middle x pre segs), app_assoc.
  replace (S (length pre)) with (length (pre ++ [x])) by (rewrite length_app; cbn; lia).
  assert (Hmono : ∀ s l, zeros pre s l → zeros (pre ++ [x]) s l).
  { intros s l Hz j Hj. apply lookup_app_l_Some. by apply Hz. }
  assert (Hlen : length (pre ++ [x]) = S (length pre)) by (rewrite length_app; cbn; lia).
  case_decide as Hx; [|apply IH; cbn; [by apply Hmono|intros j Hj; lia|by left|lia]]. subst x.
  set (cur := (if decide (cl = 0) then length pre else cs, S cl)).
  assert (Hcz : zeros (pre ++ [0%N]) cur.1 cur.2 ∧ cur.1 + cur.2 = length (pre ++ [0%N])).
  { subst cur. cbn. case_decide; (split; [|lia]); intros j Hj.
    - assert (j = length pre) as -> by lia. by rewrite list_lookup_middle.
    - destruct Hcur as [?|Hcur]; [done|]. destruct (decide (j = length pre)) as [->|].
      + by rewrite list_lookup_middle.
      + apply (Hmono cs cl); [done|lia]. }
  destruct Hcz as [Hcz Hcl].
  assert (cur.2 = 0 ∨ cur.1 + cur.2 = length (pre ++ [0%N])) as Hcur' by (by right).
  case_decide; cbn [fst snd] in *; apply IH; [done..|lia|by apply Hmono|done|done|cbn; lia].
Qed.

Lemma take_zeros_drop ip start len :
  zeros ip start len → take start ip ++ replicate len 0%N ++ drop (start + len) ip = ip.
Proof.
  intros Hz. assert (take len (drop start ip) = replicate len 0%N) as <-.
  { apply list_eq. intros j. destruct (decide (j < len)).
    - rewrite lookup_take_lt, lookup_drop, Hz by lia. symmetry. by apply lookup_replicate_2.
    - rewrite lookup_take_ge by lia. symmetry. apply lookup_replicate_None. lia. }
  by rewrite <-drop_drop, take_drop, take_drop.
Qed.

Lemma mapped_inv ip v4 :
  ipv6_wf ip → to_ipv4_mapped ip = Some v4 →
  ip = replicate 5 0%N ++ 65535%N :: v4_groups v4 ∧ ipv4_wf v4.
Proof.
  intros [_ Hf] E. unfold to_ipv4_mapped in E. repeat case_match; try done. injection E as <-.
  unfold v4_groups, ipv4_wf. cbn.
  repeat match goal with H : Forall _ (_ :: _) |- _ => apply Forall_cons in H as [? H] end.
  split; [|by repeat split; (apply N.Div0.div_lt_upper_bound || apply N.mod_lt)].
  by rewrite !(N.mul_comm _ 256), <-!N.div_mod.
Qed.

(** What closes an address in brackets. *)
Definition ip_end (s : string) : Prop :=
  match s with String a _ => a = "%"%char ∨ a = "]"%char | _ => False end.

Lemma ip_end_groups s : ip_end s → groups_end s ∧ ends_number 10 s.
Proof. destruct s as [|a s]; [done|]. intros [-> | ->]; (split; [cbn; tauto|done]). Qed.

Lemma read_ipv6_mapped v4 rest :
  ipv4_wf v4 → ip_end rest →
  read_ipv6_addr ("::ffff:" +:+ ipv4_text v4 +:+ rest) =
    Some (replicate 5 0%N ++ 65535%N :: v4_groups v4, rest).
Proof.
  intros Hwf [_ Hrest]%ip_end_groups. unfold read_ipv6_addr.
  set (t := String ":" (ipv4_text v4 +:+ rest)).
  change ("::ffff:" +:+ ipv4_text v4 +:+ rest) with (String ":" (String ":" (hex 65535 +:+ t))).
  rewrite read_groups_end by (by left). cbn [length]. rewrite decide_False by done.
  rewrite !read_char_same. cbn [mbind option_bind]. rewrite read_char_same. cbn [mbind option_bind].
  cbn [Nat.sub Nat.add read_groups]. rewrite decide_True by lia. rewrite !read_sep_first.
  rewrite read_ipv4_group, read_group_hex by (done || by left).
  subst t. rewrite decide_True by lia. by rewrite read_sep_same, read_ipv4_text.
Qed.

Lemma read_ipv6_compressed head tail rest :
  Forall (λ x, x < 65536)%N head → Forall (λ x, x < 65536)%N tail → length head + length tail ≤ 6 →
  ip_end rest →
  read_ipv6_addr (groups_text true head +:+ "::" +:+ groups_text true tail +:+ rest) =
    Some (head ++ replicate (8 - length head - length tail) 0%N ++ tail, rest).
Proof.
  intros Hh Ht Hlen [Hrest _]%ip_end_groups. unfold read_ipv6_addr.
  change ("::" +:+ ?s) with (String ":" (String ":" s)).
  rewrite read_groups_text by (done || lia || by left). rewrite decide_False by lia.
  rewrite read_char_same. cbn [mbind option_bind]. rewrite read_char_same. cbn [mbind option_bind].
  by rewrite read_groups_text by (done || lia).
Qed.

Lemma read_ipv6_text ip rest :
  ipv6_wf ip → ip_end rest → read_ipv6_addr (ipv6_text ip +:+ rest) = Some (ip, rest).
Proof.
  intros Hwf Hrest. destruct Hwf as [Hlen Hf]. unfold ipv6_text.
  destruct (to_ipv4_mapped ip) as [v4|] eqn:Em.
  { destruct (mapped_inv ip v4) as [-> Hv4]; [done..|]. rewrite string_app_assoc.
    by apply read_ipv6_mapped. }
  destruct (zero_span_zeros [] ip (0, 0) (0, 0)) as [Hz Hle]; [intros j Hj; cbn in Hj; lia..|by left|done|].
  cbn [length app] in Hz, Hle. destruct (zero_span 0 (0, 0) (0, 0) ip) as [start len]. cbn in Hz, Hle.
  case_decide as Hl.
  - rewrite !string_app_assoc, read_ipv6_compressed;
      [|by apply Forall_take|by apply Forall_drop|rewrite length_take, length_drop; lia|done].
    rewrite length_take, length_drop.
    replace (8 - start `min` length ip - (length ip - (start + len))) with len by lia.
    by rewrite take_zeros_drop.
  - unfold read_ipv6_addr. rewrite read_groups_text; [|done|lia|by apply ip_end_groups].
    by rewrite decide_True.
Qed.

(** ** Lemmas: socket addresses *)

(** Printing then parsing: the flow label is not printed, and parsed as 0. *)
Lemma parse_socket_addr_text a :
  socket_addr_wf a → match a with V6 _ _ flow _ => flow = 0%N | _ => True end →
  parse_socket_addr (socket_addr_text a) = Some a.
Proof.
  assert (Hport : ∀ p, (p < 65536)%N → read_port (":" +:+ pretty p) = Some (p, "")).
  { intros p Hp. unfold read_port. rewrite string_char_app, read_char_same. cbn [mbind option_bind].
    rewrite <-(string_app_nil (pretty p)). by rewrite read_decimal_pretty by (done || lia). }
  unfold parse_socket_addr. destruct a as [ip p|ip p flow scope]; cbn [socket_addr_wf].
  - intros [Hip Hp] _. unfold socket_addr_text, host_port, read_socket_addr_v4.
    rewrite read_ipv4_text by done. cbn. by rewrite Hport.
  - intros (Hip & Hp & Hsc) ->.
    assert (Hread : ∀ t r, ip_end t → default (0%N, t) (read_scope_id t) = (scope, String "]" r) →
      r = ":" +:+ pretty p →
      (match read_socket_addr_v4 ("[" +:+ ipv6_text ip +:+ t) with
       | Some r => Some r | None => read_socket_addr_v6 ("[" +:+ ipv6_text ip +:+ t) end) =
      Some (V6 ip p 0 scope, "")).
    { intros t r Ht Hs ->. rewrite string_char_app. unfold read_socket_addr_v4.
      rewrite read_ipv4_end by done. cbn [mbind option_bind]. unfold read_socket_addr_v6.
      rewrite read_char_same. cbn [mbind option_bind]. rewrite read_ipv6_text by done.
      cbn [mbind option_bind]. rewrite Hs, read_char_same. cbn [mbind option_bind]. by rewrite Hport. }
    destruct scope as [|scope]; unfold socket_addr_text, host_port;
      rewrite !string_app_assoc; (erewrite Hread; [done| | |reflexivity]).
    + by right.
    + done.
    + by left.
    + rewrite string_char_app. unfold read_scope_id. rewrite read_char_same. cbn [mbind option_bind].
      by rewrite read_decimal_pretty by (done || lia).
Qed.

Lemma read_number_range radix md tmax allow s x s' :
  read_number radix md tmax allow s = Some (x, s') → (x ≤ tmax)%N.
Proof.
  unfold read_number. destruct (read_digits _ _ _ _ _ _) as [[[v n] r]|]; cbn; [|done].
  repeat case_match; intros; simplify_eq; by apply N.leb_le.
Qed.

(** Destruct the binds of a reader that succeeded. *)
Local Ltac reader_inv :=
  repeat match goal with
  | H : context [?m ≫= _] |- _ =>
      let r := fresh "r" in
      destruct m as [[? r]|] eqn:?; cbn [mbind option_bind] in H; [|discriminate]
  end.

Lemma read_separator_inv {A} c first (inner : reader A) s r :
  read_separator c first inner s = Some r → ∃ s', inner s' = Some r.
Proof.
  unfold read_separator. destruct first; [eauto|]. intros E. reader_inv. eauto.
Qed.

Lemma read_octet_wf first s x s' :
  read_separator "." first read_octet s = Some (x, s') → (x < 256)%N.
Proof. intros [? E%read_number_range]%read_separator_inv. lia. Qed.

Lemma read_ipv4_wf s ip s' : read_ipv4_addr s = Some (ip, s') → ipv4_wf ip.
Proof.
  unfold read_ipv4_addr. intros E. reader_inv. simplify_eq. unfold ipv4_wf. cbn.
  by repeat split; eapply read_octet_wf.
Qed.

Lemma v4_groups_wf ip : ipv4_wf ip → Forall (λ x, x < 65536)%N (v4_groups ip).
Proof. intros (? & ? & ? & ?). repeat constructor; lia. Qed.

Lemma read_groups_wf k first s gs b s' :
  read_groups k first s = (gs, b, s') → length gs ≤ k ∧ Forall (λ x, x < 65536)%N gs.
Proof.
  revert first s gs b s'. induction k as [|k IH]; intros first s gs b s'; cbn [read_groups].
  { intros [= <- <- <-]. split; [done|constructor]. }
  destruct (if decide _ then _ else _) as [[v4 r]|] eqn:E4.
  { case_decide; [|done]. intros [= <- <- <-].
    destruct (read_separator_inv _ _ _ _ _ E4) as (? & E%read_ipv4_wf).
    split; [cbn; lia|by apply v4_groups_wf]. }
  destruct (read_separator _ _ read_group _) as [[g r]|] eqn:Eg.
  - destruct (read_groups k false r) as [[gs' b'] r'] eqn:Er. intros [= <- <- <-].
    destruct (IH _ _ _ _ _ Er) as [Hl Hf].
    destruct (read_separator_inv _ _ _ _ _ Eg) as (? & E%read_number_range).
    split; [cbn; lia|]. constructor; [lia|done].
  - intros [= <- <- <-]. split; [cbn; lia|constructor].
Qed.

Lemma read_ipv6_wf s ip s' : read_ipv6_addr s = Some (ip, s') → ipv6_wf ip.
Proof.
  unfold read_ipv6_addr. destruct (read_groups 8 true s) as [[head b] r] eqn:Eh.
  apply read_groups_wf in Eh as [Hl Hf].
  case_decide; [by intros [= <- <-]|]. destruct b; [done|]. intros E. reader_inv.
  destruct (read_groups (8 - _) _ _) as [[tail b'] r'] eqn:Et.
  apply read_groups_wf in Et as [Hl' Hf']. injection E as <- <-. split.
  - rewrite !length_app, length_replicate. lia.
  - apply Forall_app_2; [done|]. apply Forall_app_2; [by apply Forall_replicate|done].
Qed.

(** What is parsed is in the ranges of the types, and has no flow label. *)
Lemma parse_socket_addr_wf s a :
  parse_socket_addr s = Some a →
  socket_addr_wf a ∧ match a with V6 _ _ flow _ => flow = 0%N | _ => True end.
Proof.
  unfold parse_socket_addr. destruct (read_socket_addr_v4 s) as [[a' r]|] eqn:E4.
  - destruct r; [|done]. intros [= ->]. unfold read_socket_addr_v4 in E4. reader_inv. simplify_eq.
    split; [|done]. split; [by eapply read_ipv4_wf|]. unfold read_port in *. reader_inv.
    assert (n ≤ 65535)%N by (by eapply read_number_range). lia.
  - destruct (read_socket_addr_v6 s) as [[a' r]|] eqn:E6; [|done]. destruct r; [|done].
    intros [= ->]. unfold read_socket_addr_v6 in E6. reader_inv.
    destruct (default _ _) as [scope r'] eqn:Es. reader_inv. simplify_eq.
    split; [|done]. split; [by eapply read_ipv6_wf|]. split.
    + unfold read_port in *. reader_inv. assert (n ≤ 65535)%N by (by eapply read_number_range). lia.
    + unfold read_scope_id in Es. destruct (read_given_char "%" _) as [[? r2]|]; cbn in Es; [|by simplify_eq].
      destruct (read_number 10 None 4294967295 true r2) as [[x r3]|] eqn:En; cbn in Es; simplify_eq; [|lia].
      apply read_number_range in En. lia.
Qed.

(** A printed address is a host, a colon and the port. *)
Lemma socket_addr_host a :
  ∃ host, host ≠ "" ∧ socket_addr_text a = host_port host (port a).
Proof.
  destruct a as [ip p|ip p flow scope].
  - exists (ipv4_text ip). split; [|done]. unfold ipv4_text.
    destruct (pretty_no_leading_zero (oct0 ip)) as [_ Hne]. by destruct (pretty (oct0 ip)).
  - destruct scope; eexists; (split; [|reflexivity]); done.
Qed.
