(* ===== verification/Float64.v ===== *)
(** * The [f64] operations the retry policies use

    IEEE 754 binary64 from the standard library's executable specification
    ([SpecFloat], 53-bit precision, exponent bound 1024), plus the parts of
    std on top of it: [powi], [mul_add], [min] and the conversions between
    [f64] seconds and [Duration]. *)

From Stdlib Require Import ZArith SpecFloat.
From stdpp Require Import base numbers.
From S2P Require Import Prelude.

Open Scope rota_scope.
Local Open Scope Z_scope.

Definition f64 := spec_float.
Definition prec64 : Z := 53.
Definition emax64 : Z := 1024.

Definition f64_of_Z (z : Z) : f64 := binary_normalize prec64 emax64 z 0 false.
(** [m * 2^e], rounded: for literals such as [0.5]. *)
Definition f64_lit (m e : Z) : f64 := binary_normalize prec64 emax64 m e false.
Definition f64_add (x y : f64) : f64 := SFadd prec64 emax64 x y.
Definition f64_mul (x y : f64) : f64 := SFmul prec64 emax64 x y.
Definition f64_div (x y : f64) : f64 := SFdiv prec64 emax64 x y.

Definition f64_is_nan (x : f64) : bool :=
  match x with S754_nan => true | _ => false end.
Definition f64_is_infinite (x : f64) : bool :=
  match x with S754_infinity _ => true | _ => false end.

(** [f64::min]: the other operand when one is NaN. *)
Definition f64_min (x y : f64) : f64 :=
  if f64_is_nan x then y else if f64_is_nan y then x
  else if SFltb x y then x else y.

(** [f64::powi] as the compiler's runtime computes it: square and multiply
    over the bits of the exponent, inverted at the end when it is negative. *)
Fixpoint powi_pos (a r : f64) (n : positive) : f64 :=
  match n with
  | xH => f64_mul r a
  | xO n' => powi_pos (f64_mul a a) r n'
  | xI n' => powi_pos (f64_mul a a) (f64_mul r a) n'
  end.

Definition f64_powi (a : f64) (n : Z) : f64 :=
  match n with
  | Z0 => f64_of_Z 1
  | Zpos p => powi_pos a (f64_of_Z 1) p
  | Zneg p => f64_div (f64_of_Z 1) (powi_pos a (f64_of_Z 1) p)
  end.

(** The exact value of a finite float as mantissa and exponent. *)
Definition f64_exact (x : f64) : option (Z * Z) :=
  match x with
  | S754_zero _ => Some (0, 0)
  | S754_finite s m e => Some (cond_Zopp s (Zpos m), e)
  | _ => None
  end.

(** [x.mul_add(y, z)]: one rounding of the exact [x * y + z]. *)
Definition f64_mul_add (x y z : f64) : f64 :=
  match f64_exact x, f64_exact y, f64_exact z with
  | Some (mx, ex), Some (my, ey), Some (mz, ez) =>
      let e := Z.min (ex + ey) ez in
      binary_normalize prec64 emax64
        (Z.shiftl (mx * my) (ex + ey - e) + Z.shiftl mz (ez - e)) e false
  | _, _, _ => f64_add (f64_mul x y) z
  end.

(** A draw of [rng.gen::<f64>()]: in [0, 1). *)
Definition unit_draw (x : f64) : bool :=
  match x with
  | S754_zero false => true
  | S754_finite false m e =>
      (Zpos m <? 2 ^ 53) && (-1074 <=? e) && (e <? 0) && (Zpos m <? 2 ^ (- e))
  | _ => false
  end.

(** [Duration::as_secs_f64]. *)
Definition as_secs_f64 (d : Duration) : f64 :=
  f64_add (f64_of_Z (d / NANOS_PER_SEC))
          (f64_div (f64_of_Z (d mod NANOS_PER_SEC)) (f64_of_Z NANOS_PER_SEC)).

(** [n / d] to the nearest integer, ties to even. *)
Definition div_half_even (n d : Z) : Z :=
  let q := n / d in
  let r := n mod d in
  match Z.compare (2 * r) d with
  | Lt => q
  | Gt => q + 1
  | Eq => if Z.even q then q else q + 1
  end.

(** [Duration::from_secs_f64]: nanoseconds to the nearest, ties to even; it
    panics on a negative value, on NaN and from 2^64 seconds. *)
Definition from_secs_f64 (x : f64) : outcome Duration :=
  match x with
  | S754_zero _ => Ret 0
  | S754_finite false m e =>
      if (0 <=? e) then
        if (Z.shiftl (Zpos m) e <=? u64_MAX) then Ret (Z.shiftl (Zpos m) e * NANOS_PER_SEC)
        else Panic BadDuration
      else
        if (Z.shiftr (Zpos m) (- e) <=? u64_MAX)
        then Ret (div_half_even (Zpos m * NANOS_PER_SEC) (2 ^ (- e)))
        else Panic BadDuration
  | _ => Panic BadDuration
  end.

(** ** Checks by evaluation *)

Example as_from_secs : from_secs_f64 (as_secs_f64 (from_millis 1500)) = Ret (from_millis 1500).
Proof. vm_compute. reflexivity. Qed.

Example powi_ten : f64_powi (f64_of_Z 2) 10 = f64_of_Z 1024.
Proof. vm_compute. reflexivity. Qed.

Example mul_add_jitter :
  from_secs_f64 (f64_mul_add (f64_lit 1 (-1)) (f64_lit 1 (-1)) (f64_lit 1 (-1))) =
    Ret (from_millis 750).
Proof. vm_compute. reflexivity. Qed.

Example from_secs_f64_negative : from_secs_f64 (f64_of_Z (-1)) = Panic BadDuration.
Proof. vm_compute. reflexivity. Qed.

(** ** Lemmas *)

(** Which floats convert: exactly the zeros and the positive finite values
    below 2^64 seconds. *)
Lemma from_secs_f64_cases x :
  (∃ d, from_secs_f64 x = Ret d) ∨ from_secs_f64 x = Panic BadDuration.
Proof. destruct x as [| | |[] m e]; cbn; repeat case_match; eauto. Qed.

Lemma div_half_even_nonneg n d : 0 ≤ n → 0 < d → 0 ≤ div_half_even n d.
Proof.
  intros. unfold div_half_even. assert (0 ≤ n / d) by (by apply Z.div_pos).
  repeat case_match; lia.
Qed.

Lemma from_secs_f64_nonneg x d : from_secs_f64 x = Ret d → 0 ≤ d.
Proof.
  destruct x as [| | |[] m e]; cbn; intros; simplify_eq; [done|].
  repeat case_match; breflect; simplify_eq.
  - apply Z.mul_nonneg_nonneg; [|done]. by apply Z.shiftl_nonneg.
  - apply div_half_even_nonneg; [by unfold NANOS_PER_SEC; lia|]. apply Z.pow_pos_nonneg; lia.
Qed.
