(* ===== verification/Retry.v ===== *)
(** * Retry policies ([src/src/utils/retry.rs])

    The [RetryPolicy] trait as a record of methods, the built-in policies, the
    transient-error predicate and the builder.  [rand::random::<f64>()] is a
    parameter: the draw of the call. *)

From Stdlib Require Import Ascii SpecFloat.
From stdpp Require Import base tactics list numbers strings.
From S2P Require Import Prelude Errors Constants Float64.

Open Scope rota_scope.

(** ** The trait *)

(** [should_retry draw attempt error]; a policy may panic (a duration out of range). *)
Record RetryPolicy := {
  should_retry : f64 → Z → Error.t → outcome (option Duration);
  total_timeout : option Duration;
  max_attempts : option Z
}.

Definition DEFAULT_RETRY_MULTIPLIER : f64 := f64_of_Z 2.
Definition JITTER_FACTOR : f64 := f64_lit 1 (-1).

(** The guard both limited policies start with. *)
Definition attempts_exhausted (max : option Z) (attempt : Z) : bool :=
  match max with Some m => (m <=? attempt)%Z | None => false end.

#[global] Arguments attempts_exhausted max attempt : simpl never.

(** ** NoRetry *)

Definition NoRetry : RetryPolicy := {|
  should_retry _ _ _ := Ret None;
  total_timeout := None;
  max_attempts := None
|}.

(** ** FixedRetry *)

Module FixedRetry.
Record t := { delay : Duration; max_attempts : option Z }.

Definition new (d : Duration) : t := {| delay := d; max_attempts := None |}.
Definition with_max_attempts (max : Z) (p : t) : t :=
  {| delay := delay p; max_attempts := Some max |}.

Definition should_retry (p : t) (attempt : Z) : option Duration :=
  if attempts_exhausted (max_attempts p) attempt then None else Some (delay p).

Definition policy (p : t) : RetryPolicy := {|
  Retry.should_retry _ attempt _ := Ret (should_retry p attempt);
  Retry.total_timeout := None;
  Retry.max_attempts := max_attempts p
|}.
End FixedRetry.

(** ** ExponentialBackoff *)

Module ExponentialBackoff.
Record t := {
  base_delay : Duration;
  max_delay : Duration;
  multiplier : f64;
  max_attempts : option Z;
  jitter : bool
}.

Definition new (d : Duration) : t :=
  {| base_delay := d; max_delay := DEFAULT_MAX_RETRY_DELAY;
     multiplier := DEFAULT_RETRY_MULTIPLIER; max_attempts := None; jitter := true |}.
Definition with_max_delay (d : Duration) (p : t) : t :=
  {| base_delay := base_delay p; max_delay := d; multiplier := multiplier p;
     max_attempts := max_attempts p; jitter := jitter p |}.
Definition with_multiplier (m : f64) (p : t) : t :=
  {| base_delay := base_delay p; max_delay := max_delay p; multiplier := m;
     max_attempts := max_attempts p; jitter := jitter p |}.
Definition with_max_attempts (max : Z) (p : t) : t :=
  {| base_delay := base_delay p; max_delay := max_delay p; multiplier := multiplier p;
     max_attempts := Some max; jitter := jitter p |}.
Definition with_jitter (j : bool) (p : t) : t :=
  {| base_delay := base_delay p; max_delay := max_delay p; multiplier := multiplier p;
     max_attempts := max_attempts p; jitter := j |}.

(** [i32::try_from(attempt).unwrap_or(0)]. *)
Definition exponent (attempt : Z) : Z := try_from_or (2 ^ 31 - 1) attempt 0.

Definition raw_delay (p : t) (attempt : Z) : f64 :=
  f64_mul (as_secs_f64 (base_delay p)) (f64_powi (multiplier p) (exponent attempt)).

Definition should_retry (p : t) (draw : f64) (attempt : Z) : outcome (option Duration) :=
  if attempts_exhausted (max_attempts p) attempt then Ret None
  else
    let raw := raw_delay p attempt in
    if f64_is_infinite raw || f64_is_nan raw then Ret (Some (max_delay p))
    else
      let delay_secs := f64_min raw (as_secs_f64 (max_delay p)) in
      delay ← from_secs_f64 delay_secs;
      if jitter p then
        d ← from_secs_f64 (f64_mul (f64_mul_add draw JITTER_FACTOR JITTER_FACTOR) delay_secs);
        Ret (Some d)
      else Ret (Some delay).

Definition policy (p : t) : RetryPolicy := {|
  Retry.should_retry draw attempt _ := should_retry p draw attempt;
  Retry.total_timeout := None;
  Retry.max_attempts := max_attempts p
|}.
End ExponentialBackoff.

(** ** RetryOnError *)

Definition RetryOnError (inner : RetryPolicy) (predicate : Error.t → bool) : RetryPolicy := {|
  should_retry draw attempt error :=
    if predicate error then should_retry inner draw attempt error else Ret None;
  total_timeout := total_timeout inner;
  max_attempts := max_attempts inner
|}.

(** ** Transient errors *)

(** [to_lowercase] on the ASCII letters.  The searched words are ASCII, and no
    other character lowers to one of their letters followed by the next, so
    the other characters do not change the answer. *)
Definition lower_char (a : ascii) : ascii :=
  let n := nat_of_ascii a in
  if decide (65 ≤ n ∧ n ≤ 90) then ascii_of_nat (n + 32) else a.

Fixpoint to_lowercase (s : string) : string :=
  match s with
  | EmptyString => EmptyString
  | String a s' => String (lower_char a) (to_lowercase s')
  end.

Fixpoint starts_with (p s : string) : bool :=
  match p, s with
  | EmptyString, _ => true
  | String a p', String b s' => bool_decide (a = b) && starts_with p' s'
  | _, _ => false
  end.

Fixpoint contains (needle s : string) : bool :=
  starts_with needle s ||
  match s with EmptyString => false | String _ s' => contains needle s' end.

Definition is_transient_error (error : Error.t) : bool :=
  match error with
  | Error.Io _ => true
  | Error.Backend e =>
      let lower := to_lowercase (BackendError_0 e) in
      contains "timeout" lower || contains "timed out" lower ||
      contains "timedout" lower || contains "time out" lower
  | _ => false
  end.

(** ** RetryPolicyBuilder *)

Module RetryPolicyBuilder.
Record t := { policy : option RetryPolicy }.

Definition default : t := {| policy := None |}.
Definition no_retry (b : t) : t := {| policy := Some NoRetry |}.
Definition fixed_retry (d : Duration) (b : t) : t :=
  {| policy := Some (FixedRetry.policy (FixedRetry.new d)) |}.
Definition exponential_backoff (d : Duration) (b : t) : t :=
  {| policy := Some (ExponentialBackoff.policy (ExponentialBackoff.new d)) |}.
Definition custom (p : RetryPolicy) (b : t) : t := {| policy := Some p |}.
Definition build (b : t) : option RetryPolicy := policy b.
End RetryPolicyBuilder.

(** ** What the retry loop relies on *)

(** The policy gives up from attempt [m] on. *)
Definition gives_up_at (m : Z) (p : RetryPolicy) : Prop :=
  ∀ draw attempt e, (m ≤ attempt)%Z → should_retry p draw attempt e = Ret None.


(** ** Lemmas *)

Lemma attempts_exhausted_ge m attempt :
  (m ≤ attempt)%Z → attempts_exhausted (Some m) attempt = true.
Proof. intros. unfold attempts_exhausted. by breflect. Qed.

Lemma fixed_gives_up m p : gives_up_at m (FixedRetry.policy (FixedRetry.with_max_attempts m p)).
Proof.
  intros draw attempt e Hm. cbn. unfold FixedRetry.should_retry. cbn.
  by rewrite attempts_exhausted_ge.
Qed.

Lemma exponential_gives_up m p :
  gives_up_at m (ExponentialBackoff.policy (ExponentialBackoff.with_max_attempts m p)).
Proof.
  intros draw attempt e Hm. cbn [should_retry ExponentialBackoff.policy].
  unfold ExponentialBackoff.should_retry.
  change (ExponentialBackoff.max_attempts _) with (Some m). by rewrite attempts_exhausted_ge.
Qed.

Lemma retry_on_error_gives_up m p pred : gives_up_at m p → gives_up_at m (RetryOnError p pred).
Proof. intros Hp draw attempt e Hm. cbn. case_match; [by apply Hp|done]. Qed.

#[export] Hint Resolve fixed_gives_up exponential_gives_up retry_on_error_gives_up : rota.

Lemma lower_char_idemp a : lower_char (lower_char a) = lower_char a.
Proof. destruct a as [[] [] [] [] [] [] [] []]; vm_compute; reflexivity. Qed.

Lemma to_lowercase_idemp s : to_lowercase (to_lowercase s) = to_lowercase s.
Proof. induction s as [|a s IH]; cbn; [done|]. by rewrite lower_char_idemp, IH. Qed.

Lemma starts_with_app p s : starts_with p (p +:+ s) = true.
Proof.
  induction p as [|a p IH]; [by destruct s|].
  change (String a p +:+ s) with (String a (p +:+ s)). cbn. by rewrite bool_decide_true.
Qed.

Lemma contains_mid needle a b : contains needle (a +:+ needle +:+ b) = true.
Proof.
  induction a as [|x a IH].
  - change ("" +:+ needle +:+ b) with (needle +:+ b).
    pose proof (starts_with_app needle b) as Hp. destruct (needle +:+ b); cbn; by rewrite Hp.
  - change (String x a +:+ needle +:+ b) with (String x (a +:+ needle +:+ b)).
    cbn. rewrite IH. apply orb_true_r.
Qed.

(** ** Properties *)

(** Attempt limits are honoured.  A fixed or exponential policy limited to
    [m] attempts, also when wrapped in a predicate, answers "do not retry" from
    attempt [m] on; below the limit the fixed policy always retries after its
    delay. *)
Theorem retry_limits_honoured m fixed backoff pred draw attempt e :
  ((m ≤ attempt)%Z →
    should_retry (FixedRetry.policy (FixedRetry.with_max_attempts m fixed)) draw attempt e = Ret None ∧
    should_retry (ExponentialBackoff.policy (ExponentialBackoff.with_max_attempts m backoff))
      draw attempt e = Ret None ∧
    should_retry (RetryOnError (FixedRetry.policy (FixedRetry.with_max_attempts m fixed)) pred)
      draw attempt e = Ret None) ∧
  ((attempt < m)%Z →
    should_retry (FixedRetry.policy (FixedRetry.with_max_attempts m fixed)) draw attempt e =
      Ret (Some (FixedRetry.delay fixed))).
Proof.
  split; intros Hm.
  - repeat split; [by apply fixed_gives_up|by apply exponential_gives_up|].
    by apply (retry_on_error_gives_up m _ pred (fixed_gives_up m fixed)).
  - cbn. unfold FixedRetry.should_retry, attempts_exhausted. cbn.
    by replace (m <=? attempt)%Z with false by lia.
Qed.

(** Below its limit exponential backoff never gives up: it answers a
    non-negative delay or, when the computed seconds are no valid duration,
    panics; a product that overflows to infinity (or is NaN) gives the
    configured maximum, and without jitter so does, up to the conversion to
    seconds and back, every product that is not below the maximum. *)
Theorem exponential_backoff_answers p draw attempt e :
  attempts_exhausted (ExponentialBackoff.max_attempts p) attempt = false →
  (0 ≤ ExponentialBackoff.max_delay p)%Z →
  let raw := ExponentialBackoff.raw_delay p attempt in
  let answer := should_retry (ExponentialBackoff.policy p) draw attempt e in
  (answer = Panic BadDuration ∨ ∃ d, answer = Ret (Some d) ∧ (0 ≤ d)%Z) ∧
  (f64_is_infinite raw || f64_is_nan raw = true →
     answer = Ret (Some (ExponentialBackoff.max_delay p))) ∧
  (let cap := as_secs_f64 (ExponentialBackoff.max_delay p) in
   f64_is_infinite raw || f64_is_nan raw = false → f64_is_nan cap = false → SFltb raw cap = false →
   ExponentialBackoff.jitter p = false → answer = (d ← from_secs_f64 cap; Ret (Some d))).
Proof.
  intros Hex Hmax raw answer. subst answer. cbn [should_retry ExponentialBackoff.policy].
  unfold ExponentialBackoff.should_retry. rewrite Hex. cbv zeta. fold raw.
  destruct (f64_is_infinite raw || f64_is_nan raw) eqn:Hraw;
    [split; [by eauto|split; [done|by intros]]|].
  apply orb_false_elim in Hraw as [_ Hraw]. split; [|split; [done|]].
  2: { intros _ Hnan Hlt ->. unfold f64_min. by rewrite Hraw, Hnan, Hlt. }
  set (x := f64_min _ _). destruct (from_secs_f64_cases x) as [[d Hd]| ->]; [|by left].
  rewrite Hd. cbn. destruct (ExponentialBackoff.jitter p).
  - set (y := f64_mul _ x). destruct (from_secs_f64_cases y) as [[d' Hd']| ->]; [|by left].
    rewrite Hd'. right. exists d'. split; [done|]. by eapply from_secs_f64_nonneg.
  - right. exists d. split; [done|]. by eapply from_secs_f64_nonneg.
Qed.

(** A negative multiplier panics.  The builder accepts any [f64]
    multiplier, but when the product is a negative number the conversion to a
    duration panics instead of returning a delay. *)
Theorem exponential_backoff_negative_panics p draw attempt e m ex :
  attempts_exhausted (ExponentialBackoff.max_attempts p) attempt = false →
  ExponentialBackoff.raw_delay p attempt = S754_finite true m ex →
  SFltb (S754_finite true m ex) (as_secs_f64 (ExponentialBackoff.max_delay p)) = true →
  should_retry (ExponentialBackoff.policy p) draw attempt e = Panic BadDuration.
Proof.
  intros Hex Hraw Hlt. cbn [should_retry ExponentialBackoff.policy].
  unfold ExponentialBackoff.should_retry. rewrite Hex, Hraw. cbn [f64_is_infinite f64_is_nan orb].
  unfold f64_min. cbn [f64_is_nan].
  destruct (f64_is_nan (as_secs_f64 (ExponentialBackoff.max_delay p))); [done|].
  by rewrite Hlt.
Qed.

(** The transient-error predicate.  I/O errors are transient; a backend
    error is when its text contains "timeout", "timed out", "timedout" or
    "time out" anywhere and in any case; nothing else is. *)
Theorem transient_errors a c b msg :
  (∀ io, is_transient_error (Error.Io io) = true) ∧
  (msg ∈ ["timeout"; "timed out"; "timedout"; "time out"] →
     to_lowercase (BackendError_0 b) = a +:+ msg +:+ c →
     is_transient_error (Error.Backend b) = true) ∧
  is_transient_error (Error.backend (to_lowercase (BackendError_0 b))) =
    is_transient_error (Error.Backend b) ∧
  is_transient_error Error.no_backends = false ∧
  (∀ f, is_transient_error (Error.Factory f) = false) ∧
  (∀ i, is_transient_error (Error.InvalidAddress i) = false).
Proof.
  repeat split.
  - intros Hin Hlow. cbn [is_transient_error]. rewrite Hlow.
    repeat (apply elem_of_cons in Hin as [->|Hin];
      [rewrite contains_mid; by rewrite ?orb_true_r|]). by apply elem_of_nil in Hin.
  - cbn [is_transient_error Error.backend BackendError_0]. by rewrite to_lowercase_idemp.
Qed.

(** ** Witnesses *)

(** The first delays of the default policy without jitter: 200 ms, 400 ms, and
    the 30 s cap from the eighth doubling of 250 ms. *)
Example backoff_delays :
  let p := ExponentialBackoff.with_jitter false (ExponentialBackoff.new (from_millis 100)) in
  ExponentialBackoff.should_retry p (f64_of_Z 0) 1 = Ret (Some (from_millis 200)) ∧
  ExponentialBackoff.should_retry p (f64_of_Z 0) 2 = Ret (Some (from_millis 400)) ∧
  ExponentialBackoff.should_retry p (f64_of_Z 0) 20 = Ret (Some (from_secs 30)).
Proof. vm_compute. auto. Qed.

Definition backoff_100ms : ExponentialBackoff.t := ExponentialBackoff.new (from_millis 100).

Lemma exponential_backoff_answers_witness :
  let p := ExponentialBackoff.with_jitter false backoff_100ms in
  should_retry (ExponentialBackoff.policy p) (f64_of_Z 0) 20 Error.no_backends =
    Ret (Some (from_secs 30)).
Proof.
  intros p. destruct (exponential_backoff_answers p (f64_of_Z 0) 20 Error.no_backends) as (_ & _ & Hcap);
    [done|vm_compute; discriminate|].
  rewrite Hcap by (vm_compute; reflexivity). vm_compute. reflexivity.
Defined.

Definition negative_backoff : ExponentialBackoff.t :=
  ExponentialBackoff.with_multiplier (f64_of_Z (-2)) backoff_100ms.

Lemma exponential_backoff_negative_panics_witness :
  should_retry (ExponentialBackoff.policy negative_backoff) (f64_of_Z 0) 1 Error.no_backends =
    Panic BadDuration.
Proof.
  eapply exponential_backoff_negative_panics; [done|vm_compute; reflexivity|vm_compute; reflexivity].
Defined.
