(* ===== verification/Balancer.v ===== *)
(** * The load balancer ([src/src/services/balancer.rs])

    The [LoadBalancer] with its constructors and builder, the dial path (pick,
    retries with timeouts, bookkeeping), the drop guard of a connection, and
    the reconfiguration operations.

    Backends and connections are the types [B] and [C]: the crate only holds
    them.  What a backend does when dialled is the environment's choice, an
    [attempt] per call.  [shutdowns] is not a field of the source: it records
    the calls of [Backend::shutdown] in order, their only observable effect.
    The [Arc]s the guards share with the balancer ([metrics], [generation])
    are the fields themselves: a guard holds an index and acts on the state. *)

From stdpp Require Import base tactics list numbers strings pretty.
From S2P Require Import Prelude Errors Constants Strategy Float64 Retry Address.

Open Scope rota_scope.

(** ** What the environment decides *)

(** One call of [Backend::dial]: its result, or the panic it unwinds with
    instead, the time until then ([None]: never), the delay before the task
    runs again and reads the clock, and the random draw of a retry decision
    after it. *)
Record attempt (C : Type) := {
  at_result : Result C Error.t;
  at_panic : option panic_reason;
  at_latency : option Duration;
  at_lag : Duration;
  at_draw : f64
}.
Arguments at_result {C}.
Arguments at_panic {C}.
Arguments at_latency {C}.
Arguments at_lag {C}.
Arguments at_draw {C}.

(** The answers to the successive attempts of one [dial] call: by backend,
    address and number of the attempt. *)
Definition Env (B C : Type) : Type := B → string → nat → attempt C.

(** What a [BackendFactory::create] call returns. *)
Record BackendOutput (B : Type) := { backend : B; initial_metrics : TunnelMetrics }.
Arguments backend {B}.
Arguments initial_metrics {B}.

(** A factory, as what its one call of [create] does. *)
Record BackendFactory (B : Type) := { create : outcome (Result (BackendOutput B) Error.t) }.
Arguments create {B}.

Record ActiveConnectionGuard := { guard_index : nat; gen_at_creation : Z }.

Record GuardedConnection (C : Type) := { inner : C; _guard : ActiveConnectionGuard }.
Arguments inner {C}.
Arguments _guard {C}.

#[global] Instance ActiveConnectionGuard_eq_dec : EqDecision ActiveConnectionGuard.
Proof. solve_decision. Defined.

Module LoadBalancer.
Record t (B : Type) := {
  backends : list B;
  ids : list (option string);
  metrics : list TunnelMetrics;
  strategy : dyn_strategy;
  generation : Z;
  dial_timeout : option Duration;
  retry_policy : option RetryPolicy;
  shutdowns : list B
}.
Arguments backends {B}.
Arguments ids {B}.
Arguments metrics {B}.
Arguments strategy {B}.
Arguments generation {B}.
Arguments dial_timeout {B}.
Arguments retry_policy {B}.
Arguments shutdowns {B}.

Section LoadBalancer.
Context {B : Type}.
Implicit Types self : t B.

Definition set_metrics (ms : list TunnelMetrics) self : t B :=
  {| backends := backends self; ids := ids self; metrics := ms; strategy := strategy self;
     generation := generation self; dial_timeout := dial_timeout self;
     retry_policy := retry_policy self; shutdowns := shutdowns self |}.
Definition put_strategy (s : dyn_strategy) self : t B :=
  {| backends := backends self; ids := ids self; metrics := metrics self; strategy := s;
     generation := generation self; dial_timeout := dial_timeout self;
     retry_policy := retry_policy self; shutdowns := shutdowns self |}.
Definition set_generation (g : Z) self : t B :=
  {| backends := backends self; ids := ids self; metrics := metrics self;
     strategy := strategy self; generation := g; dial_timeout := dial_timeout self;
     retry_policy := retry_policy self; shutdowns := shutdowns self |}.
Definition set_backends (bs : list B) self : t B :=
  {| backends := bs; ids := ids self; metrics := metrics self; strategy := strategy self;
     generation := generation self; dial_timeout := dial_timeout self;
     retry_policy := retry_policy self; shutdowns := shutdowns self |}.
Definition set_ids (new_ids : list (option string)) self : t B :=
  {| backends := backends self; ids := new_ids; metrics := metrics self;
     strategy := strategy self; generation := generation self;
     dial_timeout := dial_timeout self; retry_policy := retry_policy self;
     shutdowns := shutdowns self |}.

(** [backend.shutdown().await], recorded. *)
Definition shutdown_backend (b : B) : M (t B) unit :=
  modify (λ self,
    {| backends := backends self; ids := ids self; metrics := metrics self;
       strategy := strategy self; generation := generation self;
       dial_timeout := dial_timeout self; retry_policy := retry_policy self;
       shutdowns := shutdowns self ++ [b] |}).

(** Run code on the locked strategy. *)
Definition with_strategy {A} (m : M dyn_strategy A) : M (t B) A := zoom strategy put_strategy m.

(** Update the entry [metrics.get_mut(i)] finds, if any. *)
Definition update_metrics (i : nat) (f : TunnelMetrics → TunnelMetrics) : M (t B) unit :=
  modify (λ self, set_metrics (alter f i (metrics self)) self).

(** *** Constructors *)

Definition lens_error (what : string) (m n : nat) : Error.t :=
  Error.factory ("initial_metrics.len() (" +:+ pretty m +:+ ") must equal " +:+ what +:+
                 ".len() (" +:+ pretty n +:+ ")").

Definition init (bs : list B) (ms : list TunnelMetrics) (s : dyn_strategy)
    (timeout : option Duration) (policy : option RetryPolicy) : t B :=
  {| backends := bs; ids := replicate (length bs) None; metrics := ms; strategy := s;
     generation := 0; dial_timeout := timeout; retry_policy := policy; shutdowns := [] |}.

Definition new_with_metrics (bs : list B) (ms : list TunnelMetrics) (s : dyn_strategy)
    (timeout : option Duration) (policy : option RetryPolicy) : Result (t B) Error.t :=
  if decide (length bs = 0) then Err Error.no_backends
  else if decide (length ms ≠ length bs) then
    Err (lens_error "backends" (length ms) (length bs))
  else Ok (init bs ms s timeout policy).

Definition new (bs : list B) (s : dyn_strategy) : Result (t B) Error.t :=
  new_with_metrics bs ((λ _, TunnelMetrics_default) <$> seq 0 (length bs)) s None None.

(** The loop over the factories: stop at the first error. *)
Fixpoint create_all (fs : list (BackendFactory B)) :
    outcome (Result (list B * list TunnelMetrics) Error.t) :=
  match fs with
  | [] => Ret (Ok ([], []))
  | f :: fs' =>
      r ← create f;
      match r with
      | Err e => Ret (Err e)
      | Ok out =>
          rest ← create_all fs';
          Ret match rest with
              | Err e => Err e
              | Ok (bs, ms) => Ok (backend out :: bs, initial_metrics out :: ms)
              end
      end
  end.

Definition from_factories (fs : list (BackendFactory B)) (s : dyn_strategy) :
    outcome (Result (t B) Error.t) :=
  if decide (length fs = 0) then Ret (Err Error.no_backends)
  else
    r ← create_all fs;
    Ret match r with
        | Err e => Err e
        | Ok (bs, ms) => Ok (init bs ms s None None)
        end.

(** *** Dialling *)

(** The backend's future once it is done: its value, or its panic. *)
Definition resolved {C} (a : attempt C) (l : Duration) : outcome (Result C Error.t * Duration) :=
  match at_panic a with Some p => Panic p | None => Ret (at_result a, l) end.

(** One attempt: the backend's future, under [tokio::time::timeout] when one is
    set.  Returns the result and the time it took. *)
Definition dial_attempt {C} (timeout : option Duration) (a : attempt C) :
    outcome (Result C Error.t * Duration) :=
  match timeout with
  | Some limit =>
      match at_latency a with
      | Some l =>
          if (l <=? limit)%Z then resolved a l
          else Ret (Err (Error.backend "dial timeout"), limit)
      | None => Ret (Err (Error.backend "dial timeout"), limit)
      end
  | None =>
      match at_latency a with Some l => resolved a l | None => Pending end
  end.

(** The retry decision after a failed attempt. *)
Definition retry_delay {C} `{Target} (policy : option RetryPolicy) (a : attempt C) (elapsed : Duration)
    (attempt : Z) (e : Error.t) : outcome (option Duration) :=
  match policy with
  | None => Ret None
  | Some p =>
      let within_budget :=
        match total_timeout p with Some limit => (elapsed <? limit)%Z | None => true end in
      if within_budget then should_retry p (at_draw a) attempt e else Ret None
  end.

(** The loop: [n] counts the attempts made, [attempt] is the [u32] the code
    keeps of it, [elapsed] is the time since [start]. *)
Fixpoint dial_loop {C} `{Target} (fuel : nat) self (idx : nat) (addr : string)
    (timeout : option Duration) (policy : option RetryPolicy) (env : Env B C)
    (n : nat) (attempt : Z) (elapsed : Duration) : outcome (Result C Error.t) :=
  match fuel with
  | 0 => NoFuel
  | S fuel' =>
      attempt' ← u32_add attempt 1;
      b ← index (backends self) idx;
      let a := env b addr n in
      rt ← dial_attempt timeout a;
      match rt.1 with
      | Ok conn => Ret (Ok conn)
      | Err e =>
          let elapsed' := (elapsed + rt.2 + at_lag a)%Z in
          delay ← retry_delay policy a elapsed' attempt' e;
          match delay with
          | None => Ret (Err e)
          | Some d =>
              dial_loop fuel' self idx addr timeout policy env (S n) attempt' (elapsed' + d)%Z
          end
      end
  end.

Definition dial_with_retry {C} `{Target} (fuel : nat) self (idx : nat) (addr : string)
    (timeout : option Duration) (policy : option RetryPolicy) (env : Env B C) :
    outcome (Result C Error.t) :=
  let effective_timeout := match timeout with Some _ => timeout | None => dial_timeout self end in
  let effective_policy := match policy with Some _ => policy | None => retry_policy self end in
  dial_loop fuel self idx addr effective_timeout effective_policy env 0 0%Z 0%Z.

(** The critical section of [dial_with_options]: under both locks, pick a
    backend from a view of the metrics and count the dial in. *)
Definition select_backend `{Target} (ρ : Rng) (addr : string) : M (t B) nat :=
  self ← get;
  let view := {| dial_addr := addr; Strategy.metrics := metrics self |} in
  idx ← with_strategy (pick ρ view);
  m ← lift (index (metrics self) idx);
  active ← lift (u32_add (active_connections m) 1);
  update_metrics idx (set_active_connections active);;
  dials ← lift (u64_add (total_dials m) 1);
  update_metrics idx (set_total_dials dials);;
  mret idx.

Definition handle_dial_success (idx : nat) : M (t B) unit :=
  update_metrics idx (set_recent_errors 0);;
  with_strategy (report_success idx).

(** The three counters a failed dial writes. *)
Definition count_error (m : TunnelMetrics) : TunnelMetrics :=
  set_recent_errors (saturating_add u32_MAX (recent_errors m) 1)
    (set_total_errors (saturating_add u64_MAX (total_errors m) 1)
       (set_active_connections (saturating_sub (active_connections m) 1) m)).

Definition handle_dial_error (idx : nat) (err : Error.t) : M (t B) Error.t :=
  update_metrics idx count_error;;
  with_strategy (report_error idx);;
  mret err.

Definition dial_with_options {C} `{Target} (fuel : nat) (ρ : Rng) (env : Env B C) (addr : string)
    (timeout : option Duration) (policy : option RetryPolicy) :
    M (t B) (Result (GuardedConnection C) Error.t) :=
  match validate_dial_addr addr with
  | Err e => mret (Err e)
  | Ok _ =>
      self ← get;
      if decide (length (backends self) = 0) then mret (Err Error.no_backends)
      else
        idx ← select_backend ρ addr;
        self ← get;
        let gen := generation self in
        r ← lift (dial_with_retry fuel self idx addr timeout policy env);
        match r with
        | Ok conn =>
            handle_dial_success idx;;
            mret (Ok {| inner := conn;
                        _guard := {| guard_index := idx; gen_at_creation := gen |} |})
        | Err e => e' ← handle_dial_error idx e; mret (Err e')
        end
  end.

Definition dial {C} `{Target} (fuel : nat) (ρ : Rng) (env : Env B C) (addr : string) :
    M (t B) (Result (GuardedConnection C) Error.t) :=
  dial_with_options fuel ρ env addr None None.

(** [Drop for ActiveConnectionGuard]; [free] says whether [try_write] gets the lock. *)
Definition drop_guard (free : bool) (g : ActiveConnectionGuard) : M (t B) unit :=
  self ← get;
  if decide (generation self ≠ gen_at_creation g) then mret tt
  else if free then
    update_metrics (guard_index g)
      (λ m, set_active_connections (saturating_sub (active_connections m) 1) m)
  else mret tt.

(** [GuardedConnection::into_inner]: the guard is dropped here. *)
Definition into_inner {C} (free : bool) (c : GuardedConnection C) : M (t B) C :=
  drop_guard free (_guard c);; mret (inner c).

(** *** Reading *)

Definition get_metrics : M (t B) (list TunnelMetrics) := self ← get; mret (metrics self).
Definition backend_count self : nat := length (backends self).
Definition backend_ids self : list (option string) := ids self.
Definition strategy_name self : string := name (strategy self).
Definition is_draining self (index : nat) : bool :=
  match metrics self !! index with
  | Some m => (recent_errors m =? u32_MAX)%Z
  | None => false
  end.

(** [shutdown(self)]: every backend is torn down; the result is the record of
    all shutdown calls. *)
Definition shutdown self : list B := shutdowns self ++ backends self.

(** *** Dynamic reconfiguration *)

Definition push_backend (id : option string) (b : B) : M (t B) nat :=
  self ← get;
  modify (λ self, set_backends (backends self ++ [b]) self);;
  modify (λ self, set_ids (ids self ++ [id]) self);;
  modify (λ self, set_metrics (metrics self ++ [TunnelMetrics_default]) self);;
  mret (length (backends self)).

Definition add_backend (b : B) : M (t B) nat := push_backend None b.
Definition add_backend_with_id (id : string) (b : B) : M (t B) nat := push_backend (Some id) b.

(** [generation.fetch_add(1)] wraps in every profile. *)
Definition bump_generation `{Target} : M (t B) unit :=
  modify (λ self, set_generation ((generation self + 1) mod (usize_MAX + 1))%Z self).

Definition remove_backend `{Target} (i : nat) : M (t B) bool :=
  self ← get;
  if decide (length (backends self) ≤ i) then mret false
  else
    bump_generation;;
    bb ← lift (vec_remove (backends self) i);
    modify (set_backends bb.2);;
    ii ← lift (vec_remove (ids self) i);
    modify (set_ids ii.2);;
    mm ← lift (vec_remove (metrics self) i);
    modify (set_metrics mm.2);;
    shutdown_backend bb.1;;
    mret true.

(** [ptr_eq] is [std::ptr::eq] on the boxed backends. *)
Definition remove_backend_by_ptr `{Target} (ptr_eq : B → B → bool) (b : B) : M (t B) bool :=
  self ← get;
  match position (λ b', ptr_eq b' b) (backends self) with
  | Some i => remove_backend i
  | None => mret false
  end.

Definition remove_backend_by_id `{Target} (id : string) : M (t B) bool :=
  self ← get;
  match position (λ i, bool_decide (i = Some id)) (ids self) with
  | Some i => remove_backend i
  | None => mret false
  end.

(** The drain loop of [replace_backends]. *)
Fixpoint shutdown_all (bs : list B) : M (t B) unit :=
  match bs with
  | [] => mret tt
  | b :: bs' => shutdown_backend b;; shutdown_all bs'
  end.

Definition replace_backends `{Target} (new_backends : list B) (s : option dyn_strategy) :
    M (t B) (Result unit Error.t) :=
  if decide (length new_backends = 0) then mret (Err Error.no_backends)
  else
    bump_generation;;
    self ← get;
    modify (set_backends []);;
    shutdown_all (backends self);;
    modify (set_ids (replicate (length new_backends) None));;
    modify (set_metrics (replicate (length new_backends) TunnelMetrics_default));;
    modify (set_backends new_backends);;
    match s with
    | Some s => modify (put_strategy s)
    | None => mret tt
    end;;
    mret (Ok tt).

Definition drain_backend (i : nat) : M (t B) bool :=
  self ← get;
  if decide (length (backends self) ≤ i) then mret false
  else update_metrics i (set_recent_errors u32_MAX);; mret true.

Definition undrain_backend (i : nat) : M (t B) bool :=
  self ← get;
  match metrics self !! i with
  | Some m =>
      if (recent_errors m =? u32_MAX)%Z then
        update_metrics i (set_recent_errors 0);; mret true
      else mret false
  | None => mret false
  end.

Definition set_strategy (s : dyn_strategy) : M (t B) unit := modify (put_strategy s).
End LoadBalancer.
End LoadBalancer.

(** ** The builder *)

Module LoadBalancerBuilder.
Record t (B : Type) := {
  b_backends : option (list B);
  b_factories : option (list (BackendFactory B));
  b_initial_metrics : option (list TunnelMetrics);
  b_strategy : option dyn_strategy;
  b_dial_timeout : option Duration;
  b_retry_policy : option RetryPolicy
}.
Arguments b_backends {B}.
Arguments b_factories {B}.
Arguments b_initial_metrics {B}.
Arguments b_strategy {B}.
Arguments b_dial_timeout {B}.
Arguments b_retry_policy {B}.

Section Builder.
Context {B : Type}.
Implicit Types self : t B.

Definition default : t B :=
  {| b_backends := None; b_factories := None; b_initial_metrics := None; b_strategy := None;
     b_dial_timeout := None; b_retry_policy := None |}.
Definition backends (bs : list B) self : t B :=
  {| b_backends := Some bs; b_factories := b_factories self;
     b_initial_metrics := b_initial_metrics self; b_strategy := b_strategy self;
     b_dial_timeout := b_dial_timeout self; b_retry_policy := b_retry_policy self |}.
Definition factories (fs : list (BackendFactory B)) self : t B :=
  {| b_backends := b_backends self; b_factories := Some fs;
     b_initial_metrics := b_initial_metrics self; b_strategy := b_strategy self;
     b_dial_timeout := b_dial_timeout self; b_retry_policy := b_retry_policy self |}.
Definition initial_metrics (ms : list TunnelMetrics) self : t B :=
  {| b_backends := b_backends self; b_factories := b_factories self;
     b_initial_metrics := Some ms; b_strategy := b_strategy self;
     b_dial_timeout := b_dial_timeout self; b_retry_policy := b_retry_policy self |}.
Definition strategy (s : dyn_strategy) self : t B :=
  {| b_backends := b_backends self; b_factories := b_factories self;
     b_initial_metrics := b_initial_metrics self; b_strategy := Some s;
     b_dial_timeout := b_dial_timeout self; b_retry_policy := b_retry_policy self |}.
Definition dial_timeout (d : Duration) self : t B :=
  {| b_backends := b_backends self; b_factories := b_factories self;
     b_initial_metrics := b_initial_metrics self; b_strategy := b_strategy self;
     b_dial_timeout := Some d; b_retry_policy := b_retry_policy self |}.
Definition retry_policy (p : RetryPolicy) self : t B :=
  {| b_backends := b_backends self; b_factories := b_factories self;
     b_initial_metrics := b_initial_metrics self; b_strategy := b_strategy self;
     b_dial_timeout := b_dial_timeout self; b_retry_policy := Some p |}.

Definition build self : outcome (Result (LoadBalancer.t B) Error.t) :=
  match b_strategy self with
  | None => Ret (Err (Error.factory "strategy required"))
  | Some s =>
      match b_backends self, b_factories self with
      | Some bs, None =>
          match b_initial_metrics self with
          | Some m =>
              if decide (length m = length bs) then
                Ret (LoadBalancer.new_with_metrics bs m s (b_dial_timeout self) (b_retry_policy self))
              else Ret (Err (LoadBalancer.lens_error "backends" (length m) (length bs)))
          | None =>
              Ret (LoadBalancer.new_with_metrics bs (replicate (length bs) TunnelMetrics_default) s
                     (b_dial_timeout self) (b_retry_policy self))
          end
      | None, Some fs =>
          if decide (length fs = 0) then Ret (Err Error.no_backends)
          else
            r ← LoadBalancer.create_all fs;
            match r with
            | Err e => Ret (Err e)
            | Ok (created_backends, created_metrics) =>
                match b_initial_metrics self with
                | Some m =>
                    if decide (length m = length fs) then
                      Ret (LoadBalancer.new_with_metrics created_backends m s
                             (b_dial_timeout self) (b_retry_policy self))
                    else Ret (Err (LoadBalancer.lens_error "factories" (length m) (length fs)))
                | None =>
                    Ret (LoadBalancer.new_with_metrics created_backends created_metrics s
                           (b_dial_timeout self) (b_retry_policy self))
                end
            end
      | Some _, Some _ => Ret (Err (Error.factory "cannot set both backends and factories"))
      | None, None => Ret (Err (Error.factory "backends or factories required"))
      end
  end.
End Builder.
End LoadBalancerBuilder.
