(* ===== verification/BalancerFacts.v ===== *)
(** * Properties of the load balancer, one operation at a time

    The well-formedness invariant, the effect of every operation on every
    branch, termination of the retry loop, and the life of a connection's
    guard. *)

From stdpp Require Import base tactics list numbers strings pretty.
From S2P Require Import Prelude Errors Constants Strategy Float64 Retry Address Balancer.
From S2P Require Import Strategies Scored WeightedRoundRobin Registry.

Open Scope rota_scope.
Import LoadBalancer.

(** ** Invariants *)

(** One id and one well-typed metrics record per backend; a [usize] generation. *)
Definition wf `{Target} {B} (self : t B) : Prop :=
  length (ids self) = length (backends self) ∧
  length (metrics self) = length (backends self) ∧
  Forall TunnelMetrics_wf (metrics self) ∧
  (0 ≤ generation self ≤ usize_MAX)%Z.

(** Room for one more dial in the counters of a backend. *)
Definition room (m : TunnelMetrics) : Prop :=
  (active_connections m < u32_MAX ∧ total_dials m < u64_MAX)%Z.

Definition lb_view {B} (addr : string) (self : t B) : PoolView :=
  {| dial_addr := addr; Strategy.metrics := metrics self |}.

(** A balancer from which [k] more dials can pick: a lawful strategy with that
    budget, a non-empty pool the machine can hold, sane RTTs, and counters
    with room. *)
Definition ready `{Target} {B} (k : Z) (self : t B) : Prop :=
  wf self ∧ dyn_safe k (strategy self) ∧ 0 < length (backends self) ∧
  (Z.of_nat (length (backends self)) < usize_MAX)%Z ∧
  rtts_sane (lb_view "" self) ∧ Forall room (metrics self).

(** What selecting a backend does to its metrics. *)
Definition dial_in (m : TunnelMetrics) : TunnelMetrics :=
  set_total_dials (total_dials m + 1) (set_active_connections (active_connections m + 1) m).

(** What a successful dial leaves, and what a failed one leaves. *)
Definition dialled (m : TunnelMetrics) : TunnelMetrics := set_recent_errors 0 (dial_in m).
Definition failed (m : TunnelMetrics) : TunnelMetrics :=
  set_recent_errors (saturating_add u32_MAX (recent_errors m) 1)
    (set_total_errors (saturating_add u64_MAX (total_errors m) 1)
       (set_total_dials (total_dials m + 1) m)).

(** The state after the entry [i] became [m] and the strategy [d]. *)
Definition after {B} (i : nat) (m : TunnelMetrics) (d : dyn_strategy) (self : t B) : t B :=
  put_strategy d (set_metrics (<[i := m]> (metrics self)) self).

(** What a dial of backend [i] leaves of the strategy: a pick, then the report. *)
Definition consulted {B} (ρ : Rng) (addr : string) (i : nat) (ok : bool) (self : t B) (d' : dyn_strategy) : Prop :=
  ∃ d, pick ρ (lb_view addr self) (strategy self) = (Ret i, d) ∧
    (if ok then report_success i d else report_error i d) = (Ret tt, d').

Section Facts.
Context `{Target} {B : Type}.
Implicit Types self : t B.

(** ** Lemmas: states *)

Lemma alter_lookup {A} (f : A → A) (l : list A) i a :
  l !! i = Some a → alter f i l = <[i := f a]> l.
Proof.
  intros Hi. apply list_eq. intros j. destruct (decide (i = j)) as [<-|Hne].
  - rewrite list_lookup_alter_eq, Hi.
    rewrite list_lookup_insert_eq; [done|]. by eapply lookup_lt_Some.
  - rewrite list_lookup_alter_ne by done. by rewrite list_lookup_insert_ne.
Qed.

Lemma wf_metrics self i m :
  wf self → metrics self !! i = Some m → TunnelMetrics_wf m.
Proof. intros (_ & _ & Hf & _) Hm. exact (Forall_lookup_1 _ _ _ _ Hf Hm). Qed.

Lemma wf_after self i m d : wf self → TunnelMetrics_wf m → wf (after i m d self).
Proof.
  intros (? & ? & ? & ?) Hm. repeat split; cbn; rewrite ?length_insert; try done; try tauto.
  by apply Forall_insert.
Qed.

Lemma dial_in_wf m : TunnelMetrics_wf m → room m → TunnelMetrics_wf (dial_in m).
Proof. intros (? & ? & ? & ? & ?) [? ?]. repeat split; cbn in *; try done; lia. Qed.

Lemma dialled_wf m : TunnelMetrics_wf m → room m → TunnelMetrics_wf (dialled m).
Proof.
  intros Hm Hr. destruct (dial_in_wf m Hm Hr) as (? & ? & ? & ? & ?).
  repeat split; cbn in *; try done; unfold u32_MAX in *; lia.
Qed.

Lemma failed_wf m : TunnelMetrics_wf m → room m → TunnelMetrics_wf (failed m).
Proof.
  intros (? & ? & ? & ? & ?) [? ?].
  repeat split; cbn in *; unfold saturating_add; try done; lia.
Qed.

Lemma count_error_dial_in m :
  TunnelMetrics_wf m → count_error (dial_in m) = failed m.
Proof.
  intros (_ & Ha & _). unfold count_error, failed, dial_in. cbn.
  unfold set_recent_errors, set_total_errors, set_total_dials, set_active_connections,
    saturating_sub; cbn. f_equal. lia.
Qed.

(** The retry loop only reads the backends. *)
Lemma dial_loop_ext {C} fuel self self' idx addr timeout policy (env : Env B C) n a e :
  backends self = backends self' →
  dial_loop fuel self idx addr timeout policy env n a e =
  dial_loop fuel self' idx addr timeout policy env n a e.
Proof.
  intros Hb. revert n a e. induction fuel as [|fuel IH]; intros n a e; cbn; [done|].
  rewrite Hb. destruct (u32_add a 1); cbn; try done.
  destruct (index _ _); cbn; try done. destruct (dial_attempt _ _) as [[[c|er] d]| | |]; cbn; try done.
  destruct (retry_delay _ _ _ _ _) as [[d'|]| | |]; cbn; done.
Qed.

Lemma dial_with_retry_after {C} fuel self i m d idx addr timeout policy (env : Env B C) :
  dial_with_retry fuel (after i m d self) idx addr timeout policy env =
  dial_with_retry fuel self idx addr timeout policy env.
Proof. unfold dial_with_retry. by apply dial_loop_ext. Qed.

Lemma ready_sane_call k self addr ρ :
  ready k self → rng_ok ρ → sane_call (ρ, lb_view addr self).
Proof.
  intros ((_ & Hl & Hf & _) & _ & Hne & Hmax & Hr & _) Hρ.
  split; [done|]. unfold view_wf, PoolView_len. cbn. rewrite Hl. done.
Qed.

(** ** Lemmas: selecting a backend *)

Lemma select_backend_at self ρ addr i m d :
  pick ρ (lb_view addr self) (strategy self) = (Ret i, d) → metrics self !! i = Some m → room m →
  select_backend ρ addr self = (Ret i, after i (dial_in m) d self).
Proof.
  intros E Hm [Ha Ht]. unfold select_backend, with_strategy, update_metrics. mrun.
  fold (lb_view addr self).
  rewrite E. mrun. rewrite (index_lookup _ _ _ Hm). mrun. unfold u32_add, u64_add.
  rewrite fit_small by lia. mrun. rewrite fit_small by lia. mrun.
  unfold after, put_strategy, set_metrics; cbn. do 3 f_equal.
  rewrite (alter_lookup _ _ _ _ Hm), (alter_lookup _ _ i (set_active_connections (active_connections m + 1) m)).
  - by rewrite list_insert_insert_eq.
  - rewrite list_lookup_insert_eq; [done|]. by eapply lookup_lt_Some.
Qed.

Lemma select_backend_ok k self ρ addr :
  (0 ≤ k)%Z → ready (k + 1) self → rng_ok ρ →
  ∃ i m d, metrics self !! i = Some m ∧ dyn_safe k d ∧
    pick ρ (lb_view addr self) (strategy self) = (Ret i, d) ∧
    select_backend ρ addr self = (Ret i, after i (dial_in m) d self).
Proof.
  intros Hk Hr Hρ. pose proof (ready_sane_call _ self addr ρ Hr Hρ) as Hc.
  destruct Hr as (Hwf & Hs & _ & _ & _ & Hroom).
  destruct (pick_ok (StrategyLaws0 := dyn_StrategyLaws) k ρ (lb_view addr self) (strategy self) Hk Hs Hc)
    as (i & d & E & Hi & Hd).
  destruct (lookup_lt_is_Some_2 (metrics self) i Hi) as [m Hm].
  exists i, m, d. repeat split; [done..|]. apply select_backend_at; [done..|].
  exact (Forall_lookup_1 _ _ _ _ Hroom Hm).
Qed.

(** ** Lemmas: the bookkeeping after a dial *)

Lemma handle_dial_success_eq k self i m d :
  metrics self !! i = Some m → dyn_safe k d →
  ∃ d', dyn_safe k d' ∧ report_success i d = (Ret tt, d') ∧
    handle_dial_success i (after i (dial_in m) d self) = (Ret tt, after i (dialled m) d' self).
Proof.
  intros Hm Hd.
  destruct (report_success_safe (StrategyLaws := dyn_StrategyLaws) k i d Hd) as (d' & E & Hd').
  exists d'. split; [done|]. split; [done|].
  unfold handle_dial_success, with_strategy, update_metrics. mrun. rewrite E.
  unfold after, put_strategy, set_metrics; cbn. do 2 f_equal.
  rewrite (alter_lookup _ _ i (dial_in m)), list_insert_insert_eq; [done|].
  rewrite list_lookup_insert_eq; [done|]. by eapply lookup_lt_Some.
Qed.

Lemma handle_dial_error_eq k self i m d e :
  wf self → metrics self !! i = Some m → dyn_safe k d → (Z.of_nat i < usize_MAX)%Z →
  ∃ d', dyn_safe k d' ∧ report_error i d = (Ret tt, d') ∧
    handle_dial_error i e (after i (dial_in m) d self) = (Ret e, after i (failed m) d' self).
Proof.
  intros Hwf Hm Hd Hi.
  destruct (report_error_safe (StrategyLaws := dyn_StrategyLaws) k i d Hd Hi) as (d' & E & Hd').
  exists d'. split; [done|]. split; [done|].
  unfold handle_dial_error, with_strategy, update_metrics. mrun. rewrite E. mrun.
  unfold after, put_strategy, set_metrics; cbn. do 2 f_equal.
  rewrite (alter_lookup _ _ i (dial_in m)), list_insert_insert_eq.
  - by rewrite count_error_dial_in by (by eapply wf_metrics).
  - rewrite list_lookup_insert_eq; [done|]. by eapply lookup_lt_Some.
Qed.

Lemma ready_index k self i m :
  ready k self → metrics self !! i = Some m →
  i < length (backends self) ∧ (Z.of_nat i < usize_MAX)%Z ∧ TunnelMetrics_wf m ∧ room m.
Proof.
  intros ((_ & Hl & Hf & _) & _ & _ & Hmax & _ & Hroom) Hm.
  pose proof (lookup_lt_Some _ _ _ Hm). repeat split; [lia|lia|..].
  1-9: apply (Forall_lookup_1 _ _ _ _ Hf Hm). all: apply (Forall_lookup_1 _ _ _ _ Hroom Hm).
Qed.

(** After the selection: the retry loop and the bookkeeping of its result. *)
Lemma dial_selected {C} fuel ρ (env : Env B C) addr timeout policy self i m d :
  validate_dial_addr addr = Ok tt → 0 < length (backends self) →
  select_backend ρ addr self = (Ret i, after i (dial_in m) d self) →
  dial_with_options fuel ρ env addr timeout policy self =
    (r ← lift (dial_with_retry fuel self i addr timeout policy env);
     match r with
     | Ok conn => handle_dial_success i;;
         mret (Ok {| inner := conn; _guard :=
                {| guard_index := i; gen_at_creation := generation self |} |})
     | Err e => e' ← handle_dial_error i e; mret (Err e')
     end) (after i (dial_in m) d self).
Proof.
  intros Hv Hne E. unfold dial_with_options. rewrite Hv. unfold mbind, M_bind, get.
  rewrite decide_False by lia. rewrite E. cbn. by rewrite dial_with_retry_after.
Qed.

(** A whole dial, by the outcome of the retry loop on the picked backend. *)
Lemma dial_eq {C} k fuel ρ (env : Env B C) addr timeout policy self :
  (0 ≤ k)%Z → ready (k + 1) self → rng_ok ρ → validate_dial_addr addr = Ok tt →
  ∃ i m, (pick ρ (lb_view addr self) (strategy self)).1 = Ret i ∧
    metrics self !! i = Some m ∧ i < length (backends self) ∧
    match dial_with_retry fuel self i addr timeout policy env with
    | Ret (Ok conn) =>
        ∃ d, dyn_safe k d ∧ consulted ρ addr i true self d ∧
          dial_with_options fuel ρ env addr timeout policy self =
            (Ret (Ok {| inner := conn; _guard :=
                {| guard_index := i; gen_at_creation := generation self |} |}),
             after i (dialled m) d self)
    | Ret (Err e) =>
        ∃ d, dyn_safe k d ∧ consulted ρ addr i false self d ∧
          dial_with_options fuel ρ env addr timeout policy self =
            (Ret (Err e), after i (failed m) d self)
    | Panic p =>
        ∃ d, dial_with_options fuel ρ env addr timeout policy self =
            (Panic p, after i (dial_in m) d self)
    | Pending =>
        ∃ d, dial_with_options fuel ρ env addr timeout policy self =
            (Pending, after i (dial_in m) d self)
    | NoFuel =>
        ∃ d, dial_with_options fuel ρ env addr timeout policy self =
            (NoFuel, after i (dial_in m) d self)
    end.
Proof.
  intros Hk Hr Hρ Hv.
  destruct (select_backend_ok k self ρ addr Hk Hr Hρ) as (i & m & d & Hm & Hd & Ep & E).
  destruct (ready_index _ _ _ _ Hr Hm) as (Hi & Hiu & _).
  exists i, m. repeat split; [by rewrite Ep|done..|].
  rewrite (dial_selected _ _ _ _ _ _ _ _ _ _ Hv (Nat.lt_lt_0 _ _ Hi) E). unfold mbind, M_bind, lift.
  destruct (dial_with_retry _ _ _ _ _ _ _) as [[conn|e]| | |]; [| |by eauto..].
  - destruct (handle_dial_success_eq k self i m d Hm Hd) as (d' & Hd' & Hrep & ->).
    exists d'. split; [done|]. split; [by exists d|done].
  - destruct (handle_dial_error_eq k self i m d e (proj1 Hr) Hm Hd Hiu) as (d' & Hd' & Hrep & ->).
    exists d'. split; [done|]. split; [by exists d|done].
Qed.
End Facts.
