(* ===== verification/BalancerSpec.v ===== *)
(** * What the load balancer promises

    The functional contract of each operation of [services/balancer.rs] on
    every branch: construction, dialling with retries, the guard of a
    connection, and reconfiguration. *)

From stdpp Require Import base tactics list numbers strings pretty.
From S2P Require Import Prelude Errors Constants Strategy Float64 Retry Address Balancer.
From S2P Require Import Strategies Scored WeightedRoundRobin Registry BalancerFacts.

Open Scope rota_scope.
Import LoadBalancer.

(** ** Specifications *)

(** The timeout and the policy a call runs with: its own, else the balancer's. *)
Definition effective {A} (mine default : option A) : option A :=
  match mine with Some _ => mine | None => default end.

(** Every attempt resolves (a timeout is set, or the backend answers), none
    panics, and the generator draws from [0, 1). *)
Definition responsive {C} (timeout : option Duration) (answers : nat → attempt C) : Prop :=
  (is_Some timeout ∨ ∀ n, is_Some (at_latency (answers n))) ∧
  ∀ n, at_panic (answers n) = None ∧ unit_draw (at_draw (answers n)) = true.

(** A policy that does not panic on such draws and gives up by attempt [m]. *)
Definition bounded_policy (m : nat) (policy : option RetryPolicy) : Prop :=
  match policy with
  | None => True
  | Some p => gives_up_at (Z.of_nat m) p ∧ (Z.of_nat m ≤ u32_MAX)%Z ∧
              ∀ draw n e, unit_draw draw = true → ∃ o, should_retry p draw n e = Ret o
  end.

(** What the caller sees of one attempt. *)
Definition attempt_result {C} (timeout : option Duration) (a : attempt C) :
    outcome (Result C Error.t) :=
  rt ← dial_attempt timeout a; Ret rt.1.

(** The time attempt [j] and the wake-up after it took. *)
Definition took {C} (timeout : option Duration) (a : attempt C) : Duration :=
  (match dial_attempt timeout a with Ret rt => rt.2 | _ => 0 end + at_lag a)%Z.
(** What the clock shows after attempt [j], when [delays] were slept so far. *)
Definition clock {C} (timeout : option Duration) (answers : nat → attempt C) (delays : list Duration)
    (j : nat) : Duration :=
  (foldr Z.add 0 ((λ n, took timeout (answers n)) <$> seq 0 (S j)) + foldr Z.add 0 (take j delays))%Z.

(** Attempt [j] failed, and [decision] is what the policy then answers: a delay,
    or that it gives up (also when its time is over). *)
Definition failed_with `{Target} {C} (timeout : option Duration) (policy : option RetryPolicy)
    (answers : nat → attempt C) (delays : list Duration) (j : nat) (e : Error.t)
    (decision : option Duration) : Prop :=
  attempt_result timeout (answers j) = Ret (Err e) ∧
  retry_delay policy (answers j) (clock timeout answers delays j) (Z.of_nat j + 1) e = Ret decision.

(** [answers] were tried in order: after each of the first [k] the policy asked
    for another one, and the last one tried gave [r], a connection or an error
    on which the policy gave up. *)
Definition first_decisive `{Target} {C} (timeout : option Duration) (policy : option RetryPolicy)
    (answers : nat → attempt C) (k : nat) (r : Result C Error.t) : Prop :=
  ∃ delays, length delays = k ∧
    (∀ j d, delays !! j = Some d → ∃ e, failed_with timeout policy answers delays j e (Some d)) ∧
    match r with
    | Ok _ => attempt_result timeout (answers k) = Ret r
    | Err e => failed_with timeout policy answers delays k e None
    end.

(** Nothing but the metrics and the strategy differs. *)
Definition same_pool {B} (self self' : t B) : Prop :=
  backends self' = backends self ∧ ids self' = ids self ∧
  generation self' = generation self ∧ dial_timeout self' = dial_timeout self ∧
  retry_policy self' = retry_policy self ∧ shutdowns self' = shutdowns self.

(** The pool [self'] is [self] without its entry [i], which was shut down. *)
Definition without {B} (i : nat) (b : B) (self self' : t B) : Prop :=
  backends self' = delete i (backends self) ∧ ids self' = delete i (ids self) ∧
  metrics self' = delete i (metrics self) ∧ strategy self' = strategy self ∧
  shutdowns self' = shutdowns self ++ [b] ∧ generation self' ≠ generation self.

Section Spec.
Context `{Target} {B : Type}.
Implicit Types self : t B.

(** ** Lemmas: the retry loop *)

Lemma dial_attempt_responds {C} timeout (answers : nat → attempt C) n :
  responsive timeout answers → ∃ r d, dial_attempt timeout (answers n) = Ret (r, d).
Proof.
  intros [Hto Hn]. destruct (Hn n) as [Hp _]. unfold dial_attempt, resolved. rewrite Hp.
  destruct Hto as [[limit ->]|Hl].
  - destruct (at_latency _); [case_match|]; eauto.
  - destruct (Hl n) as [l ->]. destruct timeout; [case_match|]; eauto.
Qed.

Lemma retry_delay_total {C} m policy (a : attempt C) elapsed n e :
  bounded_policy m policy → unit_draw (at_draw a) = true →
  ∃ o, retry_delay policy a elapsed n e = Ret o ∧ ((Z.of_nat m ≤ n)%Z → o = None).
Proof.
  destruct policy as [p|]; cbn; [|by eauto]. intros (Hg & _ & Hp) Hd. unfold retry_delay.
  destruct (match total_timeout p with Some _ => _ | None => _ end); [|by eauto].
  destruct (Hp (at_draw a) n e Hd) as [o Ho]. exists o. split; [done|].
  intros Hn. rewrite (Hg _ _ _ Hn) in Ho. by simplify_eq.
Qed.

Lemma policy_step m policy n : bounded_policy m policy → is_Some policy → S n < m →
  (Z.of_nat (S n) + 1 ≤ u32_MAX)%Z.
Proof. destruct policy as [p|]; [|by intros _ [? ?]]. cbn. intros (_ & ? & _). lia. Qed.

Lemma sum_snoc (l : list Z) x : foldr Z.add 0%Z (l ++ [x]) = (foldr Z.add 0 l + x)%Z.
Proof. induction l as [|y l IH]; cbn; [lia|]. rewrite IH. lia. Qed.

Lemma fmap_seq_S {A} (f : nat → A) n : f <$> seq 0 (S n) = (f <$> seq 0 n) ++ [f n].
Proof. by rewrite seq_S, fmap_app. Qed.

(** The clock when attempt [n] starts, with [n] delays slept; when it is over;
    and that it does not depend on later delays. *)
Definition started {C} (timeout : option Duration) (answers : nat → attempt C) (delays : list Duration) : Duration :=
  (foldr Z.add 0 ((λ n, took timeout (answers n)) <$> seq 0 (length delays)) + foldr Z.add 0 delays)%Z.

Lemma clock_started {C} timeout (answers : nat → attempt C) delays :
  clock timeout answers delays (length delays) =
  (started timeout answers delays + took timeout (answers (length delays)))%Z.
Proof. unfold clock, started. rewrite fmap_seq_S, sum_snoc, firstn_all. lia. Qed.

Lemma started_snoc {C} timeout (answers : nat → attempt C) delays d :
  started timeout answers (delays ++ [d]) = (clock timeout answers delays (length delays) + d)%Z.
Proof.
  rewrite clock_started. unfold started. rewrite length_app. cbn [length].
  rewrite Nat.add_1_r, fmap_seq_S, !sum_snoc. lia.
Qed.

Lemma failed_with_snoc {C} timeout policy (answers : nat → attempt C) delays d j e o :
  j ≤ length delays → failed_with timeout policy answers delays j e o →
  failed_with timeout policy answers (delays ++ [d]) j e o.
Proof. intros Hj. unfold failed_with, clock. by rewrite take_app_le. Qed.

Lemma first_decisive_result {C} timeout policy (answers : nat → attempt C) k r :
  first_decisive timeout policy answers k r → attempt_result timeout (answers k) = Ret r.
Proof. intros (delays & _ & _ & Hr). destruct r; [done|]. apply Hr. Qed.

Lemma dial_loop_terminates {C} m fuel self idx b addr timeout policy (env : Env B C) delays :
  backends self !! idx = Some b → responsive timeout (env b addr) → bounded_policy m policy →
  (Z.of_nat (length delays) + 1 ≤ u32_MAX)%Z → Nat.max 1 (m - length delays) ≤ fuel →
  (∀ j d, delays !! j = Some d → ∃ e, failed_with timeout policy (env b addr) delays j e (Some d)) →
  ∃ k r, dial_loop fuel self idx addr timeout policy env (length delays) (Z.of_nat (length delays))
      (started timeout (env b addr) delays) = Ret r ∧
    length delays ≤ k < length delays + Nat.max 1 (m - length delays) ∧
    first_decisive timeout policy (env b addr) k r.
Proof.
  intros Hb Hr Hp. revert delays. induction fuel as [|fuel IH]; intros delays Hn Hf Hbefore; [lia|].
  set (n := length delays) in *. cbn [dial_loop]. unfold u32_add. rewrite fit_small by done.
  rewrite (index_lookup _ _ _ Hb).
  destruct (dial_attempt_responds timeout (env b addr) n Hr) as (r & d & E).
  assert (Hres : attempt_result timeout (env b addr n) = Ret r)
    by (unfold attempt_result; by rewrite E).
  unfold mbind, outcome_bind. rewrite E. destruct r as [conn|e]; cbn [fst snd].
  { exists n, (Ok conn). split; [done|]. split; [lia|]. by exists delays. }
  assert (Hclock : (started timeout (env b addr) delays + d + at_lag (env b addr n))%Z =
    clock timeout (env b addr) delays n).
  { unfold n. rewrite clock_started. unfold took. fold n. rewrite E. cbn. lia. }
  rewrite Hclock. destruct (retry_delay_total m policy (env b addr n) (clock timeout (env b addr) delays n)
    (Z.of_nat n + 1) e Hp (proj2 (proj2 Hr n))) as (o & Eo & Ho).
  assert (Hfail : failed_with timeout policy (env b addr) delays n e o) by done.
  rewrite Eo. destruct o as [delay|].
  - assert (S n < m) by (destruct (decide (S n < m)); [done|]; specialize (Ho ltac:(lia)); done).
    assert (is_Some policy) by (destruct policy; [by eauto|done]).
    assert (Hlen : length (delays ++ [delay]) = S n) by (rewrite length_app; cbn; unfold n; lia).
    destruct (IH (delays ++ [delay])) as (k & r & Ek & Hk & Hd); rewrite ?Hlen in *.
    + by eapply policy_step.
    + lia.
    + intros j dj [Hj|[Hge Hj]]%lookup_app_Some.
      * destruct (Hbefore j dj Hj) as [ej Hej]. exists ej. apply failed_with_snoc; [|done].
        apply lookup_lt_Some in Hj. unfold n in *. lia.
      * apply list_lookup_singleton_Some in Hj as [Hz <-]. fold n in Hz, Hge.
        replace j with n by lia. exists e. by apply failed_with_snoc.
    + exists k, r. rewrite started_snoc in Ek. fold n in Ek. split; [|split; [lia|done]].
      by replace (Z.of_nat n + 1)%Z with (Z.of_nat (S n)) by lia.
  - exists n, (Err e). split; [done|]. split; [lia|]. by exists delays.
Qed.

Lemma dial_with_retry_terminates {C} m fuel self idx b addr timeout policy (env : Env B C) :
  backends self !! idx = Some b →
  responsive (effective timeout (dial_timeout self)) (env b addr) →
  bounded_policy m (effective policy (retry_policy self)) → Nat.max 1 m ≤ fuel →
  ∃ k r, dial_with_retry fuel self idx addr timeout policy env = Ret r ∧ k < Nat.max 1 m ∧
    first_decisive (effective timeout (dial_timeout self)) (effective policy (retry_policy self))
      (env b addr) k r.
Proof.
  intros Hb Hr Hp Hf.
  destruct (dial_loop_terminates m fuel self idx b addr _ _ env [] Hb Hr Hp)
    as (k & r & E & Hk & Hd); [done|cbn; lia|by intros|].
  exists k, r. split; [exact E|]. split; [cbn in Hk; lia|done].
Qed.

(** ** Lemmas: states *)

Lemma same_pool_after i m d self : same_pool self (after i m d self).
Proof. by repeat split. Qed.

(** A dial that returns a connection, whatever the environment. *)
Lemma dial_ok_inv {C} k fuel ρ (env : Env B C) addr timeout policy self gc self' :
  (0 ≤ k)%Z → ready (k + 1) self → rng_ok ρ →
  dial_with_options fuel ρ env addr timeout policy self = (Ret (Ok gc), self') →
  ∃ i m d, consulted ρ addr i true self d ∧ metrics self !! i = Some m ∧ dyn_safe k d ∧
    _guard gc = {| guard_index := i; gen_at_creation := generation self |} ∧
    self' = after i (dialled m) d self.
Proof.
  intros Hk Hr Hρ E. destruct (validate_dial_addr addr) as [[]|e] eqn:Hv;
    [|by unfold dial_with_options in E; rewrite Hv in E].
  destruct (dial_eq k fuel ρ env addr timeout policy self Hk Hr Hρ Hv)
    as (i & m & _ & Hm & _ & Hd).
  destruct (dial_with_retry _ _ _ _ _ _ _) as [[conn|e]| | |];
    [destruct Hd as (d & Hs & Ht & Hd); rewrite E in Hd..|destruct Hd as (d & Hd); rewrite E in Hd|
     destruct Hd as (d & Hd); rewrite E in Hd|destruct Hd as (d & Hd); rewrite E in Hd];
    simplify_eq.
  exists i, m, d. by split_and!.
Qed.

Lemma generation_moves self g :
  wf self → g = ((generation self + 1) mod (usize_MAX + 1))%Z →
  g ≠ generation self ∧ (0 ≤ g ≤ usize_MAX)%Z.
Proof.
  intros (_ & _ & _ & Hg) ->. pose proof usize_MAX_ge_u32. unfold u32_MAX in *.
  destruct (decide (generation self = usize_MAX)) as [->|Hne].
  - rewrite Z_mod_same_full. lia.
  - rewrite Z.mod_small by lia. lia.
Qed.

(** ** Lemmas: reconfiguration *)

Lemma remove_backend_ok i self :
  wf self → i < length (backends self) →
  ∃ b self', backends self !! i = Some b ∧ remove_backend i self = (Ret true, self') ∧
    without i b self self' ∧ wf self'.
Proof.
  intros Hwf Hi. destruct (generation_moves self _ Hwf eq_refl) as [Hne Hran].
  destruct Hwf as (Hids & Hms & Hf & _).
  destruct (lookup_lt_is_Some_2 (backends self) i Hi) as [b Hb].
  destruct (lookup_lt_is_Some_2 (ids self) i) as [d Hd]; [lia|].
  destruct (lookup_lt_is_Some_2 (metrics self) i) as [m Hm]; [lia|].
  eexists b, _. split; [done|]. split.
  - unfold remove_backend, bump_generation, shutdown_backend. mrun. rewrite decide_False by lia.
    rewrite (vec_remove_lookup _ _ _ Hb), (vec_remove_lookup _ _ _ Hd),
      (vec_remove_lookup _ _ _ Hm). reflexivity.
  - split; [by repeat split|]. repeat split; cbn; try lia.
    + rewrite !length_delete by (by eexists). lia.
    + rewrite !length_delete by (by eexists). lia.
    + by apply Forall_delete.
Qed.

Lemma shutdown_all_eq bs self :
  shutdown_all bs self =
    (Ret tt, {| backends := backends self; ids := ids self; metrics := metrics self;
                strategy := strategy self; generation := generation self;
                dial_timeout := dial_timeout self; retry_policy := retry_policy self;
                shutdowns := shutdowns self ++ bs |}).
Proof.
  revert self. induction bs as [|b bs IH]; intros self; cbn.
  - mrun. rewrite app_nil_r. by destruct self.
  - unfold shutdown_backend. mrun. rewrite IH. cbn. by rewrite <-app_assoc.
Qed.

Lemma replace_backends_eq new_backends s self :
  new_backends ≠ [] →
  replace_backends new_backends s self =
    (Ret (Ok tt), {| backends := new_backends;
       ids := replicate (length new_backends) None;
       metrics := replicate (length new_backends) TunnelMetrics_default;
       strategy := default (strategy self) s;
       generation := ((generation self + 1) mod (usize_MAX + 1))%Z;
       dial_timeout := dial_timeout self; retry_policy := retry_policy self;
       shutdowns := shutdowns self ++ backends self |}).
Proof.
  intros Hn. unfold replace_backends, bump_generation.
  rewrite decide_False by (by destruct new_backends). mrun. rewrite shutdown_all_eq.
  cbn. by destruct s.
Qed.

Lemma drain_backend_inv i self self' :
  drain_backend i self = (Ret true, self') →
  i < length (backends self) ∧
  self' = set_metrics (alter (set_recent_errors u32_MAX) i (metrics self)) self.
Proof.
  unfold drain_backend, update_metrics. mrun. case_decide; mrun; intros ?; simplify_eq. split; [lia|done].
Qed.

(** Draining an entry keeps everything a dial needs. *)
Lemma ready_drained k i self :
  ready k self →
  ready k (set_metrics (alter (set_recent_errors u32_MAX) i (metrics self)) self).
Proof.
  intros ((? & Hl & Hf & ?) & ? & ? & ? & Hr & Hroom).
  repeat split; cbn; rewrite ?length_alter; try done; try lia.
  - apply Forall_alter; [done|]. intros m _ (? & ? & ? & ? & ?). unfold TunnelMetrics_wf, u32_MAX in *; cbn. split_and!; done || lia.
  - unfold rtts_sane in *. cbn in *. by apply Forall_alter.
  - by apply Forall_alter.
Qed.

Lemma dyn_round_robin_pick ρ v d c :
  d = Dyn {| RoundRobin.next := c |} → 0 < PoolView_len v →
  (Z.of_nat (PoolView_len v) < usize_MAX)%Z →
  (pick ρ v d).1 = Ret (c `mod` PoolView_len v).
Proof.
  intros -> Hv Hmax. unfold pick, dyn_BalanceStrategy, dyn_call. cbn.
  by rewrite round_robin_pick_eq.
Qed.

Lemma remove_by_id_absent id self :
  Some id ∉ ids self → remove_backend_by_id id self = (Ret false, self).
Proof.
  intros Hid. unfold remove_backend_by_id. mrun.
  rewrite (proj2 (position_None _ _)); [done|].
  intros o Ho. apply bool_decide_false. by intros ->.
Qed.

Lemma remove_by_id_present id self :
  wf self → Some id ∈ ids self →
  ∃ i b self', ids self !! i = Some (Some id) ∧
    (∀ j, j < i → ids self !! j ≠ Some (Some id)) ∧ backends self !! i = Some b ∧
    remove_backend_by_id id self = (Ret true, self') ∧ without i b self self' ∧ wf self'.
Proof.
  intros Hwf Hid. unfold remove_backend_by_id. mrun.
  destruct (position _ (ids self)) as [i|] eqn:E.
  - destruct (position_Some _ _ _ E) as (o & Ho & Hi & Hbefore).
    apply bool_decide_eq_true in Hi as ->. pose proof (lookup_lt_Some _ _ _ Ho).
    destruct (remove_backend_ok i self Hwf) as (b & self' & Hb & E' & Hw & Hwf');
      [destruct Hwf; lia|].
    exists i, b, self'. split_and!; try done. intros j Hj Hlook.
    specialize (Hbefore j _ Hj Hlook). by apply bool_decide_eq_false in Hbefore.
  - specialize (proj1 (position_None _ _) E _ Hid) as Hn. by apply bool_decide_eq_false in Hn.
Qed.

Lemma fmap_const_replicate {A A'} (a : A) (l : list A') n :
  length l = n → (λ _, a) <$> l = replicate n a.
Proof. intros <-. induction l as [|x l IH]; cbn; [done|]. by rewrite IH. Qed.

Lemma create_all_length (fs : list (BackendFactory B)) bs ms :
  create_all fs = Ret (Ok (bs, ms)) → length bs = length fs ∧ length ms = length fs.
Proof.
  revert bs ms. induction fs as [|f fs IH]; intros bs ms; cbn; [by intros [= <- <-]|].
  destruct (create f) as [[out|e]| | |]; cbn; try done.
  destruct (create_all fs) as [[[bs' ms']|e]| | |]; cbn; try done.
  intros [= <- <-]. destruct (IH bs' ms' eq_refl). cbn. lia.
Qed.

(** ** Properties: dialling *)

(** C1: a dial returns, and does exactly what it should.  From a balancer that
    is ready, with a valid address, backends that answer (or a timeout) and do
    not panic, and a policy that gives up by attempt [mx], [max 1 mx] iterations
    are enough.  The call dials the backend the strategy picked from the metrics
    as they are before the call is counted, at most that many times: after each
    attempt but the last the policy asked for another one and its delay was
    slept, and the last one either gave the connection that is returned or the
    error that is returned because the policy (or its time limit) gave up on it.
    Only that backend's metrics change (a success counts one active connection
    and one dial and resets the recent errors; a failure counts one dial and one
    error and leaves the active connections as they were), the strategy is told
    the outcome once, the rest of the pool is untouched, and the balancer is
    well formed and still has its pick budget. *)
Theorem dial_returns {C} k mx fuel ρ (env : Env B C) addr timeout policy self :
  (0 ≤ k)%Z → ready (k + 1) self → rng_ok ρ → validate_dial_addr addr = Ok tt →
  (∀ b, responsive (effective timeout (dial_timeout self)) (env b addr)) →
  bounded_policy mx (effective policy (retry_policy self)) → Nat.max 1 mx ≤ fuel →
  ∃ i b m j r self',
    backends self !! i = Some b ∧ metrics self !! i = Some m ∧ j < Nat.max 1 mx ∧
    first_decisive (effective timeout (dial_timeout self)) (effective policy (retry_policy self))
      (env b addr) j r ∧
    dial_with_options fuel ρ env addr timeout policy self =
      (Ret match r with
           | Ok conn => Ok {| inner := conn; _guard :=
               {| guard_index := i; gen_at_creation := generation self |} |}
           | Err e => Err e
           end, self') ∧
    metrics self' =
      <[i := match r with Ok _ => dialled m | Err _ => failed m end]> (metrics self) ∧
    consulted ρ addr i (is_ok r) self (strategy self') ∧
    same_pool self self' ∧ wf self' ∧ dyn_safe k (strategy self').
Proof.
  intros Hk Hr Hρ Hv Hresp Hp Hf.
  destruct (dial_eq k fuel ρ env addr timeout policy self Hk Hr Hρ Hv)
    as (i & m & _ & Hm & Hi & Hd).
  destruct (lookup_lt_is_Some_2 (backends self) i Hi) as [b Hb].
  destruct (ready_index _ _ _ _ Hr Hm) as (_ & _ & Hmwf & Hroom).
  destruct (dial_with_retry_terminates mx fuel self i b addr timeout policy env Hb (Hresp b) Hp Hf)
    as (j & r & E & Hj & Hdec).
  rewrite E in Hd. destruct r as [conn|e]; destruct Hd as (d & Hs & Ht & Hd); rewrite Hd;
    do 6 eexists; (split_and!; [done..| | |done]; [by repeat split|]);
    (apply wf_after; [apply Hr|auto using dialled_wf, failed_wf]).
Qed.

(** C9: opening and closing a connection.  After a successful dial the guard
    names the backend the strategy picked.  If its drop gets the metrics' lock,
    every backend has the active connections it had before; the picked backend
    keeps one more counted dial and no recent errors, the strategy is what the
    pick and the report made of it, and nothing else differs from before the
    dial.  If the lock is taken the drop changes nothing at all: the picked
    backend keeps one active connection too many. *)
Theorem dial_then_drop {C} k fuel ρ (env : Env B C) addr timeout policy self gc self' :
  (0 ≤ k)%Z → ready (k + 1) self → rng_ok ρ →
  dial_with_options fuel ρ env addr timeout policy self = (Ret (Ok gc), self') →
  ∃ m self'', let i := guard_index (_guard gc) in
    metrics self !! i = Some m ∧ consulted ρ addr i true self (strategy self') ∧
    drop_guard true (_guard gc) self' = (Ret tt, self'') ∧
    metrics self'' = <[i := set_recent_errors 0 (set_total_dials (total_dials m + 1) m)]> (metrics self) ∧
    same_pool self self'' ∧ strategy self'' = strategy self' ∧
    drop_guard false (_guard gc) self' = (Ret tt, self') ∧
    metrics self' !! i = (λ m'', set_active_connections (active_connections m + 1) m'') <$> metrics self'' !! i.
Proof.
  intros Hk Hr Hρ E.
  destruct (dial_ok_inv k fuel ρ env addr timeout policy self gc self' Hk Hr Hρ E)
    as (i & m & d & Hc & Hm & _ & -> & ->).
  destruct (ready_index _ _ _ _ Hr Hm) as (_ & _ & (_ & Ha & _) & _).
  assert (Hlt : i < length (metrics self)) by (by eapply lookup_lt_Some).
  assert (Hback : alter (λ m, set_active_connections (saturating_sub (active_connections m) 1) m) i
      (<[i := dialled m]> (metrics self)) =
    <[i := set_recent_errors 0 (set_total_dials (total_dials m + 1) m)]> (metrics self)).
  { rewrite (alter_lookup _ _ i (dialled m)), list_insert_insert_eq by (by rewrite list_lookup_insert_eq).
    f_equal. unfold dialled, dial_in, set_recent_errors, set_total_dials, set_active_connections,
      saturating_sub; cbn. f_equal. lia. }
  eexists m, _. cbn [guard_index _guard]. split; [done|]. split; [done|]. unfold drop_guard, update_metrics. mrun.
  rewrite decide_False by (intros Hne; by apply Hne). split; [reflexivity|]. cbn. rewrite Hback.
  split; [done|]. split; [by repeat split|]. split; [done|]. split; [by case_decide|].
  by rewrite !list_lookup_insert_eq.
Qed.

(** Draining does not stop round robin, and does not last.  A backend that
    was just drained is still dialled when the round-robin counter comes to it,
    and the successful dial removes the drain mark. *)
Theorem drained_backend_still_dialled {C} fuel ρ (env : Env B C) addr timeout policy self i c self1 gc self' :
  ready 1 self → rng_ok ρ →
  strategy self = Dyn {| RoundRobin.next := c |} → c `mod` length (backends self) = i →
  drain_backend i self = (Ret true, self1) →
  dial_with_options fuel ρ env addr timeout policy self1 = (Ret (Ok gc), self') →
  is_draining self1 i = true ∧ guard_index (_guard gc) = i ∧ is_draining self' i = false.
Proof.
  intros Hr Hρ Hs <- Ed E. destruct (drain_backend_inv _ _ _ Ed) as [Hi ->].
  assert (Hl : length (metrics self) = length (backends self)) by apply Hr.
  destruct (lookup_lt_is_Some_2 (metrics self) (c `mod` length (backends self))) as [m0 Hm0];
    [lia|].
  assert (Hr' : ready (0 + 1) (set_metrics (alter (set_recent_errors u32_MAX)
    (c `mod` length (backends self)) (metrics self)) self)) by (by apply ready_drained).
  destruct (dial_ok_inv 0 fuel ρ env addr timeout policy _ gc self' ltac:(done) Hr' Hρ E)
    as (i & m & d & (d0 & Hp & _) & Hm & _ & -> & ->). apply (f_equal fst) in Hp.
  rewrite (dyn_round_robin_pick _ _ _ c Hs) in Hp
    by (unfold PoolView_len; cbn; rewrite length_alter, Hl; apply Hr).
  injection Hp as <-. unfold PoolView_len in Hm |- *. cbn in *.
  rewrite length_alter, Hl in Hm |- *.
  unfold is_draining; cbn. rewrite list_lookup_alter_eq, Hm0. split; [done|]. split; [done|].
  rewrite list_lookup_insert_eq; [done|]. rewrite length_alter. by eapply lookup_lt_Some.
Qed.

(** ** Properties: reconfiguration *)

(** C23: removing a backend.  In range, exactly that backend is shut down and
    exactly its entries leave the three parallel vectors, the others keeping
    their order; the generation moves on and the pool stays well formed.  Out
    of range nothing happens.  By id, the first backend with that id goes. *)
Theorem remove_backend_spec self :
  wf self →
  (∀ i, length (backends self) ≤ i → remove_backend i self = (Ret false, self)) ∧
  (∀ i, i < length (backends self) → ∃ b self', backends self !! i = Some b ∧
     remove_backend i self = (Ret true, self') ∧ without i b self self' ∧ wf self') ∧
  (∀ id, Some id ∉ ids self → remove_backend_by_id id self = (Ret false, self)) ∧
  (∀ id, Some id ∈ ids self → ∃ i b self', ids self !! i = Some (Some id) ∧
     (∀ j, j < i → ids self !! j ≠ Some (Some id)) ∧ backends self !! i = Some b ∧
     remove_backend_by_id id self = (Ret true, self') ∧ without i b self self' ∧ wf self').
Proof.
  intros Hwf. split_and!.
  - intros i Hi. unfold remove_backend. mrun. by rewrite decide_True.
  - intros i Hi. by apply remove_backend_ok.
  - intros id Hid. by apply remove_by_id_absent.
  - intros id Hid. by apply remove_by_id_present.
Qed.

(** C24: replacing the pool.  An empty pool is refused and nothing changes.
    Otherwise the old backends are shut down, all and in order; the new ones
    start without ids and with zero metrics; the strategy instance is the new
    one if given, else the old one with its state; the generation moves on. *)
Theorem replace_backends_spec new_backends s self :
  wf self →
  replace_backends [] s self = (Ret (Err Error.no_backends), self) ∧
  (new_backends ≠ [] → ∃ self',
     replace_backends new_backends s self = (Ret (Ok tt), self') ∧ wf self' ∧
     backends self' = new_backends ∧ ids self' = replicate (length new_backends) None ∧
     metrics self' = replicate (length new_backends) TunnelMetrics_default ∧
     strategy self' = default (strategy self) s ∧
     shutdowns self' = shutdowns self ++ backends self ∧
     generation self' ≠ generation self).
Proof.
  intros Hwf. split; [done|]. intros Hn. destruct (generation_moves self _ Hwf eq_refl).
  eexists. split; [by apply replace_backends_eq|]. split_and!; try done.
  unfold wf; cbn. rewrite !length_replicate. split_and!; try done; try lia.
  apply Forall_replicate. by repeat split.
Qed.

(** C25: a guard outlives its pool safely.  After a backend was removed or the
    pool replaced, dropping a guard from before touches nothing: in particular
    it never takes a connection off whichever backend now has its index. *)
Theorem stale_guard_is_noop i new_backends s free g self self' :
  wf self → gen_at_creation g = generation self →
  remove_backend i self = (Ret true, self') ∨
  replace_backends new_backends s self = (Ret (Ok tt), self') →
  drop_guard free g self' = (Ret tt, self').
Proof.
  intros Hwf Hg Hop. assert (Hne : generation self' ≠ generation self).
  { destruct Hop as [E|E].
    - destruct (decide (i < length (backends self))) as [Hi|Hi].
      + destruct (remove_backend_ok i self Hwf Hi) as (b & self1 & _ & E' & Hw & _).
        rewrite E in E'. simplify_eq. apply Hw.
      + unfold remove_backend in E. mrun. by rewrite decide_True in E by lia.
    - destruct (decide (new_backends = [])) as [->|Hn]; [done|].
      rewrite replace_backends_eq in E by done. simplify_eq. cbn.
      by apply (generation_moves self). }
  unfold drop_guard. mrun. rewrite decide_True; [done|]. by rewrite Hg.
Qed.

(** Draining and undraining.  Draining a backend in range marks it and no
    other; undraining it succeeds once, clears the mark, and restores every
    field of every metrics record but the recent errors of that backend. *)
Theorem drain_undrain_roundtrip i self :
  wf self → i < length (backends self) →
  ∃ m self1 self2, metrics self !! i = Some m ∧
    drain_backend i self = (Ret true, self1) ∧
    (∀ j, is_draining self1 j = if decide (i = j) then true else is_draining self j) ∧
    undrain_backend i self1 = (Ret true, self2) ∧
    is_draining self2 i = false ∧ undrain_backend i self2 = (Ret false, self2) ∧
    self2 = set_metrics (<[i := set_recent_errors 0 m]> (metrics self)) self.
Proof.
  intros (_ & Hl & _) Hi. destruct (lookup_lt_is_Some_2 (metrics self) i) as [m Hm]; [lia|].
  eexists m, _, _. split; [done|]. unfold drain_backend, undrain_backend, update_metrics. mrun.
  rewrite decide_False by lia. split; [reflexivity|]. unfold is_draining; cbn.
  rewrite (alter_lookup _ _ _ _ Hm). split.
  { intros j. destruct (decide (i = j)) as [<-|Hne].
    - rewrite list_lookup_insert_eq; [done|]. lia.
    - by rewrite list_lookup_insert_ne. }
  rewrite list_lookup_insert_eq by lia. cbn. split; [reflexivity|]. cbn.
  rewrite (alter_lookup _ _ i (set_recent_errors u32_MAX m)), list_insert_insert_eq
    by (rewrite list_lookup_insert_eq; [done|lia]).
  rewrite list_lookup_insert_eq by lia. by split_and!.
Qed.

(** ** Properties: construction *)

(** A balancer can be built exactly from a non-empty pool with one metrics
    record per backend, and is then well formed with nothing shut down; the
    two other inputs give the documented errors. *)
Theorem new_with_metrics_spec (bs : list B) ms s timeout policy :
  (bs = [] → new_with_metrics bs ms s timeout policy = Err Error.no_backends) ∧
  (bs ≠ [] → length ms ≠ length bs →
     new_with_metrics bs ms s timeout policy = Err (lens_error "backends" (length ms) (length bs))) ∧
  (bs ≠ [] → length ms = length bs → Forall TunnelMetrics_wf ms →
     ∃ lb, new_with_metrics bs ms s timeout policy = Ok lb ∧ wf lb ∧
       backends lb = bs ∧ metrics lb = ms ∧ strategy lb = s ∧
       dial_timeout lb = timeout ∧ retry_policy lb = policy ∧ shutdowns lb = []).
Proof.
  unfold new_with_metrics. split_and!.
  - by intros ->.
  - intros Hb Hl. rewrite decide_False by (by destruct bs). by rewrite decide_True.
  - intros Hb Hl Hf. rewrite decide_False by (by destruct bs).
    rewrite decide_False by (by intros ?). eexists. split; [reflexivity|]. split_and!; try done.
    unfold wf, init; cbn. rewrite length_replicate. pose proof usize_MAX_ge_u32.
    unfold u32_MAX in *. split_and!; try done; lia.
Qed.

(** The builder is the constructors.  Building from backends is [new];
    building from factories is [from_factories], whatever the factories do. *)
Theorem builder_agrees (bs : list B) (fs : list (BackendFactory B)) s :
  LoadBalancerBuilder.build
    (LoadBalancerBuilder.strategy s (LoadBalancerBuilder.backends bs LoadBalancerBuilder.default)) =
    Ret (new bs s) ∧
  LoadBalancerBuilder.build
    (LoadBalancerBuilder.strategy s (LoadBalancerBuilder.factories fs LoadBalancerBuilder.default)) =
    from_factories fs s.
Proof.
  split.
  - cbn. unfold new. by rewrite (fmap_const_replicate _ _ (length bs)) by apply length_seq.
  - unfold LoadBalancerBuilder.build, from_factories. cbn. case_decide as Hf; [done|].
    destruct (create_all fs) as [[[bs' ms]|e]| | |] eqn:E; cbn; try done.
    destruct (create_all_length _ _ _ E) as [Hb Hm]. unfold new_with_metrics.
    rewrite decide_False by lia. by rewrite decide_False by lia.
Qed.
End Spec.

(** ** Witnesses *)

(** Two backends under round robin; the first attempt on a backend fails, the
    second one gives a connection; up to three attempts. *)
Definition retry_thrice : RetryPolicy :=
  FixedRetry.policy (FixedRetry.with_max_attempts 3 (FixedRetry.new (from_millis 10))).

Definition demo : t nat :=
  init [10; 20] [TunnelMetrics_default; TunnelMetrics_default] (@round_robin dev64) None
    (Some retry_thrice).

Definition demo_env : Env nat nat := λ b _ n,
  {| at_result := if decide (n = 0) then Err (Error.backend "refused") else Ok (b + n);
     at_panic := None; at_latency := Some (from_millis 5); at_lag := 0%Z; at_draw := f64_of_Z 0 |}.

Lemma demo_ready : ready (H := dev64) 1 demo.
Proof.
  assert (Hw : wf (H := dev64) demo)
    by (split; [done|]; split; [done|]; split; [solve_wf|]; vm_compute; split; discriminate).
  split; [exact Hw|]. split.
  { apply (dyn_safe_intro (H := dev64) (@RoundRobin_laws dev64)). exact I. }
  split; [cbn; lia|]. split; [vm_compute; reflexivity|].
  split; repeat constructor.
Qed.

Lemma rng0_ok : rng_ok rng0.
Proof. by intros n Hn. Qed.

Lemma demo_bounded : bounded_policy 3 (Some retry_thrice).
Proof.
  split; [apply fixed_gives_up|]. split; [vm_compute; discriminate|].
  intros draw n e _. by eexists.
Qed.

(** The dial fails once, is retried, and gets the connection [10 + 1]. *)
Definition demo_conn : GuardedConnection nat :=
  {| inner := 11; _guard := {| guard_index := 0; gen_at_creation := 0 |} |}.

Example demo_dial :
  (@dial nat nat dev64 3 rng0 demo_env "h:80" demo).1 = Ret (Ok demo_conn) ∧
  metrics (@dial nat nat dev64 3 rng0 demo_env "h:80" demo).2 =
    [dialled TunnelMetrics_default; TunnelMetrics_default].
Proof. split; vm_compute; reflexivity. Qed.

Definition demo' : t nat := (@dial nat nat dev64 3 rng0 demo_env "h:80" demo).2.

Lemma dial_returns_witness :
  ∃ i j r self', i < 2 ∧ j < 3 ∧
    first_decisive (H := dev64) None (Some retry_thrice) (demo_env 10 "h:80") j (Ok 11) ∧
    @dial_with_options nat nat dev64 3 rng0 demo_env "h:80" None None demo = (Ret r, self') ∧
    wf (H := dev64) self'.
Proof.
  destruct (dial_returns (H := dev64) 0 3 3 rng0 demo_env "h:80" None None demo)
    as (i & b & m & j & r & self' & Hb & Hm & Hj & Hd & E & Hms & (d & Hp & _) & Hs & Hw & _);
    [done|exact demo_ready|exact rng0_ok|reflexivity|by split; [right; eexists|]|exact demo_bounded|lia|].
  assert (Ei : i = 0) by (apply (f_equal fst) in Hp; vm_compute in Hp; congruence). subst i.
  assert (Eb : b = 10) by (vm_compute in Hb; congruence). subst b.
  assert (Er : r = Ok 11).
  { apply (f_equal fst) in E. vm_compute in E. by destruct r; simplify_eq. }
  subst r. eexists 0, j, _, self'. split; [lia|]. split; [exact Hj|]. split; [exact Hd|]. by split.
Defined.

Lemma dial_then_drop_witness :
  ∃ m self'', metrics demo !! 0 = Some m ∧
    drop_guard true (_guard demo_conn) demo' = (Ret tt, self'') ∧
    metrics self'' = <[0 := set_recent_errors 0 (set_total_dials (total_dials m + 1) m)]> (metrics demo) ∧
    drop_guard false (_guard demo_conn) demo' = (Ret tt, demo').
Proof.
  destruct (dial_then_drop (H := dev64) 0 3 rng0 demo_env "h:80" None None demo demo_conn demo')
    as (m & self'' & Hm & _ & E & Hms & _ & _ & Ef & _);
    [done|exact demo_ready|exact rng0_ok|apply run_eq; vm_compute; reflexivity|].
  exists m, self''. split; [exact Hm|]. split; [exact E|]. split; [exact Hms|exact Ef].
Defined.

(** The first backend of [demo], drained. *)
Definition demo_drained : t nat := (drain_backend 0 demo).2.

Lemma drained_backend_still_dialled_witness :
  is_draining demo_drained 0 = true ∧ guard_index (_guard demo_conn) = 0 ∧
  is_draining (@dial nat nat dev64 3 rng0 demo_env "h:80" demo_drained).2 0 = false.
Proof.
  apply (drained_backend_still_dialled (H := dev64) 3 rng0 demo_env "h:80" None None demo 0 0
    demo_drained demo_conn); [exact demo_ready|exact rng0_ok|reflexivity..|].
  apply run_eq. vm_compute. reflexivity.
Defined.

Lemma remove_backend_spec_witness :
  ∃ b self', backends demo !! 1 = Some b ∧
    @remove_backend nat dev64 1 demo = (Ret true, self') ∧ without 1 b demo self' ∧
    wf (H := dev64) self'.
Proof. apply (remove_backend_spec (H := dev64) demo (proj1 demo_ready)). cbn. lia. Defined.

Lemma replace_backends_spec_witness :
  @replace_backends nat dev64 [] None demo = (Ret (Err Error.no_backends), demo) ∧
  ∃ self', @replace_backends nat dev64 [30] None demo = (Ret (Ok tt), self') ∧
    backends self' = [30] ∧ shutdowns self' = [10; 20].
Proof.
  destruct (replace_backends_spec (H := dev64) [30] None demo (proj1 demo_ready)) as [He Hr].
  split; [exact He|]. destruct (Hr ltac:(done)) as (self' & E & _ & Hb & _ & _ & _ & Hsd & _).
  exists self'. by split.
Defined.

Lemma stale_guard_is_noop_witness :
  let self' := (@remove_backend nat dev64 1 demo').2 in
  drop_guard true (_guard demo_conn) self' = (Ret tt, self').
Proof.
  apply (stale_guard_is_noop (H := dev64) 1 [] None true (_guard demo_conn) demo');
    [|vm_compute; reflexivity|left; apply run_eq; vm_compute; reflexivity].
  split; [done|]. split; [done|]. split; [solve_wf|]; vm_compute; split; discriminate.
Defined.

Lemma drain_undrain_roundtrip_witness :
  ∃ m self1 self2, metrics demo !! 1 = Some m ∧
    drain_backend 1 demo = (Ret true, self1) ∧
    (∀ j, is_draining self1 j = if decide (1 = j) then true else is_draining demo j) ∧
    undrain_backend 1 self1 = (Ret true, self2) ∧
    is_draining self2 1 = false ∧ undrain_backend 1 self2 = (Ret false, self2) ∧
    self2 = set_metrics (<[1 := set_recent_errors 0 m]> (metrics demo)) demo.
Proof.
  apply (drain_undrain_roundtrip (H := dev64) 1 demo (proj1 demo_ready)). cbn. lia.
Defined.
