(* ===== verification/Sessions.v ===== *)
(** * Sessions: a client dialling and closing through one balancer

    A session is a sequence of calls a client makes on a [LoadBalancer]: dials,
    and drops of the connections it holds.  The file shows that a session in
    contract returns from every call, that the balancer drives its strategy
    exactly as a machine of picks and reports does ([move]), and what follows
    for the distribution of the dials under the built-in strategies. *)

From stdpp Require Import base tactics list numbers strings.
From S2P Require Import Prelude Errors Constants Strategy Float64 Retry Address Balancer.
From S2P Require Import Strategies Scored Registry BalancerFacts BalancerSpec.

Open Scope rota_scope.
Import LoadBalancer.

(** ** Sessions *)

Section Model.
Context `{Target} {B C : Type}.

(** The arguments of one [dial_with_options], with what surrounds it. *)
Record request := {
  rq_rng : Rng;
  rq_env : Env B C;
  rq_addr : string;
  rq_timeout : option Duration;
  rq_policy : option RetryPolicy
}.

Inductive action :=
| Dial (r : request)
| Close (k : nat) (free : bool).

(** The balancer, and the connections the client holds. *)
Record session := { lb : t B; held : list (GuardedConnection C) }.

Definition answer : Type := option (Result (GuardedConnection C) Error.t).

Definition dial_request (fuel : nat) (r : request) : M (t B) (Result (GuardedConnection C) Error.t) :=
  dial_with_options fuel (rq_rng r) (rq_env r) (rq_addr r) (rq_timeout r) (rq_policy r).

Definition act (fuel : nat) (a : action) : M session answer :=
  λ σ, match a with
       | Dial r =>
           let '(o, l) := dial_request fuel r (lb σ) in
           (res ← o; Ret (Some res),
            {| lb := l;
               held := match o with Ret (Ok gc) => held σ ++ [gc] | _ => held σ end |})
       | Close k free =>
           match held σ !! k with
           | None => (Ret None, σ)
           | Some gc =>
               let '(o, l) := drop_guard free (_guard gc) (lb σ) in
               (o;; Ret None, {| lb := l; held := delete k (held σ) |})
           end
       end.

Fixpoint play (fuel : nat) (acts : list action) : M session (list answer) :=
  match acts with
  | [] => mret []
  | a :: acts' => r ← act fuel a; rs ← play fuel acts'; mret (r :: rs)
  end.
End Model.
Arguments request : clear implicits.
Arguments action : clear implicits.
Arguments session : clear implicits.
Arguments answer : clear implicits.

(** ** Specification *)

(** A balancer with room for [k] more dials. *)
Definition spare {B} (k : Z) (self : t B) : Prop :=
  Forall (λ m, (active_connections m + k ≤ u32_MAX ∧ total_dials m + k ≤ u64_MAX)%Z) (metrics self).
Definition good `{Target} {B} (k : Z) (self : t B) : Prop :=
  wf self ∧ dyn_safe k (strategy self) ∧ 0 < length (backends self) ∧
  (Z.of_nat (length (backends self)) < usize_MAX)%Z ∧ rtts_sane (lb_view "" self) ∧ spare k self.

(** A request in contract: backends that answer or a timeout, and a policy that
    gives up within the fuel. *)
Definition request_ok {B C} (fuel : nat) (self : t B) (r : request B C) : Prop :=
  rng_ok (rq_rng r) ∧ validate_dial_addr (rq_addr r) = Ok tt ∧
  (∀ b, responsive (effective (rq_timeout r) (dial_timeout self)) (rq_env r b (rq_addr r))) ∧
  ∃ mx, bounded_policy mx (effective (rq_policy r) (retry_policy self)) ∧ Nat.max 1 mx ≤ fuel.

Definition action_ok {B C} (fuel : nat) (self : t B) (a : action B C) : Prop :=
  match a with Dial r => request_ok fuel self r | Close _ _ => True end.

(** What the strategy and the metrics see of a call. *)
Inductive label :=
| Went (addr : string) (i : nat) (ok : bool)
| Stayed.

Definition release_one (m : TunnelMetrics) : TunnelMetrics :=
  set_active_connections (saturating_sub (active_connections m) 1) m.

(** One call: a pick from the current metrics with the report of its result, or
    at most one released connection. *)
Inductive move `{Target} {S : Type} `{!BalanceStrategy S} :
    label → S * list TunnelMetrics → S * list TunnelMetrics → Prop :=
| move_dial ρ addr i (ok : bool) (s s1 s2 : S) ms m :
    sane_call (ρ, {| dial_addr := addr; Strategy.metrics := ms |}) →
    pick ρ {| dial_addr := addr; Strategy.metrics := ms |} s = (Ret i, s1) → ms !! i = Some m →
    (if ok then report_success i s1 else report_error i s1) = (Ret tt, s2) →
    move (Went addr i ok) (s, ms) (s2, <[i := if ok then dialled m else failed m]> ms)
| move_close i s ms : move Stayed (s, ms) (s, alter release_one i ms)
| move_none s ms : move Stayed (s, ms) (s, ms).

Inductive moves `{Target} {S : Type} `{!BalanceStrategy S} :
    list label → S * list TunnelMetrics → S * list TunnelMetrics → Prop :=
| moves_nil x : moves [] x x
| moves_cons l ls x y z : move l x y → moves ls y z → moves (l :: ls) x z.

(** The call, its answer and its label tell the same story: the dial went to
    the backend of the label, whose answers decided the result. *)
Definition logged `{Target} {B C} (self : t B) (a : action B C) (r : answer C) (l : label) : Prop :=
  match a, r, l with
  | Dial rq, Some res, Went addr i ok =>
      addr = rq_addr rq ∧ ok = is_ok res ∧ (∀ gc, res = Ok gc → guard_index (_guard gc) = i) ∧
      ∃ b j r0, backends self !! i = Some b ∧ is_ok r0 = ok ∧
        first_decisive (effective (rq_timeout rq) (dial_timeout self))
          (effective (rq_policy rq) (retry_policy self)) (rq_env rq b addr) j r0
  | Close _ _, None, Stayed => True
  | _, _, _ => False
  end.

(** ** Lemmas: one call *)

Section Lemmas.
Context `{Target} {B C : Type}.
Implicit Types (self : t B) (σ : session B C).

Lemma good_ready k self : (0 ≤ k)%Z → good (k + 1) self → ready (k + 1) self.
Proof.
  intros Hk (? & ? & ? & ? & ? & Hs). split_and!; try done.
  eapply Forall_impl; [exact Hs|]. intros m [??]. split; lia.
Qed.

Lemma spare_mono k k' self : (k' ≤ k)%Z → spare k self → spare k' self.
Proof. intros Hk Hs. eapply Forall_impl; [exact Hs|]. intros m [??]. cbn in *. split; lia. Qed.

Lemma good_mono k k' self : (k' ≤ k)%Z → good k self → good k' self.
Proof.
  intros Hk (? & ? & ? & ? & ? & ?). split_and!; try done; [|by eapply spare_mono].
  by eapply (safe_mono (StrategyLaws := dyn_StrategyLaws)).
Qed.

Lemma request_ok_same fuel self self' (r : request B C) :
  same_pool self self' → request_ok fuel self r → request_ok fuel self' r.
Proof. intros (_ & _ & _ & Ht & Hp & _) Hr. unfold request_ok. by rewrite Ht, Hp. Qed.

Lemma action_ok_same fuel self self' (a : action B C) :
  same_pool self self' → action_ok fuel self a → action_ok fuel self' a.
Proof. destruct a; [apply request_ok_same|done]. Qed.

Lemma same_pool_trans self1 self2 self3 :
  same_pool self1 self2 → same_pool self2 self3 → same_pool self1 self3.
Proof. unfold same_pool. intros (?&?&?&?&?&?) (?&?&?&?&?&?). split_and!; congruence. Qed.

Lemma logged_same self self' (a : action B C) r l :
  same_pool self self' → logged self' a r l → logged self a r l.
Proof.
  intros (Hb & _ & _ & Ht & Hp & _). unfold logged. by rewrite Hb, Ht, Hp.
Qed.

(** Replacing one entry by one with the same RTT and little more load. *)
Lemma good_after k self i m m' d :
  good (k + 1) self → dyn_safe k d → metrics self !! i = Some m → TunnelMetrics_wf m' → rtt m' = rtt m →
  (active_connections m' ≤ active_connections m + 1)%Z → (total_dials m' ≤ total_dials m + 1)%Z →
  good k (after i m' d self).
Proof.
  intros (Hwf & _ & Hne & Hmax & Hr & Hs) Hd Hm Hm' Hrtt Ha Ht. split_and!; try done.
  - by apply wf_after.
  - unfold rtts_sane in *. cbn in *. apply Forall_insert; [done|]. rewrite Hrtt.
    exact (Forall_lookup_1 _ _ _ _ Hr Hm).
  - unfold spare in *. cbn. apply Forall_insert.
    + eapply Forall_impl; [exact Hs|]. cbn. intros x [??]. split; lia.
    + destruct (Forall_lookup_1 _ _ _ _ Hs Hm). split; lia.
Qed.

Context {S : Type} `{!BalanceStrategy S}.

(** A boxed strategy runs as what it holds. *)
Lemma dyn_pick_inv ρ v (s : S) i d :
  pick ρ v (Dyn s) = (Ret i, d) → ∃ s1, pick ρ v s = (Ret i, s1) ∧ d = Dyn s1.
Proof.
  unfold pick at 1, dyn_BalanceStrategy, dyn_call. cbn.
  destruct (pick ρ v s) as [o s1]. intros [= -> <-]. by eauto.
Qed.

Lemma dyn_report_error_inv i (s : S) d :
  report_error i (Dyn s) = (Ret tt, d) → ∃ s1, report_error i s = (Ret tt, s1) ∧ d = Dyn s1.
Proof.
  unfold report_error at 1, dyn_BalanceStrategy, dyn_call. cbn.
  destruct (report_error i s) as [o s1]. intros [= -> <-]. by eauto.
Qed.

Lemma dyn_report_success_inv i (s : S) d :
  report_success i (Dyn s) = (Ret tt, d) → ∃ s1, report_success i s = (Ret tt, s1) ∧ d = Dyn s1.
Proof.
  unfold report_success at 1, dyn_BalanceStrategy, dyn_call. cbn.
  destruct (report_success i s) as [o s1]. intros [= -> <-]. by eauto.
Qed.

(** A dial is a move of the strategy it drives. *)
Lemma dial_move k fuel (r : request B C) self (s : S) :
  (0 ≤ k)%Z → good (k + 1) self → strategy self = Dyn s → request_ok fuel self r →
  ∃ res l s2 self', dial_request fuel r self = (Ret res, self') ∧
    logged self (Dial r) (Some res) l ∧ move l (s, metrics self) (s2, metrics self') ∧
    strategy self' = Dyn s2 ∧ same_pool self self' ∧ good k self'.
Proof.
  intros Hk Hg Hs (Hρ & Hv & Hresp & mx & Hp & Hf).
  pose proof (good_ready k self Hk Hg) as Hr.
  destruct (select_backend_ok k self (rq_rng r) (rq_addr r) Hk Hr Hρ) as (i & m & d & Hm & Hd & Ep & E).
  destruct (ready_index _ _ _ _ Hr Hm) as (Hi & Hiu & Hmwf & Hroom).
  destruct (lookup_lt_is_Some_2 (backends self) i Hi) as [b Hb].
  destruct (dial_with_retry_terminates mx fuel self i b _ _ _ (rq_env r) Hb (Hresp b) Hp Hf)
    as (j & r0 & Er & _ & Hdec).
  rewrite Hs in Ep. destruct (dyn_pick_inv _ _ _ _ _ Ep) as (s1 & Ep1 & ->).
  pose proof (ready_sane_call _ self (rq_addr r) (rq_rng r) Hr Hρ) as Hsane.
  unfold dial_request. rewrite (dial_selected _ _ _ _ _ _ _ _ _ _ Hv (Nat.lt_lt_0 _ _ Hi) E).
  unfold mbind, M_bind, lift. rewrite Er. destruct r0 as [conn|e].
  - destruct (handle_dial_success_eq k self i m _ Hm Hd) as (d' & Hd' & Erep & ->).
    destruct (dyn_report_success_inv _ _ _ Erep) as (s2 & Es2 & ->).
    eexists _, (Went (rq_addr r) i true), s2, _. split; [reflexivity|]. split_and!.
    + split_and!; try done; [by intros gc [= <-]|]. by exists b, j, (Ok conn).
    + exact (move_dial _ _ i true _ _ _ _ _ Hsane Ep1 Hm Es2).
    + done.
    + by repeat split.
    + apply (good_after k self i m); try done; [by apply dialled_wf|cbn; lia..].
  - destruct (handle_dial_error_eq k self i m _ e (proj1 Hr) Hm Hd Hiu) as (d' & Hd' & Erep & ->).
    destruct (dyn_report_error_inv _ _ _ Erep) as (s2 & Es2 & ->).
    eexists _, (Went (rq_addr r) i false), s2, _. split; [reflexivity|]. split_and!.
    + split_and!; try done. by exists b, j, (Err e).
    + exact (move_dial _ _ i false _ _ _ _ _ Hsane Ep1 Hm Es2).
    + done.
    + by repeat split.
    + apply (good_after k self i m); try done; [by apply failed_wf|cbn; lia..].
Qed.

Lemma release_one_wf m : TunnelMetrics_wf m → TunnelMetrics_wf (release_one m).
Proof.
  intros (? & ? & ? & ? & ?). unfold release_one, saturating_sub. split_and!; cbn; try done; lia.
Qed.

Lemma good_release k i self :
  good k self → good k (set_metrics (alter release_one i (metrics self)) self).
Proof.
  intros ((? & ? & Hwf & ?) & ? & ? & ? & Hr & Hs).
  split_and!; try done.
  - unfold wf; cbn. rewrite length_alter. split_and!; try tauto.
    apply Forall_alter; [done|]. intros m _. apply release_one_wf.
  - unfold rtts_sane in *. cbn in *. by apply Forall_alter.
  - unfold spare in *. cbn. apply Forall_alter; [done|]. intros m Hm [??].
    destruct (Forall_lookup_1 _ _ _ _ Hwf Hm) as (_ & ? & _). cbn. unfold saturating_sub. split; lia.
Qed.

(** Dropping a guard releases at most one connection. *)
Lemma drop_move k free g self (s : S) :
  good k self → strategy self = Dyn s →
  ∃ self', drop_guard free g self = (Ret tt, self') ∧ move Stayed (s, metrics self) (s, metrics self') ∧
    strategy self' = Dyn s ∧ same_pool self self' ∧ good k self'.
Proof.
  intros Hg Hs. unfold drop_guard, update_metrics. mrun.
  case_decide; [|destruct free].
  - exists self. split_and!; try done. apply move_none.
  - eexists. split; [reflexivity|]. split_and!; [apply move_close|done|by repeat split|by apply good_release].
  - exists self. split_and!; try done. apply move_none.
Qed.

Lemma act_move k fuel (a : action B C) σ (s : S) :
  (0 ≤ k)%Z → good (k + 1) (lb σ) → strategy (lb σ) = Dyn s → action_ok fuel (lb σ) a →
  ∃ r l s2 σ', act fuel a σ = (Ret r, σ') ∧ logged (lb σ) a r l ∧
    move l (s, metrics (lb σ)) (s2, metrics (lb σ')) ∧ strategy (lb σ') = Dyn s2 ∧
    same_pool (lb σ) (lb σ') ∧ good k (lb σ').
Proof.
  intros Hk Hg Hs Ha. destruct a as [r|j free]; cbn.
  - destruct (dial_move k fuel r (lb σ) s Hk Hg Hs Ha) as (res & l & s2 & self' & E & Hl & Hm & Hrest).
    rewrite E. eexists _, l, s2, _. split; [reflexivity|]. done.
  - apply (good_mono _ k) in Hg; [|lia]. destruct (held σ !! j) as [gc|].
    + destruct (drop_move k free (_guard gc) (lb σ) s Hg Hs) as (self' & E & Hm & Hrest).
      rewrite E. eexists _, Stayed, s, _. split; [reflexivity|]. done.
    + exists None, Stayed, s, σ. split_and!; try done. apply move_none.
Qed.

(** A session runs as moves of the strategy: every call returns, and the
    answers are those of the moves. *)
Lemma play_moves fuel (acts : list (action B C)) σ (s : S) :
  good (Z.of_nat (length acts)) (lb σ) → strategy (lb σ) = Dyn s →
  Forall (action_ok fuel (lb σ)) acts →
  ∃ rs ls s' σ', play fuel acts σ = (Ret rs, σ') ∧ Forall3 (logged (lb σ)) acts rs ls ∧
    moves ls (s, metrics (lb σ)) (s', metrics (lb σ')) ∧ strategy (lb σ') = Dyn s' ∧
    same_pool (lb σ) (lb σ') ∧ wf (lb σ').
Proof.
  revert σ s. induction acts as [|a acts IH]; intros σ s Hg Hs Hok.
  { exists [], [], s, σ. split_and!; try done; [constructor..|apply Hg]. }
  cbn [length] in Hg. rewrite Nat2Z.inj_succ, <-Z.add_1_r in Hg.
  apply Forall_cons in Hok as [Ha Hok].
  destruct (act_move _ fuel a σ s (Nat2Z.is_nonneg _) Hg Hs Ha)
    as (r & l & s1 & σ1 & E & Hl & Hm & Hs1 & Hsame & Hg1).
  destruct (IH σ1 s1 Hg1 Hs1) as (rs & ls & s' & σ' & E' & Hls & Hms & Hs' & Hsame' & Hwf).
  { eapply Forall_impl; [exact Hok|]. intros x. by apply action_ok_same. }
  exists (r :: rs), (l :: ls), s', σ'. cbn [play]. unfold mbind, M_bind. rewrite E, E'.
  split_and!; try done.
  - constructor; [done|]. eapply Forall3_impl; [exact Hls|]. intros. by eapply logged_same.
  - by econstructor.
  - by eapply same_pool_trans.
Qed.
End Lemmas.

(** ** Lemmas: where the dials of a run went *)

Definition picks (ls : list label) : list nat :=
  omap (λ l, match l with Went _ i _ => Some i | Stayed => None end) ls.

(** How often [i] occurs. *)
Definition times (i : nat) (l : list nat) : nat := length (filter (eq i) l).

Lemma times_cons i j l : times i (j :: l) = (if decide (i = j) then 1 else 0) + times i l.
Proof. unfold times. rewrite filter_cons. by case_decide. Qed.

Lemma times_app i l1 l2 : times i (l1 ++ l2) = times i l1 + times i l2.
Proof. unfold times. by rewrite filter_app, length_app. Qed.

Lemma times_perm i l1 l2 : l1 ≡ₚ l2 → times i l1 = times i l2.
Proof. intros E. unfold times. by rewrite E. Qed.

Lemma times_absent i l : i ∉ l → times i l = 0.
Proof.
  induction l as [|j l IH]; [done|]. rewrite times_cons, not_elem_of_cons. intros [??].
  rewrite decide_False by done. by apply IH.
Qed.

Lemma times_NoDup i l : NoDup l → times i l ≤ 1.
Proof.
  induction 1 as [|j l Hj _ IH]; [by apply Nat.le_0_l|]. rewrite times_cons.
  case_decide; [subst j; rewrite times_absent by done|]; lia.
Qed.

Lemma times_elem i l : i ∈ l → 1 ≤ times i l.
Proof.
  induction l as [|j l IH]; [by intros ?%elem_of_nil|]. rewrite times_cons.
  intros [->|Hi]%elem_of_cons; [rewrite decide_True by done; lia|specialize (IH Hi); lia].
Qed.

Section Distribution.
Context `{Target}.

(** A walk around [n] places visits each evenly. *)
Lemma walk_app a n k1 k2 : walk a n (k1 + k2) = walk a n k1 ++ walk (a + k1) n k2.
Proof.
  revert a. induction k1 as [|k1 IH]; intros a; cbn [Nat.add].
  - by rewrite Nat.add_0_r.
  - rewrite !walk_S, IH. cbn. do 2 f_equal. f_equal. lia.
Qed.

Lemma walk_count_window a n i : i < n → times i (walk a n n) = 1.
Proof.
  intros Hi. pose proof (walk_perm a n ltac:(lia)) as Hp. rewrite (times_perm _ _ _ Hp).
  apply Nat.le_antisymm; [apply times_NoDup, NoDup_seq|].
  apply times_elem, elem_of_seq. lia.
Qed.

Lemma walk_count a n k i : i < n → k / n ≤ times i (walk a n k) ≤ k / n + 1.
Proof.
  intros Hi. revert a. induction (lt_wf k) as [k _ IH]. intros a.
  destruct (decide (k < n)) as [Hk|Hk].
  - rewrite Nat.div_small by done. split; [lia|].
    pose proof (walk_app a n k (n - k)) as E. replace (k + (n - k)) with n in E by lia.
    pose proof (walk_count_window a n i Hi) as Hw. rewrite E, times_app in Hw. lia.
  - specialize (IH (k - n) ltac:(lia) (a + n)).
    replace k with (n + (k - n)) at 2 3 by lia. rewrite walk_app, times_app, walk_count_window by done.
    replace (k / n) with (S ((k - n) / n)); [lia|].
    replace k with ((k - n) + 1 * n) at 2 by lia. rewrite Nat.div_add by lia. lia.
Qed.

(** The counters tell where the dials went. *)
Lemma move_dials {S} `{!BalanceStrategy S} l (x y : S * list TunnelMetrics) i m :
  move l x y → x.2 !! i = Some m →
  ∃ m', y.2 !! i = Some m' ∧ total_dials m' = (total_dials m + Z.of_nat (times i (picks [l])))%Z.
Proof.
  intros Hmv. destruct Hmv as [ρ addr j ok s s1 s2 ms mj Hc Ep Hj Er|j s ms|s ms]; cbn [snd]; intros Hm.
  - change (picks [Went addr j ok]) with [j]. rewrite times_cons. destruct (decide (i = j)) as [->|Hne].
    + exists (if ok then dialled mj else failed mj). rewrite list_lookup_insert_eq by (by eapply lookup_lt_Some).
      split; [done|]. simplify_eq. by destruct ok.
    + rewrite list_lookup_insert_ne by done. exists m. split; [done|]. cbn. lia.
  - change (picks [Stayed]) with (@nil nat). destruct (decide (j = i)) as [->|Hne].
    + rewrite list_lookup_alter_eq, Hm. eexists. split; [done|]. cbn. lia.
    + rewrite list_lookup_alter_ne by done. exists m. split; [done|]. cbn. lia.
  - exists m. split; [done|]. cbn. lia.
Qed.

Lemma picks_cons l ls : picks (l :: ls) = picks [l] ++ picks ls.
Proof. by destruct l. Qed.

Lemma moves_dials {S} `{!BalanceStrategy S} ls (x y : S * list TunnelMetrics) i m :
  moves ls x y → x.2 !! i = Some m →
  ∃ m', y.2 !! i = Some m' ∧ total_dials m' = (total_dials m + Z.of_nat (times i (picks ls)))%Z.
Proof.
  intros Hms. revert m. induction Hms as [x|l ls x y z Hmv _ IH]; intros m Hm.
  - exists m. split; [done|]. cbn. lia.
  - destruct (move_dials l x y i m Hmv Hm) as (m1 & Hm1 & E1).
    destruct (IH m1 Hm1) as (m2 & Hm2 & E2). exists m2. split; [done|].
    rewrite E2, E1, (picks_cons l ls), times_app. lia.
Qed.

Lemma move_length {S} `{!BalanceStrategy S} l (x y : S * list TunnelMetrics) :
  move l x y → length y.2 = length x.2.
Proof. intros []; cbn; by rewrite ?length_insert, ?length_alter. Qed.

(** Round robin walks around the pool, whatever the results. *)
Lemma round_robin_moves ls (x y : RoundRobin.t * list TunnelMetrics) :
  moves ls x y → picks ls = walk (RoundRobin.next x.1) (length x.2) (length (picks ls)).
Proof.
  induction 1 as [x|l ls x y z Hmv _ IH]; [done|].
  pose proof (move_length _ _ _ Hmv) as Hl. rewrite picks_cons, length_app.
  destruct Hmv as [ρ addr j ok s s1 s2 ms mj (_ & [_ Hmax] & _ & Hlen) Ep Hj Er|j s ms|s ms]; cbn in *;
    [|by rewrite IH at 1; rewrite ?length_alter; destruct s..].
  rewrite round_robin_pick_eq in Ep by done. injection Ep as <- <-.
  rewrite walk_S. f_equal. rewrite length_insert in IH. rewrite IH at 1.
  assert (Es : s2 = {| RoundRobin.next := S (RoundRobin.next s `mod` PoolView_len {| dial_addr := addr; Strategy.metrics := ms |}) |}).
  { destruct ok; by injection Er as ->. }
  rewrite Es. cbn. unfold PoolView_len. cbn. apply walk_S_mod.
Qed.

(** Active connections differ by at most [w]. *)
Definition level (w : Z) (ms : list TunnelMetrics) : Prop :=
  ∀ i j mi mj, ms !! i = Some mi → ms !! j = Some mj →
    (active_connections mi ≤ active_connections mj + w)%Z.

(** Least connections raises a lowest entry. *)
Lemma least_connections_move w l (x y : LeastConnections.t * list TunnelMetrics) :
  (1 ≤ w)%Z → l ≠ Stayed → move l x y → level w x.2 → level w y.2.
Proof.
  intros Hw Hl Hmv Hlv. destruct Hmv as [ρ addr i ok s s1 s2 ms m (_ & [Hwf _] & _ & Hlen) Ep Hi Er| |];
    [|done..]. cbn in *. intros a b ma mb Ha Hb.
  assert (Hmin : ∀ j mj, ms !! j = Some mj → (active_connections m ≤ active_connections mj)%Z).
  { intros j mj Hj. unfold LeastConnections.pick in Ep. revert Ep. mrun.
    rewrite least_connections_argmin by done. intros [= <-].
    destruct (argmin_spec (ok := λ _, True) (ltb := lexb) (load_key <$> ms)) as (k & Hk & Hmin).
    { intros ->%fmap_nil_inv. by cbn in Hlen. }
    { by apply Forall_true. }
    rewrite list_lookup_fmap, Hi in Hk. injection Hk as <-.
    destruct (Hmin j (load_key mj)) as [Hf _]; [by rewrite list_lookup_fmap, Hj|].
    unfold lexb, load_key in Hf. cbn in Hf. apply orb_false_elim in Hf as [Hf _]. lia. }
  assert (Hact : (active_connections m ≤ active_connections (if ok then dialled m else failed m)
                  ≤ active_connections m + 1)%Z) by (destruct ok; cbn; lia).
  apply list_lookup_insert_Some in Ha as [(<- & <- & _)|[Hai Ha]];
    apply list_lookup_insert_Some in Hb as [(<- & <- & _)|[Hbi Hb]].
  - lia.
  - specialize (Hmin _ _ Hb). lia.
  - specialize (Hlv _ _ _ _ Ha Hi). lia.
  - exact (Hlv _ _ _ _ Ha Hb).
Qed.

Lemma level_moves w ls (x y : LeastConnections.t * list TunnelMetrics) :
  (1 ≤ w)%Z → Stayed ∉ ls → moves ls x y → level w x.2 → level w y.2.
Proof.
  intros Hw Hs Hms. induction Hms as [x|l ls x y z Hmv _ IH]; [done|]. intros Hlv.
  apply not_elem_of_cons in Hs as [Hl Hs]. apply IH; [done|].
  by eapply least_connections_move.
Qed.

(** Failover stays on a live primary and moves on from a dead one. *)
Lemma failover_move_eq addr i ok (x y : Failover.t * list TunnelMetrics) :
  move (Went addr i ok) x y → Failover.primary x.1 < length x.2 →
  i = Failover.primary x.1 ∧ length y.2 = length x.2 ∧
  Failover.primary y.1 = if ok then i else S i `mod` length x.2.
Proof.
  intros Hmv Hp. pose proof (move_length _ _ _ Hmv) as Hl. remember (Went addr i ok) as l eqn:El.
  destruct Hmv as [ρ a j o s s1 s2 ms m (_ & [_ Hmax] & _ & Hlen) Ep Hi Er| |]; [|done..].
  injection El as -> -> ->. cbn in *. rewrite failover_pick_eq in Ep. unfold PoolView_len in *. cbn in *.
  rewrite decide_False, Nat.mod_small in Ep by lia. injection Ep as <- <-. split; [done|]. split; [done|].
  destruct ok; cbn in Er; [by injection Er as <-|].
  rewrite failover_report_error_eq in Er by lia. cbn in Er. rewrite !decide_True in Er by (done || lia).
  by injection Er as <-.
Qed.

Lemma failover_moves live n t ls (x y : Failover.t * list TunnelMetrics) :
  moves ls x y → Forall (λ l, ∃ a i, l = Went a i (live i)) ls →
  length x.2 = n → Failover.primary x.1 < n →
  live ((Failover.primary x.1 + t) `mod` n) = true →
  (∀ t', t' < t → live ((Failover.primary x.1 + t') `mod` n) = false) →
  ∀ k l, ls !! k = Some l →
    ∃ a, l = Went a ((Failover.primary x.1 + k `min` t) `mod` n) (bool_decide (t ≤ k)).
Proof.
  intros Hms. revert t. induction Hms as [x|l ls x y z Hmv _ IH]; [done|].
  intros t [(a & i & ->) Hls]%Forall_cons Hn Hp Hlive Hdead k l'.
  destruct (failover_move_eq _ _ _ _ _ Hmv) as (-> & Hl & Hp'); [lia|].
  set (p := Failover.primary x.1) in *. destruct t as [|t].
  - rewrite Nat.add_0_r, Nat.mod_small in Hlive by done. rewrite Hlive in *.
    destruct k as [|k]; cbn.
    + intros [= <-]. exists a. by rewrite Nat.add_0_r, Nat.mod_small by done.
    + intros Hk. destruct (IH 0 Hls ltac:(lia) ltac:(lia)) with (k := k) (l := l') as [a' ->]; try done.
      * by rewrite Hp', Nat.add_0_r, Nat.mod_small by done.
      * lia.
      * exists a'. rewrite Hp', Nat.min_0_r. done.
  - assert (Hd : live p = false).
    { specialize (Hdead 0 ltac:(lia)). by rewrite Nat.add_0_r, Nat.mod_small in Hdead by done. }
    rewrite Hd in *. rewrite Hn in Hp'.
    assert (Hshift : ∀ u, (Failover.primary y.1 + u) `mod` n = (p + S u) `mod` n).
    { intros u. rewrite Hp', Nat.Div0.add_mod_idemp_l. f_equal. lia. }
    destruct k as [|k].
    + cbn. intros [= <-]. exists a. by rewrite Nat.add_0_r, Nat.mod_small by done.
    + cbn [lookup list_lookup]. intros Hk.
      destruct (IH t Hls ltac:(lia)) with (k := k) (l := l') as [a' ->]; try done.
      * rewrite Hp'. apply Nat.mod_upper_bound. lia.
      * by rewrite Hshift.
      * intros t' Ht'. rewrite Hshift. apply Hdead. lia.
      * exists a'. rewrite Hshift. f_equal. apply bool_decide_ext. lia.
Qed.

(** Every dial went where its address says. *)
Definition goes (target : string → nat) (l : label) : Prop :=
  match l with Went a i _ => i = target a | Stayed => True end.

Lemma hash_moves `{Hasher} ls (x y : HashByAddr.t * list TunnelMetrics) :
  moves ls x y →
  Forall (goes (λ a, Z.to_nat (try_from_or usize_MAX (hash_str a) 0 mod Z.of_nat (length x.2)))) ls.
Proof.
  induction 1 as [x|l ls x y z Hmv _ IH]; [done|].
  pose proof (move_length _ _ _ Hmv) as Hl. rewrite Hl in IH. constructor; [|done].
  destruct Hmv as [ρ a i ok s s1 s2 ms m (_ & _ & _ & Hlen) Ep Hi Er| |]; [|done..].
  cbn in *. unfold HashByAddr.pick, lift in Ep. rewrite usize_rem_Z_pos in Ep by done. by injection Ep as <-.
Qed.

Lemma sticky_moves p ls (x y : Sticky.t * list TunnelMetrics) :
  moves ls x y → Sticky.pinned x.1 = Some p → p < length x.2 → Forall (goes (λ _, p)) ls.
Proof.
  induction 1 as [x|l ls x y z Hmv _ IH]; [done|]. intros Hp Hlt.
  pose proof (move_length _ _ _ Hmv) as Hl.
  assert (goes (λ _, p) l ∧ Sticky.pinned y.1 = Some p) as [Hg Hp'].
  { destruct Hmv as [ρ a i ok s s1 s2 ms m Hc Ep Hi Er| |]; [|done..]. cbn in *.
    unfold Sticky.pick in Ep. revert Ep. mrun. rewrite Hp. intros [= <- <-].
    split; [unfold PoolView_len; cbn; lia|]. destruct ok; by injection Er as <-. }
  constructor; [done|]. apply IH; [done|]. lia.
Qed.

(** An unpinned sticky strategy pins the backend of its first dial. *)
Lemma sticky_moves_any ls (x y : Sticky.t * list TunnelMetrics) :
  moves ls x y → opt_wf (λ p, (p < Z.of_nat (length x.2))%Z) (Z.of_nat <$> Sticky.pinned x.1) →
  ∃ p, Forall (goes (λ _, p)) ls.
Proof.
  intros Hms Hp. destruct (Sticky.pinned x.1) as [p|] eqn:E.
  { exists p. apply (sticky_moves p ls x y Hms E). cbn in Hp. lia. }
  induction Hms as [x|l ls x y z Hmv Hms IH]; [by exists 0|].
  pose proof (move_length _ _ _ Hmv) as Hl.
  destruct Hmv as [ρ a i ok s s1 s2 ms m Hc Ep Hi Er|j s ms|s ms].
  - exists i. constructor; [done|]. apply (sticky_moves i _ _ _ Hms).
    + cbn in *. unfold Sticky.pick in Ep. revert Ep. mrun. rewrite E. intros [= <- <-].
      destruct ok; by injection Er as <-.
    + rewrite Hl. by eapply lookup_lt_Some.
  - destruct IH as [p Hps]; [done|done|]. exists p. by constructor.
  - destruct IH as [p Hps]; [done|done|]. exists p. by constructor.
Qed.
End Distribution.

(** ** Properties *)

Definition is_dial {B C} (a : action B C) : bool :=
  match a with Dial _ => true | Close _ _ => false end.
Definition dials {B C} (acts : list (action B C)) : nat := length (filter (λ a, is_dial a = true) acts).

Section Properties.
Context `{Target} {B C : Type}.
Implicit Types (self : t B) (σ : session B C) (acts : list (action B C)).

Lemma logged_picks self acts rs ls :
  Forall3 (logged self) acts rs ls → length (picks ls) = dials acts.
Proof.
  unfold dials. induction 1 as [|a r l acts rs ls Hl _ IH]; [done|].
  rewrite picks_cons, length_app, IH, filter_cons.
  destruct a, r, l; try done; by case_decide.
Qed.

(** C16: round robin spreads the dials of a client evenly.  Over any session of
    dials and drops in contract, in which dials may fail, be retried or time
    out, every call returns and each of the [n] backends is dialled either
    [T / n] or [T / n + 1] times in [T] dials, wherever the rotation started. *)
Theorem round_robin_dials_evenly fuel acts σ c :
  good (Z.of_nat (length acts)) (lb σ) → strategy (lb σ) = Dyn {| RoundRobin.next := c |} →
  Forall (action_ok fuel (lb σ)) acts →
  ∃ rs σ', play fuel acts σ = (Ret rs, σ') ∧
    let share := dials acts / length (backends (lb σ)) in
    ∀ i m, metrics (lb σ) !! i = Some m →
      ∃ m', metrics (lb σ') !! i = Some m' ∧
        (total_dials m + Z.of_nat share ≤ total_dials m' ≤ total_dials m + Z.of_nat share + 1)%Z.
Proof.
  intros Hg Hs Hok. destruct (play_moves fuel acts σ _ Hg Hs Hok) as (rs & ls & s' & σ' & E & Hl & Hms & _).
  exists rs, σ'. split; [done|]. intros share i m Hm.
  destruct (moves_dials _ _ _ i m Hms Hm) as (m' & Hm' & Ed). exists m'. split; [done|].
  pose proof (round_robin_moves _ _ _ Hms) as Hw. cbn in Hw. rewrite (logged_picks _ _ _ _ Hl) in Hw.
  assert (Hlen : length (metrics (lb σ)) = length (backends (lb σ))) by apply Hg.
  apply lookup_lt_Some in Hm. rewrite Ed, Hw, Hlen.
  pose proof (walk_count c (length (backends (lb σ))) (dials acts) i ltac:(lia)) as Hc.
  fold share in Hc. cbn. lia.
Qed.

(** Sessions of dials only leave a label with a target for each of them. *)
Lemma dials_went self (reqs : list (request B C)) rs ls :
  Forall3 (logged self) (Dial <$> reqs) rs ls →
  ∀ k l, ls !! k = Some l → ∃ r res, reqs !! k = Some r ∧ rs !! k = Some (Some res) ∧
    logged self (Dial r) (Some res) l.
Proof.
  intros Hl k l Hk. destruct (Forall3_lookup_r _ _ _ _ _ _ Hl Hk) as (a & res & Ha & Hr & Hlog).
  rewrite list_lookup_fmap in Ha. destruct (reqs !! k) as [r|]; [|done]. injection Ha as <-.
  destruct res as [res|]; [|by destruct l]. by exists r, res.
Qed.

(** C21: least connections keeps the load level.  Over any session of dials the
    active connections of two backends never differ by more than they did
    before, or than one: from an idle pool they stay within one of each other. *)
Theorem least_connections_stays_level fuel reqs σ s w :
  good (Z.of_nat (length reqs)) (lb σ) → strategy (lb σ) = Dyn (dyn_type := LeastConnections.t) s →
  Forall (request_ok fuel (lb σ)) reqs → (1 ≤ w)%Z → level w (metrics (lb σ)) →
  ∃ rs σ', play fuel (Dial <$> reqs) σ = (Ret rs, σ') ∧ level w (metrics (lb σ')).
Proof.
  intros Hg Hs Hok Hw Hlv.
  destruct (play_moves fuel (Dial <$> reqs) σ s) as (rs & ls & s' & σ' & E & Hl & Hms & _);
    [by rewrite length_fmap|done|by apply Forall_fmap|].
  exists rs, σ'. split; [done|]. apply (level_moves w ls _ _ Hw) with (2 := Hms); [|done].
  intros [k Hk]%list_elem_of_lookup. destruct (dials_went _ _ _ _ Hl k Stayed Hk) as (r & res & _ & _ & []).
Qed.

(** Whether a backend answers does not depend on the attempt. *)
Definition honest (up : B → bool) self (r : request B C) : Prop :=
  ∀ b k res, attempt_result (effective (rq_timeout r) (dial_timeout self)) (rq_env r b (rq_addr r) k) = Ret res →
    is_ok res = up b.

Lemma honest_label up self r res l :
  honest up self r → logged self (Dial r) (Some res) l →
  ∃ a i b, backends self !! i = Some b ∧ l = Went a i (up b).
Proof.
  intros Hh. destruct l as [a i ok|]; [|done]. intros (-> & _ & _ & b & j & r0 & Hb & <- & Hdec%first_decisive_result).
  exists (rq_addr r), i, b. split; [done|]. f_equal. by eapply Hh.
Qed.

(** C17: failover finds a live backend and stays with it.  If backend [p + t]
    (counted around the pool from the primary [p]) is the first one that is up,
    a client's first [t] dials fail, one per dead backend, and every later dial
    succeeds on that backend. *)
Theorem failover_settles fuel reqs σ p len t b up :
  let n := length (backends (lb σ)) in
  good (Z.of_nat (length reqs)) (lb σ) →
  strategy (lb σ) = Dyn {| Failover.primary := p; Failover.len := len |} → p < n →
  Forall (request_ok fuel (lb σ)) reqs → Forall (honest up (lb σ)) reqs →
  backends (lb σ) !! ((p + t) `mod` n) = Some b → up b = true →
  (∀ t' b', t' < t → backends (lb σ) !! ((p + t') `mod` n) = Some b' → up b' = false) →
  ∃ rs σ', play fuel (Dial <$> reqs) σ = (Ret rs, σ') ∧
    ∀ k r, rs !! k = Some r →
      if decide (k < t) then ∃ e, r = Some (Err e)
      else ∃ gc, r = Some (Ok gc) ∧ guard_index (_guard gc) = (p + t) `mod` n.
Proof.
  intros n Hg Hs Hp Hok Hh Hb Hup Hdown.
  destruct (play_moves fuel (Dial <$> reqs) σ {| Failover.primary := p; Failover.len := len |})
    as (rs & ls & s' & σ' & E & Hl & Hms & _); [by rewrite length_fmap|exact Hs|by apply Forall_fmap|].
  set (live i := match backends (lb σ) !! i with Some b' => up b' | None => false end).
  exists rs, σ'. split; [done|]. intros k r Hr.
  destruct (Forall3_lookup_m _ _ _ _ _ _ Hl Hr) as (a & l & _ & Hk & _).
  assert (Hlive : Forall (λ l, ∃ a i, l = Went a i (live i)) ls).
  { apply Forall_lookup_2. intros x lx Hx.
    destruct (dials_went _ _ _ _ Hl x lx Hx) as (rq & res & Hrq & _ & Hlog).
    destruct (honest_label up _ rq res lx (Forall_lookup_1 _ _ _ _ Hh Hrq) Hlog) as (a' & i & b' & Hi & ->).
    exists a', i. unfold live. by rewrite Hi. }
  destruct (failover_moves live n t ls _ _ Hms Hlive) with (k := k) (l := l) as [a' ->]; try done.
  { apply Hg. }
  { cbn. unfold live. by rewrite Hb. }
  { intros t' Ht'. unfold live. cbn.
    destruct (backends (lb σ) !! ((p + t') `mod` n)) eqn:?; [by eapply Hdown|done]. }
  destruct (dials_went _ _ _ _ Hl k _ Hk) as (rq & res & _ & Hres & (_ & Hokk & Hgc & _)).
  assert (r = Some res) as -> by congruence.
  destruct (decide (k < t)) as [Hd|Hd], res as [gc|e]; cbn [is_ok Failover.primary fst] in *.
  - rewrite bool_decide_false in Hokk by lia. done.
  - by exists e.
  - exists gc. split; [done|]. rewrite (Hgc gc eq_refl). f_equal. lia.
  - rewrite bool_decide_true in Hokk by lia. done.
Qed.

(** Two connections of a session for which the labels give one target. *)
Lemma goes_together target self acts rs ls x y rx ry gx gy :
  Forall3 (logged self) acts rs ls → Forall (goes target) ls →
  acts !! x = Some (Dial rx) → acts !! y = Some (Dial ry) → target (rq_addr rx) = target (rq_addr ry) →
  rs !! x = Some (Some (Ok gx)) → rs !! y = Some (Some (Ok gy)) →
  guard_index (_guard gx) = guard_index (_guard gy).
Proof.
  intros Hl Hgo. assert (Hone : ∀ z rz gz, acts !! z = Some (Dial rz) → rs !! z = Some (Some (Ok gz)) →
    guard_index (_guard gz) = target (rq_addr rz)).
  { intros z rz gz Hz Hrz. destruct (Forall3_lookup_l _ _ _ _ _ _ Hl Hz) as (r & l & Hr & Hlz & Hlog).
    pose proof (eq_trans (eq_sym Hr) Hrz) as [= ->]. pose proof (Forall_lookup_1 _ _ _ _ Hgo Hlz) as Hgz.
    destruct l as [a i ok|]; [|done]. destruct Hlog as (-> & _ & Hgc & _). cbn in Hgz.
    by rewrite (Hgc gz eq_refl). }
  intros Hx Hy He Hrx Hry. by rewrite (Hone _ _ _ Hx Hrx), (Hone _ _ _ Hy Hry).
Qed.

(** C22: affinity.  Under hashing, two connections a client opened for the same
    address in one session are on the same backend, and under the sticky
    strategy any two are, whatever fails, is retried or is closed between. *)
Theorem sessions_keep_affinity `{Hasher} fuel acts σ :
  good (Z.of_nat (length acts)) (lb σ) → Forall (action_ok fuel (lb σ)) acts →
  strategy (lb σ) = Dyn HashByAddr.new ∨ strategy (lb σ) = Dyn Sticky.new →
  ∃ rs σ', play fuel acts σ = (Ret rs, σ') ∧
    ∀ x y rx ry gx gy, acts !! x = Some (Dial rx) → acts !! y = Some (Dial ry) →
      (rq_addr rx = rq_addr ry ∨ strategy (lb σ) = Dyn Sticky.new) →
      rs !! x = Some (Some (Ok gx)) → rs !! y = Some (Some (Ok gy)) →
      guard_index (_guard gx) = guard_index (_guard gy).
Proof.
  intros Hg Hok [Hs|Hs]; destruct (play_moves fuel acts σ _ Hg Hs Hok) as (rs & ls & s' & σ' & E & Hl & Hms & _);
    exists rs, σ'; (split; [done|]); intros x y rx ry gx gy Hx Hy Ha Hrx Hry.
  - apply (goes_together _ _ _ _ _ x y rx ry gx gy Hl (hash_moves _ _ _ Hms) Hx Hy); [|exact Hrx|exact Hry].
    destruct Ha as [->|Hst]; [done|]. rewrite Hs in Hst. apply (f_equal name) in Hst. by vm_compute in Hst.
  - destruct (sticky_moves_any _ _ _ Hms) as [p Hp]; [done|].
    by apply (goes_together _ _ _ _ _ x y rx ry gx gy Hl Hp Hx Hy); [|exact Hrx|exact Hry].
Qed.
End Properties.

(** ** Witnesses *)

(** Three idle backends without a policy; the first refuses every dial. *)
Definition trio (d : dyn_strategy) : t nat :=
  init [0; 1; 2] (replicate 3 TunnelMetrics_default) d None None.
Definition trio_session (d : dyn_strategy) : session nat nat := {| lb := trio d; held := [] |}.
Definition trio_env : Env nat nat := λ b _ _,
  {| at_result := if decide (b = 0) then Err (Error.backend "refused") else Ok b;
     at_panic := None; at_latency := Some (from_millis 5); at_lag := 0%Z; at_draw := f64_of_Z 0 |}.
Definition ask (addr : string) : request nat nat :=
  {| rq_rng := rng0; rq_env := trio_env; rq_addr := addr; rq_timeout := None; rq_policy := None |}.

Lemma trio_good (d : dyn_strategy) k :
  dyn_safe (H := dev64) k d → (k ≤ 100)%Z → good (H := dev64) k (trio d).
Proof.
  intros Hd Hk. split; [|split; [exact Hd|split; [cbn; lia|split; [done|split]]]].
  - split; [done|]. split; [done|]. split; [solve_wf|]. vm_compute. split; discriminate.
  - solve_wf.
  - unfold spare, trio; cbn. unfold u32_MAX, u64_MAX. repeat constructor; cbn; lia.
Qed.

Lemma ask_ok d addr : validate_dial_addr addr = Ok tt → request_ok 1 (trio d) (ask addr).
Proof.
  intros Ha. split; [exact rng0_ok|]. split; [done|]. split; [by split; [right; eexists|]|]. exists 1. split; [done|lia].
Qed.

Lemma round_robin_dials_evenly_witness :
  ∃ rs σ', @play dev64 nat nat 1 [Dial (ask "a:1"); Dial (ask "b:2"); Close 0 true; Dial (ask "a:1"); Dial (ask "a:1")]
      (trio_session (@round_robin dev64)) = (Ret rs, σ') ∧
    total_dials <$> metrics (lb σ') = [2; 1; 1]%Z.
Proof.
  destruct (round_robin_dials_evenly (H := dev64) 1
    [Dial (ask "a:1"); Dial (ask "b:2"); Close 0 true; Dial (ask "a:1"); Dial (ask "a:1")]
    (trio_session (@round_robin dev64)) 0) as (rs & σ' & E & _).
  - apply trio_good; [|done]. by apply (dyn_safe_intro (H := dev64) (@RoundRobin_laws dev64)).
  - reflexivity.
  - repeat first [apply Forall_nil_2 | apply Forall_cons_2]; by first [exact I | apply ask_ok].
  - exists rs, σ'. split; [exact E|].
    change σ' with (Ret rs, σ').2. rewrite <-E. vm_compute. reflexivity.
Defined.

Lemma least_connections_stays_level_witness :
  ∃ rs σ', @play dev64 nat nat 1 (Dial <$> replicate 5 (ask "a:1")) (trio_session least_connections) = (Ret rs, σ') ∧
    level 1 (metrics (lb σ')).
Proof.
  apply (least_connections_stays_level (H := dev64) 1 (replicate 5 (ask "a:1"))
    (trio_session least_connections) LeastConnections.new 1).
  - apply trio_good; [|done]. by apply (dyn_safe_intro (H := dev64) (@LeastConnections_laws dev64)).
  - reflexivity.
  - repeat first [apply Forall_nil_2 | apply Forall_cons_2]; by first [exact I | apply ask_ok].
  - lia.
  - intros i j mi mj Hi Hj. apply list_elem_of_lookup_2, elem_of_replicate_inv in Hi as ->.
    apply list_elem_of_lookup_2, elem_of_replicate_inv in Hj as ->. done.
Defined.

Lemma failover_settles_witness :
  ∃ rs σ', @play dev64 nat nat 1 (Dial <$> replicate 3 (ask "a:1")) (trio_session (@failover dev64)) = (Ret rs, σ') ∧
    ∀ k r, rs !! k = Some r →
      if decide (k < 1) then ∃ e, r = Some (Err e)
      else ∃ gc, r = Some (Ok gc) ∧ guard_index (_guard gc) = (0 + 1) `mod` 3.
Proof.
  apply (failover_settles (H := dev64) 1 (replicate 3 (ask "a:1")) (trio_session (@failover dev64)) 0 0 1 1
           (λ b, bool_decide (b ≠ 0))).
  - apply trio_good; [|done]. by apply (dyn_safe_intro (H := dev64) (@Failover_laws dev64)).
  - reflexivity.
  - cbn. lia.
  - repeat first [apply Forall_nil_2 | apply Forall_cons_2]; by first [exact I | apply ask_ok].
  - apply Forall_replicate. intros b k res. unfold attempt_result. cbn. intros [= <-]. by destruct b.
  - reflexivity.
  - reflexivity.
  - intros t' b' Ht'. assert (t' = 0) as -> by lia. by intros [= <-].
Defined.

Lemma sessions_keep_affinity_witness :
  ∃ rs σ', @play dev64 nat nat 1 [Dial (ask "b:2"); Close 0 true; Dial (ask "b:2")]
      (trio_session (@hash_by_addr dev64 sum_hasher)) = (Ret rs, σ') ∧
    ∀ gx gy, rs !! 0 = Some (Some (Ok gx)) → rs !! 2 = Some (Some (Ok gy)) →
      guard_index (_guard gx) = guard_index (_guard gy).
Proof.
  destruct (sessions_keep_affinity (H := dev64) (H0 := sum_hasher) 1
    [Dial (ask "b:2"); Close 0 true; Dial (ask "b:2")] (trio_session (@hash_by_addr dev64 sum_hasher)))
    as (rs & σ' & E & Hg).
  - apply trio_good; [|done]. by apply (dyn_safe_intro (H := dev64) (@HashByAddr_laws dev64 sum_hasher)).
  - repeat first [apply Forall_nil_2 | apply Forall_cons_2]; by first [exact I | apply ask_ok].
  - by left.
  - exists rs, σ'. split; [exact E|]. intros gx gy Hx Hy.
    apply (Hg 0 2 (ask "b:2") (ask "b:2") gx gy); [reflexivity|reflexivity|by left|exact Hx|exact Hy].
Defined.
