(* ===== verification/Rounding.v ===== *)
(** * Bounds on rounded [f64] results

    The backoff arithmetic of [src/src/utils/retry.rs] rounds at every step.
    The file relates the executable binary64 of [Float64] to exact values: a
    finite float [m * 2^e] has the integer value [V m e], in units of [2^-K].
    It shows that rounding never crosses a representable bound, that
    comparisons agree with values, and that the conversion to a [Duration] is
    monotone. *)

From Stdlib Require Import ZArith SpecFloat.
From stdpp Require Import base tactics numbers.
From S2P Require Import Prelude Float64.

Open Scope rota_scope.
Local Open Scope Z_scope.

(** ** Values *)

(** Small enough for every product of two binary64 numbers. *)
Definition K : Z := 4000.
Definition V (m e : Z) : Z := m * 2 ^ (e + K).

(** A mantissa and exponent binary64 can hold: 53 bits, no smaller than 2^-1074. *)
Definition holds (m e : Z) : Prop := 0 < m < 2 ^ 53 ∧ -1074 ≤ e.
(** The same with the mantissa normalised. *)
Definition normal (m e : Z) : Prop := holds m e ∧ (2 ^ 52 ≤ m ∨ e = -1074).

(** ** Lemmas: powers and digits *)

Lemma pow2_pos n : 0 ≤ n → 0 < 2 ^ n.
Proof. intros. by apply Z.pow_pos_nonneg. Qed.

Lemma V_shift m e k : 0 ≤ k → - K ≤ e → V (m * 2 ^ k) e = V m (e + k).
Proof.
  intros Hk He. unfold V. rewrite <-Z.mul_assoc, <-Z.pow_add_r by lia. do 2 f_equal. lia.
Qed.

Lemma V_le m m' e : - K ≤ e → V m e ≤ V m' e ↔ m ≤ m'.
Proof. intros He. unfold V. pose proof (pow2_pos (e + K) ltac:(lia)). nia. Qed.

Lemma V_lt m m' e : - K ≤ e → V m e < V m' e ↔ m < m'.
Proof. intros He. unfold V. pose proof (pow2_pos (e + K) ltac:(lia)). nia. Qed.

Lemma V_pos m e : 0 < m → - K ≤ e → 0 < V m e.
Proof. intros Hm He. unfold V. pose proof (pow2_pos (e + K) ltac:(lia)). nia. Qed.

Lemma V_mul k m e : V (k * m) e = k * V m e.
Proof. unfold V. lia. Qed.

Lemma V_add m m' e : V (m + m') e = V m e + V m' e.
Proof. unfold V. lia. Qed.

Lemma V_mono m e e' : 0 ≤ m → - K ≤ e ≤ e' → V m e ≤ V m e'.
Proof.
  intros Hm He. replace e' with (e + (e' - e)) by lia. rewrite <-V_shift by lia. apply V_le; [lia|].
  pose proof (pow2_pos (e' - e) ltac:(lia)). nia.
Qed.

Lemma digits_bounds p : 2 ^ (Zpos (digits2_pos p) - 1) ≤ Zpos p < 2 ^ Zpos (digits2_pos p).
Proof.
  induction p as [p IH|p IH|]; [..|done]; cbn [digits2_pos]; rewrite Pos2Z.inj_succ.
  all: replace (Z.succ (Zpos (digits2_pos p)) - 1) with (Z.succ (Zpos (digits2_pos p) - 1)) by lia.
  all: rewrite !Z.pow_succ_r by lia; lia.
Qed.

Lemma digits_le p k : 0 ≤ k → Zpos p < 2 ^ k → Zpos (digits2_pos p) ≤ k.
Proof.
  intros Hk Hp. destruct (digits_bounds p) as [Hlo _].
  apply Z.lt_pred_le. rewrite <-Z.sub_1_r.
  apply (Z.pow_lt_mono_r_iff 2); [lia|lia|]. lia.
Qed.

Lemma digits_ge p k : 0 ≤ k → 2 ^ k ≤ Zpos p → k < Zpos (digits2_pos p).
Proof.
  intros Hk Hp. destruct (digits_bounds p) as [_ Hhi]. apply (Z.pow_lt_mono_r_iff 2); lia.
Qed.

(** ** Lemmas: the right shift that remembers what it lost *)

Definition lost (r : shr_record) : bool := shr_r r || shr_s r.

Lemma iter_pos_nat {A} (f : A → A) p x : SpecFloat.iter_pos f p x = Nat.iter (Pos.to_nat p) f x.
Proof.
  revert x. induction p as [p IH|p IH|]; intros x; cbn [SpecFloat.iter_pos]; [..|done].
  - rewrite !IH, Pos2Nat.inj_xI, <-Nat.iter_add, <-Nat.iter_succ_r. f_equal. lia.
  - rewrite !IH, Pos2Nat.inj_xO, <-Nat.iter_add. f_equal. lia.
Qed.

Lemma shr_1_spec r : 0 ≤ shr_m r →
  shr_m (shr_1 r) = shr_m r / 2 ∧ lost (shr_1 r) = (Z.odd (shr_m r) || lost r).
Proof.
  destruct r as [m r s]. unfold lost. cbn. intros Hm. destruct m as [|[p|p|]|p]; try done; cbn.
  all: split; [|by destruct r, s].
  - apply (Z.div_unique _ 2 _ 1); lia.
  - apply (Z.div_unique _ 2 _ 0); lia.
Qed.

Lemma shr_iter_spec k r0 : 0 ≤ shr_m r0 →
  let r := Nat.iter k shr_1 r0 in
  shr_m r = shr_m r0 / 2 ^ Z.of_nat k ∧ lost r = negb (shr_m r0 mod 2 ^ Z.of_nat k =? 0) || lost r0.
Proof.
  intros Hm. induction k as [|k IH]; cbn zeta.
  { cbn. by rewrite Z.div_1_r, Z.mod_1_r. }
  destruct IH as [IHm IHl]. rewrite Nat.iter_succ.
  pose proof (pow2_pos (Z.of_nat k) ltac:(lia)).
  destruct (shr_1_spec (Nat.iter k shr_1 r0)) as [Hm1 Hl1].
  { rewrite IHm. by apply Z.div_pos. }
  rewrite Hm1, Hl1, IHm, IHl, Nat2Z.inj_succ, Z.pow_succ_r by lia.
  replace (2 * 2 ^ Z.of_nat k) with (2 ^ Z.of_nat k * 2) by lia.
  rewrite Z.div_div by lia. split; [done|].
  rewrite Z.rem_mul_r by lia. rewrite Zmod_odd, orb_assoc. f_equal.
  pose proof (Z.mod_pos_bound (shr_m r0) (2 ^ Z.of_nat k) ltac:(lia)).
  destruct (Z.odd (shr_m r0 / 2 ^ Z.of_nat k)); cbn [orb].
  - symmetry. apply negb_true_iff. lia.
  - f_equal. by rewrite Z.mul_0_r, Z.add_0_r.
Qed.

Lemma shr_record_of_loc_spec m l :
  shr_m (shr_record_of_loc m l) = m ∧ (l = loc_Exact → lost (shr_record_of_loc m l) = false).
Proof. by destruct l as [|[]]. Qed.

(** Where a shift to the precision lands. *)
Lemma shr_fexp_spec m e l : 0 ≤ m →
  let e1 := Z.max e (fexp prec64 emax64 (Zdigits2 m + e)) in
  let '(r, e') := shr_fexp prec64 emax64 m e l in
  e' = e1 ∧ shr_m r = m / 2 ^ (e1 - e) ∧ (l = loc_Exact → m mod 2 ^ (e1 - e) = 0 → lost r = false).
Proof.
  intros Hm. cbv zeta. unfold shr_fexp, shr. destruct (shr_record_of_loc_spec m l) as [Hr Hl].
  set (x := fexp prec64 emax64 (Zdigits2 m + e)). destruct (x - e) as [|n|n] eqn:Hn.
  - replace (Z.max e x - e) with 0 by lia. rewrite Z.div_1_r. split; [lia|]. split; [done|]. intros -> _. by apply Hl.
  - rewrite iter_pos_nat. destruct (shr_iter_spec (Pos.to_nat n) (shr_record_of_loc m l)) as [Em El];
      [by rewrite Hr|].
    rewrite positive_nat_Z, Hr in Em, El. replace (Z.max e x - e) with (Zpos n) by lia.
    split; [lia|]. split; [done|]. intros -> Hz. rewrite El, Hz, (Hl eq_refl). done.
  - replace (Z.max e x - e) with 0 by lia. rewrite Z.div_1_r. split; [lia|]. split; [done|]. intros -> _. by apply Hl.
Qed.

Lemma round_nearest_even_spec r :
  shr_m r ≤ round_nearest_even (shr_m r) (loc_of_shr_record r) ≤ shr_m r + 1 ∧
  (lost r = false → round_nearest_even (shr_m r) (loc_of_shr_record r) = shr_m r).
Proof.
  destruct r as [m [] []]; unfold lost; cbn; try (split; [lia|done]).
  destruct (Z.even m); (split; [lia|done]).
Qed.

(** The shifted mantissa fits. *)
Lemma shifted_fits m e :
  0 < m → let e1 := Z.max e (fexp prec64 emax64 (Zdigits2 m + e)) in 0 ≤ m / 2 ^ (e1 - e) < 2 ^ 53.
Proof.
  intros Hm e1. destruct m as [|p|p]; [lia| |lia]. subst e1. cbn [Zdigits2].
  destruct (digits_bounds p) as [_ Hhi]. unfold fexp, emin, prec64, emax64.
  set (d := Zpos (digits2_pos p)) in *. set (n := Z.max _ _ - e). assert (0 ≤ n ∧ d - 53 ≤ n) as [Hn Hd] by lia.
  pose proof (pow2_pos n Hn). split; [by apply Z.div_pos|].
  apply Z.div_lt_upper_bound; [done|]. rewrite <-Z.pow_add_r by lia.
  eapply Z.lt_le_trans; [exact Hhi|]. apply Z.pow_le_mono_r; lia.
Qed.

(** ** Lemmas: one rounding *)

(** A mantissa of at most 2^53 is final but for a carry. *)
Lemma shr_fexp_final m e : 0 < m ≤ 2 ^ 53 → -1074 ≤ e →
  ∃ m2 e2, shr_m (shr_fexp prec64 emax64 m e loc_Exact).1 = Zpos m2 ∧
    (shr_fexp prec64 emax64 m e loc_Exact).2 = e2 ∧ Zpos m2 < 2 ^ 53 ∧
    ((Zpos m2 = m ∧ e2 = e) ∨ (m = 2 ^ 53 ∧ Zpos m2 = 2 ^ 52 ∧ e2 = e + 1)).
Proof.
  intros Hm He. pose proof (shr_fexp_spec m e loc_Exact ltac:(lia)) as Hs. cbv zeta in Hs.
  destruct (shr_fexp _ _ _ _ _) as [r e']. cbn [fst snd]. destruct Hs as (-> & Hr & _).
  destruct (decide (m = 2 ^ 53)) as [->|Hne].
  - change (Zdigits2 (2 ^ 53)) with 54 in *. unfold fexp, emin, prec64, emax64 in *.
    replace (Z.max e (Z.max (54 + e - 53) (3 - 1024 - 53))) with (e + 1) in * by lia.
    replace (e + 1 - e) with 1 in Hr by lia. exists (2 ^ 52)%positive, (e + 1).
    split_and!; [exact Hr|done|done|right; split_and!; done].
  - destruct m as [|p|p]; [lia| |lia]. pose proof (digits_le p 53 ltac:(lia) ltac:(lia)) as Hd.
    cbn [Zdigits2] in *. unfold fexp, emin, prec64, emax64 in *.
    replace (Z.max e _) with e in * by lia. rewrite Z.sub_diag, Z.div_1_r in Hr.
    exists p, e. split_and!; [done|done|lia|left; done].
Qed.

Lemma round_aux_spec s m e l : 0 < m →
  let e1 := Z.max e (fexp prec64 emax64 (Zdigits2 m + e)) in
  let q := m / 2 ^ (e1 - e) in
  ∃ m1, q ≤ m1 ≤ q + 1 ∧ (l = loc_Exact → m mod 2 ^ (e1 - e) = 0 → m1 = q) ∧
    ((m1 = 0 ∧ binary_round_aux prec64 emax64 s m e l = S754_zero s) ∨
     (∃ m2 e2, 0 < m1 ∧
        binary_round_aux prec64 emax64 s m e l =
          (if e2 <=? 971 then S754_finite s m2 e2 else S754_infinity s) ∧
        Zpos m2 < 2 ^ 53 ∧
        ((Zpos m2 = m1 ∧ e2 = e1) ∨ (m1 = 2 ^ 53 ∧ Zpos m2 = 2 ^ 52 ∧ e2 = e1 + 1)))).
Proof.
  intros Hm e1 q. pose proof (shifted_fits m e Hm) as Hq. cbv zeta in Hq. fold e1 in Hq. fold q in Hq.
  unfold binary_round_aux. pose proof (shr_fexp_spec m e l ltac:(lia)) as Hs. cbv zeta in Hs. fold e1 in Hs.
  destruct (shr_fexp prec64 emax64 m e l) as [r e'] eqn:Er. destruct Hs as (-> & Hr & Hl). fold q in Hr.
  destruct (round_nearest_even_spec r) as [Hm1 Hex]. rewrite Hr in Hm1, Hex.
  set (m1 := round_nearest_even (shr_m r) (loc_of_shr_record r)) in *.
  replace (round_nearest_even q (loc_of_shr_record r)) with m1 in * by (subst m1; by rewrite Hr).
  exists m1. split; [lia|]. split; [by intros; apply Hex, Hl|].
  assert (He1 : -1074 ≤ e1) by (subst e1; unfold fexp, emin, prec64, emax64; lia).
  destruct (decide (m1 = 0)) as [Hz|Hz].
  - left. split; [done|]. rewrite Hz. pose proof (shr_fexp_spec 0 e1 loc_Exact ltac:(lia)) as Hs0. cbv zeta in Hs0.
    destruct (shr_fexp _ _ 0 _ _) as [r2 e2]. destruct Hs0 as (_ & Hr2 & _). rewrite Z.div_0_l in Hr2.
    + by rewrite Hr2.
    + apply Z.pow_nonzero; lia.
  - right. destruct (shr_fexp_final m1 e1 ltac:(lia) He1) as (m2 & e2 & Em & Ee & Hfit & Hc).
    destruct (shr_fexp prec64 emax64 m1 e1 loc_Exact) as [r2 e2']. cbn [fst snd] in *. subst e2'.
    exists m2, e2. split; [lia|]. rewrite Em. by split_and!.
Qed.

(** A non-negative float of at most [v] units. *)
Definition within (x : f64) (v : Z) : Prop :=
  match x with
  | S754_zero false => True
  | S754_finite false m e => holds (Zpos m) e ∧ V (Zpos m) e ≤ v
  | _ => False
  end.

Lemma within_le x v v' : v ≤ v' → within x v → within x v'.
Proof. destruct x as [[]| | |[]]; cbn; try done. intros ? [??]. split; [done|lia]. Qed.

(** What rounding returns: a zero, an infinity, or a number binary64 can hold. *)
Lemma round_aux_holds s m e l : 0 < m →
  match binary_round_aux prec64 emax64 s m e l with
  | S754_zero s' | S754_infinity s' => s' = s
  | S754_finite s' m' e' => s' = s ∧ holds (Zpos m') e'
  | S754_nan => False
  end.
Proof.
  intros Hm. destruct (round_aux_spec s m e l Hm) as (m1 & _ & _ & [[_ ->]|(m2 & e2 & _ & -> & Hfit & He)]); [done|].
  destruct (e2 <=? 971); [|done]. split; [done|]. split; [lia|].
  destruct He as [[_ ->]|(_ & _ & ->)]; unfold fexp, emin, prec64, emax64; lia.
Qed.

(** Rounding does not cross a representable number. *)
Lemma round_aux_le m e y ey :
  0 < m → - K ≤ e ≤ 900 → holds y ey → ey ≤ 900 → V m e ≤ V y ey →
  within (binary_round_aux prec64 emax64 false m e loc_Exact) (V y ey).
Proof.
  intros Hm [He He'] [Hy Hey] Hey' Hle. pose proof (round_aux_holds false m e loc_Exact Hm) as Hh.
  destruct (round_aux_spec false m e loc_Exact Hm) as (m1 & Hm1 & Hex & Hcase).
  set (e1 := Z.max e (fexp prec64 emax64 (Zdigits2 m + e))) in *. set (q := m / 2 ^ (e1 - e)) in *.
  assert (He1 : e ≤ e1) by lia. pose proof (pow2_pos (e1 - e) ltac:(lia)) as Hp.
  assert (Hfloor : q * 2 ^ (e1 - e) + m mod 2 ^ (e1 - e) = m)
    by (pose proof (Z.div_mod m (2 ^ (e1 - e)) ltac:(lia)); unfold q; lia).
  pose proof (Z.mod_pos_bound m (2 ^ (e1 - e)) Hp) as Hmod.
  assert (Hq : V q e1 = V (q * 2 ^ (e1 - e)) e) by (rewrite V_shift by lia; f_equal; lia).
  assert (Hup : V m1 e1 ≤ V y ey ∧ e1 ≤ 900).
  { destruct (decide (e1 = e)) as [Heq|Hne].
    { rewrite Hex; [|done|rewrite Heq, Z.sub_diag; apply Z.mod_1_r]. split; [|lia].
      unfold q. rewrite Heq, Z.sub_diag, Z.div_1_r. done. }
    assert (e1 ≤ ey) as Hcmp.
    { destruct m as [|p|p]; [lia| |lia]. destruct (digits_bounds p) as [Hlo _]. cbn [Zdigits2] in e1.
      subst e1. unfold fexp, emin, prec64, emax64 in *. set (d := Zpos (digits2_pos p)) in *.
      destruct (decide (d + e - 53 ≤ ey)) as [|Hgt]; [lia|exfalso].
      assert (V (Zpos p) e < V (2 ^ (d - 1)) e); [|unfold V in *; nia].
      eapply Z.le_lt_trans; [exact Hle|]. rewrite <-(Z.mul_1_l (2 ^ (d - 1))), V_shift by lia.
      unfold V. rewrite Z.mul_1_l. eapply Z.lt_le_trans with (2 ^ 53 * 2 ^ (ey + K)).
      { apply Z.mul_lt_mono_pos_r; [|lia]. apply pow2_pos. unfold K. lia. }
      rewrite <-Z.pow_add_r by (unfold K in *; lia). apply Z.pow_le_mono_r; lia. }
    split; [|lia]. assert (Hy' : V y ey = V (y * 2 ^ (ey - e1)) e1)
      by (rewrite V_shift by (unfold K in *; lia); f_equal; lia).
    rewrite Hy'. apply V_le; [unfold K in *; lia|].
    destruct (decide (m mod 2 ^ (e1 - e) = 0)) as [Hz|Hz].
    - rewrite Hex by done. apply (V_le _ _ e1); [unfold K in *; lia|]. rewrite <-Hy', Hq.
      etrans; [|exact Hle]. apply V_le; lia.
    - enough (q < y * 2 ^ (ey - e1)) by lia. apply (V_lt _ _ e1); [unfold K in *; lia|]. rewrite <-Hy', Hq.
      eapply Z.lt_le_trans; [|exact Hle]. apply V_lt; lia. }
  destruct Hcase as [[_ E]|(m2 & e2 & _ & E & Hfit & He2)]; rewrite E in *; [done|].
  replace (e2 <=? 971) with true in * by (symmetry; apply Z.leb_le; lia). destruct Hh as [_ Hh].
  split; [done|]. destruct He2 as [[-> ->]|(E1 & -> & ->)]; [apply Hup|].
  destruct Hup as [Hup _]. rewrite E1 in Hup. etrans; [|exact Hup].
  change (2 ^ 53) with (2 ^ 52 * 2 ^ 1). rewrite V_shift by (unfold K in *; lia). lia.
Qed.

(** Enough digits give a normalised result. *)
Lemma round_aux_normal s m e l m' e' : 0 < m → e ≤ fexp prec64 emax64 (Zdigits2 m + e) →
  binary_round_aux prec64 emax64 s m e l = S754_finite s m' e' → normal (Zpos m') e'.
Proof.
  intros Hm He E. pose proof (round_aux_holds s m e l Hm) as Hh. rewrite E in Hh. destruct Hh as [_ Hh].
  split; [done|]. destruct (round_aux_spec s m e l Hm) as (m1 & Hm1 & _ & [[_ E']|(m2 & e2 & _ & E' & _ & Hc)]);
    rewrite E' in E; [done|]. destruct (e2 <=? 971); [|done]. injection E as -> ->.
  destruct Hc as [[Em Ee]|(_ & Em & _)]; [|left; lia].
  rewrite Z.max_r in Hm1, Ee by lia. unfold fexp, emin, prec64, emax64 in *.
  destruct (decide (e' = -1074)) as [|Hne]; [by right|left]. rewrite Em.
  etrans; [|apply Hm1]. replace (Z.max _ _) with (Zdigits2 m + e - 53) in * by lia.
  destruct m as [|p|p]; [lia| |lia]. destruct (digits_bounds p) as [Hlo _]. cbn [Zdigits2] in *.
  replace (Zpos (digits2_pos p) + e - 53 - e) with (Zpos (digits2_pos p) - 53) by lia.
  apply Z.div_le_lower_bound; [apply pow2_pos; lia|]. rewrite <-Z.pow_add_r by lia.
  etrans; [|exact Hlo]. apply Z.pow_le_mono_r; lia.
Qed.

Lemma pos_iter_xO p k : Zpos (Pos.iter xO p k) = Zpos p * 2 ^ Zpos k.
Proof.
  induction k as [|k IH] using Pos.peano_ind; [cbn; lia|].
  rewrite Pos.iter_succ, Pos2Z.inj_succ, Z.pow_succ_r by lia. rewrite Pos2Z.inj_xO, IH. lia.
Qed.

Lemma digits_shift p k : Zpos (digits2_pos (Pos.iter xO p k)) = Zpos (digits2_pos p) + Zpos k.
Proof.
  induction k as [|k IH] using Pos.peano_ind; [cbn; lia|]. rewrite Pos.iter_succ. cbn [digits2_pos]. lia.
Qed.

(** Shifting left keeps the value and where the digits end. *)
Lemma shl_align_spec m e e' :
  let '(m2, e2) := shl_align m e e' in
  e2 = Z.min e e' ∧ Zpos m2 = Zpos m * 2 ^ (e - e2) ∧
  Zpos (digits2_pos m2) + e2 = Zpos (digits2_pos m) + e.
Proof.
  unfold shl_align. destruct (e' - e) as [|n|n] eqn:Hn.
  - split; [lia|]. rewrite Z.sub_diag. split; lia.
  - split; [lia|]. rewrite Z.sub_diag. split; lia.
  - split; [lia|]. rewrite pos_iter_xO, digits_shift. replace (e - e') with (Zpos n) by lia. split; lia.
Qed.

Lemma round_normal s m e m' e' :
  binary_round prec64 emax64 s m e = S754_finite s m' e' → normal (Zpos m') e'.
Proof.
  unfold binary_round. pose proof (shl_align_spec m e (fexp prec64 emax64 (Zpos (digits2_pos m) + e))) as Hs.
  destruct (shl_align _ _ _) as [m2 e2]. destruct Hs as (He & Hm & Hd). intros E.
  eapply (round_aux_normal s (Zpos m2) e2); [lia| |exact E]. cbn [Zdigits2]. rewrite Hd. lia.
Qed.

Lemma round_holds s m e :
  match binary_round prec64 emax64 s m e with
  | S754_zero s' | S754_infinity s' => s' = s
  | S754_finite s' m' e' => s' = s ∧ normal (Zpos m') e'
  | S754_nan => False
  end.
Proof.
  pose proof (round_normal s m e) as Hn. unfold binary_round in *.
  destruct (shl_align _ _ _) as [m2 e2]. pose proof (round_aux_holds s (Zpos m2) e2 loc_Exact ltac:(lia)) as Hh.
  destruct (binary_round_aux _ _ _ _ _ _); try done. destruct Hh as [-> _]. split; [done|]. by apply Hn.
Qed.

Lemma round_le m e y ey :
  -2300 ≤ e ≤ 900 → holds y ey → ey ≤ 900 → V (Zpos m) e ≤ V y ey →
  within (binary_round prec64 emax64 false m e) (V y ey).
Proof.
  intros He Hy Hey Hle. unfold binary_round.
  pose proof (shl_align_spec m e (fexp prec64 emax64 (Zpos (digits2_pos m) + e))) as Hs.
  destruct (shl_align _ _ _) as [m2 e2]. destruct Hs as (He2 & Hm & Hd).
  assert (-2400 ≤ e2) by (unfold fexp, emin, prec64, emax64 in *; lia).
  apply round_aux_le; [lia|unfold K; lia|done|done|].
  rewrite Hm, V_shift by (unfold K; lia). by replace (e2 + (e - e2)) with e by lia.
Qed.

(** ** Lemmas: comparisons *)

Lemma ltb_value m e y ey :
  holds (Zpos m) e → normal (Zpos y) ey →
  SFltb (S754_finite false m e) (S754_finite false y ey) = true → V (Zpos m) e < V (Zpos y) ey.
Proof.
  intros [Hm He] [[Hy Hey] Hn]. unfold SFltb, SFcompare.
  destruct (Z.compare_spec e ey) as [->|Hlt|]; [|intros _|done].
  - change (Pos.compare_cont Eq m y) with (Pos.compare m y). intros Hc. apply V_lt; [unfold K; lia|].
    by destruct (Pos.compare_spec m y).
  - destruct Hn as [Hn|]; [|lia].
    apply Z.lt_le_trans with (V (2 ^ 52) ey); [|apply V_le; [unfold K; lia|done]].
    replace ey with (e + (ey - e)) by lia. rewrite <-V_shift by (unfold K; lia).
    apply V_lt; [unfold K; lia|]. apply Z.lt_le_trans with (2 ^ 53); [lia|].
    replace (ey - e) with (Z.succ (ey - e - 1)) by lia. rewrite Z.pow_succ_r by lia.
    pose proof (pow2_pos (ey - e - 1) ltac:(lia)). lia.
Qed.

(** ** Lemmas: the conversions *)

(** A non-negative number of at most [v] units, normalised. *)
Definition canon (x : f64) (v : Z) : Prop :=
  match x with
  | S754_zero false => True
  | S754_finite false m e => normal (Zpos m) e ∧ V (Zpos m) e ≤ v
  | _ => False
  end.

Lemma canon_within x v : canon x v → within x v.
Proof. destruct x as [[]| | |[]]; cbn; try done. by intros [[? _] ?]. Qed.

Lemma canon_le x v v' : v ≤ v' → canon x v → canon x v'.
Proof. destruct x as [[]| | |[]]; cbn; try done. intros ? [??]. split; [done|lia]. Qed.

Lemma round_canon m e y ey :
  -2300 ≤ e ≤ 900 → holds y ey → ey ≤ 900 → V (Zpos m) e ≤ V y ey →
  canon (binary_round prec64 emax64 false m e) (V y ey).
Proof.
  intros He Hy Hey Hle. pose proof (round_le m e y ey He Hy Hey Hle) as Hw.
  pose proof (round_holds false m e) as Hh. destruct (binary_round _ _ _ _ _) as [[]| | |[]]; try done.
  split; [apply Hh|apply Hw].
Qed.

Lemma V_exponent m e k : 2 ^ 52 ≤ m → - K ≤ e → - K ≤ k → V m e ≤ V (2 ^ 52) k → e ≤ k.
Proof.
  intros Hm He Hk Hle. destruct (decide (e ≤ k)) as [|Hgt]; [done|exfalso].
  assert (V (2 ^ 52) k < V (2 ^ 52) e); [|pose proof (proj2 (V_le (2 ^ 52) m e He) Hm); lia].
  replace e with (k + (e - k)) by lia. rewrite <-V_shift by lia. apply V_lt; [done|].
  pose proof (Z.pow_gt_1 2 (e - k) ltac:(lia)). lia.
Qed.

(** Integers of up to 53 bits convert exactly. *)
Lemma of_Z_exact p : Zpos p < 2 ^ 53 →
  ∃ m e, f64_of_Z (Zpos p) = S754_finite false m e ∧ V (Zpos m) e = V (Zpos p) 0 ∧
    2 ^ 52 ≤ Zpos m < 2 ^ 53 ∧ -52 ≤ e ≤ 0.
Proof.
  intros Hp. unfold f64_of_Z, binary_normalize, binary_round.
  pose proof (digits_le p 53 ltac:(lia) Hp) as Hd.
  pose proof (shl_align_spec p 0 (fexp prec64 emax64 (Zpos (digits2_pos p) + 0))) as Hs.
  destruct (shl_align _ _ _) as [m2 e2]. destruct Hs as (He2 & Hm & Hd2).
  pose proof (digits_bounds m2) as [Hlo Hhi].
  unfold fexp, emin, prec64, emax64 in He2. rewrite Z.min_r in He2 by lia.
  assert (Hdm : Zpos (digits2_pos m2) = 53) by lia. rewrite Hdm in *.
  destruct (round_aux_spec false (Zpos m2) e2 loc_Exact ltac:(lia)) as (m1 & _ & Hex & Hc).
  cbn [Zdigits2] in *. rewrite Hdm in *. unfold fexp, emin, prec64, emax64 in *.
  replace (Z.max e2 (Z.max (53 + e2 - 53) (3 - 1024 - 53))) with e2 in * by lia.
  rewrite Z.sub_diag, Z.div_1_r, Z.mod_1_r in *. specialize (Hex eq_refl eq_refl). subst m1.
  destruct Hc as [[? _]|(m3 & e3 & _ & E & _ & [[[= ->] ->]|[? _]])]; [lia| |lia].
  exists m2, e2. rewrite E. replace (e2 <=? 971) with true by lia. split_and!; try done; try lia.
  rewrite Hm, V_shift by (unfold K; lia). f_equal. lia.
Qed.

(** The quotient of two 53-bit numbers is normalised. *)
Lemma div_canon m1 e1 m2 e2 :
  2 ^ 52 ≤ Zpos m1 < 2 ^ 53 → 2 ^ 52 ≤ Zpos m2 < 2 ^ 53 → -60 ≤ e1 ≤ 0 → -60 ≤ e2 ≤ 0 →
  canon (f64_div (S754_finite false m1 e1) (S754_finite false m2 e2)) (V (2 ^ 52) 20).
Proof.
  intros Hm1 Hm2 He1 He2. unfold f64_div, SFdiv, SFdiv_core_binary. cbn [Zdigits2 xorb].
  assert (Hdig : ∀ p, 2 ^ 52 ≤ Zpos p < 2 ^ 53 → Zpos (digits2_pos p) = 53).
  { intros p Hp. pose proof (digits_le p 53 ltac:(lia) ltac:(lia)).
    pose proof (digits_ge p 52 ltac:(lia) ltac:(lia)). lia. }
  rewrite !Hdig by done. unfold fexp at 1 2 3, emin, prec64, emax64.
  replace (Z.min (Z.max (53 + e1 - (53 + e2) - 53) (3 - 1024 - 53)) (e1 - e2)) with (e1 - e2 - 53) by lia.
  replace (e1 - e2 - (e1 - e2 - 53)) with 53 by lia. rewrite Z.shiftl_mul_pow2 by lia.
  pose proof (Z_div_mod (Zpos m1 * 2 ^ 53) (Zpos m2) ltac:(lia)) as Hdm.
  destruct (Z.div_eucl _ _) as [q r]. destruct Hdm as [Hq Hr].
  assert (Hqlo : 2 ^ 52 ≤ q) by (destruct (decide (2 ^ 52 ≤ q)); [done|nia]).
  assert (Hqhi : q < 2 ^ 54) by (destruct (decide (q < 2 ^ 54)); [done|nia]).
  destruct q as [|q|q]; [lia| |lia].
  pose proof (digits_le q 54 ltac:(lia) ltac:(lia)) as Hdle. pose proof (digits_ge q 52 ltac:(lia) ltac:(lia)) as Hdge.
  change 53 with prec64 at 2. change 1024 with emax64.
  set (l := new_location _ _). pose proof (round_aux_holds false (Zpos q) (e1 - e2 - 53) l ltac:(lia)) as Hh.
  pose proof (round_aux_normal false (Zpos q) (e1 - e2 - 53) l) as Hn.
  destruct (round_aux_spec false (Zpos q) (e1 - e2 - 53) l ltac:(lia)) as (x & Hx & _ & Hc).
  cbn [Zdigits2] in *. unfold fexp, emin, prec64, emax64 in *.
  destruct Hc as [[_ E]|(m & e & _ & E & Hfit & He)]; rewrite E in *; [done|].
  assert (e ≤ 12) by lia. replace (e <=? 971) with true in * by lia.
  split; [by apply Hn; [lia|lia|]|]. destruct Hh as [_ [Hh1 Hh2]].
  apply Z.le_trans with (V (2 ^ 53) e); [apply V_le; [unfold K; lia|lia]|].
  change (2 ^ 53) with (2 ^ 52 * 2 ^ 1). rewrite V_shift by (unfold K; lia).
  replace 20 with (e + 1 + (19 - e)) by lia. rewrite <-(V_shift _ (e + 1) (19 - e)) by (unfold K; lia).
  apply V_le; [unfold K; lia|]. pose proof (pow2_pos (19 - e) ltac:(lia)). lia.
Qed.

Lemma canon_exponent m e k : normal m e → -1074 ≤ k → V m e ≤ V (2 ^ 52) k → e ≤ k.
Proof.
  intros [[Hm He] [Hn|Hn]] Hk Hv; [|lia]. apply (V_exponent m); [done|unfold K; lia|unfold K; lia|done].
Qed.

(** Sums, with one more bit. *)
Lemma add_canon x y :
  canon x (V (2 ^ 52) 20) → canon y (V (2 ^ 52) 20) → canon (f64_add x y) (V (2 ^ 52) 21).
Proof.
  assert (Hup : V (2 ^ 52) 20 ≤ V (2 ^ 52) 21) by (apply V_mono; unfold K; lia).
  assert (H21 : V (2 ^ 52) 21 = 2 * V (2 ^ 52) 20).
  { change 21 with (20 + 1). rewrite <-V_shift by (unfold K; lia). by rewrite Z.mul_comm, V_mul. }
  set (v := V (2 ^ 52) 20) in *. set (v' := V (2 ^ 52) 21) in *.
  intros Hx Hy. destruct x as [[]| | |[] m1 e1]; cbn [canon] in Hx; try contradiction.
  { destruct y as [[]| | |[] m2 e2]; cbn [canon] in Hy; try contradiction; [exact I|].
    apply (canon_le _ v); [exact Hup|exact Hy]. }
  destruct y as [[]| | |[] m2 e2]; cbn [canon] in Hy; try contradiction.
  { apply (canon_le _ v); [exact Hup|exact Hx]. }
  destruct Hx as [Hn1 Hv1], Hy as [Hn2 Hv2].
  pose proof (canon_exponent _ _ 20 Hn1 ltac:(lia) Hv1). pose proof (canon_exponent _ _ 20 Hn2 ltac:(lia) Hv2).
  destruct Hn1 as [[Hm1 He1] _], Hn2 as [[Hm2 He2] _].
  unfold f64_add, SFadd. set (ez := Z.min e1 e2). cbn [cond_Zopp].
  pose proof (shl_align_spec m1 e1 ez) as Hs1. pose proof (shl_align_spec m2 e2 ez) as Hs2.
  destruct (shl_align m1 e1 ez) as [x1 y1], (shl_align m2 e2 ez) as [x2 y2]. cbn [fst].
  destruct Hs1 as (Hy1 & Hx1 & _), Hs2 as (Hy2 & Hx2 & _).
  replace y1 with ez in * by lia. replace y2 with ez in * by lia.
  cbn [Z.add binary_normalize]. apply round_canon; [lia|split; lia|lia|].
  rewrite Pos2Z.inj_add, Hx1, Hx2, V_add, !V_shift by (unfold K; lia).
  replace (ez + (e1 - ez)) with e1 by lia. replace (ez + (e2 - ez)) with e2 by lia.
  fold v'. rewrite H21. lia.
Qed.

(** Seconds of a duration, as a normalised number below 2^73. *)
Lemma as_secs_canon d : 0 ≤ d → d / NANOS_PER_SEC ≤ u64_MAX → canon (as_secs_f64 d) (V (2 ^ 52) 21).
Proof.
  intros Hd Hs. pose proof (Z.mod_pos_bound d NANOS_PER_SEC ltac:(done)) as Hns.
  assert (0 ≤ d / NANOS_PER_SEC) as Hs0 by (by apply Z.div_pos). unfold as_secs_f64. apply add_canon.
  - destruct (d / NANOS_PER_SEC) as [|p|p]; [exact I| |lia]. apply round_canon; [lia|split; lia|lia|].
    change 20 with (0 + 20). rewrite <-V_shift by (unfold K; lia). apply V_le; [unfold K; lia|].
    unfold u64_MAX in *. lia.
  - destruct (d mod NANOS_PER_SEC) as [|p|p]; [exact I| |lia].
    destruct (of_Z_exact p) as (m1 & e1 & -> & _ & Hm1 & He1); [unfold NANOS_PER_SEC in *; lia|].
    destruct (of_Z_exact 1000000000) as (m2 & e2 & E2 & _ & Hm2 & He2); [done|].
    unfold NANOS_PER_SEC. rewrite E2. apply div_canon; lia.
Qed.

(** *** Back to durations *)

Lemma div_half_even_scale n d c : 0 < d → 0 < c → div_half_even (n * c) (d * c) = div_half_even n d.
Proof.
  intros Hd Hc. unfold div_half_even. rewrite Z.div_mul_cancel_r by lia.
  rewrite Z.mul_mod_distr_r by lia. rewrite Z.mul_assoc.
  by rewrite <-(Zmult_compare_compat_r (2 * (n mod d)) d c) by lia.
Qed.

Lemma div_half_even_exact n d : 0 < d → div_half_even (n * d) d = n.
Proof.
  intros Hd. unfold div_half_even. rewrite Z.div_mul, Z.mod_mul by lia.
  destruct (Z.compare_spec (2 * 0) d); lia.
Qed.

Lemma div_half_even_mono n n' d : 0 < d → n ≤ n' → div_half_even n d ≤ div_half_even n' d.
Proof.
  intros Hd Hn. unfold div_half_even. pose proof (Z.div_le_mono n n' d Hd Hn) as Hq.
  pose proof (Z.div_mod n d ltac:(lia)). pose proof (Z.div_mod n' d ltac:(lia)).
  destruct (decide (n / d = n' / d)) as [E|Hne].
  - rewrite E in *. destruct (Z.compare_spec (2 * (n mod d)) d), (Z.compare_spec (2 * (n' mod d)) d);
      try destruct (Z.even (n' / d)); lia.
  - destruct (Z.compare_spec (2 * (n mod d)) d), (Z.compare_spec (2 * (n' mod d)) d);
      try destruct (Z.even (n / d)); try destruct (Z.even (n' / d)); lia.
Qed.

(** The conversion only depends on the value. *)
Lemma from_secs_value m e : - K ≤ e →
  from_secs_f64 (S754_finite false m e) =
    if V (Zpos m) e / 2 ^ K <=? u64_MAX then Ret (div_half_even (NANOS_PER_SEC * V (Zpos m) e) (2 ^ K))
    else Panic BadDuration.
Proof.
  intros He. assert (HK : 0 < 2 ^ K) by (by apply pow2_pos). cbn [from_secs_f64].
  destruct (Z.leb_spec 0 e) as [Hpos|Hneg].
  - assert (Hv : V (Zpos m) e = Zpos m * 2 ^ e * 2 ^ K)
      by (unfold V; rewrite Z.pow_add_r by (unfold K; lia); lia).
    rewrite Hv, Z.mul_assoc, div_half_even_exact, Z.div_mul, Z.shiftl_mul_pow2 by lia.
    by rewrite (Z.mul_comm NANOS_PER_SEC).
  - assert (Hk : 2 ^ K = 2 ^ (- e) * 2 ^ (e + K)) by (rewrite <-Z.pow_add_r by lia; f_equal; lia).
    pose proof (pow2_pos (- e) ltac:(lia)). pose proof (pow2_pos (e + K) ltac:(lia)).
    unfold V. rewrite Hk, Z.div_mul_cancel_r, Z.mul_assoc, div_half_even_scale, Z.shiftr_div_pow2 by lia.
    by rewrite (Z.mul_comm NANOS_PER_SEC).
Qed.

(** A smaller number of seconds converts to no longer a duration. *)
Lemma from_secs_within x m e d :
  holds (Zpos m) e → within x (V (Zpos m) e) → from_secs_f64 (S754_finite false m e) = Ret d →
  ∃ d', from_secs_f64 x = Ret d' ∧ 0 ≤ d' ≤ d.
Proof.
  intros [Hm He] Hx. assert (HK : 0 < 2 ^ K) by (by apply pow2_pos).
  rewrite from_secs_value by (unfold K; lia). destruct (Z.leb_spec (V (Zpos m) e / 2 ^ K) u64_MAX) as [Hle|]; [|done].
  intros [= <-]. destruct x as [[]| | |[] m' e']; cbn [within] in Hx; try contradiction.
  - exists 0. split; [done|]. split; [lia|]. apply div_half_even_nonneg; [|lia].
    pose proof (V_pos (Zpos m) e ltac:(lia) ltac:(unfold K; lia)). unfold NANOS_PER_SEC. lia.
  - destruct Hx as [[Hm' He'] Hv]. rewrite from_secs_value by (unfold K; lia).
    pose proof (V_pos (Zpos m') e' ltac:(lia) ltac:(unfold K; lia)).
    pose proof (Z.div_le_mono _ _ (2 ^ K) HK Hv) as Hdiv.
    replace (V (Zpos m') e' / 2 ^ K <=? u64_MAX) with true by lia. eexists. split; [done|].
    split; [apply div_half_even_nonneg; unfold NANOS_PER_SEC; lia|].
    apply div_half_even_mono; unfold NANOS_PER_SEC; lia.
Qed.
