(* ===== verification/Backoff.v ===== *)
(** * Exponential backoff stays within its cap

    [ExponentialBackoff] of [src/src/utils/retry.rs], with its rounding: below
    its limit of attempts it answers a delay of at most the configured maximum,
    and never panics when the multiplier is not negative; so a dial that is
    retried with it comes to an end. *)

From Stdlib Require Import ZArith SpecFloat.
From stdpp Require Import base tactics numbers strings.
From S2P Require Import Prelude Errors Constants Strategy Float64 Retry Address Balancer.
From S2P Require Import BalancerFacts BalancerSpec Rounding.

Open Scope rota_scope.
Local Open Scope Z_scope.

(** ** Specification *)

(** Not negative; NaN is allowed, the policy replaces it by the maximum. *)
Definition nonneg (x : f64) : Prop :=
  match x with
  | S754_zero s | S754_infinity s | S754_finite s _ _ => s = false
  | S754_nan => True
  end.

(** A duration that the conversions to seconds and back keep. *)
Definition keeps_seconds (d : Duration) : Prop := from_secs_f64 (as_secs_f64 d) = Ret d.

(** ** Lemmas *)

(** What a product of non-negative factors can be. *)
Definition product (x : f64) : Prop :=
  nonneg x ∧ match x with S754_finite _ m e => holds (Zpos m) e | _ => True end.

Lemma mul_product x y : nonneg x → nonneg y → product (f64_mul x y).
Proof.
  intros Hx Hy. destruct x as [s|s| |s m e], y as [s'|s'| |s' m' e']; cbn in Hx, Hy; subst; try done.
  unfold f64_mul, SFmul. cbn [xorb].
  pose proof (round_aux_holds false (Zpos (m * m')) (e + e') loc_Exact ltac:(lia)) as Hh.
  by destruct (binary_round_aux _ _ _ _ _ _).
Qed.

Lemma mul_nonneg x y : nonneg x → nonneg y → nonneg (f64_mul x y).
Proof. intros. by apply mul_product. Qed.

Lemma div_nonneg x y : nonneg x → nonneg y → nonneg (f64_div x y).
Proof.
  intros Hx Hy. destruct x as [s|s| |s m e], y as [s'|s'| |s' m' e']; cbn in Hx, Hy; subst; try done.
  unfold f64_div, SFdiv, binary_round_aux. cbn [xorb]. by repeat case_match.
Qed.

Lemma powi_pos_nonneg a r n : nonneg a → nonneg r → nonneg (powi_pos a r n).
Proof.
  revert a r. induction n as [n IH|n IH|]; intros a r Ha Hr; cbn [powi_pos].
  - apply IH; by apply mul_nonneg.
  - apply IH; [by apply mul_nonneg|done].
  - by apply mul_nonneg.
Qed.

Lemma powi_nonneg a n : nonneg a → nonneg (f64_powi a n).
Proof.
  intros Ha. destruct n as [|n|n]; cbn [f64_powi]; [done|by apply powi_pos_nonneg|].
  apply div_nonneg; [done|by apply powi_pos_nonneg].
Qed.

Lemma canon_nonneg x v : canon x v → nonneg x.
Proof. by destruct x as [[]| | |[]]. Qed.

(** The smaller of a product and a normalised bound. *)
Lemma min_within x m e :
  product x → f64_is_infinite x || f64_is_nan x = false → normal (Zpos m) e →
  within (f64_min x (S754_finite false m e)) (V (Zpos m) e).
Proof.
  intros [Hx Hh] Hf Hn. assert (Hnan : f64_is_nan x = false) by (by destruct x).
  unfold f64_min. rewrite Hnan. cbn [f64_is_nan]. destruct (SFltb _ _) eqn:E.
  - destruct x as [s|s| |s mx ex]; cbn in Hx, Hf; try done; subst s; [exact I|].
    split; [exact Hh|]. apply Z.lt_le_incl. by apply ltb_value.
  - destruct x; try done; (split; [apply Hn|lia]).
Qed.

Lemma min_zero x :
  product x → f64_is_infinite x || f64_is_nan x = false → f64_min x (S754_zero false) = S754_zero false.
Proof. intros [Hx _] Hf. destruct x as [s|s| |s mx ex]; cbn in Hx, Hf; try done; by subst s. Qed.

(** *** Jitter *)

(** The half a draw in [0, 1) adds to one half stays below one. *)
Lemma jitter_factor_within draw :
  unit_draw draw = true → within (f64_mul_add draw JITTER_FACTOR JITTER_FACTOR) (V (2 ^ 52) (-52)).
Proof.
  assert (EJ : f64_exact JITTER_FACTOR = Some (2 ^ 52, -53)) by (vm_compute; reflexivity).
  intros Hd. unfold f64_mul_add. rewrite EJ.
  assert (Hex : ∃ md ed, f64_exact draw = Some (md, ed) ∧ 0 ≤ md ∧ -1074 ≤ ed ≤ 0 ∧ V md ed ≤ V 1 0).
  { destruct draw as [[]| | |[] m e]; cbn [unit_draw] in Hd; try discriminate.
    - exists 0, 0. split; [reflexivity|]. split; [lia|]. split; [lia|]. unfold V at 1. apply Z.lt_le_incl, V_pos; unfold K; lia.
    - apply andb_true_iff in Hd as [Hd Hlt]. breflect. exists (Zpos m), e. split; [reflexivity|].
      split; [lia|]. split; [lia|]. replace 0 with (e + - e) by lia. rewrite <-V_shift by (unfold K; lia).
      apply V_le; [unfold K; lia|]. lia. }
  destruct Hex as (md & ed & -> & Hmd & Hed & Hv). rewrite Z.min_l by lia.
  rewrite !Z.shiftl_mul_pow2 by lia. rewrite Z.sub_diag, Z.mul_1_r.
  set (M := md * 2 ^ 52 + 2 ^ 52 * 2 ^ (-53 - (ed + -53))).
  assert (HM : 0 < M) by (pose proof (pow2_pos (-53 - (ed + -53)) ltac:(lia)); unfold M; lia).
  destruct M as [|p|p] eqn:EM; [lia| |lia]. cbn [binary_normalize].
  apply round_le; [lia|split; lia|lia|]. rewrite <-EM. unfold M.
  rewrite V_add, V_shift by (unfold K; lia). rewrite (V_shift (2 ^ 52)) by (unfold K; lia).
  replace (ed + -53 + 52) with (ed + -1) by lia. replace (ed + -53 + (-53 - (ed + -53))) with (-53) by lia.
  assert (Hhalf : 2 * V md (ed + -1) = V md ed).
  { rewrite <-V_mul, (Z.mul_comm 2), <-(Z.pow_1_r 2), V_shift by (unfold K; lia). f_equal. lia. }
  assert (H1 : V 1 0 = 2 * V (2 ^ 52) (-53)).
  { rewrite <-V_mul. change (2 * 2 ^ 52) with (1 * 2 ^ 53). rewrite V_shift by (unfold K; lia). f_equal. }
  assert (H2 : V (2 ^ 52) (-52) = 2 * V (2 ^ 52) (-53)).
  { rewrite <-V_mul. change (2 * 2 ^ 52) with (2 ^ 52 * 2 ^ 1). rewrite V_shift by (unfold K; lia). f_equal. }
  lia.
Qed.

(** A factor of at most one does not raise a product above its bound. *)
Lemma mul_within f x y ey :
  within f (V (2 ^ 52) (-52)) → within x (V y ey) → holds y ey → ey ≤ 100 → within (f64_mul f x) (V y ey).
Proof.
  intros Hf Hx Hy Hey. assert (H1 : V (2 ^ 52) (-52) = 2 ^ K).
  { rewrite <-(Z.mul_1_l (2 ^ 52)), V_shift by (unfold K; lia). unfold V. by rewrite Z.mul_1_l. }
  destruct f as [[]| | |[] mf ef]; cbn [within] in Hf; try contradiction.
  { destruct x as [[]| | |[] mx ex]; cbn [within] in Hx; try contradiction; exact I. }
  destruct x as [[]| | |[] mx ex]; cbn [within] in Hx; try contradiction; [exact I|].
  destruct Hf as [[Hmf Hef] Hvf], Hx as [[Hmx Hex] Hvx]. unfold f64_mul, SFmul. cbn [xorb].
  assert (Hcap : ∀ m e k, 0 < m → -1074 ≤ e → -1074 ≤ k → V m e ≤ V (2 ^ 53) k → e ≤ k + 53).
  { intros m e k Hm He Hk Hv. destruct (decide (e ≤ k + 53)) as [|Hgt]; [done|exfalso].
    assert (V 1 (k + 53) < V 1 e) as Hlt.
    { replace e with (k + 53 + (e - (k + 53))) by lia.
      rewrite <-(V_shift 1 (k + 53) (e - (k + 53))) by (unfold K; lia).
      apply V_lt; [unfold K; lia|]. pose proof (Z.pow_gt_1 2 (e - (k + 53)) ltac:(lia)). lia. }
    rewrite <-V_shift in Hlt by (unfold K; lia). rewrite Z.mul_1_l in Hlt.
    assert (V 1 e ≤ V m e) by (apply V_le; [unfold K|]; lia). lia. }
  assert (ef ≤ 1).
  { apply (Hcap (Zpos mf) ef (-52)); [lia..|]. etrans; [exact Hvf|]. apply V_le; [unfold K|]; lia. }
  assert (ex ≤ ey + 53).
  { apply (Hcap (Zpos mx)); [lia|lia|apply Hy|]. etrans; [exact Hvx|]. apply V_le; [destruct Hy; unfold K; lia|].
    destruct Hy; lia. }
  apply round_aux_le; [lia|unfold K; lia|done|lia|]. etrans; [|exact Hvx].
  rewrite Pos2Z.inj_mul. apply (Z.mul_le_mono_pos_r _ _ (2 ^ K)); [by apply pow2_pos|].
  replace (V (Zpos mf * Zpos mx) (ef + ex) * 2 ^ K) with (V (Zpos mf) ef * V (Zpos mx) ex).
  - rewrite (Z.mul_comm (V (Zpos mx) ex)). apply Z.mul_le_mono_nonneg_r; [|by rewrite <-H1].
    apply Z.lt_le_incl, V_pos; unfold K; lia.
  - assert (Hpow : 2 ^ (ef + K) * 2 ^ (ex + K) = 2 ^ (ef + ex + K) * 2 ^ K)
      by (rewrite <-!Z.pow_add_r by (unfold K; lia); f_equal; lia).
    unfold V. rewrite <-(Z.mul_assoc _ (2 ^ (ef + ex + K))), <-Hpow. lia.
Qed.

(** *** The policy *)

Lemma seconds_fit d : Duration_wf d → d / NANOS_PER_SEC ≤ u64_MAX.
Proof.
  intros [_ Hd]. apply Z.lt_succ_r, Z.div_lt_upper_bound; [done|].
  eapply Z.le_lt_trans; [exact Hd|]. done.
Qed.

Lemma raw_product p attempt :
  Duration_wf (ExponentialBackoff.base_delay p) → nonneg (ExponentialBackoff.multiplier p) →
  product (ExponentialBackoff.raw_delay p attempt).
Proof.
  intros Hb Hx. apply mul_product; [|by apply powi_nonneg].
  eapply canon_nonneg, as_secs_canon; [apply Hb|by apply seconds_fit].
Qed.

(** Whole seconds, up to 2^53 of them, are kept. *)
Lemma whole_seconds_kept s : 0 ≤ s < 2 ^ 53 → keeps_seconds (from_secs s).
Proof.
  intros Hs. unfold keeps_seconds, as_secs_f64, from_secs.
  rewrite Z.div_mul, Z.mod_mul by done. destruct s as [|p|p]; [done| |lia].
  destruct (of_Z_exact p) as (m & e & -> & Hv & Hm & He); [lia|].
  change (f64_div (f64_of_Z 0) (f64_of_Z NANOS_PER_SEC)) with (S754_zero false). unfold f64_add, SFadd.
  rewrite from_secs_value by (unfold K; lia). rewrite Hv.
  assert (HV : V (Zpos p) 0 = Zpos p * 2 ^ K) by done. assert (0 < 2 ^ K) by (by apply pow2_pos).
  rewrite HV, Z.div_mul by lia. replace (Zpos p <=? u64_MAX) with true by (symmetry; apply Z.leb_le; unfold u64_MAX; lia).
  rewrite Z.mul_assoc, div_half_even_exact by done. f_equal. lia.
Qed.

Definition configured (p : ExponentialBackoff.t) : Prop :=
  Duration_wf (ExponentialBackoff.base_delay p) ∧ Duration_wf (ExponentialBackoff.max_delay p) ∧
  nonneg (ExponentialBackoff.multiplier p) ∧ keeps_seconds (ExponentialBackoff.max_delay p).

Lemma backoff_within p draw attempt :
  attempts_exhausted (ExponentialBackoff.max_attempts p) attempt = false → configured p →
  (ExponentialBackoff.jitter p = true → unit_draw draw = true) →
  ∃ d, ExponentialBackoff.should_retry p draw attempt = Ret (Some d) ∧ 0 ≤ d ≤ ExponentialBackoff.max_delay p.
Proof.
  intros Hex (Hb & Hmax & Hmul & Hkeep) Hdraw. pose proof (raw_product p attempt Hb Hmul) as Hraw.
  unfold ExponentialBackoff.should_retry. rewrite Hex. cbv zeta.
  set (raw := ExponentialBackoff.raw_delay p attempt) in *.
  destruct (f64_is_infinite raw || f64_is_nan raw) eqn:Hf; [eexists; split; [done|]; split; [apply Hmax|lia]|].
  assert (Hcap : canon (as_secs_f64 (ExponentialBackoff.max_delay p)) (V (2 ^ 52) 21)).
  { apply as_secs_canon; [apply Hmax|by apply seconds_fit]. }
  unfold keeps_seconds in Hkeep.
  destruct (as_secs_f64 (ExponentialBackoff.max_delay p)) as [[]| | |[] m ec]; cbn [canon] in Hcap; try contradiction.
  - rewrite (min_zero raw Hraw Hf). injection Hkeep as Hz. rewrite <-Hz. cbn [from_secs_f64].
    destruct (ExponentialBackoff.jitter p) eqn:Hj; [|by exists 0].
    pose proof (jitter_factor_within draw (Hdraw eq_refl)) as Hw.
    destruct (f64_mul_add _ _ _) as [[]| | |[] mf ef]; cbn [within] in Hw; try contradiction; by exists 0.
  - destruct Hcap as [Hn Hv]. pose proof (canon_exponent _ _ 21 Hn ltac:(lia) Hv) as He.
    pose proof (min_within raw m ec Hraw Hf Hn) as Hw. set (x := f64_min raw _) in *.
    destruct (from_secs_within x m ec _ (proj1 Hn) Hw Hkeep) as (d & -> & Hd).
    unfold mbind, outcome_bind.
    destruct (ExponentialBackoff.jitter p) eqn:Hj; [|by exists d].
    pose proof (mul_within _ x _ _ (jitter_factor_within draw (Hdraw eq_refl)) Hw (proj1 Hn) ltac:(lia)) as Hwj.
    destruct (from_secs_within _ m ec _ (proj1 Hn) Hwj Hkeep) as (dj & -> & Hdj). by exists dj.
Qed.

(** ** Properties *)

(** C20: exponential backoff with a [max_delay] that the conversion to
    floating-point seconds keeps ([keeps_seconds], for instance any number of
    whole seconds below 2^53) never waits longer than it, and does not panic.
    Below the limit of attempts, for any base delay, any multiplier that is not
    negative (infinite and NaN ones included) and any draw in [0, 1), the policy
    answers a delay between zero and [max_delay], with and without jitter, after
    all roundings.  Other maxima can be exceeded by the rounding, or panic:
    [uncapped_maximum_panics] and [coarse_maximum_exceeded] below. *)
Theorem exponential_backoff_capped p draw attempt e :
  attempts_exhausted (ExponentialBackoff.max_attempts p) attempt = false → configured p →
  (ExponentialBackoff.jitter p = true → unit_draw draw = true) →
  ∃ d, should_retry (ExponentialBackoff.policy p) draw attempt e = Ret (Some d) ∧
    0 ≤ d ≤ ExponentialBackoff.max_delay p.
Proof. apply backoff_within. Qed.

(** A dial retried with exponential backoff comes to an end: within the limit
    of attempts, whatever the backend answers, with the first decisive answer. *)
Theorem backoff_dial_terminates `{Target} {B C} m fuel (self : LoadBalancer.t B) idx b addr timeout p
    (env : Env B C) :
  LoadBalancer.backends self !! idx = Some b →
  responsive (effective timeout (LoadBalancer.dial_timeout self)) (env b addr) →
  configured p → (Z.of_nat m ≤ u32_MAX)%Z → (Nat.max 1 m ≤ fuel)%nat →
  ∃ k r, LoadBalancer.dial_with_retry fuel self idx addr timeout
      (Some (ExponentialBackoff.policy (ExponentialBackoff.with_max_attempts (Z.of_nat m) p))) env = Ret r ∧
    (k < Nat.max 1 m)%nat ∧
    first_decisive (effective timeout (LoadBalancer.dial_timeout self))
      (Some (ExponentialBackoff.policy (ExponentialBackoff.with_max_attempts (Z.of_nat m) p))) (env b addr) k r.
Proof.
  intros Hb Hr Hp Hm Hf. apply (dial_with_retry_terminates m); try done.
  split; [apply exponential_gives_up|]. split; [done|]. intros draw n e Hd. cbn.
  destruct (attempts_exhausted (Some (Z.of_nat m)) n) eqn:Hex.
  - exists None. unfold ExponentialBackoff.should_retry. cbn. by rewrite Hex.
  - destruct (backoff_within (ExponentialBackoff.with_max_attempts (Z.of_nat m) p) draw n Hex Hp) as (d & E & _);
      [done|]. by exists (Some d).
Qed.

(** ** Witnesses *)

(** 100 ms doubling up to half a second, with full jitter. *)
Definition half_second : ExponentialBackoff.t :=
  ExponentialBackoff.with_max_delay (from_millis 500) backoff_100ms.

Lemma exponential_backoff_capped_witness :
  ∃ d, should_retry (ExponentialBackoff.policy half_second) (f64_lit 3 (-2)) 20 Error.no_backends = Ret (Some d) ∧
    0 ≤ d ≤ from_millis 500.
Proof.
  apply (exponential_backoff_capped half_second (f64_lit 3 (-2)) 20 Error.no_backends).
  - reflexivity.
  - split; [vm_compute; split; discriminate|]. split; [vm_compute; split; discriminate|].
    split; [reflexivity|vm_compute; reflexivity].
  - intros _. vm_compute. reflexivity.
Defined.

(** *** Maxima that the conversion does not keep *)

(** Asking for no cap with [Duration::MAX] panics: as seconds it is 2^64, which
    no duration can hold. *)
Definition uncapped : ExponentialBackoff.t :=
  ExponentialBackoff.with_jitter false (ExponentialBackoff.with_max_delay Duration_MAX backoff_100ms).

Lemma uncapped_maximum_panics :
  Duration_wf Duration_MAX ∧
  should_retry (ExponentialBackoff.policy uncapped) (f64_of_Z 0) 80 Error.no_backends = Panic BadDuration.
Proof. split; [vm_compute; split; discriminate|vm_compute; reflexivity]. Qed.

(** About 285 years: the seconds in floating point round up, and the delay is
    longer than the maximum. *)
Definition coarse_maximum : Duration := 9007199254740979655%Z.
Definition coarse : ExponentialBackoff.t :=
  ExponentialBackoff.with_jitter false (ExponentialBackoff.with_max_delay coarse_maximum backoff_100ms).

Lemma coarse_maximum_exceeded :
  should_retry (ExponentialBackoff.policy coarse) (f64_of_Z 0) 80 Error.no_backends =
    Ret (Some 9007199254740980148%Z) ∧ coarse_maximum < 9007199254740980148.
Proof. split; vm_compute; reflexivity. Qed.
