(* ===== verification/Concurrent.v ===== *)
(** * Dials, connections and reconfiguration, interleaved

    [LoadBalancer::dial] takes [&self], so dials run concurrently and can be
    cancelled at every await; the guards of open connections outlive the call
    and are dropped at any time, also while the pool is reconfigured; the
    reconfiguration methods take [&mut self], so no dial is in flight then.
    This file is that system as a labelled step relation over the operations
    of [Balancer], and what holds of every run: the pool stays well formed
    and no backend is lost.  [Accounting] is about the counters. *)

From stdpp Require Import base tactics list numbers strings.
From S2P Require Import Prelude Errors Constants Strategy Float64 Retry Address Balancer.
From S2P Require Import Strategies Scored WeightedRoundRobin Registry BalancerFacts BalancerSpec.

Open Scope rota_scope.
Import LoadBalancer.

(** ** The system *)

(** Where a dial in flight is: waiting for its backend, or past the metrics
    update and about to report to the strategy. *)
Inductive phase := Dialing | ReportingOk | ReportingErr.

#[global] Instance phase_eq_dec : EqDecision phase.
Proof. solve_decision. Defined.

(** A dial holds its backend index and the generation it read. *)
Record task := { t_phase : phase; t_guard : ActiveConnectionGuard }.

Section System.
Context `{Target} {B : Type}.

(** The calls that need [&mut self]. *)
Inductive reconfig :=
| AddBackend (b : B)
| AddBackendWithId (id : string) (b : B)
| RemoveBackend (i : nat)
| RemoveBackendById (id : string)
| ReplaceBackends (bs : list B) (s : option dyn_strategy)
| DrainBackend (i : nat)
| UndrainBackend (i : nat)
| SetStrategy (s : dyn_strategy).

Definition run_reconfig (op : reconfig) : M (t B) unit :=
  match op with
  | AddBackend b => add_backend b;; mret tt
  | AddBackendWithId id b => add_backend_with_id id b;; mret tt
  | RemoveBackend i => remove_backend i;; mret tt
  | RemoveBackendById id => remove_backend_by_id id;; mret tt
  | ReplaceBackends bs s => replace_backends bs s;; mret tt
  | DrainBackend i => drain_backend i;; mret tt
  | UndrainBackend i => undrain_backend i;; mret tt
  | SetStrategy s => set_strategy s
  end.

(** The backends a call hands over to the balancer. *)
Definition brought (op : reconfig) : list B :=
  match op with
  | AddBackend b | AddBackendWithId _ b => [b]
  | ReplaceBackends bs _ => bs
  | _ => []
  end.

(** The calls that take entries out of the pool. *)
Definition structural (op : reconfig) : bool :=
  match op with
  | RemoveBackend _ | RemoveBackendById _ | ReplaceBackends _ _ => true
  | _ => false
  end.

(** The balancer, the dials in flight, the open connections' guards, the guards
    in their [drop] past the generation check, and every backend the balancer
    was ever given. *)
Record cfg := {
  lb : t B;
  tasks : list task;
  guards : list ActiveConnectionGuard;
  dropping : list ActiveConnectionGuard;
  owned : list B
}.

Definition start (self : t B) : cfg :=
  {| lb := self; tasks := []; guards := []; dropping := []; owned := backends self |}.

Inductive label :=
| Select | SelectPanic | DialOk | DialErr | ReportOk | ReportErr | ReportPanic | Cancel
| DropSkip | DropCheck | DropWrite | DropRace | DropContended
| Reconfig (op : reconfig).

Definition guard_of (i : nat) (self : t B) : ActiveConnectionGuard :=
  {| guard_index := i; gen_at_creation := generation self |}.

Definition release (m : TunnelMetrics) : TunnelMetrics :=
  set_active_connections (saturating_sub (active_connections m) 1) m.

Inductive step : cfg → label → cfg → Prop :=
(** The critical section of a dial returns an index; the generation is read. *)
| step_select self ts gs ds os ρ addr i self' :
    backends self ≠ [] → select_backend ρ addr self = (Ret i, self') →
    step {| lb := self; tasks := ts; guards := gs; dropping := ds; owned := os |} Select
      {| lb := self'; tasks := {| t_phase := Dialing; t_guard := guard_of i self' |} :: ts;
         guards := gs; dropping := ds; owned := os |}
(** It panics: the caller unwinds, the locks are released. *)
| step_select_panic self ts gs ds os ρ addr p self' :
    backends self ≠ [] → select_backend ρ addr self = (Panic p, self') →
    step {| lb := self; tasks := ts; guards := gs; dropping := ds; owned := os |} SelectPanic
      {| lb := self'; tasks := ts; guards := gs; dropping := ds; owned := os |}
(** The backend gave a connection; the metrics half of [handle_dial_success]. *)
| step_ok self ts1 ts2 gs ds os g self' :
    update_metrics (guard_index g) (set_recent_errors 0) self = (Ret tt, self') →
    step {| lb := self; tasks := ts1 ++ {| t_phase := Dialing; t_guard := g |} :: ts2;
            guards := gs; dropping := ds; owned := os |} DialOk
      {| lb := self'; tasks := ts1 ++ {| t_phase := ReportingOk; t_guard := g |} :: ts2;
         guards := gs; dropping := ds; owned := os |}
(** The retries gave up; the metrics half of [handle_dial_error]. *)
| step_err self ts1 ts2 gs ds os g self' :
    update_metrics (guard_index g) count_error self = (Ret tt, self') →
    step {| lb := self; tasks := ts1 ++ {| t_phase := Dialing; t_guard := g |} :: ts2;
            guards := gs; dropping := ds; owned := os |} DialErr
      {| lb := self'; tasks := ts1 ++ {| t_phase := ReportingErr; t_guard := g |} :: ts2;
         guards := gs; dropping := ds; owned := os |}
(** The strategy is told; [dial] returns the guarded connection, or the error. *)
| step_report_ok self ts1 ts2 gs ds os g self' :
    with_strategy (report_success (guard_index g)) self = (Ret tt, self') →
    step {| lb := self; tasks := ts1 ++ {| t_phase := ReportingOk; t_guard := g |} :: ts2;
            guards := gs; dropping := ds; owned := os |} ReportOk
      {| lb := self'; tasks := ts1 ++ ts2; guards := g :: gs; dropping := ds; owned := os |}
| step_report_err self ts1 ts2 gs ds os g self' :
    with_strategy (report_error (guard_index g)) self = (Ret tt, self') →
    step {| lb := self; tasks := ts1 ++ {| t_phase := ReportingErr; t_guard := g |} :: ts2;
            guards := gs; dropping := ds; owned := os |} ReportErr
      {| lb := self'; tasks := ts1 ++ ts2; guards := gs; dropping := ds; owned := os |}
(** The strategy panics on the report: the caller unwinds with the connection
    or the error, and no guard was made for it. *)
| step_report_panic self ts1 ts2 gs ds os (ok : bool) g p self' :
    with_strategy (if ok then report_success (guard_index g) else report_error (guard_index g)) self =
      (Panic p, self') →
    step {| lb := self;
            tasks := ts1 ++ {| t_phase := if ok then ReportingOk else ReportingErr; t_guard := g |} :: ts2;
            guards := gs; dropping := ds; owned := os |} ReportPanic
      {| lb := self'; tasks := ts1 ++ ts2; guards := gs; dropping := ds; owned := os |}
(** The dial future is dropped at an await, or unwinds from a panic of the
    backend or of the retry policy: the shared state is left as it is. *)
| step_cancel self ts1 tk ts2 gs ds os :
    step {| lb := self; tasks := ts1 ++ tk :: ts2; guards := gs; dropping := ds; owned := os |}
      Cancel
      {| lb := self; tasks := ts1 ++ ts2; guards := gs; dropping := ds; owned := os |}
(** [Drop for ActiveConnectionGuard]: the generation is read first, *)
| step_drop_skip self ts gs1 g gs2 ds os :
    generation self ≠ gen_at_creation g →
    step {| lb := self; tasks := ts; guards := gs1 ++ g :: gs2; dropping := ds; owned := os |}
      DropSkip
      {| lb := self; tasks := ts; guards := gs1 ++ gs2; dropping := ds; owned := os |}
| step_drop_check self ts gs1 g gs2 ds os :
    generation self = gen_at_creation g →
    step {| lb := self; tasks := ts; guards := gs1 ++ g :: gs2; dropping := ds; owned := os |}
      DropCheck
      {| lb := self; tasks := ts; guards := gs1 ++ gs2; dropping := g :: ds; owned := os |}
(** then [try_write] finds the lock free (the generation may have moved on) or not. *)
| step_drop_write self ts gs ds1 g ds2 os self' :
    update_metrics (guard_index g) release self = (Ret tt, self') →
    step {| lb := self; tasks := ts; guards := gs; dropping := ds1 ++ g :: ds2; owned := os |}
      (if decide (generation self = gen_at_creation g) then DropWrite else DropRace)
      {| lb := self'; tasks := ts; guards := gs; dropping := ds1 ++ ds2; owned := os |}
| step_drop_contended self ts gs ds1 g ds2 os :
    step {| lb := self; tasks := ts; guards := gs; dropping := ds1 ++ g :: ds2; owned := os |}
      DropContended
      {| lb := self; tasks := ts; guards := gs; dropping := ds1 ++ ds2; owned := os |}
(** A call with [&mut self]: no dial borrows the balancer. *)
| step_reconfig self gs ds os op self' :
    run_reconfig op self = (Ret tt, self') →
    step {| lb := self; tasks := []; guards := gs; dropping := ds; owned := os |} (Reconfig op)
      {| lb := self'; tasks := []; guards := gs; dropping := ds; owned := os ++ brought op |}.

Inductive run : cfg → list label → cfg → Prop :=
| run_nil c : run c [] c
| run_step c l c' ls c'' : step c l c' → run c' ls c'' → run c (l :: ls) c''.

(** *** Cancelling [replace_backends]

    The future is dropped while it awaits the shutdown of old backend [k]: the
    generation has moved on, backends [0..k] were asked to shut down, and
    dropping the [Drain] iterator empties the vector; ids, metrics and strategy
    were not reached. *)
Definition cancelled_replace (k : nat) : M (t B) unit :=
  bump_generation;;
  self ← get;
  modify (set_backends []);;
  shutdown_all (take (S k) (backends self)).

End System.
#[global] Arguments cfg B : clear implicits.
#[global] Arguments label B : clear implicits.
#[global] Arguments reconfig B : clear implicits.

(** Case analysis on a step, with one name per component of the state. *)
Ltac step_cases Hs :=
  destruct Hs as
    [self ts gs ds os ρ addr i self' Hne E
    |self ts gs ds os ρ addr p self' Hne E
    |self ts1 ts2 gs ds os g self' E
    |self ts1 ts2 gs ds os g self' E
    |self ts1 ts2 gs ds os g self' E
    |self ts1 ts2 gs ds os g self' E
    |self ts1 ts2 gs ds os ok g p self' E
    |self ts1 tk ts2 gs ds os
    |self ts gs1 g gs2 ds os Hgen
    |self ts gs1 g gs2 ds os Hgen
    |self ts gs ds1 g ds2 os self' E
    |self ts gs ds1 g ds2 os
    |self gs ds os op self' E]; cbn in *.

Section Invariants.
Context `{Target} {B : Type}.
Implicit Types (self : t B) (c : cfg B) (l : label B).

(** ** Invariants *)

(** The pool is well formed, and every dial in flight holds an index of the
    pool and its generation. *)
Definition pool_ok c : Prop :=
  wf (lb c) ∧
  Forall (λ tk, gen_at_creation (t_guard tk) = generation (lb c) ∧
                guard_index (t_guard tk) < length (backends (lb c))) (tasks c).

(** Every backend ever handed over is in the pool or was shut down, once. *)
Definition conserved c : Prop := backends (lb c) ++ shutdowns (lb c) ≡ₚ owned c.

(** No guard is from the future, and one of the current pool is in range. *)
Definition guards_ok c : Prop :=
  Forall (λ g, (gen_at_creation g ≤ generation (lb c))%Z ∧
               (gen_at_creation g = generation (lb c) → guard_index g < length (backends (lb c))))
    (guards c ++ dropping c).

(** ** Lemmas: the critical section of a dial *)

Lemma select_inv ρ addr self o self' :
  select_backend ρ addr self = (o, self') →
  ∃ d, ((∀ i, o ≠ Ret i) ∧ self' = put_strategy d self) ∨
    ∃ i m a, metrics self !! i = Some m ∧ u32_add (active_connections m) 1 = Ret a ∧
      (((∀ j, o ≠ Ret j) ∧ self' = after i (set_active_connections a m) d self) ∨
       ∃ n, u64_add (total_dials m) 1 = Ret n ∧ o = Ret i ∧
            self' = after i (set_total_dials n (set_active_connections a m)) d self).
Proof.
  unfold select_backend, with_strategy, update_metrics. mrun.
  destruct (pick _ _ _) as [[i|p| |] d]; [|intros; simplify_eq; exists d; left; done..].
  unfold index. destruct (metrics self !! i) as [m|] eqn:Hm;
    [|intros; simplify_eq; exists d; left; done].
  destruct (u32_add _ 1) as [a|p| |] eqn:Ha; [|intros; simplify_eq; exists d; left; done..].
  destruct (u64_add _ 1) as [n|p| |] eqn:Hn; intros; simplify_eq; exists d; right;
    exists i, m, a; (split; [done|]); (split; [done|]).
  2-4: left; split; [done|]; unfold after, put_strategy, set_metrics; cbn;
       by rewrite (alter_lookup _ _ _ _ Hm).
  right. exists n. split; [done|]. split; [done|].
  unfold after, put_strategy, set_metrics; cbn. do 2 f_equal.
  rewrite (alter_lookup _ _ _ _ Hm), (alter_lookup _ _ i (set_active_connections a m)).
  - by rewrite list_insert_insert_eq.
  - rewrite list_lookup_insert_eq; [done|]. by eapply lookup_lt_Some.
Qed.

Lemma select_keeps ρ addr self o self' :
  wf self → select_backend ρ addr self = (o, self') →
  wf self' ∧ same_pool self self' ∧ ∀ i, o = Ret i → i < length (backends self).
Proof.
  intros Hwf E. destruct (select_inv _ _ _ _ _ E) as (d & [[Hn ->]|(i & m & a & Hm & Ha & Hc)]).
  { split_and!; try done. intros i ->. by destruct (Hn i). }
  destruct (wf_metrics _ _ _ Hwf Hm) as (? & ? & ? & ? & ?).
  assert (0 ≤ a ≤ u32_MAX)%Z by (eapply fit_range; [| |exact Ha]; unfold u32_MAX in *; lia).
  assert (i < length (backends self))
    by (destruct Hwf as (_ & <- & _); by eapply lookup_lt_Some).
  destruct Hc as [[Hn ->]|(n & Hn & -> & ->)].
  - split_and!; try done; [|intros j ->; by destruct (Hn j)]. apply wf_after; [done|]. repeat split; cbn; done || lia.
  - assert (0 ≤ n ≤ u64_MAX)%Z by (eapply fit_range; [| |exact Hn]; unfold u64_MAX in *; lia).
    split_and!; try done; [|by intros j [= <-]]. apply wf_after; [done|]. repeat split; cbn; done || lia.
Qed.

(** ** Lemmas: the other updates *)

Lemma wf_alter f i self :
  (∀ m, TunnelMetrics_wf m → TunnelMetrics_wf (f m)) → wf self →
  wf (set_metrics (alter f i (metrics self)) self).
Proof.
  intros Hf (? & ? & Hm & ?). unfold wf; cbn. rewrite length_alter. split; [done|]. split; [done|]. split; [|done].
  apply Forall_alter; auto.
Qed.

Lemma reset_wf m : TunnelMetrics_wf m → TunnelMetrics_wf (set_recent_errors 0 m).
Proof. intros (? & ? & ? & ? & ?). repeat split; cbn; done || lia. Qed.

Lemma drain_wf m : TunnelMetrics_wf m → TunnelMetrics_wf (set_recent_errors u32_MAX m).
Proof. intros (? & ? & ? & ? & ?). repeat split; cbn; done || lia. Qed.

Lemma count_error_wf m : TunnelMetrics_wf m → TunnelMetrics_wf (count_error m).
Proof.
  intros (? & ? & ? & ? & ?).
  repeat split; cbn; unfold saturating_add, saturating_sub; done || lia.
Qed.

Lemma release_wf m : TunnelMetrics_wf m → TunnelMetrics_wf (release m).
Proof. intros (? & ? & ? & ? & ?). repeat split; cbn; unfold saturating_sub; done || lia. Qed.

Hint Resolve reset_wf drain_wf count_error_wf release_wf : rota.

Lemma wf_app b (id : option string) self :
  wf self →
  wf {| backends := backends self ++ [b]; ids := ids self ++ [id];
        metrics := metrics self ++ [TunnelMetrics_default]; strategy := strategy self;
        generation := generation self; dial_timeout := dial_timeout self;
        retry_policy := retry_policy self; shutdowns := shutdowns self |}.
Proof.
  intros (? & ? & ? & ?). unfold wf; cbn. rewrite !length_app; cbn.
  split; [lia|]. split; [lia|]. split; [|done].
  apply Forall_app_2; [done|]. repeat constructor; cbn; done.
Qed.

(** What a call that keeps the pool's entries does. *)
Definition grows op self self' : Prop :=
  wf self' ∧ generation self' = generation self ∧ shutdowns self' = shutdowns self ∧
  backends self' = backends self ++ brought op ∧
  ∀ i m', metrics self' !! i = Some m' →
    (∃ m, metrics self !! i = Some m ∧ active_connections m' = active_connections m) ∨
    (length (backends self) ≤ i ∧ active_connections m' = 0%Z).

(** What one that takes entries out does: nothing, or a new generation. *)
Definition shrinks op self self' : Prop :=
  (self' = self ∧ brought op = []) ∨
  (wf self' ∧ generation self' = ((generation self + 1) mod (usize_MAX + 1))%Z ∧
   backends self' ++ shutdowns self' ≡ₚ (backends self ++ shutdowns self) ++ brought op).

Lemma grows_alter op f i self :
  wf self → brought op = [] → (∀ m, TunnelMetrics_wf m → TunnelMetrics_wf (f m)) →
  (∀ m, active_connections (f m) = active_connections m) →
  grows op self (set_metrics (alter f i (metrics self)) self).
Proof.
  intros Hwf Hb Hf Ha. split_and!; try done; [by apply wf_alter|by cbn; rewrite Hb, app_nil_r|].
  intros j m'. cbn. destruct (decide (i = j)) as [<-|Hne].
  - rewrite list_lookup_alter_eq. intros (m & Hm & ->)%fmap_Some. left. eauto.
  - rewrite list_lookup_alter_ne by done. intros ?. left. eauto.
Qed.

Lemma grows_refl op self : wf self → brought op = [] → grows op self self.
Proof. intros Hwf Hb. split_and!; try done; [by rewrite Hb, app_nil_r|by left; eauto]. Qed.

Lemma grows_push op b id self :
  wf self → brought op = [b] → grows op self (push_backend id b self).2.
Proof.
  intros Hwf Hb. split; [exact (wf_app b id self Hwf)|]. split; [done|]. split; [done|].
  split; [by rewrite Hb|]. cbn.
  intros i m' [Hm'|[Hi Hm']]%lookup_app_Some; [left; eauto|right].
  apply list_lookup_singleton_Some in Hm' as [_ <-]. destruct Hwf as (_ & <- & _). done.
Qed.

Lemma shrinks_remove op i self :
  wf self → brought op = [] → shrinks op self (remove_backend i self).2 ∧
  ∃ b, (remove_backend i self).1 = Ret b.
Proof.
  intros Hwf Hb. destruct (decide (i < length (backends self))) as [Hi|Hi].
  - destruct (remove_backend_ok i self Hwf Hi) as (b & self' & Hlook & E & Hw & Hwf').
    assert (Hg : generation self' = ((generation self + 1) mod (usize_MAX + 1))%Z).
    { apply (f_equal (λ r, generation r.2)) in E. revert E.
      unfold remove_backend, bump_generation, shutdown_backend. mrun. rewrite decide_False by lia.
      unfold vec_remove. destruct Hwf as (Hids & Hms & _).
      destruct (lookup_lt_is_Some_2 (ids self) i) as [d ->]; [lia|].
      destruct (lookup_lt_is_Some_2 (metrics self) i) as [m ->]; [lia|].
      by rewrite Hlook. }
    rewrite E. split; [|by eexists]. right. split; [done|]. split; [done|].
    destruct Hw as (Hbs & _ & _ & _ & Hs & _). cbn. rewrite Hbs, Hs, Hb, app_nil_r.
    rewrite (delete_Permutation (backends self) i b Hlook) at 2.
    by rewrite app_assoc, <-Permutation_cons_append.
  - unfold remove_backend. mrun. rewrite decide_True by lia. cbn. split; [by left|by eexists].
Qed.

Lemma reconfig_effect op self self' :
  wf self → run_reconfig op self = (Ret tt, self') →
  if structural op then shrinks op self self' else grows op self self'.
Proof.
  intros Hwf. destruct op as [b|id b|i|id|bs s|i|i|s]; cbn [run_reconfig structural].
  - intros E. replace self' with (push_backend None b self).2 by (by injection E as <-).
    by apply grows_push.
  - intros E. replace self' with (push_backend (Some id) b self).2 by (by injection E as <-).
    by apply grows_push.
  - destruct (shrinks_remove (RemoveBackend i) i self Hwf eq_refl) as [Hs [b E]].
    unfold mbind, M_bind. destruct (remove_backend i self) as [o s1]. cbn in *. subst o.
    by intros [= <-].
  - unfold remove_backend_by_id. mrun. destruct (position _ _) as [i|]; [|intros [= <-]; by left].
    destruct (shrinks_remove (RemoveBackendById id) i self Hwf eq_refl) as [Hs [b E]].
    destruct (remove_backend i self) as [o s1]. cbn in *. subst o. by intros [= <-].
  - intros E. destruct (decide (bs = [])) as [->|Hbs].
    { injection E as <-. by left. }
    unfold mbind, M_bind in E. rewrite replace_backends_eq in E by done. mrun. simplify_eq.
    right. cbn. split; [|split; [done|]].
    + unfold wf; cbn. rewrite !length_replicate. split; [done|]. split; [done|].
      split; [apply Forall_replicate; by repeat split|]. by apply (generation_moves self).
    + solve_Permutation.
  - unfold drain_backend, update_metrics. mrun. case_decide; mrun; intros [= <-];
      [by apply grows_refl|]. apply grows_alter; auto with rota.
  - unfold undrain_backend, update_metrics. mrun.
    destruct (metrics self !! i) as [m|]; [|intros [= <-]; by apply grows_refl].
    destruct (recent_errors m =? u32_MAX)%Z; mrun; intros [= <-];
      [apply grows_alter; auto with rota|by apply grows_refl].
  - intros [= <-]. split; [exact Hwf|]. cbn. rewrite app_nil_r. split_and!; try done. by left; eauto.
Qed.

Lemma reconfig_wf op self self' : wf self → run_reconfig op self = (Ret tt, self') → wf self'.
Proof.
  intros Hwf E. pose proof (reconfig_effect _ _ _ Hwf E) as He.
  destruct (structural op); [destruct He as [[-> _]|He]; [done|]|]; apply He.
Qed.

(** ** Lemmas: one step *)

Lemma Forall_mid {A} (P : A → Prop) xs x ys :
  Forall P (xs ++ x :: ys) ↔ P x ∧ Forall P (xs ++ ys).
Proof. rewrite !Forall_app, Forall_cons. tauto. Qed.

Lemma with_strategy_inv {A} (m : M dyn_strategy A) o self self' :
  with_strategy m self = (o, self') → ∃ d, self' = put_strategy d self.
Proof.
  unfold with_strategy, zoom. destruct (m (strategy self)) as [o' d]. intros [= _ <-]. eauto.
Qed.

Lemma step_pool_ok c l c' : pool_ok c → step c l c' → pool_ok c'.
Proof.
  unfold pool_ok. intros [Hwf Hts] Hs.
  step_cases Hs; try done.
  - destruct (select_keeps _ _ _ _ _ Hwf E) as (Hwf' & (Hb & _ & Hg & _) & Hi).
    split; [done|]. rewrite Hb, Hg. constructor; [|done]. cbn. by auto.
  - destruct (select_keeps _ _ _ _ _ Hwf E) as (Hwf' & (Hb & _ & Hg & _) & _).
    by rewrite Hb, Hg.
  - injection E as <-. split; [apply wf_alter; auto with rota|].
    cbn. by rewrite !Forall_mid in *.
  - injection E as <-. split; [apply wf_alter; auto with rota|].
    cbn. by rewrite !Forall_mid in *.
  - apply with_strategy_inv in E as [d ->]. cbn. rewrite Forall_mid in Hts. by destruct Hts.
  - apply with_strategy_inv in E as [d ->]. cbn. rewrite Forall_mid in Hts. by destruct Hts.
  - apply with_strategy_inv in E as [d ->]. cbn. rewrite Forall_mid in Hts. by destruct Hts.
  - rewrite Forall_mid in Hts. by destruct Hts.
  - injection E as <-. split; [apply wf_alter; auto with rota|done].
  - split; [|done]. by eapply reconfig_wf.
Qed.

Lemma step_conserved c l c' : wf (lb c) → conserved c → step c l c' → conserved c'.
Proof.
  unfold conserved. intros Hwf Hc Hs.
  step_cases Hs; try done; try (injection E as <-; done);
    try (apply with_strategy_inv in E as [d ->]; done).
  - destruct (select_keeps _ _ _ _ _ Hwf E) as (_ & (-> & _ & _ & _ & _ & ->) & _). done.
  - destruct (select_keeps _ _ _ _ _ Hwf E) as (_ & (-> & _ & _ & _ & _ & ->) & _). done.
  - pose proof (reconfig_effect _ _ _ Hwf E) as He. destruct (structural op).
    + destruct He as [[-> ->]|(_ & _ & ->)]; [by rewrite app_nil_r|by rewrite Hc].
    + destruct He as (_ & _ & -> & -> & _). rewrite <-Hc. solve_Permutation.
Qed.

Lemma step_backends_grow c l c' :
  wf (lb c) → step c l c' → (∀ op, l = Reconfig op → structural op = false) →
  length (backends (lb c)) ≤ length (backends (lb c')).
Proof.
  intros Hwf Hs Hst. step_cases Hs; try done; try (injection E as <-; done);
    try (apply with_strategy_inv in E as [d ->]; done).
  - destruct (select_keeps _ _ _ _ _ Hwf E) as (_ & (-> & _) & _). done.
  - destruct (select_keeps _ _ _ _ _ Hwf E) as (_ & (-> & _) & _). done.
  - pose proof (reconfig_effect _ _ _ Hwf E) as He. rewrite (Hst op eq_refl) in He.
    destruct He as (_ & _ & _ & -> & _). rewrite length_app. lia.
Qed.

(** The generation moves by at most one. *)
Lemma step_generation c l c' :
  wf (lb c) → step c l c' → (generation (lb c') ≤ generation (lb c) + 1)%Z.
Proof.
  intros Hwf Hs.
  step_cases Hs; try lia; try (injection E as <-; cbn; lia);
    try (apply with_strategy_inv in E as [d ->]; cbn; lia).
  - destruct (select_keeps _ _ _ _ _ Hwf E) as (_ & (_ & _ & -> & _) & _). lia.
  - destruct (select_keeps _ _ _ _ _ Hwf E) as (_ & (_ & _ & -> & _) & _). lia.
  - pose proof (reconfig_effect _ _ _ Hwf E) as He. destruct Hwf as (_ & _ & _ & Hg).
    destruct (structural op).
    + destruct He as [[-> _]|(_ & -> & _)]; [lia|]. pose proof usize_MAX_ge_u32.
      unfold u32_MAX in *. apply Z.mod_le; lia.
    + destruct He as (_ & -> & _). lia.
Qed.

Lemma step_guards_ok c l c' :
  pool_ok c → guards_ok c → (generation (lb c) < usize_MAX)%Z → step c l c' → guards_ok c'.
Proof.
  unfold pool_ok, guards_ok. intros [Hwf Hts] Hg Hmax Hs.
  step_cases Hs; try done; try (injection E as <-; done);
    try (apply with_strategy_inv in E as [d ->]; done).
  - destruct (select_keeps _ _ _ _ _ Hwf E) as (_ & (-> & _ & -> & _) & _). done.
  - destruct (select_keeps _ _ _ _ _ Hwf E) as (_ & (-> & _ & -> & _) & _). done.
  - apply with_strategy_inv in E as [d ->]. cbn. constructor; [|done].
    apply Forall_mid in Hts as [[Hgen Hi] _]. cbn in *. split; [lia|done].
  - rewrite <-app_assoc in *. cbn in Hg. by apply Forall_mid in Hg as [_ Hg].
  - rewrite <-app_assoc in Hg. cbn in Hg. apply Forall_mid in Hg as [Hx Hg].
    apply Forall_mid. by rewrite <-app_assoc.
  - injection E as <-. cbn. rewrite app_assoc in *. by apply Forall_mid in Hg as [_ Hg].
  - rewrite app_assoc in *. by apply Forall_mid in Hg as [_ Hg].
  - pose proof (reconfig_effect _ _ _ Hwf E) as He. destruct (structural op).
    + destruct He as [[-> _]|(_ & -> & _)]; [done|]. destruct Hwf as (_ & _ & _ & Hr).
      rewrite Z.mod_small by lia. eapply Forall_impl; [exact Hg|]. cbn. intros g [? _]. lia.
    + destruct He as (_ & -> & _ & -> & _). eapply Forall_impl; [exact Hg|].
      cbn. intros g [? Hi]. split; [done|]. rewrite length_app. intros Heq. specialize (Hi Heq). lia.
Qed.

(** ** Lemmas: runs *)

Fixpoint handed_over (ls : list (label B)) : list B :=
  match ls with
  | [] => []
  | Reconfig op :: ls' => brought op ++ handed_over ls'
  | _ :: ls' => handed_over ls'
  end.

Lemma run_owned c ls c' : run c ls c' → owned c' = owned c ++ handed_over ls.
Proof.
  induction 1 as [c|c l c1 ls c2 Hs _ IH]; [by rewrite app_nil_r|]. rewrite IH.
  step_cases Hs; try done; [by case_decide|by rewrite app_assoc].
Qed.

Lemma run_app c ls c' ls' c'' : run c ls c' → run c' ls' c'' → run c (ls ++ ls') c''.
Proof. induction 1; intros; [done|]. econstructor; eauto. Qed.

Lemma run_pool_ok c ls c' :
  run c ls c' → pool_ok c → conserved c → pool_ok c' ∧ conserved c'.
Proof.
  induction 1 as [c|c l c1 ls c2 Hs _ IH]; intros Hp Hc; [done|].
  apply IH; [by eapply step_pool_ok|]. eapply step_conserved; [apply Hp|done..].
Qed.

Lemma start_pool_ok self : wf self → pool_ok (start self).
Proof. done. Qed.

Lemma start_guards_ok self : guards_ok (start self).
Proof. by constructor. Qed.

(** ** Properties *)

(** C2: every interleaving keeps the pool consistent, for any strategy, lawful
    or not, in both profiles, and with panics and cancellations.  The ids and
    metrics stay in step with the backends, every dial in flight holds an index
    that is in range, and each backend ever handed over is either still in the
    pool or was shut down, exactly once. *)
Theorem runs_keep_the_pool self ls c :
  wf self → shutdowns self = [] → run (start self) ls c →
  wf (lb c) ∧
  (∀ tk, tk ∈ tasks c → guard_index (t_guard tk) < backend_count (lb c)) ∧
  backends (lb c) ++ shutdowns (lb c) ≡ₚ backends self ++ handed_over ls.
Proof.
  intros Hwf Hsd Hrun.
  destruct (run_pool_ok _ _ _ Hrun (start_pool_ok self Hwf)) as [[Hwf' Hts] Hcons].
  { unfold conserved; cbn. by rewrite Hsd, app_nil_r. }
  split; [done|]. split; [|by unfold conserved in Hcons; rewrite Hcons, (run_owned _ _ _ Hrun)].
  intros tk Htk. rewrite Forall_forall in Hts. by destruct (Hts tk Htk).
Qed.

(** [replace_backends] is not cancel-safe.  If its future is dropped while
    an old backend shuts down, the pool is empty but the metrics of the old
    backends remain; adding a backend then leaves the two vectors out of step,
    and a dial that round robin sends to any but the first entry panics. *)
Theorem cancelled_replace_breaks_the_pool {C} self s k b fuel ρ (env : Env B C) addr timeout policy :
  ready 1 self → (Z.of_nat (S (length (backends self))) < usize_MAX)%Z →
  strategy self = Dyn {| RoundRobin.next := s |} →
  s `mod` S (length (backends self)) ≠ 0 →
  validate_dial_addr addr = Ok tt → 0 < fuel →
  ∃ self1 self2, cancelled_replace k self = (Ret tt, self1) ∧
    add_backend b self1 = (Ret 0, self2) ∧
    backends self2 = [b] ∧ length (metrics self2) = S (length (backends self)) ∧
    (dial_with_options fuel ρ env addr timeout policy self2).1 = Panic IndexOutOfBounds.
Proof.
  intros ((_ & Hl & _) & _ & _ & _ & _ & Hroom) Hmax Hs Hmod Hv Hf.
  unfold cancelled_replace, bump_generation. mrun. rewrite shutdown_all_eq. cbn.
  eexists _, _. split; [reflexivity|]. split; [reflexivity|]. cbn. split; [done|].
  split; [rewrite length_app, Hl; cbn; lia|].
  set (self2 := set_metrics _ _). unfold dial_with_options. rewrite Hv. mrun.
  assert (Hlen : length (metrics self2) = S (length (backends self)))
    by (cbn; rewrite length_app, Hl; cbn; lia).
  pose proof (Nat.mod_upper_bound s (S (length (backends self)))) as Hlt.
  remember (s `mod` S (length (backends self))) as j eqn:Hj.
  destruct (lookup_lt_is_Some_2 (metrics self2) j) as [m Hm]; [lia|].
  assert (Hrm : room m).
  { refine (Forall_lookup_1 room (metrics self2) _ _ _ Hm). cbn. apply Forall_app_2; [done|].
    by repeat constructor. }
  pose proof (dyn_round_robin_pick ρ (lb_view addr self2) (strategy self2) s Hs) as Hp.
  destruct (pick ρ (lb_view addr self2) (strategy self2)) as [o d] eqn:Ep.
  unfold PoolView_len in Hp. cbn [lb_view Strategy.metrics] in Hp. rewrite Hlen in Hp.
  cbn [fst] in Hp. rewrite Hp, <-Hj in Ep by lia.
  rewrite decide_False by done. rewrite (select_backend_at _ _ _ _ _ _ Ep Hm Hrm). cbn.
  destruct fuel as [|fuel]; [lia|]. cbn. unfold u32_add. rewrite fit_small by done. cbn.
  unfold index. by destruct j as [|[|j]].
Qed.
End Invariants.

(** ** Concrete runs, on two backends under round robin *)

(** Fire a step whose operation is evaluated for its result only. *)
Ltac fire tac := eapply run_step; [tac; try (apply run_eq; vm_compute; reflexivity); try done|].
Ltac fire_dial := fire ltac:(eapply (step_select (H := dev64)) with (ρ := rng0) (addr := "h:80"%string));
  fire ltac:(eapply (step_ok (H := dev64)) with (ts1 := []));
  fire ltac:(eapply (step_report_ok (H := dev64)) with (ts1 := [])).

(** ** Witnesses *)

Lemma demo_wf : wf (H := dev64) demo.
Proof. apply demo_ready. Qed.

(** A dial to each backend, the first one closed again. *)
Definition demo_trace : list (label nat) :=
  [Select; DialOk; ReportOk; DropCheck; DropWrite; Select; DialErr; ReportErr].

Lemma demo_run : ∃ c, @run dev64 nat (start demo) demo_trace c ∧ length (metrics (lb c)) = 2.
Proof.
  eexists. split.
  - fire_dial. fire ltac:(eapply (step_drop_check (H := dev64)) with (gs1 := [])).
    change DropWrite with (if decide (0%Z = 0%Z) then @DropWrite nat else DropRace).
    fire ltac:(eapply (step_drop_write (H := dev64)) with (ds1 := []) (ds2 := [])).
    fire ltac:(eapply (step_select (H := dev64)) with (ρ := rng0) (addr := "h:80"%string)).
    fire ltac:(eapply (step_err (H := dev64)) with (ts1 := [])).
    fire ltac:(eapply (step_report_err (H := dev64)) with (ts1 := [])). apply run_nil.
  - vm_compute. reflexivity.
Qed.

Lemma demo_len : (generation demo + Z.of_nat (length demo_trace) ≤ @usize_MAX dev64)%Z.
Proof. vm_compute. discriminate. Qed.

Lemma runs_keep_the_pool_witness :
  ∃ c, @run dev64 nat (start demo) demo_trace c ∧ wf (H := dev64) (lb c) ∧
    backends (lb c) ++ shutdowns (lb c) ≡ₚ backends demo ++ handed_over demo_trace.
Proof.
  destruct demo_run as (c & Hc & _). exists c. split; [exact Hc|].
  destruct (runs_keep_the_pool (H := dev64) demo demo_trace c demo_wf eq_refl Hc) as (Hw & _ & Hp).
  by split.
Defined.

Definition demo_at_1 : t nat := put_strategy (@Dyn _ (@RoundRobin_strategy dev64) {| RoundRobin.next := 1 |}) demo.

Lemma demo_at_1_ready : ready (H := dev64) 1 demo_at_1.
Proof.
  destruct demo_ready as (Hw & _ & Hr). split; [exact Hw|]. split; [|exact Hr].
  apply (dyn_safe_intro (H := dev64) (@RoundRobin_laws dev64)). exact I.
Qed.

Lemma cancelled_replace_breaks_the_pool_witness :
  ∃ self1 self2, @cancelled_replace dev64 nat 0 demo_at_1 = (Ret tt, self1) ∧
    add_backend 30 self1 = (Ret 0, self2) ∧
    backends self2 = [30] ∧ length (metrics self2) = 3 ∧
    (@dial_with_options nat nat dev64 3 rng0 demo_env "h:80" None None self2).1 = Panic IndexOutOfBounds.
Proof.
  apply (cancelled_replace_breaks_the_pool (H := dev64) demo_at_1 1 0 30 3 rng0 demo_env "h:80" None None);
    [exact demo_at_1_ready|vm_compute; reflexivity|reflexivity|cbn; lia|reflexivity|lia].
Defined.
