(* ===== verification/Accounting.v ===== *)
(** * What [active_connections] counts

    A guard gives its connection back by index, and a removal or replacement of
    backends moves the indices.  This file follows every dial and connection of
    a run of [Concurrent] to where its backend is now, through all
    reconfigurations, and compares the [active_connections] of each backend
    with the dials in flight and the connections open on it: what holds of
    every run, when the two are equal, and how they come apart. *)

From stdpp Require Import base tactics list numbers strings.
From S2P Require Import Prelude Errors Constants Strategy Float64 Retry Address Balancer.
From S2P Require Import Strategies Registry BalancerFacts BalancerSpec Concurrent.

Open Scope rota_scope.
Import LoadBalancer.

Section Counting.
Context `{Target} {B : Type}.
Implicit Types (self : t B) (c : cfg B) (l : label B).

(** ** Where the backend of a guard is *)

(** The index of the backend a dial or connection belongs to; [None] when that
    backend left the pool.  In the generation of the guard it is the guard's. *)
Definition place : Type := ActiveConnectionGuard → option nat.
Definition at_index : place := λ g, Some (guard_index g).

(** Where the entry at index [i] is after entry [r] was taken out. *)
Definition shift (r i : nat) : option nat :=
  if decide (i = r) then None else Some (if decide (r < i) then i - 1 else i).

(** Where a call leaves each entry. *)
Definition moved (op : reconfig B) self : nat → option nat :=
  match op with
  | RemoveBackend r => if decide (r < length (backends self)) then shift r else Some
  | RemoveBackendById id =>
      match position (λ o, bool_decide (o = Some id)) (ids self) with
      | Some r => shift r
      | None => Some
      end
  | ReplaceBackends bs _ => if decide (bs = []) then Some else λ _, None
  | _ => Some
  end.

(** A reconfiguration moves the backends of all guards that exist by then. *)
Definition follow c l (home : place) : place :=
  match l with
  | Reconfig op =>
      if structural op then λ g,
        if decide (gen_at_creation g ≤ generation (lb c))%Z then home g ≫= moved op (lb c) else home g
      else home
  | _ => home
  end.

(** A run, with the place of the backend of every guard before and after. *)
Inductive tracked : cfg B → place → list (label B) → cfg B → place → Prop :=
| tracked_nil c home : tracked c home [] c home
| tracked_step c home l c' ls c'' home'' :
    step c l c' → tracked c' (follow c l home) ls c'' home'' → tracked c home (l :: ls) c'' home''.

(** ** What is counted *)

Definition occurrences (home : place) (i : nat) (gs : list ActiveConnectionGuard) : Z :=
  Z.of_nat (length (filter (λ g, home g = Some i) gs)).

(** The dials [active_connections] still counts. *)
Definition counted (ts : list task) : list ActiveConnectionGuard :=
  t_guard <$> filter (λ tk, t_phase tk ≠ ReportingErr) ts.

(** Dials in flight and connections open on the backend at index [i], of
    whatever generation. *)
Definition live (home : place) c (i : nat) : Z :=
  (occurrences home i (counted (tasks c)) + occurrences home i (guards c) +
   occurrences home i (dropping c))%Z.

(** Steps that never lose track of a connection. *)
Definition lossless l : bool :=
  match l with
  | SelectPanic | ReportPanic | Cancel | DropSkip | DropContended | DropRace => false
  | Reconfig op => negb (structural op)
  | _ => true
  end.

Definition racy l : bool := match l with DropRace => true | _ => false end.

(** Counters that [n] dials cannot wrap around: overflow is checked, or there is
    room for that many. *)
Definition headroom (n : nat) self : Prop :=
  overflow_checks = true ∨
  (Z.of_nat n ≤ u32_MAX)%Z ∧ Forall (λ m, active_connections m + Z.of_nat n ≤ u32_MAX)%Z (metrics self).

(** The [active_connections] the balancer was built with. *)
Definition seeded self (i : nat) : Z := default 0%Z (active_connections <$> metrics self !! i).

(** ** Invariants *)

(** A guard of the current generation is at its index; the backend of an older
    one is in the pool or gone. *)
Definition homed (home : place) c : Prop :=
  (∀ g, (generation (lb c) ≤ gen_at_creation g)%Z → home g = Some (guard_index g)) ∧
  Forall (λ g, ∀ j, home g = Some j → j < length (backends (lb c))) (guards c ++ dropping c).

Definition covered (home : place) c : Prop :=
  ∀ i m, metrics (lb c) !! i = Some m → (live home c i ≤ active_connections m)%Z.
End Counting.
#[global] Arguments follow {B} c l home : simpl never.
#[global] Arguments counted ts : simpl never.
#[global] Arguments occurrences home i gs : simpl never.

Section Accounting.
Context `{Target} {B : Type}.
Implicit Types (self : t B) (c : cfg B) (l : label B) (home : place).

(** ** Lemmas: counting *)

Lemma occurrences_cons home i x gs :
  occurrences home i (x :: gs) = ((if decide (home x = Some i) then 1 else 0) + occurrences home i gs)%Z.
Proof. unfold occurrences. rewrite filter_cons. case_decide; cbn; lia. Qed.

Lemma occurrences_app home i gs1 gs2 :
  occurrences home i (gs1 ++ gs2) = (occurrences home i gs1 + occurrences home i gs2)%Z.
Proof. unfold occurrences. rewrite filter_app, length_app. lia. Qed.

Lemma occurrences_nonneg home i gs : (0 ≤ occurrences home i gs)%Z.
Proof. unfold occurrences. lia. Qed.

Lemma occurrences_zero home i gs : Forall (λ g, home g ≠ Some i) gs → occurrences home i gs = 0%Z.
Proof.
  induction 1 as [|x gs Hx _ IH]; [done|]. rewrite occurrences_cons, IH. by case_decide.
Qed.

Lemma occurrences_ext home home' i i' gs :
  Forall (λ g, home g = Some i ↔ home' g = Some i') gs → occurrences home i gs = occurrences home' i' gs.
Proof.
  induction 1 as [|x gs Hx _ IH]; [done|]. rewrite !occurrences_cons, IH. repeat case_decide; tauto || lia.
Qed.

Lemma counted_app ts1 ts2 : counted (ts1 ++ ts2) = counted ts1 ++ counted ts2.
Proof. unfold counted. by rewrite filter_app, fmap_app. Qed.
Lemma counted_dialing g ts : counted ({| t_phase := Dialing; t_guard := g |} :: ts) = g :: counted ts.
Proof. done. Qed.
Lemma counted_ok g ts : counted ({| t_phase := ReportingOk; t_guard := g |} :: ts) = g :: counted ts.
Proof. done. Qed.
Lemma counted_err g ts : counted ({| t_phase := ReportingErr; t_guard := g |} :: ts) = counted ts.
Proof. done. Qed.
Lemma counted_some tk ts :
  counted (tk :: ts) = counted ts ∨ counted (tk :: ts) = t_guard tk :: counted ts.
Proof. destruct tk as [[] g]; auto. Qed.

(** *** A guard of the current generation *)

Lemma at_home home c g i :
  homed home c → gen_at_creation g = generation (lb c) →
  (if decide (home g = Some i) then 1 else 0)%Z = (if decide (guard_index g = i) then 1 else 0)%Z.
Proof. intros [Hh _] Hg. rewrite Hh by lia. repeat case_decide; congruence. Qed.

(** *** Metrics *)

Lemma lookup_alter_inv (f : TunnelMetrics → TunnelMetrics) j (ms : list TunnelMetrics) i m' :
  alter f j ms !! i = Some m' →
  ∃ m, ms !! i = Some m ∧ m' = if decide (j = i) then f m else m.
Proof.
  case_decide as Hji; [subst j; rewrite list_lookup_alter_eq|rewrite list_lookup_alter_ne by done].
  - by intros (m & Hm & ->)%fmap_Some; eauto.
  - eauto.
Qed.

Lemma lookup_insert_inv j (m m' mj : TunnelMetrics) (ms : list TunnelMetrics) i :
  ms !! j = Some mj → <[j := m]> ms !! i = Some m' →
  ∃ mi, ms !! i = Some mi ∧ m' = if decide (j = i) then m else mi.
Proof.
  intros Hj. case_decide as Hji; [subst j|rewrite list_lookup_insert_ne by done; eauto].
  rewrite list_lookup_insert_eq by (by eapply lookup_lt_Some). intros [= <-]. eauto.
Qed.

Lemma lookup_delete_inv {A} r (l : list A) j a :
  delete r l !! j = Some a → l !! (if decide (j < r) then j else S j) = Some a.
Proof.
  case_decide; [by rewrite list_lookup_delete_lt|]. by rewrite list_lookup_delete_ge by lia.
Qed.

Lemma headroom_add n self i m a :
  wf self → headroom (S n) self → metrics self !! i = Some m → u32_add (active_connections m) 1 = Ret a →
  a = (active_connections m + 1)%Z.
Proof.
  intros Hwf Hh Hm. destruct (wf_metrics _ _ _ Hwf Hm) as (_ & ? & _). unfold u32_add. destruct Hh as [Hoc|[_ Hr]].
  - unfold fit. rewrite Hoc. case_match; intros; by simplify_eq.
  - pose proof (Forall_lookup_1 _ _ _ _ Hr Hm) as Hx. cbn in Hx. rewrite fit_small by lia. by intros [= <-].
Qed.

(** No counter goes up by more than one in a step. *)
Lemma headroom_next n self self' :
  headroom (S n) self →
  (∀ j m', metrics self' !! j = Some m' → active_connections m' = 0%Z ∨
     ∃ i m, metrics self !! i = Some m ∧ (active_connections m' ≤ active_connections m + 1)%Z) →
  headroom n self'.
Proof.
  intros [Hoc|[Hn Hr]] Hs; [by left|right]. split; [lia|]. apply Forall_lookup. intros j m' Hm'.
  destruct (Hs j m' Hm') as [->|(i & m & Hm & Hle)]; [lia|].
  pose proof (Forall_lookup_1 _ _ _ _ Hr Hm) as Hx. cbn in Hx. lia.
Qed.

(** *** Reconfiguration *)

Lemma shift_from r k j : shift r k = Some j ↔ k = if decide (j < r) then j else S j.
Proof.
  unfold shift. repeat case_decide; split; intros E; try (injection E as E); try done; try lia; f_equal; lia.
Qed.

(** Every entry of the pool comes from one entry, with its counter, or is new. *)
Definition relocates (mv : nat → option nat) self self' : Prop :=
  (∀ j m', metrics self' !! j = Some m' →
     (∃ i m, metrics self !! i = Some m ∧ active_connections m' = active_connections m ∧
        ∀ k, mv k = Some j ↔ k = i) ∨
     (active_connections m' = 0%Z ∧ ∀ k, mv k ≠ Some j)) ∧
  ∀ k j, mv k = Some j → k < length (backends self) → j < length (backends self').

Lemma relocates_refl self : relocates Some self self.
Proof.
  split; [|by intros k j [= <-]]. intros j m Hm. left. exists j, m. split; [done|]. split; [done|].
  intros k. split; congruence.
Qed.

Lemma relocates_remove r self :
  wf self → r < length (backends self) → relocates (shift r) self (remove_backend r self).2.
Proof.
  intros Hwf Hr. destruct (remove_backend_ok r self Hwf Hr) as (b & self' & Hb & E & (Hbs & _ & Hms & _) & _).
  rewrite E. cbn. split.
  - intros j m'. rewrite Hms. intros Hm%lookup_delete_inv. left. eexists _, m'. split; [exact Hm|].
    split; [done|]. intros k. apply (shift_from r k j).
  - intros k j Hk Hlt. apply shift_from in Hk. rewrite Hbs, length_delete by (by eexists).
    case_decide; lia.
Qed.

Lemma reconfig_moves op self self' :
  wf self → structural op = true → run_reconfig op self = (Ret tt, self') →
  relocates (moved op self) self self'.
Proof.
  intros Hwf Hst. destruct op as [| |r|id|bs s| | |]; try done; cbn [run_reconfig moved]; unfold mbind, M_bind.
  - intros E. case_decide as Hr.
    + pose proof (relocates_remove r self Hwf Hr) as Hm. destruct (remove_backend r self) as [[] s1]; mrun; by simplify_eq.
    + unfold remove_backend in E. mrun. rewrite decide_True in E by lia. injection E as <-. apply relocates_refl.
  - unfold remove_backend_by_id. mrun. destruct (position _ (ids self)) as [r|] eqn:Er.
    + destruct (position_Some _ _ _ Er) as (o & Ho%lookup_lt_Some & _).
      assert (Hr : r < length (backends self)) by (destruct Hwf as [<- _]; done).
      pose proof (relocates_remove r self Hwf Hr) as Hm. destruct (remove_backend r self) as [[] s1]; mrun; intros ?; by simplify_eq.
    + intros [= <-]. apply relocates_refl.
  - intros E. case_decide as Hbs; [subst bs; injection E as <-; apply relocates_refl|].
    rewrite replace_backends_eq in E by done. mrun. simplify_eq. split; [|done]. cbn. intros j m' Hm'.
    right. split; [|done]. by apply lookup_replicate in Hm' as [-> _].
Qed.

(** ** Lemmas: one step *)

(** How a step that keeps the entries changes the surplus of
    [active_connections] over the live connections. *)
Definition surplus_step home c l c' i : Prop :=
  ∀ m', metrics (lb c') !! i = Some m' →
    (∃ m, metrics (lb c) !! i = Some m ∧
      (active_connections m - live home c i ≤ active_connections m' - live home c' i)%Z ∧
      (lossless l = true →
        (active_connections m - live home c i = active_connections m' - live home c' i)%Z)) ∨
    (metrics (lb c) !! i = None ∧ live home c' i = 0%Z ∧ active_connections m' = 0%Z).

(** Distribute the counts over the lists. *)
Ltac live_simpl :=
  unfold live in *; cbn in *;
  repeat rewrite ?counted_app, ?counted_dialing, ?counted_ok, ?counted_err, ?occurrences_app,
    ?occurrences_cons in *; cbn in *.
Ltac nonneg home i ls :=
  let go gs := pose proof (occurrences_nonneg home i gs) in
  match ls with (?x, ?y) => nonneg home i x; nonneg home i y | ?x => go x end.

(** A step that rewrites one entry: it is enough to compare the two counts
    entry by entry. *)
Lemma alter_surplus home c l c' j f i :
  metrics (lb c') = alter f j (metrics (lb c)) →
  (∀ m, metrics (lb c) !! i = Some m →
     let m' := if decide (j = i) then f m else m in
     (active_connections m - live home c i ≤ active_connections m' - live home c' i)%Z ∧
     (lossless l = true →
       (active_connections m - live home c i = active_connections m' - live home c' i)%Z)) →
  surplus_step home c l c' i.
Proof.
  intros Hms Hstep m' Hm'. rewrite Hms in Hm'.
  destruct (lookup_alter_inv _ _ _ _ _ Hm') as (m & Hm & ->). left. eauto.
Qed.

(** A step that keeps the metrics. *)
Lemma keep_surplus home c l c' i :
  metrics (lb c') = metrics (lb c) → (live home c' i ≤ live home c i)%Z →
  (lossless l = true → live home c' i = live home c i) → surplus_step home c l c' i.
Proof.
  intros Hms Hle Heq m' Hm'. rewrite Hms in Hm'. left. exists m'. split; [done|].
  split; [lia|]. intros Hl. rewrite (Heq Hl). lia.
Qed.

Lemma select_surplus home n self ts gs ds os ρ addr i0 self' i :
  let c := {| lb := self; tasks := ts; guards := gs; dropping := ds; owned := os |} in
  headroom (S n) self → wf self → homed home c → select_backend ρ addr self = (Ret i0, self') →
  surplus_step home c Select
    {| lb := self'; tasks := {| t_phase := Dialing; t_guard := guard_of i0 self' |} :: ts;
       guards := gs; dropping := ds; owned := os |} i.
Proof.
  intros c Hr Hwf Hh E m' Hm'.
  destruct (select_inv _ _ _ _ _ E) as (d & [[Hn _]|(j & m & a & Hm & Ha & [[Hn _]|(k & _ & [= <-] & ->)])]);
    [by destruct (Hn i0)..|].
  apply (headroom_add n self i0 m) in Ha as ->; [|done..]. cbn in Hm'.
  destruct (lookup_insert_inv _ _ _ _ _ _ Hm Hm') as (mi & Hmi & ->). left. exists mi.
  split; [done|]. unfold c in *. live_simpl. rewrite (at_home home _ _ i Hh) by done. cbn.
  case_decide; cbn; [subst i; simplify_eq|]; lia.
Qed.

Lemma select_panic_surplus home n self ts gs ds os ρ addr p self' i :
  headroom (S n) self → wf self → select_backend ρ addr self = (Panic p, self') →
  surplus_step home {| lb := self; tasks := ts; guards := gs; dropping := ds; owned := os |} SelectPanic
    {| lb := self'; tasks := ts; guards := gs; dropping := ds; owned := os |} i.
Proof.
  intros Hr Hwf E.
  destruct (select_inv _ _ _ _ _ E) as (d & [[_ ->]|(j & m & a & Hm & Ha & [[_ ->]|(k & _ & [=] & _)])]).
  { by apply keep_surplus. }
  intros m' Hm'. cbn in Hm'. destruct (lookup_insert_inv _ _ _ _ _ _ Hm Hm') as (mi & Hmi & ->).
  left. exists mi. split; [done|]. split; [|done]. apply (headroom_add n self j m) in Ha as ->; [|done..].
  unfold live. cbn. case_decide; [subst i; simplify_eq; cbn|]; lia.
Qed.

Lemma grow_surplus home self gs ds os op self' i :
  let c := {| lb := self; tasks := []; guards := gs; dropping := ds; owned := os |} in
  wf self → homed home c → grows op self self' →
  surplus_step home c (Reconfig op)
    {| lb := self'; tasks := []; guards := gs; dropping := ds; owned := os ++ brought op |} i.
Proof.
  intros c Hwf [_ Hg] (_ & _ & _ & _ & Hms) m' Hm'. cbn in Hm'.
  destruct (Hms i m' Hm') as [(m & Hm & Ha)|[Hi Ha]].
  - left. exists m. split; [done|]. unfold live; cbn. rewrite Ha. lia.
  - right. split; [cbn; apply lookup_ge_None_2; by destruct Hwf as (_ & -> & _)|]. split; [|done].
    unfold live; cbn. rewrite <-Z.add_assoc, <-occurrences_app.
    rewrite (occurrences_zero _ _ (gs ++ ds)); [done|]. eapply Forall_impl; [exact Hg|].
    cbn. intros g Hlt Hgi. specialize (Hlt i Hgi). lia.
Qed.

(** Every step but a racing drop and the calls that take entries out. *)
Lemma step_surplus home n c l c' idx :
  headroom (S n) (lb c) → pool_ok c → homed home c → covered home c → step c l c' →
  racy l = false → (∀ op, l = Reconfig op → structural op = false) → surplus_step home c l c' idx.
Proof.
  intros Hoc [Hwf Hts] Hh Hc Hs Hr Hst. step_cases Hs.
  - by eapply select_surplus.
  - by eapply select_panic_surplus.
  - injection E as <-. eapply alter_surplus; [done|]. intros m Hm. live_simpl. repeat case_decide; cbn; lia.
  - injection E as <-. eapply alter_surplus; [done|]. intros m Hm. specialize (Hc idx m Hm).
    apply Forall_mid in Hts as [[Hgen _] _]. live_simpl. rewrite (at_home home _ _ idx Hh) in * by done.
    nonneg home idx (counted ts1, counted ts2, gs, ds).
    case_decide; cbn; unfold saturating_sub; lia.
  - apply with_strategy_inv in E as [d ->]. apply keep_surplus; [done|..]; intros; live_simpl; lia.
  - apply with_strategy_inv in E as [d ->]. apply keep_surplus; [done|..]; intros; live_simpl; lia.
  - apply with_strategy_inv in E as [d ->]. apply keep_surplus; [done| |done].
    destruct ok; live_simpl; [case_decide|]; lia.
  - apply keep_surplus; [done| |done]. live_simpl.
    destruct (counted_some tk ts2) as [-> | ->]; live_simpl; [lia|]. case_decide; lia.
  - apply keep_surplus; [done| |done]. live_simpl. case_decide; lia.
  - apply keep_surplus; [done|..]; intros; live_simpl; lia.
  - case_decide as Hgen; [|done]. injection E as <-. eapply alter_surplus; [done|]. intros m Hm.
    specialize (Hc idx m Hm). live_simpl. rewrite (at_home home _ _ idx Hh) in * by done.
    nonneg home idx (counted ts, gs, ds1, ds2).
    case_decide; cbn; unfold saturating_sub; lia.
  - apply keep_surplus; [done| |done]. live_simpl. case_decide; lia.
  - pose proof (reconfig_effect _ _ _ Hwf E) as He. rewrite (Hst op eq_refl) in He.
    by apply grow_surplus.
Qed.

(** ** Lemmas: the invariants along a step *)

Lemma keep_headroom n self self' : headroom (S n) self → metrics self' = metrics self → headroom n self'.
Proof.
  intros Hr E. apply (headroom_next _ _ _ Hr). intros j m' Hm'. rewrite E in Hm'. right. exists j, m'. split; [done|lia].
Qed.

Lemma alter_headroom n self f i :
  wf self → headroom (S n) self →
  (∀ m, (0 ≤ active_connections m)%Z → active_connections (f m) ≤ active_connections m + 1)%Z →
  headroom n (set_metrics (alter f i (metrics self)) self).
Proof.
  intros Hwf Hr Hf. apply (headroom_next _ _ _ Hr). intros j m' Hm'. cbn in Hm'.
  destruct (lookup_alter_inv _ _ _ _ _ Hm') as (m & Hm & ->). right. exists j, m. split; [done|].
  destruct (wf_metrics _ _ _ Hwf Hm) as (_ & ? & _). case_decide; [apply Hf|]; lia.
Qed.

Lemma select_headroom n self ρ addr o self' :
  wf self → headroom (S n) self → select_backend ρ addr self = (o, self') → headroom n self'.
Proof.
  intros Hwf Hr E.
  destruct (select_inv _ _ _ _ _ E) as (d & [[_ ->]|(x & m & a & Hm & Ha & Hc)]); [by eapply keep_headroom|].
  apply (headroom_add n self x m a Hwf Hr Hm) in Ha as ->. apply (headroom_next _ _ _ Hr). intros j mj Hj. right.
  destruct Hc as [[_ ->]|(k & _ & _ & ->)]; cbn in Hj;
    destruct (lookup_insert_inv _ _ _ _ _ _ Hm Hj) as (mi & Hmi & ->); exists j, mi; (split; [done|]);
    (case_decide; [subst x; simplify_eq; cbn|]; lia).
Qed.

Lemma step_headroom n c l c' : pool_ok c → headroom (S n) (lb c) → step c l c' → headroom n (lb c').
Proof.
  intros [Hwf _] Hr Hs. step_cases Hs; try (by eapply keep_headroom);
    try (apply with_strategy_inv in E as [d ->]; by eapply keep_headroom);
    try (injection E as <-; apply alter_headroom; [done..|]; cbn; unfold saturating_sub; lia).
  1-2: by eapply select_headroom.
  apply (headroom_next _ _ _ Hr). intros j mj Hj. pose proof (reconfig_effect _ _ _ Hwf E) as He.
  destruct (structural op) eqn:Hst.
  - destruct (reconfig_moves _ _ _ Hwf Hst E) as [Hm _].
    destruct (Hm j mj Hj) as [(i & m & Hi & -> & _)|[? _]]; [right; exists i, m; split; [done|lia]|by left].
  - destruct He as (_ & _ & _ & _ & He).
    destruct (He j mj Hj) as [(m & Hm & ->)|[_ ?]]; [right; exists j, m; split; [done|lia]|by left].
Qed.

(** A call that takes entries out moves the generation, or does nothing. *)
Lemma moved_or_bumped op self self' :
  wf self → structural op = true → run_reconfig op self = (Ret tt, self') →
  moved op self = Some ∨ generation self' ≠ generation self.
Proof.
  intros Hwf Hst. destruct op as [| |r|id|bs s| | |]; try done; cbn [run_reconfig moved]; unfold mbind, M_bind.
  - case_decide as Hr; [|by left]. destruct (remove_backend_ok r self Hwf Hr) as (b & s1 & _ & -> & Hw & _).
    mrun. intros [= <-]. right. apply Hw.
  - unfold remove_backend_by_id. mrun. destruct (position _ (ids self)) as [r|] eqn:Er; [|by left].
    destruct (position_Some _ _ _ Er) as (o & Ho%lookup_lt_Some & _).
    destruct (remove_backend_ok r self Hwf) as (b & s1 & _ & -> & Hw & _); [by destruct Hwf as [<- _]|].
    intros [= <-]. right. apply Hw.
  - case_decide as Hbs; [by left|]. rewrite replace_backends_eq by done. mrun. intros ?. simplify_eq. right.
    by apply (generation_moves self).
Qed.

Lemma Forall_mid_app {A} (P : A → Prop) xs x ys zs :
  Forall P ((xs ++ x :: ys) ++ zs) ↔ P x ∧ Forall P ((xs ++ ys) ++ zs).
Proof. rewrite <-!app_assoc. cbn. apply Forall_mid. Qed.
Lemma Forall_app_mid {A} (P : A → Prop) xs x ys zs :
  Forall P (zs ++ xs ++ x :: ys) ↔ P x ∧ Forall P (zs ++ xs ++ ys).
Proof. rewrite !app_assoc. apply Forall_mid. Qed.

Lemma homed_same home c c' :
  homed home c → generation (lb c') = generation (lb c) →
  length (backends (lb c)) ≤ length (backends (lb c')) →
  Forall (λ g, g ∈ guards c ++ dropping c) (guards c' ++ dropping c') → homed home c'.
Proof.
  intros [Hh Hg] Hgen Hle Hin. split; [by rewrite Hgen|]. rewrite Forall_forall in Hg.
  eapply Forall_impl; [exact Hin|]. cbn. intros g Hgin j Hj. specialize (Hg g Hgin j Hj). lia.
Qed.

Lemma structural_homed home self gs ds os op self' :
  let c := {| lb := self; tasks := []; guards := gs; dropping := ds; owned := os |} in
  let c' := {| lb := self'; tasks := []; guards := gs; dropping := ds; owned := os ++ brought op |} in
  wf self → guards_ok c → homed home c → (generation self < usize_MAX)%Z →
  structural op = true → run_reconfig op self = (Ret tt, self') → homed (follow c (Reconfig op) home) c'.
Proof.
  intros c c' Hwf Hok [Hh Hg] Hmax Hst E. pose proof (reconfig_effect _ _ _ Hwf E) as He. rewrite Hst in He.
  destruct (reconfig_moves _ _ _ Hwf Hst E) as [_ Hmv]. unfold follow. rewrite Hst. cbn in *. split.
  - intros g Hle. cbn in Hle. destruct He as [[-> _]|(_ & Hgen & _)].
    + case_decide; [|by apply Hh; lia]. rewrite Hh by lia. cbn.
      destruct (moved_or_bumped _ _ _ Hwf Hst E) as [-> |?]; done.
    + destruct Hwf as (_ & _ & _ & Hr). rewrite Z.mod_small in Hgen by lia.
      rewrite decide_False by lia. apply Hh. lia.
  - cbn. apply Forall_forall. intros g Hin j. unfold guards_ok in Hok. cbn in Hok.
    rewrite Forall_forall in Hok. rewrite Forall_forall in Hg.
    rewrite decide_True by (by apply Hok). intros (k & Hk & Hj)%bind_Some. eapply Hmv; [exact Hj|].
    by eapply Hg.
Qed.

Lemma step_homed home c l c' :
  pool_ok c → guards_ok c → homed home c → (generation (lb c) < usize_MAX)%Z → step c l c' →
  homed (follow c l home) c'.
Proof.
  intros [Hwf Hts] Hok Hh Hmax Hs. step_cases Hs;
    try (by apply (homed_same _ _ _ Hh); [done|done|apply Forall_forall]);
    try (injection E as <-; by apply (homed_same _ _ _ Hh); [done|done|apply Forall_forall]);
    try (apply with_strategy_inv in E as [d ->]; by apply (homed_same _ _ _ Hh); [done|done|apply Forall_forall]).
  1-2: destruct (select_keeps _ _ _ _ _ Hwf E) as (_ & (Hb & _ & Hgen & _) & _);
    by apply (homed_same _ _ _ Hh); [done|cbn; by rewrite Hb|apply Forall_forall].
  - apply with_strategy_inv in E as [d ->]. apply Forall_mid in Hts as [[Hgen Hi] _]. cbn in *.
    destruct Hh as [Hh Hg]. split; [done|]. cbn in *. constructor; [|done]. rewrite Hh by lia. by intros j [= <-].
  - apply (homed_same _ _ _ Hh); [done|done|]. cbn. apply Forall_forall. intros x. rewrite !elem_of_app, ?elem_of_cons; tauto.
  - apply (homed_same _ _ _ Hh); [done|done|]. cbn. apply Forall_forall. intros x. rewrite !elem_of_app, ?elem_of_cons; tauto.
  - injection E as <-. case_decide; apply (homed_same _ _ _ Hh); try done; cbn; apply Forall_forall; intros x; rewrite !elem_of_app, ?elem_of_cons; tauto.
  - apply (homed_same _ _ _ Hh); [done|done|]. cbn. apply Forall_forall. intros x. rewrite !elem_of_app, ?elem_of_cons; tauto.
  - destruct (structural op) eqn:Hst; [by apply structural_homed|].
    pose proof (reconfig_effect _ _ _ Hwf E) as He. rewrite Hst in He. destruct He as (_ & Hgen & _ & Hb & _).
    unfold follow. rewrite Hst. apply (homed_same _ _ _ Hh); [done|cbn; rewrite Hb, length_app; lia|by apply Forall_forall].
Qed.

(** Through a call that takes entries out, each survivor keeps its counter and
    the connections that are open on it. *)
Lemma structural_covered home self gs ds os op self' :
  let c := {| lb := self; tasks := []; guards := gs; dropping := ds; owned := os |} in
  let c' := {| lb := self'; tasks := []; guards := gs; dropping := ds; owned := os ++ brought op |} in
  wf self → guards_ok c → covered home c → structural op = true → run_reconfig op self = (Ret tt, self') →
  covered (follow c (Reconfig op) home) c'.
Proof.
  intros c c' Hwf Hok Hc Hst E j m' Hm'. cbn in Hm'. destruct (reconfig_moves _ _ _ Hwf Hst E) as [Hmv _].
  assert (Hgs : Forall (λ g, follow c (Reconfig op) home g = (home g ≫= moved op self)) (gs ++ ds)).
  { eapply Forall_impl; [exact Hok|]. cbn. intros g [Hle _]. unfold follow. rewrite Hst. by rewrite decide_True. }
  assert (Hsum : ∀ h i, live h c' i = occurrences h i (gs ++ ds)).
  { intros h i. unfold live. cbn. rewrite occurrences_app. done. }
  destruct (Hmv j m' Hm') as [(i & m & Hm & -> & Hk)|[-> Hk]].
  - specialize (Hc i m Hm). etransitivity; [|exact Hc]. change (live home c i) with (live home c' i).
    rewrite !Hsum. apply Z.eq_le_incl, occurrences_ext. eapply Forall_impl; [exact Hgs|]. cbn. intros g ->.
    rewrite bind_Some. setoid_rewrite Hk. split; [by intros (x & ? & ->)|by eauto].
  - rewrite Hsum, occurrences_zero; [done|]. eapply Forall_impl; [exact Hgs|]. cbn. intros g ->.
    intros (x & _ & Hx)%bind_Some. by apply (Hk x).
Qed.

Lemma step_covered home n c l c' :
  headroom (S n) (lb c) → pool_ok c → guards_ok c → homed home c → covered home c → step c l c' →
  racy l = false → covered (follow c l home) c'.
Proof.
  intros Hoc Hp Hok Hh Hc Hs Hr.
  assert (Hcase : (∀ op, l = Reconfig op → structural op = false) ∨
                  ∃ op, l = Reconfig op ∧ structural op = true).
  { destruct l; try (left; by intros ? [=]). destruct (structural op) eqn:?; [right; by eauto|].
    left. by intros ? [= <-]. }
  destruct Hcase as [Hst|(op & -> & Hst)].
  - assert (follow c l home = home) as ->.
    { destruct l; try done. unfold follow. by rewrite (Hst op eq_refl). }
    intros idx m' Hm'.
    destruct (step_surplus home n c l c' idx Hoc Hp Hh Hc Hs Hr Hst m' Hm') as [(m & Hm & Hle & _)|(_ & -> & ->)];
      [|done]. specialize (Hc idx m Hm). lia.
  - inversion Hs as [| | | | | | | | | |????????? E El | |self gs ds os op' self' E]; subst; [by case_decide|].
    by apply structural_covered; [apply Hp|..].
Qed.

(** ** Lemmas: runs *)

Definition sound home (n : nat) c : Prop :=
  headroom n (lb c) ∧ pool_ok c ∧ guards_ok c ∧ homed home c ∧ covered home c.

Lemma step_sound home n c l c' :
  sound home (S n) c → (generation (lb c) < usize_MAX)%Z → step c l c' → racy l = false →
  sound (follow c l home) n c'.
Proof.
  intros (Hr & Hp & Hg & Hh & Hc) Hmax Hs Hl. split_and!.
  - by eapply step_headroom.
  - by eapply step_pool_ok.
  - by eapply step_guards_ok.
  - by eapply step_homed.
  - by eapply step_covered.
Qed.

(** The invariants hold as long as the generation does not wrap around. *)
Lemma tracked_sound c home ls c' home' n :
  tracked c home ls c' home' → Forall (λ l, racy l = false) ls →
  (generation (lb c) + Z.of_nat (length ls) ≤ usize_MAX)%Z →
  sound home (length ls + n) c → sound home' n c'.
Proof.
  induction 1 as [c home|c home l c1 ls c2 home2 Hs _ IH]; intros Hr Hlen Hok; [done|].
  apply Forall_cons in Hr as [Hr1 Hr]. cbn in Hlen, Hok.
  pose proof (step_generation _ _ _ (proj1 (proj1 (proj2 Hok))) Hs).
  apply IH; [done|lia|]. by apply step_sound; [|lia|..].
Qed.

Lemma start_sound n self : wf self → headroom n self → sound at_index n (start self).
Proof.
  intros Hwf Hr. split_and!; try done; [by constructor|]. intros i m Hm.
  destruct (wf_metrics _ _ _ Hwf Hm) as (_ & ? & _). change (live at_index (start self) i) with 0%Z. lia.
Qed.

(** Every run can be tracked; one that keeps all entries moves nothing. *)
Lemma run_tracked c ls c' home : run c ls c' → ∃ home', tracked c home ls c' home'.
Proof.
  intros Hrun. revert home. induction Hrun as [c|c l c1 ls c2 Hs _ IH]; intros home.
  - exists home. constructor.
  - destruct (IH (follow c l home)) as [home' Ht]. exists home'. by econstructor.
Qed.

Definition keeps_entries l : Prop := ∀ op, l = Reconfig op → structural op = false.

Lemma follow_kept c l home : keeps_entries l → follow c l home = home.
Proof. intros Hk. destruct l; try done. unfold follow. by rewrite (Hk op eq_refl). Qed.

(** Without calls that take entries out, entries stay and surplus never shrinks. *)
Lemma run_surplus home n c ls c' i m m' :
  run c ls c' → Forall (λ l, racy l = false ∧ keeps_entries l) ls →
  (generation (lb c) + Z.of_nat (length ls) ≤ usize_MAX)%Z → sound home (length ls + n) c →
  metrics (lb c) !! i = Some m → metrics (lb c') !! i = Some m' →
  (active_connections m - live home c i ≤ active_connections m' - live home c' i)%Z.
Proof.
  intros Hrun. revert m. induction Hrun as [c|c l c1 ls c2 Hs _ IH];
    intros m Hl Hlen Hok Hm Hm'; [simplify_eq; lia|].
  apply Forall_cons in Hl as [[Hr1 Hst] Hl]. cbn in Hlen, Hok. pose proof Hok as (Hh & Hp & _ & Hhm & Hc).
  pose proof (step_generation _ _ _ (proj1 Hp) Hs).
  assert (Hok1 : sound home (length ls + n) c1).
  { rewrite <-(follow_kept c l home Hst). by apply step_sound; [|lia|..]. }
  assert (Hlt : i < length (metrics (lb c1))).
  { pose proof (step_backends_grow _ _ _ (proj1 Hp) Hs Hst).
    destruct Hp as [(_ & Hlc & _) _], Hok1 as (_ & [(_ & -> & _) _] & _). apply lookup_lt_Some in Hm. lia. }
  destruct (lookup_lt_is_Some_2 _ _ Hlt) as [m1 Hm1].
  destruct (step_surplus home _ c l c1 i Hh Hp Hhm Hc Hs Hr1 Hst m1 Hm1)
    as [(m0 & Hm0 & Hle & _)|(Hnone & _)]; [|congruence].
  simplify_eq. etransitivity; [exact Hle|]. apply (IH m1); [done|lia|done..].
Qed.

Lemma lossless_kept l : lossless l = true → racy l = false ∧ keeps_entries l.
Proof. intros Hl. destruct l; try done; (split; [done|]); intros op' [= ->]. cbn in Hl. by destruct (structural op'). Qed.

(** Lossless steps keep the difference to what the balancer was built with. *)
Lemma run_exact self n c ls c' :
  run c ls c' → Forall (λ l, lossless l = true) ls →
  (generation (lb c) + Z.of_nat (length ls) ≤ usize_MAX)%Z → sound at_index (length ls + n) c →
  length (metrics self) ≤ length (metrics (lb c)) →
  (∀ i m, metrics (lb c) !! i = Some m → active_connections m = (seeded self i + live at_index c i)%Z) →
  ∀ i m, metrics (lb c') !! i = Some m → active_connections m = (seeded self i + live at_index c' i)%Z.
Proof.
  induction 1 as [c|c l c1 ls c2 Hs _ IH]; intros Hl Hlen Hok Hgrow He; [done|].
  apply Forall_cons in Hl as [Hl1 Hl]. cbn in Hlen, Hok. pose proof Hok as (Hh & Hp & _ & Hhm & Hc).
  destruct (lossless_kept l Hl1) as [Hr1 Hst]. pose proof (step_generation _ _ _ (proj1 Hp) Hs).
  assert (Hok1 : sound at_index (length ls + n) c1).
  { rewrite <-(follow_kept c l at_index Hst). by apply step_sound; [|lia|..]. }
  apply IH; [done|lia|done| |].
  - pose proof (step_backends_grow _ _ _ (proj1 Hp) Hs Hst).
    destruct Hp as [(_ & Hlc & _) _], Hok1 as (_ & [(_ & Hlc1 & _) _] & _). lia.
  - intros i m' Hm'. destruct (step_surplus at_index _ c l c1 i Hh Hp Hhm Hc Hs Hr1 Hst m' Hm')
      as [(m & Hm & _ & Heq)|(Hnone & -> & ->)].
    + specialize (Heq Hl1). rewrite (He i m Hm) in Heq. lia.
    + unfold seeded. apply lookup_ge_None_1 in Hnone. by rewrite lookup_ge_None_2 by lia.
Qed.

(** ** Properties *)

(** C5: [active_connections] never undercounts.  In any run without a racing
    drop (and with fewer steps than generations), whatever was cancelled,
    panicked, contended, removed or replaced on the way, each backend's counter
    is at least the dials in flight and the connections open on that backend:
    also those that were opened before other backends left the pool and whose
    guards are stale.  With overflow checks; without them as long as the steps
    cannot wrap a counter around. *)
Theorem active_covers_live self ls c home i m :
  wf self → headroom (length ls) self → tracked (start self) at_index ls c home →
  Forall (λ l, racy l = false) ls → (generation self + Z.of_nat (length ls) ≤ usize_MAX)%Z →
  metrics (lb c) !! i = Some m → (live home c i ≤ active_connections m)%Z.
Proof.
  intros Hwf Hh Ht Hr Hlen. destruct (tracked_sound _ _ _ _ _ 0 Ht Hr Hlen) as (_ & _ & _ & _ & Hc).
  { rewrite Nat.add_0_r. by apply start_sound. }
  apply Hc.
Qed.

(** C6: without losses [active_connections] is exact.  If no dial is cancelled
    or panics, no drop finds the lock taken, and no backend is removed or
    replaced, the counter of every backend is what it was built with (zero,
    unless the caller gave other initial metrics) plus the dials in flight and
    connections open on it; once all are closed it is what it was built with.
    With overflow checks; without them as long as the steps cannot wrap a
    counter around. *)
Theorem active_is_exact self ls c i m :
  wf self → headroom (length ls) self → run (start self) ls c → Forall (λ l, lossless l = true) ls →
  (generation self + Z.of_nat (length ls) ≤ usize_MAX)%Z → metrics (lb c) !! i = Some m →
  active_connections m = (seeded self i + live at_index c i)%Z ∧
  (tasks c = [] → guards c = [] → dropping c = [] → active_connections m = seeded self i).
Proof.
  intros Hwf Hh Hrun Hl Hlen Hm.
  assert (Heq : active_connections m = (seeded self i + live at_index c i)%Z).
  { apply (run_exact self 0 (start self) ls c Hrun Hl Hlen); [rewrite Nat.add_0_r; by apply start_sound|done| |done].
    intros j mj Hj. cbn in Hj. unfold seeded. rewrite Hj. cbn. change (live at_index (start self) j) with 0%Z. lia. }
  split; [done|]. intros Ht Hg Hd. rewrite Heq.
  assert (live at_index c i = 0%Z) as -> by (unfold live; by rewrite Ht, Hg, Hd). lia.
Qed.

(** C12: an inflated counter does not converge.  From any state of a run, as long
    as no backend is removed or replaced and no drop races, the surplus of a
    backend's counter over the dials and connections on it never shrinks, whatever
    else happens.  With overflow checks; without them as long as the steps cannot
    wrap a counter around. *)
Theorem surplus_never_shrinks self ls c home ls' c' i m m' :
  wf self → headroom (length ls + length ls') self →
  tracked (start self) at_index ls c home → run c ls' c' →
  Forall (λ l, racy l = false) ls → Forall (λ l, racy l = false ∧ keeps_entries l) ls' →
  (generation self + Z.of_nat (length ls) ≤ usize_MAX)%Z →
  (generation (lb c) + Z.of_nat (length ls') ≤ usize_MAX)%Z →
  metrics (lb c) !! i = Some m → metrics (lb c') !! i = Some m' →
  (active_connections m - live home c i ≤ active_connections m' - live home c' i)%Z.
Proof.
  intros Hwf Hh Ht Hrun Hr Hr' Hlen Hlen'. apply (run_surplus home 0 c ls' c' i m m' Hrun Hr' Hlen'). rewrite Nat.add_0_r.
  apply (tracked_sound _ _ _ _ _ _ Ht); [done..|]. by apply start_sound.
Qed.
End Accounting.

(** ** Concrete runs, on two backends under round robin *)

Definition quiet {B} (c : cfg B) : Prop := tasks c = [] ∧ guards c = [] ∧ dropping c = [].

(** A connection that outlives a removal is counted for ever, and so is a
    cancelled dial.  In the first run the pool loses another backend while a
    connection is open, and the guard then skips its decrement; in the second
    the caller drops the dial future.  Either way a backend without any dial or
    connection is left with a counter of one. *)
Theorem removal_and_cancellation_leak :
  (∃ c, @run dev64 nat (start demo)
          [Select; DialOk; ReportOk; Reconfig (RemoveBackend 1); DropSkip] c ∧ quiet c ∧
        active_connections <$> metrics (lb c) = [1%Z]) ∧
  (∃ c, @run dev64 nat (start demo) [Select; Cancel] c ∧ quiet c ∧
        active_connections <$> metrics (lb c) = [1; 0]%Z).
Proof.
  split; eexists; split.
  - fire_dial. fire ltac:(eapply (step_reconfig (H := dev64))).
    fire ltac:(eapply (step_drop_skip (H := dev64)) with (gs1 := [])). apply run_nil.
  - split; [done|]. vm_compute. reflexivity.
  - fire ltac:(eapply (step_select (H := dev64)) with (ρ := rng0) (addr := "h:80"%string)).
    fire ltac:(eapply (step_cancel (H := dev64)) with (ts1 := [])). apply run_nil.
  - split; [done|]. vm_compute. reflexivity.
Qed.

(** The generation check races with a removal.  A guard reads the
    generation, a removal shifts the entries, and the guard then decrements the
    entry that now has its index: the backend there is left with an open
    connection and a counter of zero. *)
Theorem racing_drop_undercounts :
  ∃ c g, @run dev64 nat (start demo)
      [Select; DialOk; ReportOk; DropCheck; Reconfig (RemoveBackend 0);
       Select; DialOk; ReportOk; DropRace] c ∧
    guards c = [g] ∧ gen_at_creation g = generation (lb c) ∧ live at_index c (guard_index g) = 1%Z ∧
    active_connections <$> metrics (lb c) !! guard_index g = Some 0%Z.
Proof.
  eexists _, {| guard_index := 0; gen_at_creation := 1 |}. split.
  - fire_dial. fire ltac:(eapply (step_drop_check (H := dev64)) with (gs1 := [])).
    fire ltac:(eapply (step_reconfig (H := dev64))). fire_dial.
    change DropRace with (if decide (1%Z = 0%Z) then @DropWrite nat else DropRace).
    eapply run_step; [|apply run_nil].
    eapply (step_drop_write (H := dev64)) with (ds1 := []) (ds2 := []).
    apply run_eq. vm_compute. reflexivity.
  - split_and!; vm_compute; reflexivity.
Qed.


(** ** Witnesses *)

(** Two connections on two backends; then the first backend is removed, and the
    second one with its connection is at index 0. *)
Ltac track tac := eapply tracked_step; [tac; try (apply run_eq; vm_compute; reflexivity); try done|].
Ltac track_dial := track ltac:(eapply (step_select (H := dev64)) with (ρ := rng0) (addr := "h:80"%string));
  track ltac:(eapply (step_ok (H := dev64)) with (ts1 := []));
  track ltac:(eapply (step_report_ok (H := dev64)) with (ts1 := [])).
Definition shifted_trace : list (label nat) :=
  [Select; DialOk; ReportOk; Select; DialOk; ReportOk; Reconfig (RemoveBackend 0)].

Lemma shifted_run :
  ∃ c home m, tracked (H := dev64) (start demo) at_index shifted_trace c home ∧
    metrics (lb c) !! 0 = Some m ∧ live home c 0 = 1%Z.
Proof.
  eexists _, _, _. split; [|split].
  - track_dial. track_dial. track ltac:(eapply (step_reconfig (H := dev64))). apply tracked_nil.
  - vm_compute. reflexivity.
  - vm_compute. reflexivity.
Qed.

Lemma demo_headroom n : headroom (H := dev64) n demo.
Proof. by left. Qed.

Lemma active_covers_live_witness :
  ∃ c home m, tracked (H := dev64) (start demo) at_index shifted_trace c home ∧
    metrics (lb c) !! 0 = Some m ∧ (1 ≤ active_connections m)%Z.
Proof.
  destruct shifted_run as (c & home & m & Ht & Hm & Hl). exists c, home, m. split; [exact Ht|]. split; [exact Hm|].
  rewrite <-Hl. apply (active_covers_live (H := dev64) demo shifted_trace c home 0 m);
    [exact demo_wf|apply demo_headroom|exact Ht|by repeat constructor|vm_compute; discriminate|exact Hm].
Defined.

Lemma active_is_exact_witness :
  ∃ c m, @run dev64 nat (start demo) demo_trace c ∧ metrics (lb c) !! 1 = Some m ∧
    active_connections m = (seeded demo 1 + live at_index c 1)%Z.
Proof.
  destruct demo_run as (c & Hc & Hl).
  destruct (lookup_lt_is_Some_2 (metrics (lb c)) 1) as [m Hm]; [lia|].
  exists c, m. split; [exact Hc|]. split; [exact Hm|].
  apply (active_is_exact (H := dev64) demo demo_trace c 1 m);
    [exact demo_wf|apply demo_headroom|exact Hc|by repeat constructor|exact demo_len|exact Hm].
Defined.

Lemma surplus_never_shrinks_witness :
  ∃ c m m', @run dev64 nat (start demo) demo_trace c ∧
    metrics demo !! 0 = Some m ∧ metrics (lb c) !! 0 = Some m' ∧
    (active_connections m - live at_index (start demo) 0 ≤ active_connections m' - live at_index c 0)%Z.
Proof.
  destruct demo_run as (c & Hc & Hl).
  destruct (lookup_lt_is_Some_2 (metrics (lb c)) 0) as [m' Hm']; [lia|].
  exists c, TunnelMetrics_default, m'. split; [exact Hc|]. split; [done|]. split; [exact Hm'|].
  apply (surplus_never_shrinks (H := dev64) demo [] (start demo) at_index demo_trace c 0 TunnelMetrics_default m');
    [exact demo_wf|apply demo_headroom|apply tracked_nil|exact Hc|constructor| |vm_compute; discriminate|
     exact demo_len|done|exact Hm'].
  repeat constructor; intros op [=].
Defined.
