(* ===== verification/Statements.v ===== *)
(** * The balancer, statement by statement

    [Concurrent] takes each critical section of [LoadBalancer] as one step.
    Here the methods run statement by statement: a dial requests and releases
    the metrics' and the strategy's lock, writes one counter at a time, reads
    the generation after the locks are free, and can be dropped at each await
    or unwind from a panic in between; a guard's drop reads the generation,
    tries the lock, writes and releases; a reconfiguration moves the generation
    before it asks for the metrics' lock.  Calls interleave between any two
    statements that touch what they share.

    Every run of this system is a run of [Concurrent]: the locks make the
    sections atomic.  A dial takes effect with the last write of its section, a
    report with its lock, and a reconfiguration with its write of the metrics;
    a drop that sees the generation of a reconfiguration that is not there yet
    is a drop after it. *)

From stdpp Require Import base tactics list numbers strings relations.
From S2P Require Import Prelude Errors Constants Strategy Float64 Retry Address Balancer.
From S2P Require Import BalancerFacts BalancerSpec Strategies Concurrent.

Open Scope rota_scope.
Import LoadBalancer.

(** ** Statements *)

Section System.
Context `{Target} {B : Type}.
Implicit Types self : t B.

(** [metrics[idx].active_connections += 1] and [metrics[idx].total_dials += 1]. *)
Definition count_in (i : nat) : M (t B) unit :=
  self ← get;
  m ← lift (index (metrics self) i);
  active ← lift (u32_add (active_connections m) 1);
  update_metrics i (set_active_connections active).
Definition count_dial (i : nat) : M (t B) unit :=
  self ← get;
  m ← lift (index (metrics self) i);
  dials ← lift (u64_add (total_dials m) 1);
  update_metrics i (set_total_dials dials).

(** The writes of [handle_dial_success] and [handle_dial_error]. *)
Definition writes (ok : bool) : list (TunnelMetrics → TunnelMetrics) :=
  if ok then [set_recent_errors 0]
  else
    [λ m, set_active_connections (saturating_sub (active_connections m) 1) m;
     λ m, set_total_errors (saturating_add u64_MAX (total_errors m) 1) m;
     λ m, set_recent_errors (saturating_add u32_MAX (recent_errors m) 1) m].
Definition write (i : nat) (w : TunnelMetrics → TunnelMetrics) self : t B :=
  set_metrics (alter w i (metrics self)) self.
Definition tell (ok : bool) (i : nat) : M (t B) unit :=
  with_strategy (if ok then report_success i else report_error i).

(** Where a dial is. *)
Inductive pc :=
| Entered (ρ : Rng) (addr : string)         (** checks done; waits for the metrics *)
| MetricsHeld (ρ : Rng) (addr : string)     (** waits for the strategy *)
| BothHeld (ρ : Rng) (addr : string)        (** about to pick *)
| Picked (i : nat)                          (** about to count the connection *)
| CountedIn (i : nat)                       (** about to count the dial *)
| Selected (i : nat)                        (** about to release both *)
| Unlocked (i : nat)                        (** about to read the generation *)
| Waiting (g : ActiveConnectionGuard)       (** for the backend *)
| Answered (g : ActiveConnectionGuard) (ok : bool)
| Updating (g : ActiveConnectionGuard) (ok : bool) (ws : list (TunnelMetrics → TunnelMetrics))
| Reporting (g : ActiveConnectionGuard) (ok : bool)
| StrategyHeld (g : ActiveConnectionGuard) (ok : bool)
| Reported (g : ActiveConnectionGuard) (ok : bool).

Definition has_metrics (x : pc) : bool :=
  match x with
  | MetricsHeld _ _ | BothHeld _ _ | Picked _ | CountedIn _ | Selected _ | Updating _ _ _ => true
  | _ => false
  end.
Definition has_strategy (x : pc) : bool :=
  match x with
  | BothHeld _ _ | Picked _ | CountedIn _ | Selected _ | StrategyHeld _ _ | Reported _ _ => true
  | _ => false
  end.
(** Where its future can be dropped. *)
Definition at_await (x : pc) : bool :=
  match x with
  | Entered _ _ | MetricsHeld _ _ | Waiting _ | Answered _ _ | Reporting _ _ => true
  | _ => false
  end.

(** Where the drop of a guard is, past the check of the generation. *)
Inductive dropping_pc :=
| Trying (g : ActiveConnectionGuard)
| Holding (g : ActiveConnectionGuard)
| Written.
Definition drop_has_metrics (d : dropping_pc) : bool := match d with Trying _ => false | _ => true end.

(** *** Reconfiguration *)

(** What a call with [&mut self] has to do once it looked at the pool. *)
Inductive job :=
| JNothing
| JPush (id : option string) (b : B)
| JRemove (i : nat) (b : B)
| JReplace (bs : list B) (s : option dyn_strategy)
| JDrain (i : nat)
| JUndrain (i : nat)
| JStrategy (s : dyn_strategy).

Definition remove_job (i : nat) self : job :=
  match backends self !! i with Some b => JRemove i b | None => JNothing end.
Definition resolve (op : reconfig B) self : job :=
  match op with
  | AddBackend b => JPush None b
  | AddBackendWithId id b => JPush (Some id) b
  | RemoveBackend i => remove_job i self
  | RemoveBackendById id =>
      match position (λ i, bool_decide (i = Some id)) (ids self) with
      | Some i => remove_job i self
      | None => JNothing
      end
  | ReplaceBackends bs s => if decide (length bs = 0) then JNothing else JReplace bs s
  | DrainBackend i => if decide (length (backends self) ≤ i) then JNothing else JDrain i
  | UndrainBackend i => JUndrain i
  | SetStrategy s => JStrategy s
  end.

Definition bumped self : t B := set_generation ((generation self + 1) mod (usize_MAX + 1))%Z self.
Definition shut (bs : list B) self : t B :=
  {| backends := backends self; ids := ids self; metrics := metrics self; strategy := strategy self;
     generation := generation self; dial_timeout := dial_timeout self;
     retry_policy := retry_policy self; shutdowns := shutdowns self ++ bs |}.

(** Before it asks for the metrics' lock: the generation moves first. *)
Definition prepare (j : job) self : t B :=
  match j with
  | JRemove i _ => set_ids (delete i (ids self)) (set_backends (delete i (backends self)) (bumped self))
  | JReplace bs _ =>
      set_ids (replicate (length bs) None) (shut (backends self) (set_backends [] (bumped self)))
  | _ => self
  end.
(** With the lock held. *)
Definition apply_metrics (j : job) self : t B :=
  match j with
  | JPush id b =>
      set_metrics (metrics self ++ [TunnelMetrics_default])
        (set_ids (ids self ++ [id]) (set_backends (backends self ++ [b]) self))
  | JRemove i _ => set_metrics (delete i (metrics self)) self
  | JReplace bs _ => set_metrics (replicate (length bs) TunnelMetrics_default) self
  | JDrain i => write i (set_recent_errors u32_MAX) self
  | JUndrain i => write i (λ m, if (recent_errors m =? u32_MAX)%Z then set_recent_errors 0 m else m) self
  | _ => self
  end.
(** After it was released. *)
Definition conclude (j : job) self : t B :=
  match j with
  | JRemove _ b => shut [b] self
  | JReplace bs s =>
      let self' := set_backends bs self in
      match s with Some s => put_strategy s self' | None => self' end
  | JStrategy s => put_strategy s self
  | _ => self
  end.
Definition takes_metrics (j : job) : bool :=
  match j with JNothing | JStrategy _ => false | _ => true end.

Inductive admin :=
| NoAdmin
| Prepared (op : reconfig B) (j : job)      (** waits for the metrics *)
| Locked (op : reconfig B) (j : job)        (** holds them *)
| Applied (op : reconfig B) (j : job).      (** released them *)

(** ** The system *)

Record sys := {
  shared : t B;
  calls : list pc;
  conns : list ActiveConnectionGuard;
  drops : list dropping_pc;
  borrower : admin;
  given : list B
}.

Definition boot self : sys :=
  {| shared := self; calls := []; conns := []; drops := []; borrower := NoAdmin; given := backends self |}.

Definition locked_by_admin (a : admin) : bool := match a with Locked _ _ => true | _ => false end.
Definition metrics_free (cs : list pc) (ds : list dropping_pc) (a : admin) : Prop :=
  Forall (λ x, has_metrics x = false) cs ∧ Forall (λ d, drop_has_metrics d = false) ds ∧
  locked_by_admin a = false.
Definition strategy_free (cs : list pc) : Prop := Forall (λ x, has_strategy x = false) cs.

(** A statement of a dial: what it does to the shared state, and the dial's
    next place, if it goes on. *)
Inductive statement (cs : list pc) (ds : list dropping_pc) : pc → t B → option pc → t B → Prop :=
| st_lock_metrics ρ addr self :
    metrics_free cs ds NoAdmin → statement cs ds (Entered ρ addr) self (Some (MetricsHeld ρ addr)) self
| st_lock_strategy ρ addr self :
    strategy_free cs → statement cs ds (MetricsHeld ρ addr) self (Some (BothHeld ρ addr)) self
| st_pick ρ addr self i self' :
    with_strategy (pick ρ {| dial_addr := addr; Strategy.metrics := metrics self |}) self = (Ret i, self') →
    statement cs ds (BothHeld ρ addr) self (Some (Picked i)) self'
| st_pick_panic ρ addr self p self' :
    with_strategy (pick ρ {| dial_addr := addr; Strategy.metrics := metrics self |}) self = (Panic p, self') →
    statement cs ds (BothHeld ρ addr) self None self'
| st_count_in i self self' :
    count_in i self = (Ret tt, self') → statement cs ds (Picked i) self (Some (CountedIn i)) self'
| st_count_in_panic i self p self' :
    count_in i self = (Panic p, self') → statement cs ds (Picked i) self None self'
| st_count_dial i self self' :
    count_dial i self = (Ret tt, self') → statement cs ds (CountedIn i) self (Some (Selected i)) self'
| st_count_dial_panic i self p self' :
    count_dial i self = (Panic p, self') → statement cs ds (CountedIn i) self None self'
| st_unlock i self : statement cs ds (Selected i) self (Some (Unlocked i)) self
| st_generation i self : statement cs ds (Unlocked i) self (Some (Waiting (guard_of i self))) self
| st_answer g ok self : statement cs ds (Waiting g) self (Some (Answered g ok)) self
| st_lock_update g ok self :
    metrics_free cs ds NoAdmin → statement cs ds (Answered g ok) self (Some (Updating g ok (writes ok))) self
| st_write g ok w ws self :
    statement cs ds (Updating g ok (w :: ws)) self (Some (Updating g ok ws)) (write (guard_index g) w self)
| st_drop_metrics g ok self : statement cs ds (Updating g ok []) self (Some (Reporting g ok)) self
| st_lock_report g ok self :
    strategy_free cs → statement cs ds (Reporting g ok) self (Some (StrategyHeld g ok)) self
| st_report g ok self self' :
    tell ok (guard_index g) self = (Ret tt, self') →
    statement cs ds (StrategyHeld g ok) self (Some (Reported g ok)) self'
| st_report_panic g ok self p self' :
    tell ok (guard_index g) self = (Panic p, self') → statement cs ds (StrategyHeld g ok) self None self'
(** Dropped at an await; at [Waiting] also unwinding from a panic of the backend
    or of the retry policy. *)
| st_cancel x self : at_await x = true → statement cs ds x self None self.

Inductive advance : sys → sys → Prop :=
| adv_enter ρ addr self cs gs ds os :
    backends self ≠ [] →
    advance {| shared := self; calls := cs; conns := gs; drops := ds; borrower := NoAdmin; given := os |}
      {| shared := self; calls := Entered ρ addr :: cs; conns := gs; drops := ds; borrower := NoAdmin; given := os |}
| adv_call self cs1 x cs2 gs ds os y self' :
    statement (cs1 ++ x :: cs2) ds x self y self' →
    advance {| shared := self; calls := cs1 ++ x :: cs2; conns := gs; drops := ds; borrower := NoAdmin; given := os |}
      {| shared := self'; calls := cs1 ++ option_list y ++ cs2; conns := gs; drops := ds; borrower := NoAdmin; given := os |}
(** The strategy is released and the call returns. *)
| adv_return self cs1 g (ok : bool) cs2 gs ds os :
    advance {| shared := self; calls := cs1 ++ Reported g ok :: cs2; conns := gs; drops := ds; borrower := NoAdmin; given := os |}
      {| shared := self; calls := cs1 ++ cs2; conns := (if ok then [g] else []) ++ gs; drops := ds;
         borrower := NoAdmin; given := os |}
(** The drop of a guard: the generation, then [try_write]. *)
| adv_drop_skip self cs gs1 g gs2 ds a os :
    generation self ≠ gen_at_creation g →
    advance {| shared := self; calls := cs; conns := gs1 ++ g :: gs2; drops := ds; borrower := a; given := os |}
      {| shared := self; calls := cs; conns := gs1 ++ gs2; drops := ds; borrower := a; given := os |}
| adv_drop_check self cs gs1 g gs2 ds a os :
    generation self = gen_at_creation g →
    advance {| shared := self; calls := cs; conns := gs1 ++ g :: gs2; drops := ds; borrower := a; given := os |}
      {| shared := self; calls := cs; conns := gs1 ++ gs2; drops := Trying g :: ds; borrower := a; given := os |}
| adv_drop_lock self cs gs ds1 g ds2 a os :
    metrics_free cs (ds1 ++ Trying g :: ds2) a →
    advance {| shared := self; calls := cs; conns := gs; drops := ds1 ++ Trying g :: ds2; borrower := a; given := os |}
      {| shared := self; calls := cs; conns := gs; drops := ds1 ++ Holding g :: ds2; borrower := a; given := os |}
| adv_drop_contended self cs gs ds1 g ds2 a os :
    ~ metrics_free cs (ds1 ++ Trying g :: ds2) a →
    advance {| shared := self; calls := cs; conns := gs; drops := ds1 ++ Trying g :: ds2; borrower := a; given := os |}
      {| shared := self; calls := cs; conns := gs; drops := ds1 ++ ds2; borrower := a; given := os |}
| adv_drop_write self cs gs ds1 g ds2 a os :
    advance {| shared := self; calls := cs; conns := gs; drops := ds1 ++ Holding g :: ds2; borrower := a; given := os |}
      {| shared := write (guard_index g) release self; calls := cs; conns := gs; drops := ds1 ++ Written :: ds2;
         borrower := a; given := os |}
| adv_drop_unlock self cs gs ds1 ds2 a os :
    advance {| shared := self; calls := cs; conns := gs; drops := ds1 ++ Written :: ds2; borrower := a; given := os |}
      {| shared := self; calls := cs; conns := gs; drops := ds1 ++ ds2; borrower := a; given := os |}
(** A call with [&mut self]: no dial is in flight. *)
| adv_prepare self gs ds os op :
    advance {| shared := self; calls := []; conns := gs; drops := ds; borrower := NoAdmin; given := os |}
      {| shared := prepare (resolve op self) self; calls := []; conns := gs; drops := ds;
         borrower := Prepared op (resolve op self); given := os |}
| adv_admin_lock self cs gs ds os op j :
    takes_metrics j = true → metrics_free cs ds (Prepared op j) →
    advance {| shared := self; calls := cs; conns := gs; drops := ds; borrower := Prepared op j; given := os |}
      {| shared := self; calls := cs; conns := gs; drops := ds; borrower := Locked op j; given := os |}
| adv_apply self cs gs ds os op j :
    advance {| shared := self; calls := cs; conns := gs; drops := ds; borrower := Locked op j; given := os |}
      {| shared := apply_metrics j self; calls := cs; conns := gs; drops := ds; borrower := Applied op j;
         given := os ++ brought op |}
| adv_no_metrics self cs gs ds os op j :
    takes_metrics j = false →
    advance {| shared := self; calls := cs; conns := gs; drops := ds; borrower := Prepared op j; given := os |}
      {| shared := self; calls := cs; conns := gs; drops := ds; borrower := Applied op j; given := os ++ brought op |}
| adv_conclude self cs gs ds os op j :
    advance {| shared := self; calls := cs; conns := gs; drops := ds; borrower := Applied op j; given := os |}
      {| shared := conclude j self; calls := cs; conns := gs; drops := ds; borrower := NoAdmin; given := os |}.
End System.
#[global] Arguments sys B : clear implicits.
#[global] Arguments job B : clear implicits.
#[global] Arguments admin B : clear implicits.

(** ** Lemmas: the statements make up the operations *)

Section Facts.
Context `{Target} {B : Type}.
Implicit Types (self s : t B) (op : reconfig B) (j : job B).

(** What is left of a selection. *)
Definition after_count (i : nat) : M (t B) nat := count_dial i;; mret i.
Definition after_pick (i : nat) : M (t B) nat := count_in i;; after_count i.

Lemma select_statements ρ addr self :
  select_backend ρ addr self =
    (i ← with_strategy (pick ρ {| dial_addr := addr; Strategy.metrics := metrics self |}); after_pick i) self.
Proof.
  unfold select_backend, after_pick, after_count, count_in, count_dial, with_strategy, update_metrics. mrun.
  destruct (pick _ _ _) as [[i|p| |] d]; try done. cbn.
  unfold index. destruct (metrics self !! i) as [m|] eqn:Hm; [|done].
  destruct (u32_add _ 1) as [a|p| |]; try done. cbn.
  rewrite list_lookup_alter_eq, Hm. cbn. by destruct (u64_add _ 1).
Qed.

(** *** Writes *)

Definition write_all (i : nat) (ws : list (TunnelMetrics → TunnelMetrics)) self : t B :=
  foldl (λ s w, write i w s) self ws.

Lemma write_compose i f g self : write i g (write i f self) = write i (g ∘ f) self.
Proof.
  unfold write, set_metrics. cbn. f_equal. apply list_eq. intros k.
  destruct (decide (i = k)) as [<-|Hne].
  - rewrite !list_lookup_alter_eq. by destruct (metrics self !! i).
  - by rewrite !list_lookup_alter_ne.
Qed.

Lemma writes_update i (ok : bool) self :
  update_metrics i (if ok then set_recent_errors 0 else count_error) self = (Ret tt, write_all i (writes ok) self).
Proof.
  unfold write_all. destruct ok; [done|]. cbn [writes foldl]. rewrite !write_compose. done.
Qed.

Lemma write_all_fixed i ws self :
  backends (write_all i ws self) = backends self ∧ generation (write_all i ws self) = generation self.
Proof. unfold write_all. revert self. induction ws as [|w ws IH]; intros self; [done|]. apply (IH (write i w self)). Qed.

Lemma write_all_strategy i ws d self : write_all i ws (put_strategy d self) = put_strategy d (write_all i ws self).
Proof. unfold write_all. revert self. induction ws as [|w ws IH]; intros self; [done|]. apply (IH (write i w self)). Qed.

Lemma write_all_reads i ws self : strategy (write_all i ws self) = strategy self.
Proof. unfold write_all. revert self. induction ws as [|w ws IH]; intros self; [done|]. apply (IH (write i w self)). Qed.

Lemma tell_write_all ok k i ws self o self' :
  tell ok k self = (o, self') → tell ok k (write_all i ws self) = (o, write_all i ws self').
Proof.
  unfold tell, with_strategy, zoom. rewrite write_all_reads.
  destruct ((if ok then report_success k else report_error k) (strategy self)) as [o' d]. intros [= -> <-]. by rewrite write_all_strategy.
Qed.

Lemma tell_fixed ok k self o self' :
  tell ok k self = (o, self') → backends self' = backends self ∧ generation self' = generation self.
Proof. intros [d ->]%with_strategy_inv. done. Qed.

Lemma count_in_fixed i self o self' :
  count_in i self = (o, self') → backends self' = backends self ∧ generation self' = generation self.
Proof.
  unfold count_in, update_metrics. mrun. destruct (index _ _) as [m|p| |]; cbn; [|by intros [= _ <-]..].
  destruct (u32_add _ _); by intros [= _ <-].
Qed.
Lemma count_dial_fixed i self o self' :
  count_dial i self = (o, self') → backends self' = backends self ∧ generation self' = generation self.
Proof.
  unfold count_dial, update_metrics. mrun. destruct (index _ _) as [m|p| |]; cbn; [|by intros [= _ <-]..].
  destruct (u64_add _ _); by intros [= _ <-].
Qed.

(** *** Reconfiguration *)

Lemma alter_id {A} (f : A → A) i (l : list A) : (∀ x, l !! i = Some x → f x = x) → alter f i l = l.
Proof.
  intros Hf. apply list_eq. intros k. destruct (decide (i = k)) as [<-|Hne].
  - rewrite list_lookup_alter_eq. destruct (l !! i) as [x|] eqn:E; [|done]. cbn. by rewrite Hf.
  - by rewrite list_lookup_alter_ne.
Qed.

Lemma remove_statements i self :
  wf self → (remove_backend i;; mret tt) self =
    (Ret tt, conclude (remove_job i self) (apply_metrics (remove_job i self) (prepare (remove_job i self) self))).
Proof.
  intros (Hids & Hms & _). unfold remove_backend, remove_job, bump_generation, shutdown_backend. mrun.
  destruct (decide (length (backends self) ≤ i)) as [Hi|Hi].
  { by rewrite lookup_ge_None_2. }
  destruct (lookup_lt_is_Some_2 (backends self) i) as [b Hb]; [lia|].
  destruct (lookup_lt_is_Some_2 (ids self) i) as [d Hd]; [lia|].
  destruct (lookup_lt_is_Some_2 (metrics self) i) as [m Hm]; [lia|].
  unfold vec_remove. rewrite Hb, Hd, Hm. done.
Qed.

Lemma reconfig_statements op self :
  wf self →
  run_reconfig op self =
    (Ret tt, conclude (resolve op self) (apply_metrics (resolve op self) (prepare (resolve op self) self))).
Proof.
  intros Hwf. destruct op as [b|id b|i|id|bs s|i|i|s]; cbn [run_reconfig resolve]; try done.
  - by apply remove_statements.
  - unfold remove_backend_by_id. mrun. destruct (position _ _) as [i|]; [|done]. by apply remove_statements.
  - unfold mbind, M_bind. destruct (decide (length bs = 0)) as [Hbs|Hbs].
    + unfold replace_backends. by rewrite decide_True.
    + rewrite replace_backends_eq by (by intros ->). destruct s; done.
  - unfold drain_backend, update_metrics. mrun. case_decide; done.
  - unfold undrain_backend, update_metrics. mrun. cbn. unfold write.
    destruct (metrics self !! i) as [m|] eqn:Hm.
    + destruct (recent_errors m =? u32_MAX)%Z eqn:E; mrun; do 2 f_equal.
      * apply list_eq. intros k. destruct (decide (i = k)) as [<-|Hne];
          [rewrite !list_lookup_alter_eq, Hm; cbn; by rewrite E|by rewrite !list_lookup_alter_ne].
      * unfold set_metrics. rewrite alter_id; [by destruct self|]. intros x Hx. simplify_eq. by rewrite E.
    + unfold set_metrics. rewrite alter_id; [by destruct self|]. intros x Hx. congruence.
Qed.
End Facts.

(** ** The simulation *)

(** How many elements hold a lock. *)
Definition holders {A} (f : A → bool) (l : list A) : nat := length (filter (λ x, f x = true) l).

#[global] Arguments holders {A} f l : simpl never.

Lemma holders_cons {A} (f : A → bool) x l : holders f (x :: l) = (if f x then 1 else 0) + holders f l.
Proof. unfold holders. rewrite filter_cons. destruct (f x); [by rewrite decide_True|by rewrite decide_False]. Qed.
Lemma holders_app {A} (f : A → bool) l1 l2 : holders f (l1 ++ l2) = holders f l1 + holders f l2.
Proof. unfold holders. by rewrite filter_app, length_app. Qed.
Lemma holders_option {A} (f : A → bool) (y : option A) : holders f (option_list y) ≤ 1.
Proof.
  destruct y as [y|]; [|by apply Nat.le_0_l]. change (option_list (Some y)) with [y]. rewrite holders_cons.
  change (holders f []) with 0. destruct (f y); lia.
Qed.
#[global] Instance holders_proper {A} (f : A → bool) : Proper ((≡ₚ) ==> (=)) (holders f).
Proof. intros l1 l2 E. unfold holders. by rewrite E. Qed.
Lemma holders_none {A} (f : A → bool) l : holders f l = 0 ↔ Forall (λ x, f x = false) l.
Proof.
  induction l as [|x l IH]; [by split; [constructor|]|]. rewrite holders_cons, Forall_cons, <- IH.
  destruct (f x); split; intros; [lia|by destruct H|by split|by destruct H].
Qed.

(** An element of a permutation, in place. *)
Lemma perm_middle {A} (l : list A) x k : l ≡ₚ x :: k → ∃ l1 l2, l = l1 ++ x :: l2 ∧ l1 ++ l2 ≡ₚ k.
Proof.
  intros E. assert (Hx : x ∈ l) by (rewrite E; left). apply list_elem_of_split in Hx as (l1 & l2 & ->).
  exists l1, l2. split; [done|]. apply (Permutation_cons_inv (a := x)). by rewrite <- E, Permutation_middle.
Qed.

Section Simulation.
Context `{Target} {B : Type}.
Implicit Types (self s : t B) (a : cfg B) (x : pc) (cs : list pc) (ds : list dropping_pc).

(** A dial in flight in [Concurrent]. *)
Definition abs_task (gen : Z) x : option task :=
  match x with
  | Selected i | Unlocked i =>
      Some {| t_phase := Dialing; t_guard := {| guard_index := i; gen_at_creation := gen |} |}
  | Waiting g | Answered g _ => Some {| t_phase := Dialing; t_guard := g |}
  | Updating g ok _ | Reporting g ok | StrategyHeld g ok =>
      Some {| t_phase := if ok then ReportingOk else ReportingErr; t_guard := g |}
  | _ => None
  end.
(** A connection the strategy knows of, before the call returned it. *)
Definition returned x : option ActiveConnectionGuard :=
  match x with Reported g true => Some g | _ => None end.
Definition trying (d : dropping_pc) : option ActiveConnectionGuard :=
  match d with Trying g | Holding g => Some g | Written => None end.

(** In the middle of a section: what is written is not yet in, or not all of
    what is in is written. *)
Definition busy x : bool := match x with Picked _ | CountedIn _ | Updating _ _ _ => true | _ => false end.
Definition midway x s (abs : t B) : Prop :=
  match x with
  | Picked i => ∃ ρ addr, select_backend ρ addr abs = after_pick i s
  | CountedIn i => ∃ ρ addr, select_backend ρ addr abs = after_count i s
  | Updating g _ ws => abs = write_all (guard_index g) ws s
  | _ => False
  end.
Definition in_step cs s (abs : t B) : Prop :=
  (Forall (λ x, busy x = false) cs ∧ s = abs) ∨
  ∃ x k, cs ≡ₚ x :: k ∧ Forall (λ x, busy x = false) k ∧ midway x s abs.

(** With no reconfiguration under way. *)
Record calm s cs (gs : list ActiveConnectionGuard) ds a : Prop := {
  calm_metrics : holders has_metrics cs + holders drop_has_metrics ds ≤ 1;
  calm_strategy : holders has_strategy cs ≤ 1;
  calm_lb : in_step cs s (lb a);
  calm_backends : backends s = backends (lb a);
  calm_generation : generation s = generation (lb a);
  calm_some : cs ≠ [] → backends s ≠ [];
  calm_tasks : tasks a ≡ₚ omap (abs_task (generation s)) cs;
  calm_guards : guards a ≡ₚ gs ++ omap returned cs;
  calm_drops : dropping a ≡ₚ omap trying ds
}.

Lemma busy_holds x : busy x = true → has_metrics x = true.
Proof. by destruct x. Qed.
Lemma not_busy k : holders has_metrics k = 0 → Forall (λ x, busy x = false) k.
Proof.
  intros Hk%holders_none. eapply Forall_impl; [exact Hk|]. intros x Hx. cbn in *.
  destruct (busy x) eqn:E; [|done]. apply busy_holds in E. congruence.
Qed.
Lemma metrics_free_holders cs ds : metrics_free (B := B) cs ds NoAdmin → holders has_metrics cs = 0 ∧ holders drop_has_metrics ds = 0.
Proof. intros (H1 & H2 & _). by rewrite !holders_none. Qed.

Lemma in_step_perm cs cs' s abs : cs ≡ₚ cs' → in_step cs s abs → in_step cs' s abs.
Proof.
  intros E [[Hb ->]|(x & k & Hc & Hk & Hm)]; [left; by rewrite <- E|].
  right. exists x, k. by rewrite <- E.
Qed.
Lemma calm_perm s cs cs' gs gs' ds ds' a :
  cs ≡ₚ cs' → gs ≡ₚ gs' → ds ≡ₚ ds' → calm s cs gs ds a → calm s cs' gs' ds' a.
Proof.
  intros Ec Eg Ed []. split; try done; rewrite <- ?Ec, <- ?Eg, <- ?Ed; try done.
  - by eapply in_step_perm.
  - intros Hn. apply calm_some0. intros ->. by apply Permutation_nil_l in Ec.
Qed.

(** When nobody is in the middle of a section, both states agree. *)
Lemma in_step_quiet cs s abs : in_step cs s abs → Forall (λ x, busy x = false) cs → s = abs.
Proof.
  intros [[_ ->]|(x & k & Hc & _ & Hm)] Hb; [done|]. rewrite Hc, Forall_cons in Hb.
  destruct x; cbn in Hm; try done; by destruct Hb.
Qed.
(** When [x] is, the others are not. *)
Lemma in_step_busy x k s abs : in_step (x :: k) s abs → busy x = true → holders has_metrics k = 0 → midway x s abs.
Proof.
  intros [[Hb _]|(x' & k' & Hc & Hk & Hm)] Hx Hh; [apply Forall_cons in Hb as [? _]; congruence|].
  assert (Hin : x ∈ x' :: k') by (rewrite <- Hc; left). apply elem_of_cons in Hin as [->|Hin]; [done|].
  rewrite Forall_forall in Hk. by rewrite (Hk x Hin) in Hx.
Qed.

(** Others may come and go. *)
Lemma in_step_swap x k ys s abs :
  in_step (x :: k) s abs → busy x = false → Forall (λ x, busy x = false) ys → in_step (ys ++ k) s abs.
Proof.
  intros [[Hb ->]|(z & k' & E & Hk & Hz)] Hx Hy.
  { left. split; [|done]. apply Forall_cons in Hb as [_ Hb]. by apply Forall_app_2. }
  right. assert (Hin : z ∈ x :: k) by (rewrite E; left). apply elem_of_cons in Hin as [->|Hin].
  { by destruct x. }
  apply list_elem_of_split in Hin as (k1 & k2 & ->). exists z, (ys ++ k1 ++ k2).
  split; [by rewrite app_assoc, <- Permutation_middle, <- app_assoc|]. split; [|done].
  apply Forall_app_2; [done|]. assert (Hrest : x :: k1 ++ k2 ≡ₚ k').
  { apply (Permutation_cons_inv (a := z)). rewrite <- E. by rewrite <- Permutation_middle, perm_swap. }
  rewrite <- Hrest in Hk. by apply Forall_cons in Hk as [_ Hk].
Qed.

(** A report commutes with the writes another dial has still to do. *)
Lemma in_step_tell x k ok i s abs o s' :
  in_step (x :: k) s abs → busy x = false → holders has_strategy k = 0 → tell ok i s = (o, s') →
  ∃ abs', tell ok i abs = (o, abs') ∧ in_step (x :: k) s' abs' ∧
    backends abs' = backends abs ∧ generation abs' = generation abs.
Proof.
  intros [[Hb ->]|(z & k' & E & Hk & Hz)] Hx Hh Ht.
  { exists s'. split; [done|]. split; [by left|]. by eapply tell_fixed. }
  assert (Hin : z ∈ x :: k) by (rewrite E; left). apply elem_of_cons in Hin as [->|Hin]; [by destruct x|].
  apply holders_none in Hh. rewrite Forall_forall in Hh. specialize (Hh z Hin).
  destruct z as [| | | | | | | | |g ok' ws| | |]; try done. cbn in Hz. subst abs.
  pose proof (tell_write_all _ _ (guard_index g) ws _ _ _ Ht) as Ht'.
  eexists. split; [exact Ht'|]. split; [|by eapply tell_fixed]. right. by exists (Updating g ok' ws), k'.
Qed.

(** *** The steps of [Concurrent], up to the order of its lists *)

Definition reaches a a' : Prop := ∃ ls, run a ls a'.

Lemma reaches_refl a : reaches a a.
Proof. exists []. constructor. Qed.
Lemma reaches_step a l a' : step a l a' → reaches a a'.
Proof. intros Hs. exists [l]. eapply run_step; [done|constructor]. Qed.

Lemma abs_update a g (ok : bool) k :
  tasks a ≡ₚ {| t_phase := Dialing; t_guard := g |} :: k →
  ∃ a', reaches a a' ∧ lb a' = write_all (guard_index g) (writes ok) (lb a) ∧
    tasks a' ≡ₚ {| t_phase := if ok then ReportingOk else ReportingErr; t_guard := g |} :: k ∧
    guards a' = guards a ∧ dropping a' = dropping a ∧ owned a' = owned a.
Proof.
  intros (ts1 & ts2 & Hts & Hk)%perm_middle. destruct a as [self ts gs ds os]. cbn in *. subst ts.
  pose proof (writes_update (guard_index g) ok self) as Hw.
  destruct ok; eexists; (split; [eapply reaches_step; first [apply step_ok; exact Hw|apply step_err; exact Hw]|]);
    (split_and!; try done); cbn; by rewrite <- Permutation_middle, Hk.
Qed.

Lemma abs_report a g (ok : bool) k self' :
  tasks a ≡ₚ {| t_phase := if ok then ReportingOk else ReportingErr; t_guard := g |} :: k →
  tell ok (guard_index g) (lb a) = (Ret tt, self') →
  ∃ a', reaches a a' ∧ lb a' = self' ∧ tasks a' ≡ₚ k ∧
    guards a' = (if ok then [g] else []) ++ guards a ∧ dropping a' = dropping a ∧ owned a' = owned a.
Proof.
  intros (ts1 & ts2 & Hts & Hk)%perm_middle Ht. destruct a as [self ts gs ds os]. cbn in *. subst ts.
  by destruct ok; eexists; (split; [eapply reaches_step; first [by apply step_report_ok|by apply step_report_err]|]).
Qed.

Lemma abs_report_panic a g (ok : bool) k p self' :
  tasks a ≡ₚ {| t_phase := if ok then ReportingOk else ReportingErr; t_guard := g |} :: k →
  tell ok (guard_index g) (lb a) = (Panic p, self') →
  ∃ a', reaches a a' ∧ lb a' = self' ∧ tasks a' ≡ₚ k ∧
    guards a' = guards a ∧ dropping a' = dropping a ∧ owned a' = owned a.
Proof.
  intros (ts1 & ts2 & Hts & Hk)%perm_middle Ht. destruct a as [self ts gs ds os]. cbn in *. subst ts.
  eexists. split; [by eapply reaches_step, step_report_panic|]. done.
Qed.

Lemma abs_cancel a tk k :
  tasks a ≡ₚ tk :: k →
  ∃ a', reaches a a' ∧ lb a' = lb a ∧ tasks a' ≡ₚ k ∧ guards a' = guards a ∧ dropping a' = dropping a ∧ owned a' = owned a.
Proof.
  intros (ts1 & ts2 & Hts & Hk)%perm_middle. destruct a as [self ts gs ds os]. cbn in *. subst ts.
  eexists. split; [eapply reaches_step, step_cancel|]. done.
Qed.

Lemma abs_select a ρ addr i self' :
  backends (lb a) ≠ [] → select_backend ρ addr (lb a) = (Ret i, self') →
  ∃ a', reaches a a' ∧ lb a' = self' ∧ tasks a' = {| t_phase := Dialing; t_guard := guard_of i self' |} :: tasks a ∧
    guards a' = guards a ∧ dropping a' = dropping a ∧ owned a' = owned a.
Proof.
  intros Hn Hs. destruct a as [self ts gs ds os]. cbn in *.
  eexists. split; [by eapply reaches_step, step_select|]. done.
Qed.

Lemma abs_select_panic a ρ addr p self' :
  backends (lb a) ≠ [] → select_backend ρ addr (lb a) = (Panic p, self') →
  ∃ a', reaches a a' ∧ lb a' = self' ∧ tasks a' = tasks a ∧
    guards a' = guards a ∧ dropping a' = dropping a ∧ owned a' = owned a.
Proof.
  intros Hn Hs. destruct a as [self ts gs ds os]. cbn in *.
  eexists. split; [by eapply reaches_step, step_select_panic|]. done.
Qed.

(** *** The statements of a dial *)

(** A dial at [x] moves to [y]: what has to be seen to. *)
Lemma calm_move s x k gs ds a s' (y : option pc) a' :
  calm s (x :: k) gs ds a →
  holders has_metrics (option_list y) ≤ holders has_metrics [x] ∨ metrics_free (B := B) (x :: k) ds NoAdmin →
  holders has_strategy (option_list y) ≤ holders has_strategy [x] ∨ strategy_free (x :: k) →
  in_step (option_list y ++ k) s' (lb a') →
  backends s' = backends s → generation s' = generation s →
  backends (lb a') = backends (lb a) → generation (lb a') = generation (lb a) →
  tasks a' ≡ₚ omap (abs_task (generation s)) (option_list y) ++ omap (abs_task (generation s)) k →
  guards a' ≡ₚ gs ++ omap returned (option_list y) ++ omap returned k →
  dropping a' = dropping a →
  calm s' (option_list y ++ k) gs ds a'.
Proof.
  intros [Hm Hst _ Hb Hg Hn _ _ Hd] Hml Hsl Hlb Hb' Hg' Hba Hga Ht Hgs Hdr.
  assert (Hy := λ f, holders_option f y). split.
  - rewrite holders_app. change (x :: k) with ([x] ++ k) in Hm. rewrite holders_app in Hm.
    destruct Hml as [Hml|Hf]; [lia|]. apply metrics_free_holders in Hf as [Hf ->].
    change (x :: k) with ([x] ++ k) in Hf. rewrite holders_app in Hf. specialize (Hy has_metrics). lia.
  - rewrite holders_app. change (x :: k) with ([x] ++ k) in Hst. rewrite holders_app in Hst.
    destruct Hsl as [Hsl|Hf]; [lia|]. apply holders_none in Hf.
    change (x :: k) with ([x] ++ k) in Hf. rewrite holders_app in Hf. specialize (Hy has_strategy). lia.
  - done.
  - congruence.
  - congruence.
  - intros _. rewrite Hb'. by apply Hn.
  - by rewrite Hg', omap_app.
  - by rewrite omap_app.
  - by rewrite Hdr.
Qed.

(** A statement that changes nothing anybody sees. *)
Lemma calm_silent s x k gs ds a (y : option pc) :
  calm s (x :: k) gs ds a →
  holders has_metrics (option_list y) ≤ holders has_metrics [x] ∨ metrics_free (B := B) (x :: k) ds NoAdmin →
  holders has_strategy (option_list y) ≤ holders has_strategy [x] ∨ strategy_free (x :: k) →
  busy x = false → Forall (λ x, busy x = false) (option_list y) →
  omap (abs_task (generation s)) [x] = omap (abs_task (generation s)) (option_list y) →
  omap returned [x] = omap returned (option_list y) →
  calm s (option_list y ++ k) gs ds a.
Proof.
  intros Hc Hm Hs Hx Hy Ht Hr. apply (calm_move s x k gs ds a s y a Hc Hm Hs); try done.
  - apply (in_step_swap x); [by eapply calm_lb|done..].
  - pose proof (calm_tasks _ _ _ _ _ Hc) as E. change (x :: k) with ([x] ++ k) in E. by rewrite omap_app, Ht in E.
  - pose proof (calm_guards _ _ _ _ _ Hc) as E. change (x :: k) with ([x] ++ k) in E. by rewrite omap_app, Hr in E.
Qed.

Lemma with_strategy_fixed {A} (m : M dyn_strategy A) o s s' :
  with_strategy m s = (o, s') → backends s' = backends s ∧ generation s' = generation s.
Proof. intros [d ->]%with_strategy_inv. done. Qed.

Lemma holder_alone x k s gs ds a :
  calm s (x :: k) gs ds a → has_metrics x = true → holders has_metrics k = 0.
Proof. intros Hc Hx. pose proof (calm_metrics _ _ _ _ _ Hc) as Hm. rewrite holders_cons, Hx in Hm. lia. Qed.

(** A section ends, with a panic: it is a panic of the selection. *)
Lemma sim_panic s x k gs ds a ρ addr p s' :
  calm s (x :: k) gs ds a → has_metrics x = true → abs_task (generation s) x = None → returned x = None →
  select_backend ρ addr (lb a) = (Panic p, s') → backends s' = backends s ∧ generation s' = generation s →
  ∃ a', reaches a a' ∧ calm s' k gs ds a' ∧ owned a' = owned a ∧ generation (lb a') = generation (lb a).
Proof.
  intros Hc Hx Hat Hr Hs [Hb Hg]. pose proof (calm_backends _ _ _ _ _ Hc) as Eb.
  pose proof (calm_generation _ _ _ _ _ Hc) as Eg. pose proof (calm_some _ _ _ _ _ Hc ltac:(done)) as Hn.
  destruct (abs_select_panic a ρ addr p s') as (a' & Hrun & Hl & Ht & Hgs & Hd & Ho); [congruence|done|].
  exists a'. split; [done|]. split; [|split; [done|congruence]].
  apply (calm_move s x k gs ds a s' None a' Hc); try (left; apply Nat.le_0_l); try congruence.
  - left. split; [|done]. by eapply not_busy, holder_alone.
  - rewrite Ht, (calm_tasks _ _ _ _ _ Hc). cbn. by rewrite Hat.
  - rewrite Hgs, (calm_guards _ _ _ _ _ Hc). cbn. by rewrite Hr.
Qed.

(** A statement on the way to a selection, before its last. *)
Lemma sim_onward s x k gs ds a y s' :
  calm s (x :: k) gs ds a → has_metrics x = true → holders has_strategy [y] ≤ holders has_strategy [x] →
  abs_task (generation s) x = None → returned x = None →
  abs_task (generation s) y = None → returned y = None →
  midway y s' (lb a) → backends s' = backends s ∧ generation s' = generation s →
  ∃ a', reaches a a' ∧ calm s' (y :: k) gs ds a' ∧ owned a' = owned a ∧ generation (lb a') = generation (lb a).
Proof.
  intros Hc Hx Hst Hat Hr Hat' Hr' Hm [Hb Hg]. exists a. split; [apply reaches_refl|]. split; [|done].
  apply (calm_move s x k gs ds a s' (Some y) a Hc); try done; try (by left).
  - left. change (option_list (Some y)) with [y]. rewrite !holders_cons, Hx. destruct (has_metrics y); lia.
  - right. exists y, k. split; [done|]. split; [by eapply not_busy, holder_alone|done].
  - rewrite (calm_tasks _ _ _ _ _ Hc). cbn. by rewrite Hat, Hat'.
  - rewrite (calm_guards _ _ _ _ _ Hc). cbn. by rewrite Hr, Hr'.
Qed.

(** What a statement of a dial at [x] is answered with. *)
Definition answered s' k gs ds a (y : option pc) : Prop :=
  ∃ a', reaches a a' ∧ calm s' (option_list y ++ k) gs ds a' ∧ owned a' = owned a ∧ generation (lb a') = generation (lb a).

Lemma answered_silent s k gs ds a y : calm s (option_list y ++ k) gs ds a → answered s k gs ds a y.
Proof. intros Hc. exists a. split; [apply reaches_refl|done]. Qed.

(** The places of a dial from its pick on: the other one in a section. *)
Lemma section_midway x k s gs ds a :
  calm s (x :: k) gs ds a → busy x = true → midway x s (lb a) ∧ Forall (λ x, busy x = false) k.
Proof.
  intros Hc Hx. pose proof (holder_alone _ _ _ _ _ _ Hc (busy_holds x Hx)) as Hk.
  split; [|by apply not_busy]. by apply (in_step_busy x k); [eapply calm_lb| |].
Qed.
Lemma section_quiet x k s gs ds a :
  calm s (x :: k) gs ds a → has_metrics x = true → busy x = false → s = lb a ∧ Forall (λ x, busy x = false) k.
Proof.
  intros Hc Hm Hx. pose proof (not_busy _ (holder_alone _ _ _ _ _ _ Hc Hm)) as Hk.
  split; [|done]. apply (in_step_quiet (x :: k)); [by eapply calm_lb|by constructor].
Qed.

Lemma sim_statement_pick ρ addr s k gs ds a o s' :
  calm s (BothHeld ρ addr :: k) gs ds a →
  with_strategy (pick ρ {| dial_addr := addr; Strategy.metrics := metrics s |}) s = (o, s') →
  match o with
  | Ret i => answered s' k gs ds a (Some (Picked i))
  | Panic _ => answered s' k gs ds a None
  | _ => True
  end.
Proof.
  intros Hc E. destruct (section_quiet _ _ _ _ _ _ Hc eq_refl eq_refl) as [Hs Hk].
  assert (Hsel : select_backend ρ addr (lb a) = match o with
    | Ret i => after_pick i s' | Panic p => (Panic p, s') | Pending => (Pending, s') | NoFuel => (NoFuel, s') end).
  { rewrite <- Hs, select_statements. unfold mbind, M_bind. rewrite E. by destruct o. }
  destruct o as [i|p| |]; try done.
  - apply (sim_onward _ _ _ _ _ _ (Picked i) _ Hc); try done; [by exists ρ, addr|by eapply with_strategy_fixed].
  - apply (sim_panic _ _ _ _ _ _ ρ addr p _ Hc); try done. by eapply with_strategy_fixed.
Qed.

Lemma sim_count_in i s k gs ds a o s' :
  calm s (Picked i :: k) gs ds a → count_in i s = (o, s') →
  match o with
  | Ret _ => answered s' k gs ds a (Some (CountedIn i))
  | Panic _ => answered s' k gs ds a None
  | _ => True
  end.
Proof.
  intros Hc E. destruct (section_midway _ _ _ _ _ _ Hc eq_refl) as [(ρ & addr & Hsel) Hk].
  unfold after_pick, mbind, M_bind in Hsel. rewrite E in Hsel. destruct o as [[]|p| |]; try done.
  - apply (sim_onward _ _ _ _ _ _ (CountedIn i) _ Hc); try done; [by exists ρ, addr|by eapply count_in_fixed].
  - apply (sim_panic _ _ _ _ _ _ ρ addr p _ Hc); try done. by eapply count_in_fixed.
Qed.

(** The last write of a selection: the dial is in flight. *)
Lemma sim_count_dial i s k gs ds a o s' :
  calm s (CountedIn i :: k) gs ds a → count_dial i s = (o, s') →
  match o with
  | Ret _ => answered s' k gs ds a (Some (Selected i))
  | Panic _ => answered s' k gs ds a None
  | _ => True
  end.
Proof.
  intros Hc E. destruct (section_midway _ _ _ _ _ _ Hc eq_refl) as [(ρ & addr & Hsel) Hk].
  pose proof (calm_backends _ _ _ _ _ Hc) as Eb. pose proof (calm_generation _ _ _ _ _ Hc) as Eg.
  pose proof (calm_some _ _ _ _ _ Hc ltac:(done)) as Hn. destruct (count_dial_fixed _ _ _ _ E) as [Hb' Hg'].
  unfold after_count, mbind, M_bind in Hsel. rewrite E in Hsel. destruct o as [[]|p| |]; try done.
  2: { apply (sim_panic _ _ _ _ _ _ ρ addr p _ Hc); done. }
  destruct (abs_select a ρ addr i s') as (a' & Hrun & Hl & Ht & Hgs' & Hd & Ho); [congruence|done|].
  exists a'. split; [done|]. split; [|split; [done|congruence]].
  apply (calm_move _ _ _ _ _ _ s' (Some (Selected i)) a' Hc); try congruence; try (by left).
  - left. split; [|done]. by constructor.
  - rewrite Ht, (calm_tasks _ _ _ _ _ Hc). unfold guard_of. by rewrite Hg'.
  - by rewrite Hgs', (calm_guards _ _ _ _ _ Hc).
Qed.

Lemma sim_lock_update g ok s k gs ds a :
  calm s (Answered g ok :: k) gs ds a → metrics_free (B := B) (Answered g ok :: k) ds NoAdmin →
  answered s k gs ds a (Some (Updating g ok (writes ok))).
Proof.
  intros Hc Hf. pose proof Hf as [Hh _]%metrics_free_holders. apply not_busy in Hh.
  pose proof (in_step_quiet _ _ _ (calm_lb _ _ _ _ _ Hc) Hh) as Hs. apply Forall_cons in Hh as [_ Hk].
  destruct (abs_update a g ok _ (calm_tasks _ _ _ _ _ Hc)) as (a' & Hrun & Hl & Ht & Hgs' & Hd & Ho).
  destruct (write_all_fixed (guard_index g) (writes ok) (lb a)) as [Hwb Hwg].
  exists a'. split; [done|]. split; [|split; [done|congruence]].
  apply (calm_move _ _ _ _ _ _ s (Some (Updating g ok (writes ok))) a' Hc); try congruence; try (by left);
    [by right| |exact Ht|by rewrite Hgs', (calm_guards _ _ _ _ _ Hc)].
  right. exists (Updating g ok (writes ok)), k. split; [done|]. split; [done|]. cbn. by rewrite Hl, Hs.
Qed.

Lemma sim_report g ok s k gs ds a s' :
  calm s (StrategyHeld g ok :: k) gs ds a → tell ok (guard_index g) s = (Ret tt, s') →
  answered s' k gs ds a (Some (Reported g ok)).
Proof.
  intros Hc E. pose proof (calm_strategy _ _ _ _ _ Hc) as Hs. rewrite holders_cons in Hs. cbn in Hs.
  destruct (in_step_tell _ _ _ _ _ _ _ _ (calm_lb _ _ _ _ _ Hc) eq_refl ltac:(lia) E) as (abs' & Ht & Hin & Hb' & Hg').
  destruct (tell_fixed _ _ _ _ _ E) as [Hb Hg].
  destruct (abs_report a g ok _ abs' (calm_tasks _ _ _ _ _ Hc) Ht) as (a' & Hrun & Hl & Hta & Hgs' & Hd & Ho).
  exists a'. split; [done|]. split; [|split; [done|congruence]].
  apply (calm_move _ _ _ _ _ _ s' (Some (Reported g ok)) a' Hc); try congruence; try (by left).
  - rewrite Hl. apply (in_step_swap (StrategyHeld g ok) k [Reported g ok]); [done|done|]. by repeat constructor.
  - exact Hta.
  - rewrite Hgs', (calm_guards _ _ _ _ _ Hc). destruct ok; cbn; [|done]. by rewrite <- Permutation_middle.
Qed.

Lemma sim_report_panic g ok s k gs ds a p s' :
  calm s (StrategyHeld g ok :: k) gs ds a → tell ok (guard_index g) s = (Panic p, s') →
  answered s' k gs ds a None.
Proof.
  intros Hc E. pose proof (calm_strategy _ _ _ _ _ Hc) as Hs. rewrite holders_cons in Hs. cbn in Hs.
  destruct (in_step_tell _ _ _ _ _ _ _ _ (calm_lb _ _ _ _ _ Hc) eq_refl ltac:(lia) E) as (abs' & Ht & Hin & Hb' & Hg').
  destruct (tell_fixed _ _ _ _ _ E) as [Hb Hg].
  destruct (abs_report_panic a g ok _ p abs' (calm_tasks _ _ _ _ _ Hc) Ht) as (a' & Hrun & Hl & Hta & Hgs' & Hd & Ho).
  exists a'. split; [done|]. split; [|split; [done|congruence]].
  apply (calm_move _ _ _ _ _ _ s' None a' Hc); try congruence; try (left; apply Nat.le_0_l).
  - rewrite Hl. by apply (in_step_swap (StrategyHeld g ok) k []).
  - exact Hta.
  - by rewrite Hgs', (calm_guards _ _ _ _ _ Hc).
Qed.

(** The future is dropped. *)
Lemma sim_cancel x s k gs ds a :
  calm s (x :: k) gs ds a → at_await x = true → answered s k gs ds a None.
Proof.
  intros Hc Haw. assert (Hx : busy x = false ∧ returned x = None) by (by destruct x). destruct Hx as [Hx Hr].
  destruct (abs_task (generation s) x) as [tk|] eqn:Htk.
  - pose proof (calm_tasks _ _ _ _ _ Hc) as Hts. cbn in Hts. rewrite Htk in Hts.
    destruct (abs_cancel a tk _ Hts) as (a' & Hrun & Hl & Hta & Hgs' & Hd & Ho).
    exists a'. split; [done|]. split; [|split; [done|congruence]].
    apply (calm_move _ _ _ _ _ _ s None a' Hc); try congruence; try (left; apply Nat.le_0_l).
    + rewrite Hl. apply (in_step_swap x k []); [by eapply calm_lb|done|constructor].
    + exact Hta.
    + rewrite Hgs', (calm_guards _ _ _ _ _ Hc). cbn. by rewrite Hr.
  - apply answered_silent, (calm_silent _ _ _ _ _ _ None Hc); try done; try (left; apply Nat.le_0_l).
    + cbn. by rewrite Htk.
    + cbn. by rewrite Hr.
Qed.

Lemma sim_statement s x k gs ds a y s' :
  calm s (x :: k) gs ds a → statement (x :: k) ds x s y s' → answered s' k gs ds a y.
Proof.
  intros Hc Hst. remember (x :: k) as cs eqn:Ecs in Hst.
  destruct Hst as [ρ addr self Hf|ρ addr self Hf|ρ addr self i self' E|ρ addr self p self' E|i self self' E|i self p self' E
    |i self self' E|i self p self' E|i self|i self|g ok self|g ok self Hf|g ok w ws self|g ok self|g ok self Hf
    |g ok self self' E|g ok self p self' E|z self Haw]; subst cs;
    try (apply answered_silent, (calm_silent _ _ _ _ _ _ _ Hc); try done;
         solve [by right | by left | left; by apply Nat.leb_le | by repeat constructor]).
  - exact (sim_statement_pick _ _ _ _ _ _ _ _ _ Hc E).
  - exact (sim_statement_pick _ _ _ _ _ _ _ _ _ Hc E).
  - exact (sim_count_in _ _ _ _ _ _ _ _ Hc E).
  - exact (sim_count_in _ _ _ _ _ _ _ _ Hc E).
  - exact (sim_count_dial _ _ _ _ _ _ _ _ Hc E).
  - exact (sim_count_dial _ _ _ _ _ _ _ _ Hc E).
  - by apply sim_lock_update.
  - destruct (section_midway _ _ _ _ _ _ Hc eq_refl) as [Hm Hk]. apply answered_silent.
    apply (calm_move _ _ _ _ _ _ (write (guard_index g) w self) (Some (Updating g ok ws)) a Hc); try done; try (by left);
      [|exact (calm_tasks _ _ _ _ _ Hc)|exact (calm_guards _ _ _ _ _ Hc)].
    right. by exists (Updating g ok ws), k.
  - destruct (section_midway _ _ _ _ _ _ Hc eq_refl) as [Hm Hk]. cbn in Hm. apply answered_silent.
    apply (calm_move _ _ _ _ _ _ self (Some (Reporting g ok)) a Hc); try done;
      [left; by apply Nat.leb_le|by left| |exact (calm_tasks _ _ _ _ _ Hc)|exact (calm_guards _ _ _ _ _ Hc)].
    left. split; [by constructor|done].
  - exact (sim_report _ _ _ _ _ _ _ _ Hc E).
  - exact (sim_report_panic _ _ _ _ _ _ _ _ _ Hc E).
  - by apply (sim_cancel z).
Qed.

(** *** Guards *)

Definition call_guard x : option ActiveConnectionGuard :=
  match x with
  | Waiting g | Answered g _ | Updating g _ _ | Reporting g _ | StrategyHeld g _ | Reported g _ => Some g
  | _ => None
  end.
(** No guard is from the future. *)
Definition aged (gen : Z) (gs : list ActiveConnectionGuard) : Prop := Forall (λ g, (gen_at_creation g ≤ gen)%Z) gs.

Lemma statement_generation cs ds x s y s' : statement cs ds x s y s' → generation s' = generation s.
Proof.
  destruct 1; try done; try (by eapply with_strategy_fixed); try (by eapply count_in_fixed);
    try (by eapply count_dial_fixed).
Qed.

Lemma statement_aged cs ds x s y s' :
  statement cs ds x s y s' → aged (generation s) (omap call_guard [x]) →
  aged (generation s) (omap call_guard (option_list y)).
Proof. unfold aged. destruct 1; cbn; try done; intros _. constructor; [|done]. cbn. lia. Qed.

(** *** The steps of a drop in [Concurrent] *)

Lemma abs_drop_skip a g k :
  guards a ≡ₚ g :: k → generation (lb a) ≠ gen_at_creation g →
  ∃ a', reaches a a' ∧ lb a' = lb a ∧ tasks a' = tasks a ∧ guards a' ≡ₚ k ∧ dropping a' = dropping a ∧ owned a' = owned a.
Proof.
  intros (g1 & g2 & Hg & Hk)%perm_middle Hn. destruct a as [self ts gs ds os]. cbn in *. subst gs.
  eexists. split; [by eapply reaches_step, step_drop_skip|]. done.
Qed.
Lemma abs_drop_check a g k :
  guards a ≡ₚ g :: k → generation (lb a) = gen_at_creation g →
  ∃ a', reaches a a' ∧ lb a' = lb a ∧ tasks a' = tasks a ∧ guards a' ≡ₚ k ∧ dropping a' = g :: dropping a ∧ owned a' = owned a.
Proof.
  intros (g1 & g2 & Hg & Hk)%perm_middle Hn. destruct a as [self ts gs ds os]. cbn in *. subst gs.
  eexists. split; [by eapply reaches_step, step_drop_check|]. done.
Qed.
Lemma abs_drop_write a g k :
  dropping a ≡ₚ g :: k →
  ∃ a', reaches a a' ∧ lb a' = write (guard_index g) release (lb a) ∧ tasks a' = tasks a ∧ guards a' = guards a ∧
    dropping a' ≡ₚ k ∧ owned a' = owned a.
Proof.
  intros (d1 & d2 & Hd & Hk)%perm_middle. destruct a as [self ts gs ds os]. cbn in *. subst ds.
  eexists. split; [by eapply reaches_step, step_drop_write|]. done.
Qed.
Lemma abs_drop_contended a g k :
  dropping a ≡ₚ g :: k →
  ∃ a', reaches a a' ∧ lb a' = lb a ∧ tasks a' = tasks a ∧ guards a' = guards a ∧ dropping a' ≡ₚ k ∧ owned a' = owned a.
Proof.
  intros (d1 & d2 & Hd & Hk)%perm_middle. destruct a as [self ts gs ds os]. cbn in *. subst ds.
  eexists. split; [by eapply reaches_step, step_drop_contended|]. done.
Qed.

Lemma reaches_trans a a1 a2 : reaches a a1 → reaches a1 a2 → reaches a a2.
Proof. intros [l1 H1] [l2 H2]. exists (l1 ++ l2). by eapply run_app. Qed.

(** The drops that came too early. *)
Lemma abs_skip_all sk a k :
  guards a ≡ₚ k ++ sk → Forall (λ g, generation (lb a) ≠ gen_at_creation g) sk →
  ∃ a', reaches a a' ∧ lb a' = lb a ∧ tasks a' = tasks a ∧ guards a' ≡ₚ k ∧ dropping a' = dropping a ∧ owned a' = owned a.
Proof.
  revert a. induction sk as [|g sk IH]; intros a Hg Hs.
  { exists a. rewrite app_nil_r in Hg. split; [apply reaches_refl|done]. }
  apply Forall_cons in Hs as [Hgen Hs]. rewrite <- Permutation_middle in Hg.
  destruct (abs_drop_skip a g _ Hg Hgen) as (a1 & Hr & Hl & Ht & Hg1 & Hd & Ho).
  destruct (IH a1 Hg1) as (a2 & Hr2 & Hl2 & Ht2 & Hg2 & Hd2 & Ho2); [by rewrite Hl|].
  exists a2. split; [by eapply reaches_trans|]. repeat split; congruence || done.
Qed.

(** *** Reconfigurations *)

Definition bumps (j : job B) : bool := match j with JRemove _ _ | JReplace _ _ => true | _ => false end.

(** The generation moved, the metrics did not; some drops saw it. *)
Record prepared s (gs : list ActiveConnectionGuard) ds a (op : reconfig B) (j : job B) : Prop := {
  prep_job : j = resolve op (lb a);
  prep_state : s = prepare j (lb a);
  prep_generation : (generation s = generation (lb a) + if bumps j then 1 else 0)%Z;
  prep_tasks : tasks a = [];
  prep_drops : dropping a ≡ₚ omap trying ds;
  prep_guards : ∃ sk, guards a ≡ₚ gs ++ sk ∧ (sk = [] ∨ bumps j = true) ∧
    Forall (λ g, gen_at_creation g = generation (lb a)) sk;
  prep_aged : aged (generation (lb a)) gs
}.
(** The metrics were written, the rest is to come. *)
Record applied s (gs : list ActiveConnectionGuard) ds a (j : job B) : Prop := {
  app_state : lb a = conclude j s;
  app_tasks : tasks a = [];
  app_drops : dropping a ≡ₚ omap trying ds;
  app_guards : guards a ≡ₚ gs;
  app_aged : aged (generation s) gs
}.

(** ** The states of the two systems that belong together *)
Definition simulates (c : sys B) a : Prop :=
  pool_ok a ∧ given c = owned a ∧
  match borrower c with
  | NoAdmin =>
      calm (shared c) (calls c) (conns c) (drops c) a ∧
      aged (generation (shared c)) (conns c ++ omap call_guard (calls c))
  | Prepared op j =>
      calls c = [] ∧ prepared (shared c) (conns c) (drops c) a op j ∧ holders drop_has_metrics (drops c) ≤ 1
  | Locked op j =>
      calls c = [] ∧ prepared (shared c) (conns c) (drops c) a op j ∧ holders drop_has_metrics (drops c) = 0
  | Applied op j =>
      calls c = [] ∧ applied (shared c) (conns c) (drops c) a j ∧ holders drop_has_metrics (drops c) ≤ 1
  end.

Lemma reaches_pool_ok a a' : reaches a a' → pool_ok a → pool_ok a'.
Proof. intros [ls Hr]. induction Hr as [|c l c' ls c'' Hs _ IH]; [done|]. intros Hp. by eapply IH, step_pool_ok. Qed.

Lemma prepare_write j i f s : prepare j (write i f s) = write i f (prepare j s).
Proof. by destruct j. Qed.
Lemma conclude_write j i f s : conclude j (write i f s) = write i f (conclude j s).
Proof. destruct j as [| | |bs [st|]| | |]; done. Qed.
Lemma conclude_generation j s : generation (conclude j s) = generation s.
Proof. destruct j as [| | |bs [st|]| | |]; done. Qed.
Lemma apply_generation j s : generation (apply_metrics j s) = generation s.
Proof. by destruct j. Qed.
Lemma prepare_generation j s :
  (0 ≤ generation s)%Z → (generation s + 1 ≤ usize_MAX)%Z →
  (generation (prepare j s) = generation s + if bumps j then 1 else 0)%Z.
Proof. intros H0 H1. destruct j; cbn; try lia; rewrite Z.mod_small; lia. Qed.

(** *** The drop of a guard, beside a reconfiguration *)

Lemma aged_middle gen gs1 g gs2 :
  aged gen (gs1 ++ g :: gs2) → (gen_at_creation g ≤ gen)%Z ∧ aged gen (gs1 ++ gs2).
Proof. unfold aged. by rewrite Forall_mid. Qed.

Lemma trying_some ds1 d ds2 g : trying d = Some g → omap trying (ds1 ++ d :: ds2) ≡ₚ g :: omap trying (ds1 ++ ds2).
Proof. intros E. rewrite !omap_app, Permutation_middle. cbn. by rewrite E. Qed.
Lemma trying_none ds1 d ds2 : trying d = None → omap trying (ds1 ++ d :: ds2) = omap trying (ds1 ++ ds2).
Proof. intros E. rewrite !omap_app. cbn. by rewrite E. Qed.

Lemma prepared_skip s gs1 g gs2 ds a op j :
  prepared s (gs1 ++ g :: gs2) ds a op j → generation s ≠ gen_at_creation g →
  ∃ a', reaches a a' ∧ prepared s (gs1 ++ gs2) ds a' op j ∧ owned a' = owned a.
Proof.
  intros [Hj Hs Hgen Ht Hd (sk & Hg & Hsk & Hold) Hag] Hne. apply aged_middle in Hag as [Hag Hag'].
  destruct (decide (generation (lb a) = gen_at_creation g)) as [E|E].
  - exists a. split; [apply reaches_refl|]. split; [|done]. split; try done. exists (g :: sk).
    split; [rewrite Hg, <- (Permutation_middle gs1), <- Permutation_middle; done|]. split.
    + right. destruct (bumps j) eqn:Eb; [done|lia].
    + by constructor.
  - rewrite <- (Permutation_middle gs1) in Hg. cbn in Hg.
    destruct (abs_drop_skip a g _ Hg E) as (a' & Hr & Hl & Ht' & Hg' & Hd' & Ho).
    exists a'. split; [done|]. split; [|done]. split; rewrite ?Hl, ?Ht', ?Hd'; try done. by exists sk.
Qed.

Lemma prepared_check s gs1 g gs2 ds a op j :
  prepared s (gs1 ++ g :: gs2) ds a op j → generation s = gen_at_creation g →
  ∃ a', reaches a a' ∧ prepared s (gs1 ++ gs2) (Trying g :: ds) a' op j ∧ owned a' = owned a.
Proof.
  intros [Hj Hs Hgen Ht Hd (sk & Hg & Hsk & Hold) Hag] He. apply aged_middle in Hag as [Hag Hag'].
  assert (E : generation (lb a) = gen_at_creation g) by (destruct (bumps j); lia).
  rewrite <- (Permutation_middle gs1) in Hg. cbn in Hg.
  destruct (abs_drop_check a g _ Hg E) as (a' & Hr & Hl & Ht' & Hg' & Hd' & Ho).
  exists a'. split; [done|]. split; [|done]. split; rewrite ?Hl, ?Ht'; try done; [|by exists sk].
  rewrite Hd'. cbn. by rewrite Hd.
Qed.

Lemma prepared_write s gs ds1 g ds2 a op j :
  prepared s gs (ds1 ++ Holding g :: ds2) a op j →
  ∃ a', reaches a a' ∧ prepared (write (guard_index g) release s) gs (ds1 ++ Written :: ds2) a' op j ∧ owned a' = owned a.
Proof.
  intros [Hj Hs Hgen Ht Hd Hg Hag]. rewrite trying_some in Hd by done.
  destruct (abs_drop_write a g _ Hd) as (a' & Hr & Hl & Ht' & Hg' & Hd' & Ho).
  exists a'. split; [done|]. split; [|done]. split; rewrite ?Hl, ?Ht', ?Hg'; try done.
  - by rewrite prepare_write, Hs.
  - by rewrite Hd', trying_none.
Qed.

Lemma prepared_contended s gs ds1 g ds2 a op j :
  prepared s gs (ds1 ++ Trying g :: ds2) a op j →
  ∃ a', reaches a a' ∧ prepared s gs (ds1 ++ ds2) a' op j ∧ owned a' = owned a.
Proof.
  intros [Hj Hs Hgen Ht Hd Hg Hag]. rewrite trying_some in Hd by done.
  destruct (abs_drop_contended a g _ Hd) as (a' & Hr & Hl & Ht' & Hg' & Hd' & Ho).
  exists a'. split; [done|]. split; [|done]. by split; rewrite ?Hl, ?Ht', ?Hg'.
Qed.

Lemma prepared_same s gs ds ds' a op j :
  prepared s gs ds a op j → omap trying ds = omap trying ds' → prepared s gs ds' a op j.
Proof. intros [] E. split; try done. by rewrite <- E. Qed.

Lemma applied_skip s gs1 g gs2 ds a j :
  applied s (gs1 ++ g :: gs2) ds a j → generation s ≠ gen_at_creation g →
  ∃ a', reaches a a' ∧ applied s (gs1 ++ gs2) ds a' j ∧ owned a' = owned a.
Proof.
  intros [Hs Ht Hd Hg Hag] Hne. apply aged_middle in Hag as [_ Hag]. rewrite <- Permutation_middle in Hg.
  destruct (abs_drop_skip a g _ Hg) as (a' & Hr & Hl & Ht' & Hg' & Hd' & Ho); [by rewrite Hs, conclude_generation|].
  exists a'. split; [done|]. split; [|done]. split; rewrite ?Hl, ?Ht', ?Hd'; done.
Qed.
Lemma applied_check s gs1 g gs2 ds a j :
  applied s (gs1 ++ g :: gs2) ds a j → generation s = gen_at_creation g →
  ∃ a', reaches a a' ∧ applied s (gs1 ++ gs2) (Trying g :: ds) a' j ∧ owned a' = owned a.
Proof.
  intros [Hs Ht Hd Hg Hag] He. apply aged_middle in Hag as [_ Hag]. rewrite <- Permutation_middle in Hg.
  destruct (abs_drop_check a g _ Hg) as (a' & Hr & Hl & Ht' & Hg' & Hd' & Ho); [by rewrite Hs, conclude_generation|].
  exists a'. split; [done|]. split; [|done]. split; rewrite ?Hl, ?Ht'; try done. rewrite Hd'. cbn. by rewrite Hd.
Qed.
Lemma applied_write s gs ds1 g ds2 a j :
  applied s gs (ds1 ++ Holding g :: ds2) a j →
  ∃ a', reaches a a' ∧ applied (write (guard_index g) release s) gs (ds1 ++ Written :: ds2) a' j ∧ owned a' = owned a.
Proof.
  intros [Hs Ht Hd Hg Hag]. rewrite trying_some in Hd by done.
  destruct (abs_drop_write a g _ Hd) as (a' & Hr & Hl & Ht' & Hg' & Hd' & Ho).
  exists a'. split; [done|]. split; [|done]. split; rewrite ?Hl, ?Ht', ?Hg'; try done.
  - by rewrite Hs, conclude_write.
  - by rewrite Hd', trying_none.
Qed.
Lemma applied_contended s gs ds1 g ds2 a j :
  applied s gs (ds1 ++ Trying g :: ds2) a j →
  ∃ a', reaches a a' ∧ applied s gs (ds1 ++ ds2) a' j ∧ owned a' = owned a.
Proof.
  intros [Hs Ht Hd Hg Hag]. rewrite trying_some in Hd by done.
  destruct (abs_drop_contended a g _ Hd) as (a' & Hr & Hl & Ht' & Hg' & Hd' & Ho).
  exists a'. split; [done|]. split; [|done]. by split; rewrite ?Hl, ?Ht', ?Hg'.
Qed.
Lemma applied_same s gs ds ds' a j :
  applied s gs ds a j → omap trying ds = omap trying ds' → applied s gs ds' a j.
Proof. intros [] E. split; try done. by rewrite <- E. Qed.

(** *** and beside dials *)

Lemma calm_skip s cs gs1 g gs2 ds a :
  calm s cs (gs1 ++ g :: gs2) ds a → generation s ≠ gen_at_creation g →
  ∃ a', reaches a a' ∧ calm s cs (gs1 ++ gs2) ds a' ∧ owned a' = owned a.
Proof.
  intros Hc Hne. pose proof (calm_guards _ _ _ _ _ Hc) as Hg. pose proof (calm_generation _ _ _ _ _ Hc) as Eg.
  rewrite <- (Permutation_middle gs1) in Hg. cbn in Hg.
  destruct (abs_drop_skip a g _ Hg) as (a' & Hr & Hl & Ht' & Hg' & Hd' & Ho); [congruence|].
  exists a'. split; [done|]. split; [|done]. destruct Hc. split; rewrite ?Hl, ?Ht', ?Hd'; done.
Qed.
Lemma calm_check s cs gs1 g gs2 ds a :
  calm s cs (gs1 ++ g :: gs2) ds a → generation s = gen_at_creation g →
  ∃ a', reaches a a' ∧ calm s cs (gs1 ++ gs2) (Trying g :: ds) a' ∧ owned a' = owned a.
Proof.
  intros Hc He. pose proof (calm_guards _ _ _ _ _ Hc) as Hg. pose proof (calm_generation _ _ _ _ _ Hc) as Eg.
  rewrite <- (Permutation_middle gs1) in Hg. cbn in Hg.
  destruct (abs_drop_check a g _ Hg) as (a' & Hr & Hl & Ht' & Hg' & Hd' & Ho); [congruence|].
  exists a'. split; [done|]. split; [|done]. destruct Hc. split; rewrite ?Hl, ?Ht'; try done.
  rewrite Hd'. cbn. by rewrite calm_drops0.
Qed.
Lemma calm_write s cs gs ds1 g ds2 a :
  calm s cs gs (ds1 ++ Holding g :: ds2) a →
  ∃ a', reaches a a' ∧ calm (write (guard_index g) release s) cs gs (ds1 ++ Written :: ds2) a' ∧ owned a' = owned a.
Proof.
  intros Hc. pose proof (calm_drops _ _ _ _ _ Hc) as Hd. rewrite trying_some in Hd by done.
  pose proof (calm_metrics _ _ _ _ _ Hc) as Hm. rewrite holders_app, holders_cons in Hm. cbn [drop_has_metrics] in Hm.
  assert (Hq : Forall (λ x, busy x = false) cs) by (apply not_busy; lia).
  pose proof (in_step_quiet _ _ _ (calm_lb _ _ _ _ _ Hc) Hq) as Es.
  destruct (abs_drop_write a g _ Hd) as (a' & Hr & Hl & Ht' & Hg' & Hd' & Ho).
  exists a'. split; [done|]. split; [|done]. destruct Hc. split; rewrite ?Hl, ?Ht', ?Hg'; try done.
  - by rewrite holders_app, holders_cons in *.
  - left. split; [done|]. by rewrite Es.
  - by rewrite Hd', trying_none.
Qed.
Lemma calm_contended s cs gs ds1 g ds2 a :
  calm s cs gs (ds1 ++ Trying g :: ds2) a →
  ∃ a', reaches a a' ∧ calm s cs gs (ds1 ++ ds2) a' ∧ owned a' = owned a.
Proof.
  intros Hc. pose proof (calm_drops _ _ _ _ _ Hc) as Hd. rewrite trying_some in Hd by done.
  destruct (abs_drop_contended a g _ Hd) as (a' & Hr & Hl & Ht' & Hg' & Hd' & Ho).
  exists a'. split; [done|]. split; [|done]. destruct Hc. split; rewrite ?Hl, ?Ht', ?Hg'; try done.
  by rewrite holders_app, holders_cons in *.
Qed.
Lemma calm_same s cs gs ds ds' a :
  calm s cs gs ds a → omap trying ds = omap trying ds' →
  holders has_metrics cs + holders drop_has_metrics ds' ≤ 1 → calm s cs gs ds' a.
Proof. intros [] E Hh. split; try done. by rewrite <- E. Qed.

(** *** Dials come and go *)

Lemma in_step_add y cs s abs : in_step cs s abs → busy y = false → in_step (y :: cs) s abs.
Proof.
  intros Hin Hy. apply (in_step_swap y cs [y]); [|done|by repeat constructor].
  destruct Hin as [[Hb ->]|(z & k & E & Hk & Hz)]; [left; by split; [constructor|]|].
  right. exists z, (y :: k). split; [by rewrite E, perm_swap|]. split; [by constructor|done].
Qed.

Lemma calm_enter s cs gs ds a ρ addr :
  calm s cs gs ds a → backends s ≠ [] → calm s (Entered ρ addr :: cs) gs ds a.
Proof. intros [] Hn. split; try done. by apply in_step_add. Qed.

Lemma calm_return s cs1 g (ok : bool) cs2 gs ds a :
  calm s (cs1 ++ Reported g ok :: cs2) gs ds a → calm s (cs1 ++ cs2) ((if ok then [g] else []) ++ gs) ds a.
Proof.
  intros Hc. apply (calm_perm _ _ (Reported g ok :: cs1 ++ cs2) _ gs _ ds) in Hc; [|by rewrite Permutation_middle|done..].
  destruct Hc as [Hm Hst Hl Hb Hg Hn Ht Hgs Hd]. rewrite holders_cons in Hm, Hst. cbn in Hm, Hst. split; try done; try lia.
  - by apply (in_step_swap (Reported g ok) _ []).
  - intros _. by apply Hn.
  - rewrite Hgs. destruct ok; cbn; [|done]. by rewrite <- Permutation_middle.
Qed.

Lemma statement_perm cs cs' ds x s y s' : cs ≡ₚ cs' → statement cs ds x s y s' → statement cs' ds x s y s'.
Proof.
  intros E Hst. assert (Hm : metrics_free cs ds (NoAdmin (B := B)) → metrics_free cs' ds (NoAdmin (B := B))).
  { unfold metrics_free. by rewrite E. }
  assert (Hs : strategy_free cs → strategy_free cs') by (unfold strategy_free; by rewrite E).
  destruct Hst; [eapply st_lock_metrics|eapply st_lock_strategy|eapply st_pick|eapply st_pick_panic|eapply st_count_in
    |eapply st_count_in_panic|eapply st_count_dial|eapply st_count_dial_panic|eapply st_unlock|eapply st_generation
    |eapply st_answer|eapply st_lock_update|eapply st_write|eapply st_drop_metrics|eapply st_lock_report
    |eapply st_report|eapply st_report_panic|eapply st_cancel]; eauto.
Qed.

Lemma sim_call self cs1 x cs2 gs ds os y self' a :
  simulates {| shared := self; calls := cs1 ++ x :: cs2; conns := gs; drops := ds; borrower := NoAdmin; given := os |} a →
  statement (cs1 ++ x :: cs2) ds x self y self' →
  ∃ a', reaches a a' ∧
    simulates {| shared := self'; calls := cs1 ++ option_list y ++ cs2; conns := gs; drops := ds; borrower := NoAdmin; given := os |} a'.
Proof.
  intros (Hok & Hos & Hc & Hag) Hst. cbn in *.
  assert (Hst' : statement (x :: cs1 ++ cs2) ds x self y self').
  { eapply statement_perm; [|exact Hst]. by rewrite Permutation_middle. }
  apply (calm_perm _ _ (x :: cs1 ++ cs2) _ gs _ ds) in Hc; [|by rewrite Permutation_middle|done..].
  destruct (sim_statement _ _ _ _ _ _ _ _ Hc Hst') as (a' & Hr & Hc' & Ho & Hg).
  exists a'. split; [done|]. split; [by eapply reaches_pool_ok|]. split; [by rewrite Ho|]. split; cbn.
  - eapply calm_perm; [|done|done|exact Hc']. by rewrite !app_assoc, (Permutation_app_comm cs1).
  - rewrite (statement_generation _ _ _ _ _ _ Hst'). unfold aged in *. rewrite !omap_app, !Forall_app in *.
    destruct Hag as (Hag1 & Hag2 & Hag3). cbn in Hag3. split; [done|]. split; [done|].
    assert (Hx : aged (generation self) (omap call_guard [x]) ∧ Forall (λ g, (gen_at_creation g ≤ generation self)%Z) (omap call_guard cs2)).
    { cbn. destruct (call_guard x); [|by split; [constructor|]]. apply Forall_cons in Hag3 as [??].
      split; [by repeat constructor|done]. }
    destruct Hx as [Hx Hx2]. split; [|done]. by apply (statement_aged _ _ _ _ _ _ Hst').
Qed.

(** *** Reconfigurations *)

Lemma sim_prepare self gs ds os op a :
  simulates {| shared := self; calls := []; conns := gs; drops := ds; borrower := NoAdmin; given := os |} a →
  (generation self + 1 ≤ usize_MAX)%Z →
  simulates {| shared := prepare (resolve op self) self; calls := []; conns := gs; drops := ds;
    borrower := Prepared op (resolve op self); given := os |} a.
Proof.
  intros (Hok & Hos & Hc & Hag) Hmax. cbn in *. pose proof (in_step_quiet _ _ _ (calm_lb _ _ _ _ _ Hc) ltac:(constructor)) as E.
  destruct Hok as [Hwf Hts]. destruct Hc as [Hm _ _ _ _ _ Ht Hg Hd]. cbn in *. subst self.
  split; [done|]. split; [done|]. split; [done|]. split; [|cbn in Hm; done].
  split; try done.
  - apply prepare_generation; [apply Hwf|done].
  - by apply Permutation_nil_r.
  - exists []. split; [done|]. split; [by left|constructor].
  - by rewrite app_nil_r in Hag.
Qed.

(** The write of the metrics is where the reconfiguration happens; then the
    drops that saw its generation. *)
Lemma sim_apply s gs ds a op j os :
  pool_ok a → os = owned a → prepared s gs ds a op j →
  ∃ a', reaches a a' ∧ pool_ok a' ∧ os ++ brought op = owned a' ∧ applied (apply_metrics j s) gs ds a' j.
Proof.
  intros Hok -> [Hj Hs Hgen Ht Hd (sk & Hg & Hsk & Hold) Hag].
  pose proof (reconfig_statements op (lb a) (proj1 Hok)) as Hrec. rewrite <- Hj, <- Hs in Hrec.
  destruct a as [self ts gs0 ds0 os0]. cbn in *. subst ts.
  pose proof (reaches_step _ _ _ (step_reconfig self gs0 ds0 os0 op _ Hrec)) as Hr.
  destruct (abs_skip_all sk {| lb := conclude j (apply_metrics j s); tasks := []; guards := gs0; dropping := ds0;
    owned := os0 ++ brought op |} gs Hg) as (a' & Hr' & Hl & Ht & Hg' & Hd' & Ho).
  { cbn. rewrite conclude_generation, apply_generation. destruct Hsk as [->|Hb]; [constructor|].
    eapply Forall_impl; [exact Hold|]. intros g Eg. cbn in Eg |- *. rewrite Hb in Hgen. lia. }
  exists a'. cbn in *. split; [by eapply reaches_trans|]. split; [|split; [done|]].
  - eapply reaches_pool_ok; [exact Hr'|]. by eapply reaches_pool_ok.
  - split; try done; [by rewrite Hd'|]. rewrite apply_generation. unfold aged in *.
    eapply Forall_impl; [exact Hag|]. intros g Eg. cbn in *. destruct (bumps j); lia.
Qed.

Lemma sim_conclude s gs ds a op j os :
  simulates {| shared := s; calls := []; conns := gs; drops := ds; borrower := Applied op j; given := os |} a →
  simulates {| shared := conclude j s; calls := []; conns := gs; drops := ds; borrower := NoAdmin; given := os |} a.
Proof.
  intros (Hok & Hos & _ & [Hs Ht Hd Hg Hag] & Hh). cbn in *. split; [done|]. split; [done|]. cbn. split.
  - split; try done; try (by rewrite Hs); [by apply Nat.leb_le|by left|by rewrite Ht|by rewrite app_nil_r].
  - by rewrite app_nil_r, conclude_generation.
Qed.

(** *** One step *)

Lemma drop_free cs ds1 g ds2 (b : admin B) :
  metrics_free cs (ds1 ++ Trying g :: ds2) b →
  holders has_metrics cs = 0 ∧ holders drop_has_metrics (ds1 ++ Holding g :: ds2) = 1 ∧ locked_by_admin b = false.
Proof.
  intros (Hc & Hd & Hb). split; [by apply holders_none|]. split; [|done]. apply holders_none in Hd.
  rewrite holders_app, holders_cons in *. cbn [drop_has_metrics] in *. lia.
Qed.

Lemma aged_less gen gs1 (g : ActiveConnectionGuard) gs2 gs' : aged gen ((gs1 ++ g :: gs2) ++ gs') → aged gen ((gs1 ++ gs2) ++ gs').
Proof. unfold aged. rewrite !Forall_app, Forall_cons. tauto. Qed.

Ltac sim_by L :=
  let a' := fresh "a'" in let Hr := fresh "Hr" in let Hc := fresh "Hc" in let Ho := fresh "Ho" in
  destruct L as (a' & Hr & Hc & Ho); exists a'; split; [exact Hr|];
  split; [by eapply reaches_pool_ok|]; split; [cbn; congruence|].

Lemma sim_drop_skip self cs gs1 g gs2 ds b os a :
  simulates {| shared := self; calls := cs; conns := gs1 ++ g :: gs2; drops := ds; borrower := b; given := os |} a →
  generation self ≠ gen_at_creation g →
  ∃ a', reaches a a' ∧
    simulates {| shared := self; calls := cs; conns := gs1 ++ gs2; drops := ds; borrower := b; given := os |} a'.
Proof.
  intros (Hok & Hos & Hb) Hne. destruct b as [|op j|op j|op j]; cbn in Hb, Hos.
  - destruct Hb as [Hc Hag]. sim_by (calm_skip _ _ _ _ _ _ _ Hc Hne). split; [done|]. by eapply aged_less.
  - destruct Hb as (Hcs & Hp & Hh). sim_by (prepared_skip _ _ _ _ _ _ _ _ Hp Hne). done.
  - destruct Hb as (Hcs & Hp & Hh). sim_by (prepared_skip _ _ _ _ _ _ _ _ Hp Hne). done.
  - destruct Hb as (Hcs & Hp & Hh). sim_by (applied_skip _ _ _ _ _ _ _ Hp Hne). done.
Qed.

Lemma sim_drop_check self cs gs1 g gs2 ds b os a :
  simulates {| shared := self; calls := cs; conns := gs1 ++ g :: gs2; drops := ds; borrower := b; given := os |} a →
  generation self = gen_at_creation g →
  ∃ a', reaches a a' ∧
    simulates {| shared := self; calls := cs; conns := gs1 ++ gs2; drops := Trying g :: ds; borrower := b; given := os |} a'.
Proof.
  intros (Hok & Hos & Hb) Hne. destruct b as [|op j|op j|op j]; cbn in Hb, Hos.
  - destruct Hb as [Hc Hag]. sim_by (calm_check _ _ _ _ _ _ _ Hc Hne). split; [done|]. by eapply aged_less.
  - destruct Hb as (Hcs & Hp & Hh). sim_by (prepared_check _ _ _ _ _ _ _ _ Hp Hne). done.
  - destruct Hb as (Hcs & Hp & Hh). sim_by (prepared_check _ _ _ _ _ _ _ _ Hp Hne). done.
  - destruct Hb as (Hcs & Hp & Hh). sim_by (applied_check _ _ _ _ _ _ _ Hp Hne). done.
Qed.

Lemma sim_drop_contended self cs gs ds1 g ds2 b os a :
  simulates {| shared := self; calls := cs; conns := gs; drops := ds1 ++ Trying g :: ds2; borrower := b; given := os |} a →
  ∃ a', reaches a a' ∧
    simulates {| shared := self; calls := cs; conns := gs; drops := ds1 ++ ds2; borrower := b; given := os |} a'.
Proof.
  assert (Hh : holders drop_has_metrics (ds1 ++ Trying g :: ds2) = holders drop_has_metrics (ds1 ++ ds2))
    by (by rewrite !holders_app, holders_cons).
  intros (Hok & Hos & Hb). destruct b as [|op j|op j|op j]; cbn in Hb, Hos; rewrite ?Hh in Hb.
  - destruct Hb as [Hc Hag]. by sim_by (calm_contended _ _ _ _ _ _ _ Hc).
  - destruct Hb as (Hcs & Hp & Hl). by sim_by (prepared_contended _ _ _ _ _ _ _ _ Hp).
  - destruct Hb as (Hcs & Hp & Hl). by sim_by (prepared_contended _ _ _ _ _ _ _ _ Hp).
  - destruct Hb as (Hcs & Hp & Hl). by sim_by (applied_contended _ _ _ _ _ _ _ Hp).
Qed.

Lemma sim_drop_write self cs gs ds1 g ds2 b os a :
  simulates {| shared := self; calls := cs; conns := gs; drops := ds1 ++ Holding g :: ds2; borrower := b; given := os |} a →
  ∃ a', reaches a a' ∧
    simulates {| shared := write (guard_index g) release self; calls := cs; conns := gs; drops := ds1 ++ Written :: ds2;
      borrower := b; given := os |} a'.
Proof.
  assert (Hh : holders drop_has_metrics (ds1 ++ Holding g :: ds2) = holders drop_has_metrics (ds1 ++ Written :: ds2))
    by (by rewrite !holders_app, !holders_cons).
  intros (Hok & Hos & Hb). destruct b as [|op j|op j|op j]; cbn in Hb, Hos; rewrite ?Hh in Hb.
  - destruct Hb as [Hc Hag]. by sim_by (calm_write _ _ _ _ _ _ _ Hc).
  - destruct Hb as (Hcs & Hp & Hl). by sim_by (prepared_write _ _ _ _ _ _ _ _ Hp).
  - destruct Hb as (Hcs & Hp & Hl). by sim_by (prepared_write _ _ _ _ _ _ _ _ Hp).
  - destruct Hb as (Hcs & Hp & Hl). by sim_by (applied_write _ _ _ _ _ _ _ Hp).
Qed.

(** The lock of a drop is nobody else's business. *)
Lemma sim_drop_same self cs gs ds ds' b os a :
  simulates {| shared := self; calls := cs; conns := gs; drops := ds; borrower := b; given := os |} a →
  omap trying ds = omap trying ds' →
  holders drop_has_metrics ds' ≤ holders drop_has_metrics ds ∨
    (holders has_metrics cs = 0 ∧ holders drop_has_metrics ds' = 1 ∧ locked_by_admin b = false) →
  simulates {| shared := self; calls := cs; conns := gs; drops := ds'; borrower := b; given := os |} a.
Proof.
  intros (Hok & Hos & Hb) E Hh. split; [done|]. split; [done|]. destruct b as [|op j|op j|op j]; cbn in *.
  - destruct Hb as [Hc Hag]. split; [|done]. eapply calm_same; [done..|]. pose proof (calm_metrics _ _ _ _ _ Hc). lia.
  - destruct Hb as (Hcs & Hp & Hl). split; [done|]. split; [by eapply prepared_same|lia].
  - destruct Hb as (Hcs & Hp & Hl). split; [done|]. split; [by eapply prepared_same|]. destruct Hh as [|(_ & _ & ?)]; [lia|done].
  - destruct Hb as (Hcs & Hp & Hl). split; [done|]. split; [by eapply applied_same|lia].
Qed.

Lemma sim_stay (c : sys B) a : simulates c a → ∃ a', reaches a a' ∧ simulates c a'.
Proof. intros Hs. exists a. split; [apply reaches_refl|done]. Qed.

Lemma sim_advance (c c' : sys B) a :
  simulates c a → advance c c' → (generation (shared c) + 1 ≤ usize_MAX)%Z →
  ∃ a', reaches a a' ∧ simulates c' a'.
Proof.
  intros Hsim Hadv Hmax. destruct Hadv as
    [ρ addr self cs gs ds os Hn|self cs1 x cs2 gs ds os y self' Hst|self cs1 g ok cs2 gs ds os
    |self cs gs1 g gs2 ds b os Hg|self cs gs1 g gs2 ds b os Hg|self cs gs ds1 g ds2 b os Hf|self cs gs ds1 g ds2 b os Hf
    |self cs gs ds1 g ds2 b os|self cs gs ds1 ds2 b os|self gs ds os op|self cs gs ds os op j Hj Hf
    |self cs gs ds os op j|self cs gs ds os op j Hj|self cs gs ds os op j]; cbn in Hmax.
  - apply sim_stay. destruct Hsim as (Hok & Hos & Hc & Hag). split; [done|]. split; [done|].
    split; [by apply calm_enter|done].
  - by eapply sim_call.
  - apply sim_stay. destruct Hsim as (Hok & Hos & Hc & Hag). split; [done|]. split; [done|].
    split; [by apply calm_return|]. cbn in *. unfold aged in *. rewrite !omap_app, !Forall_app in *. cbn in Hag.
    apply proj2 in Hag as Hag2. destruct Hag as [Hag1 _], Hag2 as (Hag2 & [Hag3 Hag4]%Forall_cons).
    split_and!; try done. destruct ok; [by repeat constructor|constructor].
  - by apply sim_drop_skip with g.
  - by apply sim_drop_check.
  - apply sim_stay. eapply sim_drop_same; [exact Hsim| |right; by eapply drop_free]. by rewrite !omap_app.
  - by apply sim_drop_contended with g.
  - by apply sim_drop_write.
  - apply sim_stay. eapply sim_drop_same; [exact Hsim|by rewrite trying_none|left].
    rewrite !holders_app, holders_cons. lia.
  - apply sim_stay. by apply sim_prepare.
  - apply sim_stay. destruct Hsim as (Hok & Hos & Hcs & Hp & _). split; [done|]. split; [done|].
    split; [done|]. split; [done|]. apply holders_none. apply Hf.
  - destruct Hsim as (Hok & Hos & Hcs & Hp & Hh). cbn in *.
    destruct (sim_apply _ _ _ _ _ _ _ Hok Hos Hp) as (a' & Hr & Hok' & Ho & Ha). exists a'. split; [done|].
    split; [done|]. split; [done|]. split; [done|]. split; [done|]. cbn. lia.
  - destruct Hsim as (Hok & Hos & Hcs & Hp & Hh). cbn in *.
    destruct (sim_apply _ _ _ _ _ _ _ Hok Hos Hp) as (a' & Hr & Hok' & Ho & Ha). exists a'. split; [done|].
    split; [done|]. split; [done|]. split; [done|]. split; [|done]. by destruct j.
  - apply sim_stay. destruct Hsim as (Hok & Hos & Hcs & Hp). cbn in *. subst cs. by apply (sim_conclude _ _ _ _ op).
Qed.

Lemma advance_generation (c c' : sys B) :
  (0 ≤ generation (shared c))%Z → advance c c' → (generation (shared c) + 1 ≤ usize_MAX)%Z →
  (generation (shared c) ≤ generation (shared c') ≤ generation (shared c) + 1)%Z.
Proof.
  intros H0 Hadv Hmax. destruct Hadv; cbn in *; try lia.
  - erewrite (statement_generation _ _ _ _ _ self') by done. lia.
  - rewrite prepare_generation by done. destruct (bumps _); lia.
  - rewrite apply_generation. lia.
  - rewrite conclude_generation. lia.
Qed.

Lemma sim_boot self : wf self → simulates (boot self) (start self).
Proof.
  intros Hwf. split; [by apply start_pool_ok|]. split; [done|]. cbn. split; [|constructor].
  split; try done; [by apply Nat.leb_le..|]. by left.
Qed.

Lemma sim_run n (c c' : sys B) a :
  nsteps advance n c c' → simulates c a → (0 ≤ generation (shared c))%Z →
  (generation (shared c) + Z.of_nat n ≤ usize_MAX)%Z → ∃ a', reaches a a' ∧ simulates c' a'.
Proof.
  intros Hn. revert a. induction Hn as [c|n c c1 c' Hadv _ IH]; intros a Hs H0 Hmax; [by apply sim_stay|].
  destruct (sim_advance _ _ _ Hs Hadv) as (a1 & Hr1 & Hs1); [lia|].
  pose proof (advance_generation _ _ H0 Hadv ltac:(lia)) as Hg.
  destruct (IH a1 Hs1) as (a2 & Hr2 & Hs2); [lia|lia|]. exists a2. split; [by eapply reaches_trans|done].
Qed.

Lemma prepare_metrics j s : metrics (prepare j s) = metrics s.
Proof. by destruct j. Qed.
Lemma conclude_metrics j s : metrics (conclude j s) = metrics s.
Proof. destruct j as [| | |bs [st|]| | |]; done. Qed.

(** Whoever gets the lock finds the metrics of the atomic system. *)
Lemma simulates_metrics (c : sys B) a :
  simulates c a → metrics_free (calls c) (drops c) (borrower c) → metrics (shared c) = metrics (lb a).
Proof.
  intros (_ & _ & Hb) (Hc & _ & _). destruct (borrower c) as [|op j|op j|op j].
  - destruct Hb as [Hcalm _]. apply holders_none, not_busy in Hc.
    by rewrite (in_step_quiet _ _ _ (calm_lb _ _ _ _ _ Hcalm) Hc).
  - destruct Hb as (_ & [_ -> _ _ _ _ _] & _). apply prepare_metrics.
  - destruct Hb as (_ & [_ -> _ _ _ _ _] & _). apply prepare_metrics.
  - destruct Hb as (_ & [-> _ _ _ _] & _). by rewrite conclude_metrics.
Qed.

Lemma simulates_index (c : sys B) a g :
  simulates c a → Waiting g ∈ calls c → guard_index g < length (backends (shared c)).
Proof.
  intros (Hok & _ & Hb) Hin. destruct (borrower c) as [|op j|op j|op j].
  2-4: destruct Hb as (Hc & _); rewrite Hc in Hin; by apply elem_of_nil in Hin.
  destruct Hb as [Hcalm _]. rewrite (calm_backends _ _ _ _ _ Hcalm). destruct Hok as [_ Hts].
  assert (Ht : {| t_phase := Dialing; t_guard := g |} ∈ tasks a).
  { rewrite (calm_tasks _ _ _ _ _ Hcalm). apply list_elem_of_omap. by exists (Waiting g). }
  rewrite Forall_forall in Hts. by destruct (Hts _ Ht).
Qed.

(** ** Theorem *)

(** C4: the locks make the sections atomic.  Every run of the balancer in which
    dials, drops of guards and reconfigurations interleave statement by
    statement is a run of the system of atomic sections.  The runs include dials
    dropped at any await and unwinding from a panic: in [pick], in the increment
    of a counter, in the backend's dial, in the retry policy, and in
    [report_success] and [report_error], which may have changed the strategy.
    Dials and connections are those of that system, whoever gets the metrics' lock finds its metrics, a dial that
    waits for its backend has an index of the pool, and when nothing is under
    way the two are in the same state and every backend the balancer was ever
    given is in the pool or was shut down, once. *)
Theorem statements_are_atomic self n (c : sys B) :
  wf self → shutdowns self = [] → (generation self + Z.of_nat n ≤ usize_MAX)%Z → nsteps advance n (boot self) c →
  ∃ ls a, run (start self) ls a ∧ simulates c a ∧
    (metrics_free (calls c) (drops c) (borrower c) → metrics (shared c) = metrics (lb a)) ∧
    (∀ g, Waiting g ∈ calls c → guard_index g < length (backends (shared c))) ∧
    (calls c = [] → drops c = [] → borrower c = NoAdmin →
       shared c = lb a ∧ tasks a = [] ∧ dropping a = [] ∧ guards a ≡ₚ conns c ∧
       backends (shared c) ++ shutdowns (shared c) ≡ₚ given c).
Proof.
  intros Hwf Hsd Hmax Hn. destruct (sim_run n (boot self) c (start self) Hn (sim_boot self Hwf)) as (a & [ls Hr] & Hs);
    [apply Hwf|done|]. exists ls, a. split; [done|]. split; [done|].
  split; [by apply simulates_metrics|]. split; [intros g; by eapply simulates_index|].
  intros Hc Hd Hb. destruct Hs as (_ & Hgiven & Hs). rewrite Hb, Hc, Hd in Hs. destruct Hs as [Hcalm _].
  pose proof (in_step_quiet [] _ _ (calm_lb _ _ _ _ _ Hcalm) ltac:(constructor)) as Hlb. split; [done|].
  pose proof (calm_tasks _ _ _ _ _ Hcalm) as Ht. pose proof (calm_drops _ _ _ _ _ Hcalm) as Hdr.
  pose proof (calm_guards _ _ _ _ _ Hcalm) as Hg. rewrite app_nil_r in Hg.
  destruct (run_pool_ok _ _ _ Hr (start_pool_ok self Hwf)) as [_ Hcons].
  { unfold conserved; cbn. by rewrite Hsd, app_nil_r. }
  split_and!; [by apply Permutation_nil_r|by apply Permutation_nil_r|done|]. by rewrite Hlb, Hgiven.
Qed.
End Simulation.

(** ** Witness *)

(** A dial comes in while another has the metrics' lock, waits for the section
    of the first to end, and takes the lock when the first waits for its backend. *)
Ltac free_locks := repeat first [split | apply Forall_nil_2 | apply Forall_cons_2 | reflexivity].
Ltac say pre rule :=
  eapply nsteps_l; [eapply (adv_call (H := dev64)) with (cs1 := pre); eapply rule;
    first [solve [free_locks] | apply run_eq; vm_compute; reflexivity]|cbn [app option_list]].

Lemma two_dials_run :
  ∃ c, nsteps (@advance dev64 nat) 10 (boot demo) c ∧
    calls c = [MetricsHeld rng0 "i:80"; Waiting {| guard_index := 0; gen_at_creation := 0 |}].
Proof.
  pose (later := [Entered rng0 "i:80"]). eexists. split.
  - eapply nsteps_l; [by apply (adv_enter (H := dev64) rng0 "h:80")|].
    say (@nil pc) (st_lock_metrics (H := dev64) (B := nat)).
    eapply nsteps_l; [by apply (adv_enter (H := dev64) rng0 "i:80")|].
    say later (st_lock_strategy (H := dev64) (B := nat)). say later (st_pick (H := dev64) (B := nat)).
    say later (st_count_in (H := dev64) (B := nat)). say later (st_count_dial (H := dev64) (B := nat)).
    say later (st_unlock (H := dev64) (B := nat)). say later (st_generation (H := dev64) (B := nat)).
    say (@nil pc) (st_lock_metrics (H := dev64) (B := nat)). apply nsteps_O.
  - reflexivity.
Qed.

Lemma statements_are_atomic_witness :
  ∃ c ls a, nsteps (@advance dev64 nat) 10 (boot demo) c ∧ @run dev64 nat (start demo) ls a ∧
    simulates (H := dev64) c a ∧ length (backends (shared c)) > 0.
Proof.
  destruct two_dials_run as (c & Hn & Hc).
  destruct (statements_are_atomic (H := dev64) demo 10 c demo_wf eq_refl) as (ls & a & Hr & Hs & _ & Hi & _);
    [vm_compute; discriminate|exact Hn|].
  exists c, ls, a. split; [exact Hn|]. split; [exact Hr|]. split; [exact Hs|].
  apply (Nat.le_lt_trans _ 0); [lia|]. apply (Hi {| guard_index := 0; gen_at_creation := 0 |}).
  rewrite Hc. right. left.
Defined.
