(* ===== verification/Cancel.v ===== *)
(** * Cancelled reconfigurations

    The reconfiguration calls of [src/src/services/balancer.rs] are futures: a
    caller can drop one at any of its awaits (the metrics lock, which a guard's
    drop may hold, the strategy lock, a backend's shutdown).  Each point is the
    part of the call before it; this file says which points keep the pool
    consistent. *)

From stdpp Require Import base tactics list numbers strings.
From S2P Require Import Prelude Errors Constants Strategy Float64 Retry Address Balancer.
From S2P Require Import Strategies Registry BalancerFacts BalancerSpec Concurrent.

Open Scope rota_scope.
Import LoadBalancer.

(** ** The points *)

(** Where the future of a call is dropped: waiting for the metrics lock
    ([AddLock], [RemoveLock], [ReplaceLock]), for the shutdown of a backend
    ([RemoveShutdown]; [ReplaceShutdown] for the old backend [k]), or for the
    lock of a strategy that is being replaced. *)
Inductive cancel_point (B : Type) :=
| AddLock (b : B)
| RemoveLock (i : nat)
| RemoveShutdown (i : nat)
| ReplaceShutdown (new : list B) (k : nat)
| ReplaceLock (new : list B)
| ReplaceStrategyLock (new : list B).
Arguments AddLock {B} b.
Arguments RemoveLock {B} i.
Arguments RemoveShutdown {B} i.
Arguments ReplaceShutdown {B} new k.
Arguments ReplaceLock {B} new.
Arguments ReplaceStrategyLock {B} new.

Section Cancel.
Context `{Target} {B : Type}.
Implicit Types self : t B.

(** [remove_backend] up to the metrics lock; the backend it took out is dropped. *)
Definition remove_to_lock (i : nat) : M (t B) unit :=
  self ← get;
  if decide (length (backends self) ≤ i) then mret tt
  else
    bump_generation;;
    bb ← lift (vec_remove (backends self) i);
    modify (set_backends bb.2);;
    ii ← lift (vec_remove (ids self) i);
    modify (set_ids ii.2).

(** [replace_backends] up to the metrics lock; the new backends are dropped. *)
Definition replace_to_lock (new : list B) : M (t B) unit :=
  if decide (length new = 0) then mret tt
  else
    bump_generation;;
    self ← get;
    modify (set_backends []);;
    shutdown_all (backends self);;
    modify (set_ids (replicate (length new) None)).

(** The part of the call before the point.  A shutdown counts once it was asked
    for; the last two awaits of a call come after all its other changes. *)
Definition cancelled (p : cancel_point B) : M (t B) unit :=
  match p with
  | AddLock _ => mret tt
  | RemoveLock i => remove_to_lock i
  | RemoveShutdown i => remove_backend i;; mret tt
  | ReplaceShutdown new k => if decide (length new = 0) then mret tt else cancelled_replace k
  | ReplaceLock new => replace_to_lock new
  | ReplaceStrategyLock new => replace_backends new None;; mret tt
  end.

(** The points before a lock that come after a first change. *)
Definition torn (self : t B) (p : cancel_point B) : bool :=
  match p with
  | AddLock _ | RemoveShutdown _ | ReplaceStrategyLock _ => false
  | RemoveLock i => bool_decide (i < length (backends self))
  | ReplaceShutdown new _ | ReplaceLock new => negb (bool_decide (length new = 0))
  end.

(** ** Lemmas *)

Lemma remove_to_lock_eq i self b :
  wf self → backends self !! i = Some b →
  ∃ self', remove_to_lock i self = (Ret tt, self') ∧ backends self' = delete i (backends self) ∧
    metrics self' = metrics self ∧ shutdowns self' = shutdowns self ∧ strategy self' = strategy self.
Proof.
  intros (Hids & Hms & _) Hb. pose proof (lookup_lt_Some _ _ _ Hb) as Hi.
  destruct (lookup_lt_is_Some_2 (ids self) i) as [d Hd]; [lia|].
  unfold remove_to_lock, bump_generation. mrun. rewrite decide_False by lia.
  rewrite (vec_remove_lookup _ _ _ Hb), (vec_remove_lookup _ _ _ Hd). by eexists.
Qed.

Lemma replace_to_lock_eq new self :
  new ≠ [] → ∃ self', replace_to_lock new self = (Ret tt, self') ∧ backends self' = [] ∧
    metrics self' = metrics self ∧ strategy self' = strategy self.
Proof.
  intros Hn. unfold replace_to_lock, bump_generation. rewrite decide_False by (by destruct new).
  mrun. rewrite shutdown_all_eq. cbn. by eexists.
Qed.

(** A dial for which the strategy picks an index past the backends panics. *)
Definition picks_past_panic self : Prop :=
  ∀ (C : Type) ρ addr i m d fuel (env : Env B C) timeout policy,
    pick ρ (lb_view addr self) (strategy self) = (Ret i, d) → metrics self !! i = Some m → room m →
    length (backends self) ≤ i → backends self ≠ [] → validate_dial_addr addr = Ok tt → 0 < fuel →
    (dial_with_options fuel ρ env addr timeout policy self).1 = Panic IndexOutOfBounds.

Lemma past_panics self : picks_past_panic self.
Proof.
  intros C ρ addr i m d fuel env timeout policy Ep Hm Hr Hi Hne Hv Hf.
  unfold dial_with_options. rewrite Hv. mrun.
  rewrite decide_False by (by intros ?%nil_length_inv).
  rewrite (select_backend_at _ _ _ _ _ _ Ep Hm Hr). cbn.
  destruct fuel as [|fuel]; [lia|]. cbn. unfold u32_add. rewrite fit_small by done. cbn.
  unfold index. by rewrite lookup_ge_None_2.
Qed.

(** What the theorem says of a point. *)
Definition verdict p self self' : Prop :=
  (torn self p = false → wf self') ∧
  (torn self p = true → length (backends self') < length (metrics self') ∧ picks_past_panic self').

Lemma whole_verdict p self self' : torn self p = false → wf self' → verdict p self self'.
Proof. intros Ht Hwf. split; [done|]. by rewrite Ht. Qed.

Lemma torn_verdict p self self' :
  torn self p = true → length (backends self') < length (metrics self') → verdict p self self'.
Proof. intros Ht Hlt. split; [by rewrite Ht|]. intros _. split; [done|apply past_panics]. Qed.

Lemma remove_verdict i self :
  wf self → ∃ self', cancelled (RemoveLock i) self = (Ret tt, self') ∧ verdict (RemoveLock i) self self'.
Proof.
  intros Hwf. pose proof Hwf as (_ & Hms & _). cbn [cancelled].
  destruct (decide (i < length (backends self))) as [Hi|Hi].
  - destruct (lookup_lt_is_Some_2 _ _ Hi) as [b Hb].
    destruct (remove_to_lock_eq i self b Hwf Hb) as (self' & E & Hbs & Hm & _).
    exists self'. split; [done|]. apply torn_verdict; [by apply bool_decide_true|].
    rewrite Hbs, Hm, length_delete by (by eexists). lia.
  - exists self. split; [unfold remove_to_lock; mrun; by rewrite decide_True by lia|].
    apply whole_verdict; [by apply bool_decide_false|done].
Qed.

(** The points of [replace_backends] before the metrics are replaced. *)
Lemma replace_verdict p (new : list B) self m :
  wf self → backends self ≠ [] → torn self p = negb (bool_decide (length new = 0)) →
  cancelled p self = (if decide (length new = 0) then (Ret tt, self) else m self) →
  (length new ≠ 0 → ∃ self', m self = (Ret tt, self') ∧ backends self' = [] ∧ metrics self' = metrics self) →
  ∃ self', cancelled p self = (Ret tt, self') ∧ verdict p self self'.
Proof.
  intros Hwf Hne Ht Hc Hm. rewrite Hc. case_decide as Hn.
  - exists self. split; [done|]. apply whole_verdict; [by rewrite Ht, bool_decide_true|done].
  - destruct (Hm Hn) as (self' & E & Hb & Hm').
    exists self'. split; [done|]. apply torn_verdict; [by rewrite Ht, bool_decide_false|].
    rewrite Hb, Hm'. destruct Hwf as (_ & -> & _). destruct (backends self); [done|cbn; lia].
Qed.

(** ** Properties *)

(** C38: which cancellations tear the pool.  Dropping a reconfiguration's future
    at a point between the change of the backends and that of the metrics (the
    metrics lock in [remove_backend] and [replace_backends], or a shutdown in
    the latter) leaves fewer backends than metrics; at every other point the
    pool is well formed.  A torn pool still lets the strategy pick from all the
    metrics, and a pick past the backends that are left makes the dial panic. *)
Theorem cancellation_points p self :
  wf self → backends self ≠ [] →
  ∃ self', cancelled p self = (Ret tt, self') ∧
    (torn self p = false → wf self') ∧
    (torn self p = true → length (backends self') < length (metrics self') ∧ picks_past_panic self').
Proof.
  intros Hwf Hne. change (∃ self', cancelled p self = (Ret tt, self') ∧ verdict p self self').
  destruct p as [b|i|i|new k|new|new].
  - exists self. split; [done|]. by apply whole_verdict.
  - by apply remove_verdict.
  - cbn. pose proof (shrinks_remove (RemoveBackend i) i self Hwf eq_refl) as [Hs [b Eb]].
    unfold mbind, M_bind. destruct (remove_backend i self) as [o s1]. cbn in *. subst o.
    exists s1. split; [done|]. apply whole_verdict; [done|]. destruct Hs as [[-> _]|[? _]]; done.
  - apply (replace_verdict _ new _ (cancelled_replace k)); try done.
    + cbn. by case_decide.
    + intros _. unfold cancelled_replace, bump_generation. mrun. rewrite shutdown_all_eq. by eexists.
  - apply (replace_verdict _ new _ (replace_to_lock new)); try done.
    + cbn. unfold replace_to_lock. by case_decide.
    + intros Hn. destruct (replace_to_lock_eq new self) as (self' & E & Hb & Hm & _); [|eauto].
      by intros ->.
  - destruct (decide (new = [])) as [->|Hn]; [exists self; split; [done|]; by apply whole_verdict|].
    cbn. unfold mbind, M_bind. rewrite replace_backends_eq by done. eexists. split; [done|].
    apply whole_verdict; [done|]. eapply (reconfig_wf (ReplaceBackends new None)); [exact Hwf|].
    cbn. unfold mbind, M_bind. by rewrite replace_backends_eq.
Qed.
End Cancel.

(** ** Witnesses *)

(** Removing the first of two backends is cancelled at the lock: one backend is
    left with two metrics, and round robin's second dial panics. *)
Definition torn_pool : t nat := (@cancelled dev64 nat (RemoveLock 0) demo).2.

Lemma cancellation_points_witness :
  ∃ self', @cancelled dev64 nat (RemoveLock 0) demo = (Ret tt, self') ∧
    length (backends self') < length (metrics self').
Proof.
  destruct (cancellation_points (H := dev64) (RemoveLock 0) demo demo_wf) as (self' & E & _ & Ht);
    [discriminate|].
  exists self'. split; [exact E|]. apply Ht. reflexivity.
Defined.

Example torn_pool_panics :
  let first := @dial nat nat dev64 3 rng0 demo_env "h:80" torn_pool in
  is_ok <$> (match first.1 with Ret r => Some r | _ => None end) = Some true ∧
  (@dial nat nat dev64 3 rng0 demo_env "h:80" first.2).1 = Panic IndexOutOfBounds.
Proof. split; vm_compute; reflexivity. Qed.
