(* ===== verification/PoolSpec.v ===== *)
(** * What a pool promises its callers

    The balancer addresses backends by index and recognises an index that a
    reconfiguration made stale by a generation counter.  Callers think in terms
    of backends.  This file states that contract as an abstract machine whose
    dials and connections name the backend itself, with no index, generation or
    counter, and shows that the system of [Concurrent] implements it; and that
    a call of [dial] is the run of its steps. *)

From stdpp Require Import base tactics list numbers strings sets.
From S2P Require Import Prelude Errors Constants Strategy Float64 Retry Address Balancer.
From S2P Require Import Strategies Registry BalancerFacts BalancerSpec Concurrent.

Open Scope rota_scope.
Import LoadBalancer.

(** ** The abstract machine *)

Section Machine.
Context {B : Type}.

(** The backends that take calls, those that were shut down, the backend of
    every dial in flight and of every open connection. *)
Record pool := { members : list B; retired : list B; dials : list B; conns : list B }.

Inductive event :=
| Dial (b : B)                (** a dial goes to a member *)
| Connected (b : B)           (** it returns a connection *)
| Failed (b : B)              (** it returns an error *)
| Abandoned (b : B)           (** the caller dropped it, or it panicked *)
| Closed (b : B)              (** a connection is closed *)
| Changed (new out : list B)  (** [new] join, [out] leave and are shut down *)
| Internal.

Inductive pool_step : pool → event → pool → Prop :=
| pool_dial ms rs ds cs b :
    b ∈ ms →
    pool_step {| members := ms; retired := rs; dials := ds; conns := cs |} (Dial b)
      {| members := ms; retired := rs; dials := b :: ds; conns := cs |}
| pool_connected ms rs ds1 b ds2 cs :
    pool_step {| members := ms; retired := rs; dials := ds1 ++ b :: ds2; conns := cs |} (Connected b)
      {| members := ms; retired := rs; dials := ds1 ++ ds2; conns := b :: cs |}
| pool_failed ms rs ds1 b ds2 cs :
    pool_step {| members := ms; retired := rs; dials := ds1 ++ b :: ds2; conns := cs |} (Failed b)
      {| members := ms; retired := rs; dials := ds1 ++ ds2; conns := cs |}
| pool_abandoned ms rs ds1 b ds2 cs :
    pool_step {| members := ms; retired := rs; dials := ds1 ++ b :: ds2; conns := cs |} (Abandoned b)
      {| members := ms; retired := rs; dials := ds1 ++ ds2; conns := cs |}
| pool_closed ms rs ds cs1 b cs2 :
    pool_step {| members := ms; retired := rs; dials := ds; conns := cs1 ++ b :: cs2 |} (Closed b)
      {| members := ms; retired := rs; dials := ds; conns := cs1 ++ cs2 |}
(** The pool only changes when no dial is in flight. *)
| pool_changed ms rs cs ms' new out :
    ms' ++ out ≡ₚ ms ++ new →
    pool_step {| members := ms; retired := rs; dials := []; conns := cs |} (Changed new out)
      {| members := ms'; retired := rs ++ out; dials := []; conns := cs |}
| pool_internal a : pool_step a Internal a.

Inductive pool_run : pool → list event → pool → Prop :=
| pool_run_nil a : pool_run a [] a
| pool_run_step a e a' es a'' : pool_step a e a' → pool_run a' es a'' → pool_run a (e :: es) a''.

Definition pool_of (self : t B) : pool :=
  {| members := backends self; retired := shutdowns self; dials := []; conns := [] |}.

(** What a step of the system looks like from outside. *)
Definition shows (l : label B) (e : event) : Prop :=
  match l, e with
  | Select, Dial _ => True
  | ReportOk, Connected _ => True
  | ReportErr, Failed _ => True
  | (Cancel | ReportPanic), Abandoned _ => True
  | (DropSkip | DropCheck), Closed _ => True
  | Reconfig op, Changed new _ => new = brought op
  | (SelectPanic | DialOk | DialErr | DropWrite | DropRace | DropContended), Internal => True
  | _, _ => False
  end.

(** The simulation: every dial's index is that of its backend; the index of a
    connection's guard is that of its backend as long as the generation it was
    created in is the current one. *)
Definition implements (c : cfg B) (a : pool) : Prop :=
  members a = backends (lb c) ∧ retired a = shutdowns (lb c) ∧
  Forall2 (λ g b, backends (lb c) !! guard_index g = Some b) (t_guard <$> tasks c) (dials a) ∧
  Forall2 (λ g b, gen_at_creation g = generation (lb c) →
                  backends (lb c) !! guard_index g = Some b) (guards c) (conns a).
End Machine.
#[global] Arguments pool B : clear implicits.
#[global] Arguments event B : clear implicits.

(** ** Lemmas *)

Section Lemmas.
Context `{Target} {B : Type}.
Implicit Types (self : t B) (c : cfg B) (a : pool B).

(** Backends are only ever added to the record of shutdowns. *)
Lemma remove_shutdowns i self :
  wf self → ∃ out, shutdowns (remove_backend i self).2 = shutdowns self ++ out.
Proof.
  intros Hwf. destruct (decide (i < length (backends self))) as [Hi|Hi].
  - destruct (remove_backend_ok i self Hwf Hi) as (b & self' & _ & E & (_ & _ & _ & _ & Hs & _) & _).
    rewrite E. eauto.
  - unfold remove_backend. mrun. rewrite decide_True by lia. exists []. by rewrite app_nil_r.
Qed.

Lemma reconfig_shutdowns op self self' :
  wf self → run_reconfig op self = (Ret tt, self') →
  ∃ out, shutdowns self' = shutdowns self ++ out.
Proof.
  intros Hwf E. pose proof (reconfig_effect op self self' Hwf E) as He.
  destruct (structural op) eqn:Hst.
  2:{ destruct He as (_ & _ & -> & _). exists []. by rewrite app_nil_r. }
  destruct op as [| |i|id|bs s| | |]; try done; cbn [run_reconfig] in E.
  - destruct (remove_shutdowns i self Hwf) as [out Ho]. unfold mbind, M_bind in E.
    destruct (remove_backend i self) as [[] s1]; mrun; simplify_eq. eauto.
  - unfold remove_backend_by_id in E. mrun. destruct (position _ _) as [i|].
    + destruct (remove_shutdowns i self Hwf) as [out Ho].
      destruct (remove_backend i self) as [[] s1]; mrun; simplify_eq. eauto.
    + simplify_eq. exists []. by rewrite app_nil_r.
  - destruct (decide (bs = [])) as [->|Hbs].
    { injection E as <-. exists []. by rewrite app_nil_r. }
    unfold mbind, M_bind in E. rewrite replace_backends_eq in E by done. mrun. simplify_eq.
    cbn. eauto.
Qed.

(** The effect of a reconfiguration on the pool. *)
Lemma reconfig_changed op self self' :
  wf self → run_reconfig op self = (Ret tt, self') →
  ∃ out, shutdowns self' = shutdowns self ++ out ∧
    backends self' ++ out ≡ₚ backends self ++ brought op.
Proof.
  intros Hwf E. destruct (reconfig_shutdowns op self self' Hwf E) as [out Ho]. exists out.
  split; [done|]. pose proof (reconfig_effect op self self' Hwf E) as He.
  assert (Hp : backends self' ++ shutdowns self' ≡ₚ (backends self ++ shutdowns self) ++ brought op).
  { destruct (structural op).
    - destruct He as [[-> ->]|(_ & _ & He)]; [by rewrite app_nil_r|done].
    - destruct He as (_ & _ & -> & -> & _). solve_Permutation. }
  rewrite Ho in Hp. apply (Permutation_app_inv_l (shutdowns self)).
  transitivity (backends self' ++ shutdowns self ++ out); [solve_Permutation|].
  rewrite Hp. solve_Permutation.
Qed.

(** A list related to one with a distinguished element splits the same way. *)
Lemma Forall2_mid {X Y} (P : X → Y → Prop) xs x xs' ys :
  Forall2 P (xs ++ x :: xs') ys →
  ∃ ys1 y ys2, ys = ys1 ++ y :: ys2 ∧ P x y ∧ Forall2 P (xs ++ xs') (ys1 ++ ys2).
Proof.
  intros (ys1 & ys2 & Hl & Hr & ->)%Forall2_app_inv_l.
  apply Forall2_cons_inv_l in Hr as (y & ys2' & Hy & Hr & ->).
  exists ys1, y, ys2'. split_and!; [done..|]. by apply Forall2_app.
Qed.

(** A step that leaves the pool and the guards alone is not seen. *)
Lemma implements_same c c' a :
  implements c a → backends (lb c') = backends (lb c) → shutdowns (lb c') = shutdowns (lb c) →
  generation (lb c') = generation (lb c) → t_guard <$> tasks c' = t_guard <$> tasks c →
  guards c' = guards c → implements c' a.
Proof. unfold implements. by intros Hi -> -> -> -> ->. Qed.

Local Ltac split_dial Hd :=
  rewrite fmap_app, fmap_cons in Hd;
  destruct (Forall2_mid _ _ _ _ _ Hd) as (ds1 & b & ds2 & -> & Hb & Hd').

(** Reconfiguring keeps what current guards point at: either the entries stay,
    or the generation moves past every guard. *)
Lemma reconfig_conns op self self' gs cs :
  wf self → (generation self < usize_MAX)%Z → run_reconfig op self = (Ret tt, self') →
  Forall (λ g, (gen_at_creation g ≤ generation self)%Z) gs →
  Forall2 (λ g b, gen_at_creation g = generation self → backends self !! guard_index g = Some b) gs cs →
  Forall2 (λ g b, gen_at_creation g = generation self' → backends self' !! guard_index g = Some b) gs cs.
Proof.
  intros Hwf Hmax E Hg HF. pose proof (reconfig_effect op self self' Hwf E) as He.
  destruct (structural op).
  - destruct He as [[-> _]|(_ & Hgen & _)]; [done|]. destruct Hwf as (_ & _ & _ & Hr).
    rewrite Z.mod_small in Hgen by lia.
    clear E. induction HF as [|g b gs cs _ _ IH]; [constructor|].
    apply Forall_cons in Hg as [Hg1 Hg]. constructor; [intros ?; lia|by apply IH].
  - destruct He as (_ & -> & _ & -> & _). eapply Forall2_impl; [exact HF|].
    cbn. intros g b Hx Hgen. by apply lookup_app_l_Some, Hx.
Qed.

(** One step of the system is one step of the machine. *)
Lemma implements_step c l c' a :
  pool_ok c → guards_ok c → (generation (lb c) < usize_MAX)%Z → implements c a → step c l c' →
  ∃ e a', shows l e ∧ pool_step a e a' ∧ implements c' a'.
Proof.
  intros [Hwf Hts] Hg Hmax Hi Hs. destruct a as [ms rs dd cc].
  pose proof Hi as (Hm & Hr & Hd & Hc). cbn in Hm, Hr, Hd, Hc. subst ms rs.
  step_cases Hs.
  - destruct (select_keeps _ _ _ _ _ Hwf E) as (_ & (Hb & _ & Hgen & _ & _ & Hsd) & Hlt).
    destruct (lookup_lt_is_Some_2 (backends self) i) as [b Hlook]; [by apply Hlt|].
    exists (Dial b). eexists. split; [done|]. split; [constructor; by eapply list_elem_of_lookup_2|].
    unfold implements; cbn. rewrite Hb, Hsd, Hgen. repeat split; [|done]. by constructor.
  - destruct (select_keeps _ _ _ _ _ Hwf E) as (_ & (Hb & _ & Hgen & _ & _ & Hsd) & _).
    exists Internal. eexists. split; [done|]. split; [constructor|]. by eapply implements_same.
  - injection E as <-. exists Internal. eexists. split; [done|]. split; [constructor|].
    eapply implements_same; [done..| |done]. cbn. by rewrite !fmap_app.
  - injection E as <-. exists Internal. eexists. split; [done|]. split; [constructor|].
    eapply implements_same; [done..| |done]. cbn. by rewrite !fmap_app.
  - apply with_strategy_inv in E as [d ->]. split_dial Hd. exists (Connected b). eexists.
    split; [done|]. split; [constructor|]. unfold implements; cbn. rewrite fmap_app.
    repeat split; [done|]. by constructor.
  - apply with_strategy_inv in E as [d ->]. split_dial Hd. exists (Failed b). eexists.
    split; [done|]. split; [constructor|]. unfold implements; cbn. by rewrite fmap_app.
  - apply with_strategy_inv in E as [d ->]. split_dial Hd. exists (Abandoned b). eexists.
    split; [done|]. split; [constructor|]. unfold implements; cbn. by rewrite fmap_app.
  - split_dial Hd. exists (Abandoned b). eexists.
    split; [done|]. split; [constructor|]. unfold implements; cbn. by rewrite fmap_app.
  - destruct (Forall2_mid _ _ _ _ _ Hc) as (cs1 & b & cs2 & -> & Hb & Hc'). exists (Closed b).
    eexists. split; [done|]. by split; [constructor|].
  - destruct (Forall2_mid _ _ _ _ _ Hc) as (cs1 & b & cs2 & -> & Hb & Hc'). exists (Closed b).
    eexists. split; [done|]. by split; [constructor|].
  - injection E as <-. exists Internal. eexists. split; [by case_decide|]. split; [constructor|].
    by eapply implements_same.
  - exists Internal. eexists. split; [done|]. split; [constructor|]. by eapply implements_same.
  - destruct (reconfig_changed op self self' Hwf E) as (out & Hout & Hperm).
    apply Forall2_nil_inv_l in Hd as ->. exists (Changed (brought op) out). eexists. split; [done|].
    split; [by apply (pool_changed _ _ _ (backends self'))|]. unfold implements; cbn.
    repeat split; [done|constructor|]. eapply reconfig_conns; [done..| |done].
    unfold guards_ok in Hg; cbn in Hg. apply Forall_app in Hg as [Hg _].
    eapply Forall_impl; [exact Hg|]. by intros g [? _].
Qed.

Lemma implements_start self : implements (start self) (pool_of self).
Proof. repeat split; constructor. Qed.

Lemma implements_run c ls c' a :
  run c ls c' → pool_ok c → guards_ok c → (generation (lb c) + Z.of_nat (length ls) ≤ usize_MAX)%Z →
  implements c a → ∃ es a', Forall2 shows ls es ∧ pool_run a es a' ∧ implements c' a'.
Proof.
  intros Hrun. revert a. induction Hrun as [c|c l c1 ls c2 Hs _ IH]; intros a Hp Hg Hlen Hi.
  { exists [], a. repeat split; [constructor|constructor|apply Hi..]. }
  cbn in Hlen. destruct (implements_step c l c1 a) as (e & a1 & He & Ha & Hi1); [done..|lia|done|done|].
  pose proof (step_generation _ _ _ (proj1 Hp) Hs).
  destruct (IH a1) as (es & a2 & Hes & Har & Hi2); [by eapply step_pool_ok| |lia|done|].
  { eapply step_guards_ok; eauto. lia. }
  exists (e :: es), a2. split; [by constructor|]. split; [by econstructor|done].
Qed.

Lemma handed_over_app (ls1 ls2 : list (label B)) :
  handed_over (ls1 ++ ls2) = handed_over ls1 ++ handed_over ls2.
Proof.
  induction ls1 as [|l ls1 IH]; [done|]. destruct l; cbn; rewrite ?IH; [done..|]. by rewrite app_assoc.
Qed.

Lemma step_shutdowns c l c' b :
  wf (lb c) → step c l c' → b ∈ shutdowns (lb c) → b ∈ shutdowns (lb c').
Proof.
  intros Hwf Hs Hb. step_cases Hs; try done; try (injection E as <-; done);
    try (apply with_strategy_inv in E as [d ->]; done).
  - destruct (select_keeps _ _ _ _ _ Hwf E) as (_ & (_ & _ & _ & _ & _ & ->) & _). done.
  - destruct (select_keeps _ _ _ _ _ Hwf E) as (_ & (_ & _ & _ & _ & _ & ->) & _). done.
  - destruct (reconfig_shutdowns op self self' Hwf E) as [out ->]. apply elem_of_app. by left.
Qed.

Lemma run_shutdowns c ls c' b :
  run c ls c' → pool_ok c → b ∈ shutdowns (lb c) → b ∈ shutdowns (lb c').
Proof.
  induction 1 as [c|c l c1 ls c2 Hs _ IH]; intros Hp Hb; [done|].
  apply IH; [by eapply step_pool_ok|]. eapply step_shutdowns; [apply Hp|done..].
Qed.

(** In the machine, a retired backend stays retired, and is not dialled. *)
Lemma pool_run_retired a es a' b :
  pool_run a es a' → NoDup (members a' ++ retired a') → b ∈ retired a →
  b ∈ retired a' ∧ Dial b ∉ es.
Proof.
  assert (Hmono : ∀ a e a', pool_step a e a' → ∃ out, retired a' = retired a ++ out ∧
    (NoDup (members a' ++ retired a') → NoDup (members a ++ retired a))).
  { intros a0 e a0' Hs. destruct Hs as [| | | | |ms rs cs ms' new out Hperm|];
      try (exists []; cbn; rewrite app_nil_r; done). exists out. split; [done|]. cbn. intros Hnd.
    assert (ms' ++ rs ++ out ≡ₚ (ms ++ rs) ++ new) as Hp.
    { transitivity ((ms' ++ out) ++ rs); [solve_Permutation|]. rewrite Hperm. solve_Permutation. }
    rewrite Hp in Hnd. by apply NoDup_app in Hnd as [? _]. }
  assert (Hback : ∀ a es a', pool_run a es a' →
    NoDup (members a' ++ retired a') → NoDup (members a ++ retired a)).
  { induction 1 as [|a0 e a1 es0 a2 Hs _ IH]; [done|]. intros Hnd%IH.
    destruct (Hmono _ _ _ Hs) as (out & _ & Hx). by apply Hx. }
  induction 1 as [a|a e a1 es a2 Hs Hr IH]; intros Hnd Hb; [by split; [|intros ?%elem_of_nil]|].
  destruct (Hmono _ _ _ Hs) as (out & Hout & Hnd0).
  destruct (IH Hnd) as [Hb2 Hes]; [rewrite Hout; apply elem_of_app; by left|]. split; [done|].
  intros [<-|?]%elem_of_cons; [|done]. inversion Hs as [ms rs ds cs b' Hin| | | | | |]; subst.
  specialize (Hnd0 (Hback _ _ _ Hr Hnd)). cbn in *. apply NoDup_app in Hnd0 as (_ & Hdis & _).
  by apply (Hdis b).
Qed.
End Lemmas.

(** ** Properties *)

Section Properties.
Context `{Target} {B : Type}.
Implicit Types self : t B.

(** C3: The system implements the abstract pool.  Every run of dials,
    cancellations, closes and reconfigurations, under any strategy and in both
    profiles (with fewer calls than generations), has a run of the machine with
    the same visible events: each dial goes to a member of the pool, it returns
    or fails for that backend, a reconfiguration happens with no dial in flight
    and shuts down exactly what leaves; and afterwards each dial's index is that
    of its backend, and so is each open connection's while its generation is
    current. *)
Theorem pool_refinement self ls c :
  wf self → (generation self + Z.of_nat (length ls) ≤ usize_MAX)%Z → run (start self) ls c →
  ∃ es a, Forall2 shows ls es ∧ pool_run (pool_of self) es a ∧ implements c a.
Proof.
  intros Hwf Hlen Hrun.
  apply (implements_run _ _ _ _ Hrun (start_pool_ok self Hwf) (start_guards_ok self) Hlen
    (implements_start self)).
Qed.

(** C14: No backend is dialled once it was shut down.  If the backends handed to
    the balancer are distinct, then after a backend was shut down no dial in
    flight, at any later point of any run, is for it. *)
Theorem retired_never_dialled self ls1 c1 ls2 c2 b tk :
  wf self → shutdowns self = [] → NoDup (backends self ++ handed_over (ls1 ++ ls2)) →
  run (start self) ls1 c1 → run c1 ls2 c2 → b ∈ shutdowns (lb c1) → tk ∈ tasks c2 →
  ∃ b', backends (lb c2) !! guard_index (t_guard tk) = Some b' ∧ b' ≠ b.
Proof.
  intros Hwf Hsd Hnd Hrun1 Hrun2 Hb Htk.
  destruct (run_pool_ok _ _ _ Hrun1 (start_pool_ok self Hwf)) as [Hp1 Hc1].
  { unfold conserved; cbn. by rewrite Hsd, app_nil_r. }
  destruct (run_pool_ok _ _ _ Hrun2 Hp1 Hc1) as [[Hwf2 Hts2] Hc2].
  rewrite Forall_forall in Hts2. destruct (Hts2 tk Htk) as [_ Hlt].
  destruct (lookup_lt_is_Some_2 _ _ Hlt) as [b' Hb']. exists b'. split; [done|]. intros ->.
  assert (Hmono : b ∈ shutdowns (lb c2)) by (by eapply run_shutdowns).
  unfold conserved in Hc2. rewrite (run_owned _ _ _ Hrun2), (run_owned _ _ _ Hrun1) in Hc2. cbn in Hc2.
  rewrite <-app_assoc, <-handed_over_app in Hc2. rewrite <-Hc2 in Hnd.
  apply NoDup_app in Hnd as (_ & Hdis & _). by apply (Hdis b); [eapply list_elem_of_lookup_2|].
Qed.

(** C15: A call of [dial] is a run of the system's steps: when it returns, either
    it refused the call and changed nothing, or it selected, dialled and
    reported, and returned the connection whose guard the system then holds, or
    the backend's error. *)
Theorem dial_is_a_run {C} fuel ρ (env : Env B C) addr timeout policy self r self' ts gs ds os :
  dial_with_options fuel ρ env addr timeout policy self = (Ret r, self') →
  let before := {| lb := self; tasks := ts; guards := gs; dropping := ds; owned := os |} in
  (self' = self ∧ ((∃ e, validate_dial_addr addr = Err e ∧ r = Err e) ∨
                   (backends self = [] ∧ r = Err Error.no_backends))) ∨
  (∃ gc, r = Ok gc ∧
     run before [Select; DialOk; ReportOk]
       {| lb := self'; tasks := ts; guards := _guard gc :: gs; dropping := ds; owned := os |}) ∨
  (∃ e, r = Err e ∧
     run before [Select; DialErr; ReportErr]
       {| lb := self'; tasks := ts; guards := gs; dropping := ds; owned := os |}).
Proof.
  intros E before. subst before. unfold dial_with_options in E.
  destruct (validate_dial_addr addr) as [|e] eqn:Hv; [|mrun; simplify_eq; left; eauto 6].
  mrun. case_decide as Hlen.
  { apply nil_length_inv in Hlen. mrun. simplify_eq. left. eauto. }
  assert (Hne : backends self ≠ []) by (by intros Hn; rewrite Hn in Hlen).
  destruct (select_backend ρ addr self) as [[i|p| |] s1] eqn:Es; try done.
  destruct (dial_with_retry _ _ _ _ _ _ _) as [[conn|e]|p| |]; try done; right.
  - left. unfold handle_dial_success in E. mrun.
    destruct (with_strategy _ _) as [[[]|p| |] s2] eqn:Ew; simplify_eq. eexists. split; [done|].
    eapply run_step; [by eapply step_select|].
    eapply run_step; [by eapply (step_ok _ [])|].
    eapply run_step; [by eapply (step_report_ok _ [])|]. apply run_nil.
  - right. unfold handle_dial_error in E. mrun.
    destruct (with_strategy _ _) as [[[]|p| |] s2] eqn:Ew; simplify_eq. eexists. split; [done|].
    eapply run_step; [by eapply step_select|].
    eapply run_step; [by eapply (step_err _ [])|].
    eapply run_step; [by eapply (step_report_err _ [])|]. apply run_nil.
Qed.
End Properties.

(** ** Witnesses *)

(** A connection is opened, its backend removed, another one dialled. *)
Definition retire_trace : list (label nat) :=
  [Select; DialOk; ReportOk; Reconfig (RemoveBackend 0)].

Lemma retire_run :
  ∃ c1, @run dev64 nat (start demo) retire_trace c1 ∧ 10 ∈ shutdowns (lb c1) ∧
    ∃ c2, @run dev64 nat c1 [Select] c2 ∧ length (tasks c2) = 1.
Proof.
  eexists. split; [fire_dial; fire ltac:(eapply (step_reconfig (H := dev64))); apply run_nil|].
  split; [vm_compute; by left|]. eexists. split.
  - eapply run_step; [|apply run_nil].
    eapply (step_select (H := dev64)) with (ρ := rng0) (addr := "h:80"%string);
      [done|apply run_eq; vm_compute; reflexivity].
  - reflexivity.
Qed.

Lemma pool_refinement_witness :
  ∃ c es a, @run dev64 nat (start demo) retire_trace c ∧
    Forall2 shows retire_trace es ∧ pool_run (pool_of demo) es a ∧ implements c a.
Proof.
  destruct retire_run as (c & Hc & _). exists c.
  destruct (pool_refinement (H := dev64) demo retire_trace c demo_wf) as (es & a & He);
    [vm_compute; discriminate|exact Hc|]. by exists es, a.
Defined.

Lemma retired_never_dialled_witness :
  ∃ c1 c2 tk b', @run dev64 nat (start demo) retire_trace c1 ∧ @run dev64 nat c1 [Select] c2 ∧
    tk ∈ tasks c2 ∧ backends (lb c2) !! guard_index (t_guard tk) = Some b' ∧ b' ≠ 10.
Proof.
  destruct retire_run as (c1 & Hc1 & Hb & c2 & Hc2 & Hl).
  destruct (tasks c2) as [|tk ts] eqn:Ht; [discriminate|].
  assert (Htk : tk ∈ tasks c2) by (rewrite Ht; by left).
  destruct (retired_never_dialled (H := dev64) demo retire_trace c1 [Select] c2 10 tk demo_wf eq_refl)
    as (b' & Hb'); [|exact Hc1|exact Hc2|exact Hb|exact Htk|].
  - vm_compute. repeat constructor; set_unfold; lia.
  - by exists c1, c2, tk, b'.
Defined.

Lemma dial_is_a_run_witness :
  ∃ gc self', run (H := dev64) (start demo) [Select; DialOk; ReportOk]
    {| lb := self'; tasks := []; guards := [_guard (gc : GuardedConnection nat)]; dropping := [];
       owned := backends demo |}.
Proof.
  edestruct (dial_is_a_run (H := dev64) 3 rng0 demo_env "h:80" None None demo)
    with (ts := @nil task) (gs := @nil ActiveConnectionGuard) (ds := @nil ActiveConnectionGuard)
         (os := backends demo) as [[_ Hx]|[(gc & _ & Hr)|(e & He & _)]];
    [apply run_eq; vm_compute; reflexivity| |by eexists _, _|discriminate].
  destruct Hx as [(e & He & _)|(He & _)]; discriminate.
Defined.
