(* ===== verification/Locks.v ===== *)
(** * The locks behind the asynchronous calls

    The methods of [LoadBalancer], [Discover], [EtcdDiscovery] and
    [HealthChecker] take tokio's locks across awaits.  The file gives each
    method the sequence of its lock operations and of its waits for something
    outside (a backend, a factory, a client, a timer), lets any number of calls
    interleave over fair locks, and shows that they cannot deadlock, that a
    backend that never answers holds up nobody on a [LoadBalancer], and that on
    a [Discover] it holds up everybody.

    tokio's locks are first in, first out: a request joins the queue of its
    lock, and the head of the queue gets the lock as soon as the holders allow
    it.  [try_write] does not queue.  A future that is dropped, or a task that
    panics, releases what it holds and leaves the queue. *)

From stdpp Require Import base tactics numbers relations functions list.
From S2P Require Import Prelude.

Open Scope rota_scope.

(** ** Lock operations *)

(** [Client]: [EtcdDiscovery::client]; [Lb]: [Discover::lb]; [Metrics] and
    [Strategy]: the fields of [LoadBalancer]; [Checked]: the metrics of a
    [HealthChecker]. *)
Inductive lock := Client | Lb | Metrics | Strategy | Checked.
#[global] Instance lock_eq_dec : EqDecision lock.
Proof. solve_decision. Defined.

(** The order in which they are taken. *)
Definition rank (l : lock) : nat :=
  match l with Client => 0 | Lb => 1 | Metrics => 2 | Strategy => 3 | Checked => 4 end.

Inductive mode := Shared | Exclusive.
#[global] Instance mode_eq_dec : EqDecision mode.
Proof. solve_decision. Defined.

Inductive instr :=
| Acquire (l : lock) (m : mode)
| Release (l : lock)
| Try (l : lock)
| Await (again : bool).   (** for something outside; [again]: it may fail and be asked again *)

Definition holding (l : lock) (m : mode) (body : list instr) : list instr :=
  Acquire l m :: body ++ [Release l].
Definition awaits (n : nat) : list instr := replicate n (Await false).

(** ** The methods *)

(** The selection in [dial_with_options]: the strategy's lock is taken
    with the metrics' lock held. *)
Definition select_locks : list instr := holding Metrics Exclusive (holding Strategy Exclusive []).
(** [handle_dial_success] and [handle_dial_error]: one lock after the other. *)
Definition report_locks : list instr := holding Metrics Exclusive [] ++ holding Strategy Exclusive [].

(** A call of a [LoadBalancer]'s method, with what decides the way it takes. *)
Inductive call :=
| Dial (accepted : bool)             (** or refused: an invalid address, an empty pool *)
| DropGuard (current : bool)
| ReadMetrics
| Shutdown (backends : nat)
| AddBackend
| RemoveBackend (found : bool)
| ReplaceBackends (old : option nat) (strategy : bool)
| DrainBackend (found : bool)
| IsDraining
| UndrainBackend
| SetStrategy
| StrategyName.

Definition call_locks (c : call) : list instr :=
  match c with
  | Dial false => []
  | Dial true => select_locks ++ [Await true] ++ report_locks
  | DropGuard current => if current then [Try Metrics] else []
  | ReadMetrics | IsDraining => holding Metrics Shared []
  | Shutdown n => awaits n
  | AddBackend | UndrainBackend => holding Metrics Exclusive []
  | RemoveBackend found => if found then holding Metrics Exclusive [] ++ [Await false] else []
  | ReplaceBackends None _ => []
  | ReplaceBackends (Some n) s =>
      awaits n ++ holding Metrics Exclusive [] ++ (if s then holding Strategy Exclusive [] else [])
  | DrainBackend found => if found then holding Metrics Exclusive [] else []
  | SetStrategy | StrategyName => holding Strategy Exclusive []
  end.

(** [reconcile]: [removed] backends go, [added] descriptors are made into
    backends, and the factory may fail for the next one. *)
Definition reconcile_locks (removed added : nat) (fails : bool) : list instr :=
  concat (replicate removed (call_locks (RemoveBackend true))) ++
  concat (replicate added (Await false :: call_locks AddBackend)) ++
  (if fails then [Await false] else []).

(** What runs as a task: a call on a shared balancer; a call through
    [Discover::dial] or [load_balancer_arc]; a round of a discovery loop, whose
    source waits, with its client locked when it is etcd's; a tick of a checker. *)
Inductive activity :=
| Direct (c : call)
| ViaDiscover (c : call)
| Round (etcd : bool) (found : option (nat * nat * bool))
| CheckTick.

Definition discover_locks (etcd : bool) : list instr :=
  if etcd then holding Client Exclusive [Await false] else [Await false].

Definition script (a : activity) : list instr :=
  match a with
  | Direct c => call_locks c
  | ViaDiscover c => holding Lb Exclusive (call_locks c)
  | Round etcd None => discover_locks etcd
  | Round etcd (Some (removed, added, fails)) =>
      discover_locks etcd ++ holding Lb Exclusive (reconcile_locks removed added fails)
  | CheckTick => Await false :: holding Checked Exclusive []
  end.

(** ** The system *)

Record task := { held : list (lock * mode); waiting : bool; todo : list instr }.
Record config := { tasks : list task; queue : lock → list nat }.

Definition init : config := {| tasks := []; queue := λ _, [] |}.
Definition start (a : activity) : task := {| held := []; waiting := false; todo := script a |}.

(** The holders of [l] let a request for it in. *)
Definition available (l : lock) (m : mode) (ts : list task) : Prop :=
  Forall (λ t, Forall (λ h, h.1 = l → m = Shared ∧ h.2 = Shared) (held t)) ts.
#[global] Instance available_dec l m ts : Decision (available l m ts).
Proof. apply _. Defined.

Definition without (l : lock) (hs : list (lock * mode)) : list (lock * mode) := filter (λ h, h.1 ≠ l) hs.

Inductive label :=
| Spawned (a : activity)
| Requested (i : nat) (l : lock)
| Granted (i : nat) (l : lock)
| Released (i : nat) (l : lock)
| Tried (i : nat)
| Answered (i : nat)
| Retried (i : nat)
| Unwound (i : nat).

(** Steps that take a call on. *)
Definition own (e : label) : bool := match e with Spawned _ | Retried _ | Unwound _ => false | _ => true end.
Definition answer (e : label) : bool := match e with Answered _ | Retried _ => true | _ => false end.
Definition acts (k : nat) (e : label) : bool :=
  match e with
  | Spawned _ | Retried _ => false
  | Requested i _ | Granted i _ | Released i _ | Tried i | Answered i | Unwound i => bool_decide (i = k)
  end.

Inductive step : label → config → config → Prop :=
| step_spawn a ts q :
    step (Spawned a) {| tasks := ts; queue := q |} {| tasks := ts ++ [start a]; queue := q |}
| step_request i l m hs s ts q :
    ts !! i = Some {| held := hs; waiting := false; todo := Acquire l m :: s |} →
    step (Requested i l) {| tasks := ts; queue := q |}
      {| tasks := <[i := {| held := hs; waiting := true; todo := Acquire l m :: s |}]> ts;
         queue := <[l := q l ++ [i]]> q |}
| step_grant i l m hs s ts q rest :
    ts !! i = Some {| held := hs; waiting := true; todo := Acquire l m :: s |} →
    q l = i :: rest → available l m ts →
    step (Granted i l) {| tasks := ts; queue := q |}
      {| tasks := <[i := {| held := (l, m) :: hs; waiting := false; todo := s |}]> ts;
         queue := <[l := rest]> q |}
| step_release i l hs s ts q :
    ts !! i = Some {| held := hs; waiting := false; todo := Release l :: s |} →
    step (Released i l) {| tasks := ts; queue := q |}
      {| tasks := <[i := {| held := without l hs; waiting := false; todo := s |}]> ts; queue := q |}
| step_try_ok i l hs s ts q :
    ts !! i = Some {| held := hs; waiting := false; todo := Try l :: s |} →
    q l = [] → available l Exclusive ts →
    step (Tried i) {| tasks := ts; queue := q |}
      {| tasks := <[i := {| held := (l, Exclusive) :: hs; waiting := false; todo := Release l :: s |}]> ts;
         queue := q |}
| step_try_fail i l hs s ts q :
    ts !! i = Some {| held := hs; waiting := false; todo := Try l :: s |} →
    ~ (q l = [] ∧ available l Exclusive ts) →
    step (Tried i) {| tasks := ts; queue := q |}
      {| tasks := <[i := {| held := hs; waiting := false; todo := s |}]> ts; queue := q |}
| step_answer i r hs s ts q :
    ts !! i = Some {| held := hs; waiting := false; todo := Await r :: s |} →
    step (Answered i) {| tasks := ts; queue := q |}
      {| tasks := <[i := {| held := hs; waiting := false; todo := s |}]> ts; queue := q |}
(** The attempt failed and the policy wants another one, after a delay: the
    call waits on, as often as the policy says. *)
| step_retry i hs s ts q :
    ts !! i = Some {| held := hs; waiting := false; todo := Await true :: s |} →
    step (Retried i) {| tasks := ts; queue := q |} {| tasks := ts; queue := q |}
| step_unwind i t ts q :
    ts !! i = Some t → todo t ≠ [] →
    step (Unwound i) {| tasks := ts; queue := q |}
      {| tasks := <[i := {| held := []; waiting := false; todo := [] |}]> ts;
         queue := λ l, filter (.≠ i) (q l) |}.

Inductive steps : config → list label → config → Prop :=
| steps_nil c : steps c [] c
| steps_cons e c c1 tr c2 : step e c c1 → steps c1 tr c2 → steps c (e :: tr) c2.

(** ** The lock order *)

(** [ordered strict hs s]: with [hs] held, [s] takes locks above those it holds
    and gives all of them back; if [strict], it holds none while it waits for
    something outside. *)
Definition below (l : lock) (hs : list (lock * mode)) : bool := forallb (λ h, rank h.1 <? rank l) hs.
Fixpoint ordered (strict : bool) (hs : list (lock * mode)) (s : list instr) : bool :=
  match s with
  | [] => bool_decide (hs = [])
  | Acquire l m :: s' => below l hs && ordered strict ((l, m) :: hs) s'
  | Release l :: s' => ordered strict (without l hs) s'
  | Try l :: s' => below l hs && ordered strict hs s'
  | Await _ :: s' => (negb strict || bool_decide (hs = [])) && ordered strict hs s'
  end.

Lemma below_mono r r' hs :
  r ≤ r' → forallb (λ h : lock * mode, rank h.1 <? r) hs = true → forallb (λ h : lock * mode, rank h.1 <? r') hs = true.
Proof.
  intros Hr. induction hs as [|h hs IH]; [done|]. cbn [forallb]. rewrite !andb_true_iff, !Nat.ltb_lt.
  intros [H1 H2]. split; [lia|by apply IH].
Qed.

Lemma without_below l hs : below l hs = true → without l hs = hs.
Proof.
  unfold without, below. induction hs as [|h hs IH]; [done|]. cbn [forallb]. intros [Hr Hh]%andb_true_iff.
  apply Nat.ltb_lt in Hr. rewrite filter_cons_True; [by rewrite IH|]. intros E. subst l. lia.
Qed.

(** A piece of a script that gives back what it takes, from rank [r] up. *)
Definition balanced (strict : bool) (r : nat) (s : list instr) : Prop :=
  ∀ hs k, forallb (λ h, rank h.1 <? r) hs = true → ordered strict hs (s ++ k) = ordered strict hs k.

Lemma balanced_nil strict r : balanced strict r [].
Proof. by intros hs k _. Qed.
Lemma balanced_app strict r s1 s2 : balanced strict r s1 → balanced strict r s2 → balanced strict r (s1 ++ s2).
Proof. intros H1 H2 hs k Hr. by rewrite <- app_assoc, H1, H2. Qed.
Lemma balanced_holding strict r l m body :
  r ≤ rank l → balanced strict (S (rank l)) body → balanced strict r (holding l m body).
Proof.
  intros Hr Hb hs k Hh. unfold holding. rewrite <- app_comm_cons, <- app_assoc. cbn [ordered].
  assert (Hbl : below l hs = true) by (by apply (below_mono r)).
  rewrite Hbl, andb_true_l, Hb; cbn [app ordered].
  - unfold without. rewrite filter_cons_False by (cbn; tauto). fold (without l hs). by rewrite without_below.
  - cbn [forallb fst]. rewrite andb_true_iff, Nat.ltb_lt. split; [lia|]. by apply (below_mono (rank l)); [lia|].
Qed.
Lemma balanced_try strict r l : r ≤ rank l → balanced strict r [Try l].
Proof. intros Hr hs k Hh. cbn. by rewrite (below_mono r (rank l) hs Hr Hh : below l hs = true). Qed.
Lemma balanced_await r again : balanced false r [Await again].
Proof. by intros hs k _. Qed.
(** With nothing held a script may wait. *)
Lemma balanced_await_free again : balanced true 0 [Await again].
Proof. intros [|h hs] k Hh; [done|]. cbn in Hh. by destruct h. Qed.
Lemma balanced_replicate strict r n s : balanced strict r s → balanced strict r (concat (replicate n s)).
Proof. intros Hs. induction n as [|n IH]; [apply balanced_nil|]. by apply balanced_app. Qed.
Lemma awaits_concat n : awaits n = concat (replicate n [Await false]).
Proof. induction n as [|n IH]; [done|]. cbn. by rewrite <- IH. Qed.

Create HintDb locks.
#[export] Hint Resolve balanced_nil balanced_app balanced_holding balanced_try balanced_await
  balanced_await_free balanced_replicate : locks.
#[export] Hint Extern 1 (_ ≤ _) => (cbn; lia) : locks.

Lemma call_locks_balanced c r : r ≤ 2 → balanced false r (call_locks c).
Proof.
  intros Hr. destruct c as [[]|[]| |n| |[]|[n|] []|[]| | | |]; cbn [call_locks]; unfold select_locks, report_locks;
    rewrite ?awaits_concat; auto 20 with locks.
Qed.
Lemma call_locks_free c : balanced true 0 (call_locks c).
Proof.
  destruct c as [[]|[]| |n| |[]|[n|] []|[]| | | |]; cbn [call_locks]; unfold select_locks, report_locks;
    rewrite ?awaits_concat; auto 20 with locks.
Qed.

Lemma balanced_ordered strict s : balanced strict 0 s → ordered strict [] s = true.
Proof. intros Hs. specialize (Hs [] [] eq_refl). by rewrite app_nil_r in Hs. Qed.

(** Every activity takes its locks in order, and a direct call holds none
    while it waits. *)
Lemma script_ordered a : ordered false [] (script a) = true.
Proof.
  apply balanced_ordered. destruct a as [c|c|etcd [[[rm ad] fails]|]|]; cbn [script]; unfold discover_locks, reconcile_locks.
  - by apply call_locks_balanced; lia.
  - apply balanced_holding; [cbn; lia|]. by apply call_locks_balanced.
  - apply balanced_app; [destruct etcd; auto with locks|]. apply balanced_holding; [cbn; lia|].
    apply balanced_app; [apply balanced_replicate, call_locks_balanced; cbn; lia|].
    apply balanced_app; [|destruct fails; auto with locks].
    apply balanced_replicate, (balanced_app _ _ [Await false]); [apply balanced_await|apply call_locks_balanced; cbn; lia].
  - destruct etcd; auto with locks.
  - apply (balanced_app _ _ [Await false]); auto with locks.
Qed.
Lemma direct_ordered c : ordered true [] (script (Direct c)) = true.
Proof. apply balanced_ordered, call_locks_free. Qed.

(** ** The invariant *)

Definition waits (c : config) (i : nat) (l : lock) : Prop :=
  ∃ hs m s, tasks c !! i = Some {| held := hs; waiting := true; todo := Acquire l m :: s |}.

Record inv (strict : bool) (c : config) : Prop := {
  inv_ordered : Forall (λ t, ordered strict (held t) (todo t) = true) (tasks c);
  inv_queue : ∀ l i, i ∈ queue c l ↔ waits c i l;
  inv_nodup : ∀ l, NoDup (queue c l);
  inv_waiting : ∀ i t, tasks c !! i = Some t → waiting t = true → ∃ l m s, todo t = Acquire l m :: s
}.

(** Replacing the task [i]: it waits for nothing or for [l], and the queues say so. *)
Lemma inv_update strict ts q i told t q' :
  inv strict {| tasks := ts; queue := q |} → ts !! i = Some told → ordered strict (held t) (todo t) = true →
  (waiting t = true → ∃ l m s, todo t = Acquire l m :: s) →
  (∀ l, NoDup (q' l)) →
  (∀ l j, j ≠ i → j ∈ q' l ↔ j ∈ q l) →
  (∀ l, i ∈ q' l ↔ waiting t = true ∧ ∃ m s, todo t = Acquire l m :: s) →
  inv strict {| tasks := <[i := t]> ts; queue := q' |}.
Proof.
  intros [Ho Hq Hn Hw] Hi Hot Hwt Hn' Hne Heq. cbn in *. assert (Hlt := lookup_lt_Some _ _ _ Hi).
  split; cbn.
  - by apply Forall_insert.
  - intros l j. unfold waits. cbn. destruct (decide (j = i)) as [->|Hj].
    + rewrite Heq, list_lookup_insert_eq by done. destruct t as [hs w s]; cbn. split.
      * intros (-> & m & s' & ->). by eexists _, _, _.
      * intros (? & m & s' & [= -> -> ->]). eauto.
    + rewrite list_lookup_insert_ne, Hne by done. apply Hq.
  - done.
  - intros j tj Hj. destruct (decide (j = i)) as [->|Hji].
    + rewrite list_lookup_insert_eq in Hj by done. by simplify_eq.
    + rewrite list_lookup_insert_ne in Hj by done. by eapply Hw.
Qed.

(** The queues stay when the task does not wait before and after. *)
Lemma inv_update_same strict ts q i told hs s :
  inv strict {| tasks := ts; queue := q |} → ts !! i = Some told → waiting told = false →
  ordered strict hs s = true →
  inv strict {| tasks := <[i := {| held := hs; waiting := false; todo := s |}]> ts; queue := q |}.
Proof.
  intros Hinv Hi Hw Ho. apply (inv_update strict ts q i told); cbn; try done; [by destruct Hinv|].
  intros l. split; [|by intros [? _]]. intros (hs' & m & s' & E)%(inv_queue _ _ Hinv). cbn in E. by simplify_eq.
Qed.

Lemma task_ordered strict c i t : inv strict c → tasks c !! i = Some t → ordered strict (held t) (todo t) = true.
Proof. intros Hinv Hi. exact (Forall_lookup_1 _ _ _ _ (inv_ordered _ _ Hinv) Hi). Qed.

Lemma spawn_inv strict ts q a :
  inv strict {| tasks := ts; queue := q |} → ordered strict [] (script a) = true →
  inv strict {| tasks := ts ++ [start a]; queue := q |}.
Proof.
  intros [Ho Hq Hn Hw] Ha. cbn in *.
  assert (Hlast : ∀ i t, (ts ++ [start a]) !! i = Some t → waiting t = true → ts !! i = Some t).
  { intros i t [Hi|[_ Hi]]%lookup_app_Some Ht; [done|]. apply list_lookup_singleton_Some in Hi as [_ <-]. done. }
  split; cbn; try done.
  - apply Forall_app_2; [done|]. by apply Forall_singleton.
  - intros l i. rewrite Hq. unfold waits. cbn. split; intros (hs & m & s & E); exists hs, m, s.
    + by apply lookup_app_l_Some.
    + by apply Hlast.
  - intros i t Hi Ht. by eapply Hw; [apply Hlast|].
Qed.

Lemma step_inv strict e c c' :
  (∀ a, e = Spawned a → ordered strict [] (script a) = true) → inv strict c → step e c c' → inv strict c'.
Proof.
  intros Ha Hinv Hst. destruct Hst as [a ts q|i l m hs s ts q Hi|i l m hs s ts q rest Hi Hq Hav
    |i l hs s ts q Hi|i l hs s ts q Hi Hq Hav|i l hs s ts q Hi Hno|i r hs s ts q Hi|i hs s ts q Hi|i t ts q Hi Ht].
  - apply spawn_inv; auto.
  - pose proof (task_ordered _ _ _ _ Hinv Hi) as Ho. cbn in Ho.
    assert (Hni : i ∉ q l). { intros (? & ? & ? & E)%(inv_queue _ _ Hinv). cbn in E. by simplify_eq. }
    apply (inv_update strict ts q i _ _ _ Hinv Hi); cbn; eauto.
    + intros l'. destruct (decide (l = l')) as [<-|Hl]; [rewrite fn_lookup_insert|rewrite fn_lookup_insert_ne by done].
      * apply NoDup_app. split; [apply (inv_nodup _ _ Hinv)|]. split; [|apply NoDup_singleton].
        intros x Hx ->%list_elem_of_singleton. done.
      * apply (inv_nodup _ _ Hinv).
    + intros l' j Hj. destruct (decide (l = l')) as [<-|Hl]; [rewrite fn_lookup_insert|by rewrite fn_lookup_insert_ne].
      rewrite elem_of_app, list_elem_of_singleton. tauto.
    + intros l'. destruct (decide (l = l')) as [<-|Hl]; [rewrite fn_lookup_insert|rewrite fn_lookup_insert_ne by done].
      * rewrite elem_of_app, list_elem_of_singleton. split; [eauto|tauto].
      * split; [|intros (_ & ? & ? & [= <- _ _]); done].
        intros (? & ? & ? & E)%(inv_queue _ _ Hinv). cbn in E. by simplify_eq.
  - pose proof (task_ordered _ _ _ _ Hinv Hi) as [_ Ho]%andb_true_iff. cbn in Ho.
    pose proof (inv_nodup _ _ Hinv l) as Hnd. cbn in Hnd. rewrite Hq in Hnd. apply NoDup_cons in Hnd as [Hnr Hnd].
    apply (inv_update strict ts q i _ _ _ Hinv Hi); cbn; try done.
    + intros l'. destruct (decide (l = l')) as [<-|Hl]; [by rewrite fn_lookup_insert|].
      rewrite fn_lookup_insert_ne by done. apply (inv_nodup _ _ Hinv).
    + intros l' j Hj. destruct (decide (l = l')) as [<-|Hl]; [rewrite fn_lookup_insert|by rewrite fn_lookup_insert_ne].
      rewrite Hq, elem_of_cons. tauto.
    + intros l'. split; [|by intros [? _]].
      destruct (decide (l = l')) as [<-|Hl]; [by rewrite fn_lookup_insert|]. rewrite fn_lookup_insert_ne by done.
      intros (? & ? & ? & E)%(inv_queue _ _ Hinv). cbn in E. by simplify_eq.
  - pose proof (task_ordered _ _ _ _ Hinv Hi) as Ho. by eapply inv_update_same.
  - pose proof (task_ordered _ _ _ _ Hinv Hi) as [Hb Ho]%andb_true_iff. cbn in Hb, Ho.
    eapply inv_update_same; [done..|]. cbn [ordered]. unfold without.
    rewrite filter_cons_False by (cbn; tauto). fold (without l hs). by rewrite without_below.
  - pose proof (task_ordered _ _ _ _ Hinv Hi) as [_ Ho]%andb_true_iff. by eapply inv_update_same.
  - pose proof (task_ordered _ _ _ _ Hinv Hi) as [_ Ho]%andb_true_iff. by eapply inv_update_same.
  - done.
  - apply (inv_update strict ts q i _ _ _ Hinv Hi); cbn; try done.
    + intros l. apply NoDup_filter, (inv_nodup _ _ Hinv).
    + intros l j Hj. rewrite list_elem_of_filter. tauto.
    + intros l. rewrite list_elem_of_filter. split; [by intros [? _]|by intros [? _]].
Qed.

Lemma steps_inv strict c tr c' :
  Forall (λ e, ∀ a, e = Spawned a → ordered strict [] (script a) = true) tr →
  inv strict c → steps c tr c' → inv strict c'.
Proof.
  intros Htr Hinv Hst. induction Hst as [|e c c1 tr c2 Hs _ IH]; [done|].
  apply Forall_cons in Htr as [He Htr]. apply IH; [done|]. by eapply step_inv.
Qed.

Lemma init_inv strict : inv strict init.
Proof.
  split; cbn; [done| |intros; apply NoDup_nil_2|done]. intros l i. split; [by intros ?%elem_of_nil|].
  by intros (? & ? & ? & ?).
Qed.

(** ** Progress *)

(** A step of the calls; if [strict], not an answer from outside. *)
Definition moves (strict : bool) (c c' : config) : Prop :=
  ∃ e, step e c c' ∧ own e = true ∧ (strict = true → answer e = false).

(** A task with something to do can move, or waits for a lock, or (if answers
    do not count) for an answer with no lock held. *)
Lemma task_moves strict c i t :
  inv strict c → tasks c !! i = Some t → todo t ≠ [] →
  (∃ c', moves strict c c') ∨ (∃ l m s, waiting t = true ∧ todo t = Acquire l m :: s) ∨
  (strict = true ∧ held t = [] ∧ ∃ r s, todo t = Await r :: s).
Proof.
  intros Hinv Hi Ht. pose proof (task_ordered _ _ _ _ Hinv Hi) as Ho.
  destruct t as [hs w s], c as [ts q]. cbn in *. destruct w.
  { destruct (inv_waiting _ _ Hinv _ _ Hi eq_refl) as (l & m & s' & E). right. left. eauto. }
  destruct s as [|[l m|l|l|r] s]; [done| | | |].
  - left. eexists _, _. split; [by apply step_request|done].
  - left. eexists _, _. split; [by apply step_release|done].
  - left. destruct (decide (q l = [] ∧ available l Exclusive ts)) as [[Hq Hav]|Hno].
    + eexists _, _. split; [by eapply step_try_ok|done].
    + eexists _, _. split; [by eapply step_try_fail|done].
  - destruct strict.
    + right. right. cbn in Ho. apply andb_true_iff in Ho as [Ho _]. apply bool_decide_eq_true in Ho. eauto.
    + left. eexists _, _. split; [by eapply step_answer|done].
Qed.

Lemma unavailable l m ts : ~ available l m ts → ∃ j t m', ts !! j = Some t ∧ (l, m') ∈ held t.
Proof.
  unfold available. intros Hn. apply not_Forall_Exists, Exists_exists in Hn; [|apply _].
  destruct Hn as (t & [j Hj]%list_elem_of_lookup & Ht).
  apply not_Forall_Exists, Exists_exists in Ht; [|apply _]. destruct Ht as ([l' m'] & Hin & Ht). cbn in Ht.
  exists j, t, m'. split; [done|]. destruct (decide (l' = l)) as [->|Hne]; [done|]. destruct Ht. done.
Qed.

Lemma ordered_holding strict l m hs s : (l, m) ∈ hs → ordered strict hs s = true → s ≠ [].
Proof. intros Hin Ho ->. apply bool_decide_eq_true in Ho. subst hs. by apply elem_of_nil in Hin. Qed.

Lemma below_rank l l' m hs : (l, m) ∈ hs → below l' hs = true → rank l < rank l'.
Proof.
  unfold below. intros Hin Hb. rewrite forallb_forall in Hb. apply Nat.ltb_lt, (Hb (l, m)).
  by apply list_elem_of_In.
Qed.

(** Whoever waits for a lock waits for someone who moves: the holder of the
    lock can, or waits in turn for a lock further up. *)
Lemma waiting_moves strict c i l : inv strict c → i ∈ queue c l → ∃ c', moves strict c c'.
Proof.
  intros Hinv. remember (4 - rank l) as d eqn:Hd. revert i l Hd.
  induction d as [d IH] using lt_wf_ind. intros i l Hd Hin.
  destruct (queue c l) as [|h rest] eqn:Hq; [by apply elem_of_nil in Hin|].
  assert (Hh : h ∈ queue c l) by (rewrite Hq; left). apply (inv_queue _ _ Hinv) in Hh as (hs & m & s & Hh).
  destruct (decide (available l m (tasks c))) as [Hav|Hav].
  { destruct c as [ts q]. eexists _, _. split; [by eapply step_grant|done]. }
  apply unavailable in Hav as (j & t & m' & Hj & Hheld). pose proof (task_ordered _ _ _ _ Hinv Hj) as Ho.
  destruct (task_moves strict c j t Hinv Hj) as [Hmv|[(l' & m2 & s' & Hw & Ht)|(_ & E & _)]]; [|done| |].
  - by eapply ordered_holding.
  - rewrite Ht in Ho. apply andb_true_iff in Ho as [Hb _]. pose proof (below_rank _ _ _ _ Hheld Hb) as Hr.
    assert (rank l' ≤ 4) by (destruct l'; cbn; lia).
    apply (IH (4 - rank l') ltac:(lia) j l' eq_refl), (inv_queue _ _ Hinv).
    destruct t as [ht wt st]. cbn in *. subst. by eexists _, _, _.
  - rewrite E in Hheld. by apply elem_of_nil in Hheld.
Qed.

(** A call is over, or (if answers do not count) waits for one. *)
Definition settled (strict : bool) (t : task) : Prop :=
  todo t = [] ∨ strict = true ∧ held t = [] ∧ ∃ r s, todo t = Await r :: s.

Lemma progress strict c i t :
  inv strict c → tasks c !! i = Some t → settled strict t ∨ ∃ c', moves strict c c'.
Proof.
  intros Hinv Hi. destruct (decide (todo t = [])) as [|Ht]; [by do 2 left|].
  destruct (task_moves strict c i t Hinv Hi Ht) as [Hmv|[(l & m & s & Hw & Hs)|Hs]]; [by right| |by left; right].
  right. apply (waiting_moves strict c i l Hinv), (inv_queue _ _ Hinv).
  destruct t as [ht wt st]. cbn in *. subst. by eexists _, _, _.
Qed.

(** ** How many steps are left *)

Definition cost (x : instr) : nat := match x with Acquire _ _ | Try _ => 2 | Release _ | Await _ => 1 end.
Definition task_cost (t : task) : nat := sum_list (cost <$> todo t) - (if waiting t then 1 else 0).
Definition total_cost (c : config) : nat := sum_list (task_cost <$> tasks c).

Lemma moves_cost strict c c' : moves strict c c' → total_cost c' < total_cost c.
Proof.
  intros (e & Hst & Ho & _). unfold total_cost. destruct Hst; try done; cbn [tasks];
    match goal with
    | Hi : ?ts !! ?i = Some ?t |- context [<[?i := ?t']> ?ts] =>
        pose proof (sum_insert task_cost ts i t t' Hi);
        assert (task_cost t' < task_cost t) by (unfold task_cost; cbn; lia)
    end; lia.
Qed.

(** From every state the calls can all be taken to their end. *)
Lemma can_finish c : inv false c → ∃ k c', nsteps (moves false) k c c' ∧ Forall (λ t, todo t = []) (tasks c').
Proof.
  induction c as [c IH] using (induction_ltof1 _ total_cost). unfold ltof in IH. intros Hinv.
  destruct (decide (Forall (λ t, todo t = []) (tasks c))) as [Hd|Hd].
  { exists 0, c. split; [apply nsteps_O|done]. }
  apply not_Forall_Exists, Exists_exists in Hd; [|apply _]. destruct Hd as (t & [i Hi]%list_elem_of_lookup & Ht).
  destruct (progress false c i t Hinv Hi) as [[|[? _]]|[c1 Hm]]; [done..|].
  destruct (IH c1) as (k & c' & Hk & Hend); [by eapply moves_cost| |].
  { destruct Hm as (e & Hst & Ho & _). eapply step_inv; [|done..]. intros a ->. done. }
  exists (S k), c'. split; [by eapply nsteps_l|done].
Qed.

Lemma moves_bounded strict k c c' : nsteps (moves strict) k c c' → k ≤ total_cost c.
Proof.
  intros Hn. enough (k + total_cost c' ≤ total_cost c) by lia. induction Hn as [c|k c c1 c' Hm _ IH]; [lia|]. apply moves_cost in Hm. lia.
Qed.

(** ** Fairness *)

Definition granted_lock (e : label) : option lock := match e with Granted _ l => Some l | _ => None end.
Definition grants (l : lock) (tr : list label) : nat :=
  length (filter (λ e, granted_lock e = Some l) tr).

Lemma filter_position (P : nat → Prop) `{∀ x, Decision (P x)} (q : list nat) p i :
  q !! p = Some i → P i → ∃ p', p' ≤ p ∧ filter P q !! p' = Some i.
Proof.
  revert p. induction q as [|j q IH]; intros [|p] Hp Hi; try done.
  - cbn in Hp. injection Hp as ->. exists 0. split; [done|]. by rewrite filter_cons_True.
  - destruct (IH p Hp Hi) as (p' & Hle & Hp'). destruct (decide (P j)) as [Hj|Hj].
    + exists (S p'). split; [lia|]. by rewrite filter_cons_True.
    + exists p'. split; [lia|]. by rewrite filter_cons_False.
Qed.

(** A queue only moves forward. *)
Lemma queue_step e c c' l p i :
  step e c c' → queue c l !! p = Some i → e ≠ Granted i l → e ≠ Unwound i →
  ∃ p', queue c' l !! p' = Some i ∧ p' + (if decide (granted_lock e = Some l) then 1 else 0) ≤ p.
Proof.
  intros Hst Hp Hg Hu. destruct Hst as [a ts q|j l' m hs s ts q Hi|j l' m hs s ts q rest Hi Hq Hav
    |j l' hs s ts q Hi|j l' hs s ts q Hi Hq Hav|j l' hs s ts q Hi Hno|j r hs s ts q Hi|j hs s ts q Hi|j t ts q Hi Ht]; cbn in Hp |- *;
    try (exists p; split; [done|]; case_decide; [discriminate|lia]).
  - exists p. split; [|case_decide; [discriminate|lia]]. destruct (decide (l' = l)) as [->|Hl]; [rewrite fn_lookup_insert|by rewrite fn_lookup_insert_ne].
    by apply lookup_app_l_Some.
  - destruct (decide (l' = l)) as [->|Hl].
    + rewrite Hq in Hp. destruct p as [|p]; [cbn in Hp; congruence|]. exists p. rewrite fn_lookup_insert.
      split; [done|]. case_decide; lia.
    + exists p. rewrite fn_lookup_insert_ne by done. split; [done|]. case_decide; [congruence|lia].
  - destruct (filter_position (.≠ j) (q l) p i Hp) as (p' & Hle & Hp'); [congruence|]. exists p'.
    split; [done|]. case_decide; [discriminate|lia].
Qed.

(** Whoever is at position [p] of a queue is overtaken by nobody: at most [p]
    requests get the lock before. *)
Lemma first_come_first_served c tr c' l p i :
  steps c tr c' → queue c l !! p = Some i → Granted i l ∉ tr → Unwound i ∉ tr → grants l tr ≤ p.
Proof.
  intros Hst. revert p. induction Hst as [c|e c c1 tr c2 Hs _ IH]; intros p Hp Hg Hu; [apply Nat.le_0_l|].
  rewrite not_elem_of_cons in Hg, Hu. destruct Hg as [Hg Hg'], Hu as [Hu Hu'].
  destruct (queue_step e c c1 l p i Hs Hp) as (p' & Hp' & Hle); [congruence..|].
  specialize (IH p' Hp' Hg' Hu'). unfold grants in *. rewrite filter_cons. case_decide; cbn; lia.
Qed.

(** ** Exclusion *)

Definition exclusive (c : config) : Prop :=
  ∀ i j ti tj l m m', i ≠ j → tasks c !! i = Some ti → tasks c !! j = Some tj →
    (l, m) ∈ held ti → (l, m') ∈ held tj → m = Shared ∧ m' = Shared.

Lemma exclusive_update ts q q' i told t :
  exclusive {| tasks := ts; queue := q |} → ts !! i = Some told →
  (∀ l m, (l, m) ∈ held t → (l, m) ∈ held told ∨ available l m ts) →
  exclusive {| tasks := <[i := t]> ts; queue := q' |}.
Proof.
  intros He Hi Ht. assert (Hlt := lookup_lt_Some _ _ _ Hi).
  assert (Hone : ∀ j tj l m m', j ≠ i → ts !! j = Some tj → (l, m) ∈ held t → (l, m') ∈ held tj → m = Shared ∧ m' = Shared).
  { intros j tj l m m' Hj Htj Hm Hm'. destruct (Ht l m Hm) as [Hold|Hav].
    - by eapply (He i j).
    - eapply Forall_lookup_1 in Hav; [|exact Htj]. rewrite Forall_forall in Hav. by destruct (Hav _ Hm' eq_refl). }
  intros x y tx ty l m m' Hxy Hx Hy Hm Hm'. cbn in Hx, Hy.
  apply list_lookup_insert_Some in Hx as [(<- & <- & _)|[Hix Hx]];
    apply list_lookup_insert_Some in Hy as [(<- & <- & _)|[Hiy Hy]]; [done| | |by eapply (He x y)].
  - by eapply (Hone y).
  - apply and_comm. by eapply (Hone x).
Qed.

Lemma step_exclusive e c c' : exclusive c → step e c c' → exclusive c'.
Proof.
  intros He Hst. destruct Hst as [a ts q|i l m hs s ts q Hi|i l m hs s ts q rest Hi Hq Hav
    |i l hs s ts q Hi|i l hs s ts q Hi Hq Hav|i l hs s ts q Hi Hno|i r hs s ts q Hi|i hs s ts q Hi|i t ts q Hi Ht].
  - assert (Hlast : ∀ i t h, (ts ++ [start a]) !! i = Some t → h ∈ held t → ts !! i = Some t).
    { intros i t h [Hi|[_ Hi]]%lookup_app_Some Hh; [done|].
      apply list_lookup_singleton_Some in Hi as [_ <-]. by apply elem_of_nil in Hh. }
    intros i j ti tj l m m' Hij Hi Hj Hm Hm'. by eapply (He i j); eauto.
  - apply (exclusive_update ts q _ i _ _ He Hi). by left.
  - apply (exclusive_update ts q _ i _ _ He Hi). intros l' m' [[= -> ->]|Hin]%elem_of_cons; [by right|by left].
  - apply (exclusive_update ts q _ i _ _ He Hi). intros l' m' [_ Hin]%list_elem_of_filter. by left.
  - apply (exclusive_update ts q _ i _ _ He Hi). intros l' m' [[= -> ->]|Hin]%elem_of_cons; [by right|by left].
  - apply (exclusive_update ts q _ i _ _ He Hi). by left.
  - apply (exclusive_update ts q _ i _ _ He Hi). by left.
  - done.
  - apply (exclusive_update ts q _ i _ _ He Hi). by intros l m ?%elem_of_nil.
Qed.

Lemma steps_exclusive c tr c' : exclusive c → steps c tr c' → exclusive c'.
Proof. intros He Hst. induction Hst as [|e c c1 tr c2 Hs _ IH]; [done|]. by eapply IH, step_exclusive. Qed.

(** ** Theorems *)

(** C13: the calls cannot deadlock.  In every state that any number of calls on
    a balancer, through a [Discover] and of its loops can get into, also by
    being dropped, by panicking at any point, or by dialling again for ever: no
    two hold a lock that one of them holds exclusively; as long as a call is not
    over one of them can take a step, and by such steps alone, without new
    calls, drops or retries, all of them can come to their end; and a call that
    waits for a lock is overtaken by nobody who came later. *)
Theorem calls_cannot_deadlock tr c :
  steps init tr c →
  exclusive c ∧
  (∀ i t, tasks c !! i = Some t → todo t ≠ [] → ∃ c', moves false c c') ∧
  (∃ k c', nsteps (moves false) k c c' ∧ Forall (λ t, todo t = []) (tasks c')) ∧
  (∀ l p i tr' c', queue c l !! p = Some i → steps c tr' c' → Granted i l ∉ tr' → Unwound i ∉ tr' → grants l tr' ≤ p).
Proof.
  intros Hst. assert (Hinv : inv false c).
  { apply (steps_inv false init tr c); [|apply init_inv|done]. apply Forall_true. intros e a _. apply script_ordered. }
  split; [by apply (steps_exclusive init tr)|]. split; [|split].
  - intros i t Hi Ht. destruct (progress false c i t Hinv Hi) as [[|[? _]]|]; done.
  - by apply can_finish.
  - intros l p i tr' c' Hp Hs. by apply (first_come_first_served c tr' c').
Qed.

(** C18: a backend that does not answer holds up nobody.  When the calls are made
    on the balancer itself, then without any answer from outside every call
    comes to its end or to a wait of its own, in which it holds no lock: as
    long as there is another one a step is possible, and the steps are bounded. *)
Theorem hung_backends_block_nobody tr c :
  steps init tr c → Forall (λ e, ∀ a, e = Spawned a → ∃ x, a = Direct x) tr →
  (∀ i t, tasks c !! i = Some t → settled true t ∨ ∃ c', moves true c c') ∧
  (∀ k c', nsteps (moves true) k c c' → k ≤ total_cost c).
Proof.
  intros Hst Hd. split; [|intros k c'; apply moves_bounded]. intros i t. apply progress.
  apply (steps_inv true init tr c); [|apply init_inv|done]. eapply Forall_impl; [exact Hd|].
  intros e He a Ha. destruct (He a Ha) as [x ->]. apply direct_ordered.
Qed.

Lemma lock_kept e c c' k tk :
  step e c c' → acts k e = false → tasks c !! k = Some tk → (Lb, Exclusive) ∈ held tk →
  tasks c' !! k = Some tk ∧ granted_lock e ≠ Some Lb.
Proof.
  intros Hst Hk Htk Hh. destruct Hst as [a ts q|i l m hs s ts q Hi|i l m hs s ts q rest Hi Hq Hav
    |i l hs s ts q Hi|i l hs s ts q Hi Hq Hav|i l hs s ts q Hi Hno|i r hs s ts q Hi|i hs s ts q Hi|i t ts q Hi Ht]; cbn in Hk, Htk |- *;
    try (apply bool_decide_eq_false in Hk; rewrite list_lookup_insert_ne by done); (split; [|try done]); try done.
  - by apply lookup_app_l_Some.
  - intros [= ->]. eapply Forall_lookup_1 in Hav; [|exact Htk]. rewrite Forall_forall in Hav.
    by destruct (Hav _ Hh eq_refl).
Qed.

Lemma still_waiting e c c' i t m s :
  step e c c' → granted_lock e ≠ Some Lb → e ≠ Unwound i → tasks c !! i = Some t → todo t = Acquire Lb m :: s →
  ∃ t', tasks c' !! i = Some t' ∧ todo t' = Acquire Lb m :: s.
Proof.
  intros Hst Hg Hu Hi Ht. destruct Hst as [a ts q|j l m' hs s' ts q Hj|j l m' hs s' ts q rest Hj Hq Hav
    |j l hs s' ts q Hj|j l hs s' ts q Hj Hq Hav|j l hs s' ts q Hj Hno|j r hs s' ts q Hj|j hs s' ts q Hj|j t' ts q Hj Ht']; cbn in Hg, Hi |- *;
    try (exists t; split; [by apply lookup_app_l_Some|done]); try (by exists t);
    (destruct (decide (j = i)) as [->|Hji]; [|exists t; by rewrite list_lookup_insert_ne]); simplify_eq/=.
  eexists. split; [apply list_lookup_insert_eq; by eapply lookup_lt_Some|done].
Qed.

(** *** A call at some point of its script *)

Fixpoint locks_after (hs : list (lock * mode)) (s : list instr) : list (lock * mode) :=
  match s with
  | [] => hs
  | Acquire l m :: s' => locks_after ((l, m) :: hs) s'
  | Release l :: s' => locks_after (without l hs) s'
  | _ :: s' => locks_after hs s'
  end.
Definition at_point (a : activity) (p : nat) : task :=
  {| held := locks_after [] (take p (script a)); waiting := false; todo := drop p (script a) |}.

Lemma locks_after_keeps h hs s : h ∈ hs → Forall (.≠ Release h.1) s → h ∈ locks_after hs s.
Proof.
  intros Hin Hs. revert hs Hin. induction Hs as [|x s Hx _ IH]; intros hs Hin; [done|].
  destruct x as [l m|l|l|]; cbn; apply IH; try done; [by right|].
  apply list_elem_of_filter. split; [|done]. congruence.
Qed.

Lemma call_locks_inside x : Forall (.≠ Release Lb) (call_locks x).
Proof.
  assert (Hw : ∀ n, Forall (.≠ Release Lb) (awaits n)) by (intros n; by apply Forall_replicate).
  destruct x as [[]|[]| |n| |[]|[n|] []|[]| | | |]; cbn [call_locks]; auto;
    repeat first [apply Forall_app_2 | apply Forall_nil_2 | apply Forall_cons_2 | discriminate | apply Hw].
Qed.

Lemma discover_wait_holds x p r :
  script (ViaDiscover x) !! p = Some (Await r) → (Lb, Exclusive) ∈ held (at_point (ViaDiscover x) p).
Proof.
  cbn [script]. unfold holding. destruct p as [|p]; [done|]. intros Hp. cbn in Hp.
  assert (Hlt : p < length (call_locks x)).
  { apply lookup_app_Some in Hp as [Hp|[_ Hp]]; [by eapply lookup_lt_Some|].
    by apply list_lookup_singleton_Some in Hp as [_ ?]. }
  unfold at_point. cbn [script]. unfold holding. cbn. rewrite take_app_le by lia.
  apply locks_after_keeps; [by left|]. apply Forall_take, call_locks_inside.
Qed.

(** C39: a call through [Discover] holds up everybody else while it waits for a
    backend.  At each of its waits it holds the lock of the balancer: as long
    as it gets no answer and is not dropped, no other dial, no user of the
    shared balancer and no reconciliation gets the lock, whoever was waiting
    for it still is, and whoever comes waits too. *)
Theorem hung_dial_blocks_discover c k x p r tr c' :
  script (ViaDiscover x) !! p = Some (Await r) → tasks c !! k = Some (at_point (ViaDiscover x) p) →
  steps c tr c' → Forall (λ e, acts k e = false) tr →
  grants Lb tr = 0 ∧
  (∀ i t m s, tasks c !! i = Some t → todo t = Acquire Lb m :: s → Unwound i ∉ tr →
     ∃ t', tasks c' !! i = Some t' ∧ todo t' = Acquire Lb m :: s).
Proof.
  intros Hp Hk Hst Htr. pose proof (discover_wait_holds x p r Hp) as Hh.
  induction Hst as [c|e c c1 tr c2 Hs _ IH]; [by eauto|].
  apply Forall_cons in Htr as [He Htr]. destruct (lock_kept e c c1 k _ Hs He Hk Hh) as [Hk1 Hg].
  destruct (IH Hk1 Htr) as [IHg IHw]. split.
  - unfold grants. by rewrite filter_cons_False.
  - intros i t m s Hi Ht [Hu Hu']%not_elem_of_cons.
    destruct (still_waiting e c c1 i t m s Hs Hg (not_eq_sym Hu) Hi Ht) as (t1 & Hi1 & Ht1). by eapply IHw.
Qed.

(** ** Witnesses *)

(** A dial holds the metrics and waits for the strategy, which another call holds. *)
Definition nested_trace : list label :=
  [Spawned (Direct (Dial true)); Spawned (Direct SetStrategy); Requested 1 Strategy; Granted 1 Strategy;
   Requested 0 Metrics; Granted 0 Metrics; Requested 0 Strategy].

Ltac free_lock := repeat first [apply Forall_nil_2 | apply Forall_cons_2]; intros ?; discriminate.
Ltac walk := eapply steps_cons; [cbn; econstructor; solve [reflexivity | discriminate | cbn; free_lock]|].

Lemma nested_run :
  ∃ c, steps init nested_trace c ∧ queue c Strategy = [0] ∧
    tasks c !! 0 = Some {| held := [(Metrics, Exclusive)]; waiting := true;
      todo := Acquire Strategy Exclusive :: [Release Strategy; Release Metrics; Await true] ++ report_locks |} ∧
    tasks c !! 1 = Some {| held := [(Strategy, Exclusive)]; waiting := false; todo := [Release Strategy] |}.
Proof. eexists. split; [do 7 walk; apply steps_nil|]. split; [reflexivity|]. split; reflexivity. Qed.

Lemma calls_cannot_deadlock_witness :
  ∃ c, steps init nested_trace c ∧ (∃ c', moves false c c') ∧
    (∀ tr' c', steps c tr' c' → Granted 0 Strategy ∉ tr' → Unwound 0 ∉ tr' → grants Strategy tr' ≤ 0).
Proof.
  destruct nested_run as (c & Hr & Hq & H0 & _). exists c. split; [exact Hr|].
  destruct (calls_cannot_deadlock nested_trace c Hr) as (_ & Hmv & _ & Hfifo). split.
  - eapply Hmv; [exact H0|discriminate].
  - intros tr' c'. apply Hfifo. by rewrite Hq.
Defined.

Lemma hung_backends_block_nobody_witness :
  ∃ c, steps init nested_trace c ∧ ∃ c', moves true c c'.
Proof.
  destruct nested_run as (c & Hr & _ & H0 & _). exists c. split; [exact Hr|].
  destruct (hung_backends_block_nobody nested_trace c Hr) as [Hp _].
  - repeat first [apply Forall_nil_2 | apply Forall_cons_2]; intros a E; try discriminate;
      injection E as <-; eexists; reflexivity.
  - destruct (Hp 0 _ H0) as [[E|(_ & E & _)]|Hmv]; [discriminate E|discriminate E|exact Hmv].
Defined.

(** A dial through [Discover] waits for its backend; a round of the discovery
    loop has found a new backend and asks for the balancer. *)
Definition hung_trace : list label :=
  [Spawned (ViaDiscover (Dial true)); Requested 0 Lb; Granted 0 Lb; Requested 0 Metrics; Granted 0 Metrics;
   Requested 0 Strategy; Granted 0 Strategy; Released 0 Strategy; Released 0 Metrics;
   Spawned (Round false (Some (0, 1, false))); Answered 1; Requested 1 Lb].
(** Another dial comes in and asks for it too. *)
Definition later_trace : list label := [Spawned (ViaDiscover (Dial true)); Requested 2 Lb].

Lemma hung_run :
  ∃ c c', steps init hung_trace c ∧ steps c later_trace c' ∧
    tasks c !! 0 = Some (at_point (ViaDiscover (Dial true)) 5) ∧
    tasks c !! 1 = Some {| held := []; waiting := true; todo := holding Lb Exclusive (reconcile_locks 0 1 false) |}.
Proof.
  eexists _, _. split; [do 12 walk; apply steps_nil|]. split; [do 2 walk; apply steps_nil|]. split; reflexivity.
Qed.

Lemma hung_dial_blocks_discover_witness :
  ∃ c c', steps init hung_trace c ∧ steps c later_trace c' ∧ grants Lb later_trace = 0 ∧
    ∃ t', tasks c' !! 1 = Some t' ∧ todo t' = holding Lb Exclusive (reconcile_locks 0 1 false).
Proof.
  destruct hung_run as (c & c' & Hr & Hr' & H0 & H1). exists c, c'. split; [exact Hr|]. split; [exact Hr'|].
  destruct (hung_dial_blocks_discover c 0 (Dial true) 5 true later_trace c' eq_refl H0 Hr') as [Hg Hw].
  - repeat first [apply Forall_nil_2 | apply Forall_cons_2]; reflexivity.
  - split; [exact Hg|]. eapply Hw; [exact H1|reflexivity|].
    intros Hin. repeat (apply elem_of_cons in Hin as [E|Hin]; [discriminate E|]). by apply elem_of_nil in Hin.
Defined.
