(* ===== verification/Scripts.v ===== *)
(** * The scripts of [Locks] and the statements of [Statements]

    Two models of the same method must agree on its locks.  The place of a dial
    in [Statements] is a point of its script in [Locks]: what it holds there is
    what the script has taken and not given back, and every statement moves it
    forward over at most one request of a lock. *)

From stdpp Require Import base tactics list numbers strings.
From S2P Require Import Prelude Strategy Balancer Concurrent Statements Locks.

Open Scope rota_scope.

(** The operations of the script of a dial that are done.  The wait for the
    backend is one operation, however often the dial is retried. *)
Definition position (x : pc) : nat :=
  match x with
  | Entered _ _ => 0
  | MetricsHeld _ _ => 1
  | BothHeld _ _ | Picked _ | CountedIn _ | Selected _ => 2
  | Unlocked _ | Waiting _ => 4
  | Statements.Answered _ _ => 5
  | Updating _ _ _ => 6
  | Reporting _ _ => 7
  | StrategyHeld _ _ | Reported _ _ => 8
  end.
Definition holds (x : pc) (l : lock) : bool :=
  match l with Metrics => has_metrics x | Strategy => has_strategy x | _ => false end.

Definition requests (s : list instr) : nat :=
  length (filter (λ i, match i with Acquire _ _ => true | _ => false end = true) s).

Definition dial_script : list instr := script (Direct (Dial true)).

(** A dial holds what its script says. *)
Lemma position_holds x l :
  holds x l = true ↔ ∃ m : mode, (l, m) ∈ locks_after [] (take (position x) dial_script).
Proof.
  assert (Hsplit : ∀ hs : list (lock * mode), (∃ m : mode, (l, m) ∈ hs) ↔ bool_decide (l ∈ hs.*1) = true).
  { intros hs. rewrite bool_decide_eq_true, list_elem_of_fmap. split.
    - intros [m Hm]. by exists (l, m).
    - intros ([l' m] & -> & Hm). by exists m. }
  rewrite Hsplit. by destruct x, l.
Qed.

(** Every statement of a dial follows its script: it goes forward over at most
    one request, and before and after it the dial holds what the script has
    taken and not given back. *)
Theorem dial_follows_script `{Target} {B} cs ds x (self : LoadBalancer.t B) y self' :
  statement cs ds x self (Some y) self' →
  position x ≤ position y ∧
  requests (drop (position x) (take (position y) dial_script)) ≤ 1 ∧
  ∀ z l, z = x ∨ z = y → holds z l = true ↔ ∃ m : mode, (l, m) ∈ held (at_point (Direct (Dial true)) (position z)).
Proof.
  intros Hst. split; [inversion Hst; subst; cbn; lia|]. split; [|intros z l _; apply position_holds].
  inversion Hst; subst; by apply Nat.leb_le.
Qed.
