(* ===== verification/Health.v ===== *)
(** * Health checking ([src/src/utils/health.rs])

    The active checker's loop body on its counters and the shared metrics, the
    passive [record_dial_result], and [is_healthy].  A tick dials every backend
    under the check timeout; what the backends answer is the environment's.
    A run of the loop is a list of ticks here; [Lifecycle] has the spawn, the
    [select!] and the shutdown that decide which ticks happen. *)

From stdpp Require Import base tactics list numbers strings.
From S2P Require Import Prelude Errors Constants Strategy Float64 Retry Balancer Strategies BalancerFacts.

Open Scope rota_scope.

Inductive HealthState := Healthy | Unhealthy | Unknown.

Record HealthCheckConfig := {
  interval : Duration;
  timeout : Duration;
  unhealthy_threshold : Z;
  healthy_threshold : Z;
  check_addr : string
}.

Definition HealthCheckConfig_default : HealthCheckConfig :=
  {| interval := DEFAULT_HEALTH_CHECK_INTERVAL; timeout := DEFAULT_HEALTH_CHECK_TIMEOUT;
     unhealthy_threshold := DEFAULT_UNHEALTHY_THRESHOLD;
     healthy_threshold := DEFAULT_HEALTHY_THRESHOLD; check_addr := "" |}.

(** ** The active checker *)

Module HealthChecker.
(** What the loop holds: the shared metrics and its two local vectors. *)
Record t := {
  metrics : list TunnelMetrics;
  consecutive_failures : list Z;
  consecutive_successes : list Z
}.

Definition init (backends : nat) (ms : list TunnelMetrics) : t :=
  {| metrics := ms; consecutive_failures := replicate backends 0%Z;
     consecutive_successes := replicate backends 0%Z |}.

Definition set_metrics (ms : list TunnelMetrics) (self : t) : t :=
  {| metrics := ms; consecutive_failures := consecutive_failures self;
     consecutive_successes := consecutive_successes self |}.
Definition set_failures (fs : list Z) (self : t) : t :=
  {| metrics := metrics self; consecutive_failures := fs;
     consecutive_successes := consecutive_successes self |}.
Definition set_successes (ss : list Z) (self : t) : t :=
  {| metrics := metrics self; consecutive_failures := consecutive_failures self;
     consecutive_successes := ss |}.

(** [result.as_ref().is_ok_and(Result::is_ok)] of one check under the timeout. *)
Definition dial_ok {C} (config : HealthCheckConfig) (a : attempt C) : bool :=
  match LoadBalancer.dial_attempt (Some (timeout config)) a with
  | Ret (r, _) => is_ok r
  | _ => false
  end.

(** The body of the loop over the results, for one [(i, result)]. *)
Definition record_check `{Target} (config : HealthCheckConfig) (i : nat) (ok : bool) : M t unit :=
  self ← get;
  match metrics self !! i with
  | None => mret tt
  | Some m =>
      if ok then
        s ← lift (index (consecutive_successes self) i);
        s' ← lift (u32_add s 1);
        modify (set_successes (<[i := s']> (consecutive_successes self)));;
        modify (set_failures (<[i := 0%Z]> (consecutive_failures self)));;
        if (healthy_threshold config <=? s')%Z then
          modify (set_metrics (<[i := set_recent_errors 0 m]> (metrics self)))
        else mret tt
      else
        f ← lift (index (consecutive_failures self) i);
        f' ← lift (u32_add f 1);
        modify (set_failures (<[i := f']> (consecutive_failures self)));;
        modify (set_successes (<[i := 0%Z]> (consecutive_successes self)));;
        modify (set_metrics (<[i := set_total_errors (saturating_add u64_MAX (total_errors m) 1)
                                     (set_recent_errors f' m)]> (metrics self)))
  end.

Fixpoint record_checks `{Target} (config : HealthCheckConfig) (i : nat) (oks : list bool) : M t unit :=
  match oks with
  | [] => mret tt
  | ok :: oks' => record_check config i ok;; record_checks config (S i) oks'
  end.

(** [join_all] of the checks: a panic of one of them unwinds the task. *)
Fixpoint join_checks {B C} (config : HealthCheckConfig) (answers : B → attempt C) (backends : list B) :
    outcome (list bool) :=
  match backends with
  | [] => Ret []
  | b :: rest =>
      _ ← LoadBalancer.dial_attempt (Some (timeout config)) (answers b);
      oks ← join_checks config answers rest;
      Ret (dial_ok config (answers b) :: oks)
  end.

(** One tick: check every backend, then record the results in order. *)
Definition tick {B C} `{Target} (config : HealthCheckConfig) (backends : list B)
    (answers : B → attempt C) : M t unit :=
  oks ← lift (join_checks config answers backends);
  record_checks config 0 oks.

Fixpoint ticks {B C} `{Target} (config : HealthCheckConfig) (backends : list B)
    (rounds : list (B → attempt C)) : M t unit :=
  match rounds with
  | [] => mret tt
  | answers :: rounds' => tick config backends answers;; ticks config backends rounds'
  end.
End HealthChecker.

(** ** Passive monitoring *)

Definition record_dial_result (ms : list TunnelMetrics) (i : nat) (success : bool) : list TunnelMetrics :=
  match ms !! i with
  | None => ms
  | Some m =>
      if success then <[i := set_recent_errors 0 m]> ms
      else <[i := set_total_errors (saturating_add u64_MAX (total_errors m) 1)
                    (set_recent_errors (saturating_add u32_MAX (recent_errors m) 1) m)]> ms
  end.

Definition is_healthy (m : TunnelMetrics) (threshold : Z) : bool := (recent_errors m <? threshold)%Z.

(** ** Specification: one backend on its own *)

Import HealthChecker.

(** A backend's metrics with its two counters, and what one check does to them. *)
Record tracked := { tr_metrics : TunnelMetrics; tr_failures : Z; tr_successes : Z }.

Definition observe (threshold : Z) (x : tracked) (ok : bool) : tracked :=
  if ok then
    {| tr_metrics := if (threshold <=? tr_successes x + 1)%Z then set_recent_errors 0 (tr_metrics x)
                     else tr_metrics x;
       tr_failures := 0; tr_successes := tr_successes x + 1 |}
  else
    {| tr_metrics := set_total_errors (saturating_add u64_MAX (total_errors (tr_metrics x)) 1)
                       (set_recent_errors (tr_failures x + 1) (tr_metrics x));
       tr_failures := tr_failures x + 1; tr_successes := 0 |}.

(** The entry [i] of the checker's state. *)
Definition entry (self : t) (i : nat) : option tracked :=
  m ← metrics self !! i; f ← consecutive_failures self !! i; s ← consecutive_successes self !! i;
  Some {| tr_metrics := m; tr_failures := f; tr_successes := s |}.

(** [n] backends, all with metrics and counters. *)
Definition tracks (n : nat) (self : t) : Prop :=
  length (metrics self) = n ∧ length (consecutive_failures self) = n ∧
  length (consecutive_successes self) = n.

(** Counters that [k] more checks cannot overflow. *)
Definition budget (k : Z) (x : tracked) : Prop :=
  (0 ≤ tr_failures x ∧ tr_failures x + k ≤ u32_MAX ∧
   0 ≤ tr_successes x ∧ tr_successes x + k ≤ u32_MAX)%Z.

(** The results of a backend's checks, over the rounds. *)
Definition history {B C} (config : HealthCheckConfig) (b : B) (rounds : list (B → attempt C)) : list bool :=
  (λ answers, dial_ok config (answers b)) <$> rounds.

(** No check of a round panics. *)
Definition calm {B C} (backends : list B) (answers : B → attempt C) : Prop :=
  ∀ b, b ∈ backends → at_panic (answers b) = None.

(** ** Lemmas *)

(** The checks of a round: all results, or the panic of one of them. *)
Lemma join_checks_cases {B C} config (answers : B → attempt C) backends :
  join_checks config answers backends = Ret ((λ b, dial_ok config (answers b)) <$> backends) ∨
  ∃ b p, b ∈ backends ∧ at_panic (answers b) = Some p ∧ join_checks config answers backends = Panic p.
Proof.
  induction backends as [|b bs IH]; [by left|]. cbn [join_checks].
  assert (Hd : (∃ rt, LoadBalancer.dial_attempt (Some (timeout config)) (answers b) = Ret rt) ∨
    ∃ p, at_panic (answers b) = Some p ∧ LoadBalancer.dial_attempt (Some (timeout config)) (answers b) = Panic p).
  { unfold LoadBalancer.dial_attempt, LoadBalancer.resolved. repeat case_match; eauto. }
  destruct Hd as [[rt ->]|(p & Hp & ->)]; [|right; exists b, p; split; [by left|by split]].
  destruct IH as [-> |(b' & p & Hin & Hp & ->)]; [by left|right]. exists b', p. split; [by right|by split].
Qed.

Lemma join_checks_calm {B C} config (answers : B → attempt C) backends :
  calm backends answers →
  join_checks config answers backends = Ret ((λ b, dial_ok config (answers b)) <$> backends).
Proof.
  intros Hc. destruct (join_checks_cases config answers backends) as [|(b & p & Hin & Hp & _)]; [done|].
  by rewrite (Hc b Hin) in Hp.
Qed.

Section Lemmas.
Context `{Target} (config : HealthCheckConfig).

Lemma entry_insert_ne self ms fs ss i j :
  j ≠ i →
  entry {| metrics := <[i := ms]> (metrics self);
           consecutive_failures := <[i := fs]> (consecutive_failures self);
           consecutive_successes := <[i := ss]> (consecutive_successes self) |} j = entry self j.
Proof. intros Hne. unfold entry; cbn. by rewrite !list_lookup_insert_ne. Qed.

Lemma entry_is_Some n self i : tracks n self → i < n → ∃ m f s,
  metrics self !! i = Some m ∧ consecutive_failures self !! i = Some f ∧
  consecutive_successes self !! i = Some s ∧
  entry self i = Some {| tr_metrics := m; tr_failures := f; tr_successes := s |}.
Proof.
  intros (Hm & Hf & Hs) Hi.
  destruct (lookup_lt_is_Some_2 (metrics self) i) as [m Em]; [lia|].
  destruct (lookup_lt_is_Some_2 (consecutive_failures self) i) as [f Ef]; [lia|].
  destruct (lookup_lt_is_Some_2 (consecutive_successes self) i) as [s Es]; [lia|].
  exists m, f, s. split_and!; try done. unfold entry. by rewrite Em, Ef, Es.
Qed.

(** One result updates its own entry and no other. *)
Lemma record_check_entry n i ok self x :
  tracks n self → i < n → entry self i = Some x → budget 1 x →
  ∃ self', record_check config i ok self = (Ret tt, self') ∧ tracks n self' ∧
    ∀ j, entry self' j = if decide (j = i) then Some (observe (healthy_threshold config) x ok)
                         else entry self j.
Proof.
  intros Ht Hi Hx (_ & Bf & _ & Bs).
  destruct (entry_is_Some n self i Ht Hi) as (m & f & s & Em & Ef & Es & Hx').
  rewrite Hx in Hx'. injection Hx' as ->. cbn in Bf, Bs. destruct Ht as (Hm & Hf & Hs).
  unfold record_check. mrun. rewrite Em. destruct ok; mrun.
  - rewrite (index_lookup _ _ _ Es). unfold u32_add. rewrite fit_small by lia. cbn.
    destruct (healthy_threshold config <=? s + 1)%Z eqn:Et; eexists;
      (split; [reflexivity|]); (split; [unfold tracks; cbn; by rewrite ?length_insert|]);
      intros j; (destruct (decide (j = i)) as [->|Hne];
        [unfold entry, observe; cbn; rewrite ?list_lookup_insert_eq by lia; cbn; rewrite ?Em; cbn; by rewrite ?Et
        |unfold entry; cbn; by rewrite !list_lookup_insert_ne by done]).
  - rewrite (index_lookup _ _ _ Ef). unfold u32_add. rewrite fit_small by lia. cbn.
    eexists. split; [reflexivity|]. split; [unfold tracks; cbn; by rewrite !length_insert|].
    intros j. destruct (decide (j = i)) as [->|Hne].
    + unfold entry, observe; cbn. by rewrite !list_lookup_insert_eq by lia.
    + by apply entry_insert_ne.
Qed.

(** The loop over the results updates each entry with its own result. *)
Lemma record_checks_entries n i oks self :
  tracks n self → i + length oks = n →
  (∀ j x, i ≤ j → entry self j = Some x → budget 1 x) →
  ∃ self', record_checks config i oks self = (Ret tt, self') ∧ tracks n self' ∧
    (∀ j, j < i → entry self' j = entry self j) ∧
    ∀ j ok x, oks !! j = Some ok → entry self (i + j) = Some x →
      entry self' (i + j) = Some (observe (healthy_threshold config) x ok).
Proof.
  revert i self. induction oks as [|ok oks IH]; intros i self Ht Hn Hb; cbn in *.
  { exists self. by split_and!. }
  destruct (entry_is_Some n self i Ht) as (m & f & s & _ & _ & _ & Hx); [lia|].
  destruct (record_check_entry n i ok self _ Ht ltac:(lia) Hx) as (self1 & E1 & Ht1 & He1);
    [by eapply Hb|].
  destruct (IH (S i) self1 Ht1) as (self' & E' & Ht' & Hlt & Hge); [lia| |].
  { intros j x Hj. rewrite He1, decide_False by lia. apply Hb. lia. }
  exists self'. mrun. rewrite E1. split; [done|]. split; [done|]. split.
  - intros j Hj. rewrite Hlt, He1, decide_False by lia. done.
  - intros [|j] ok' x Hok Hxj; cbn in Hok.
    + injection Hok as <-. rewrite Nat.add_0_r in *. rewrite Hlt, He1, decide_True by lia. congruence.
    + replace (i + S j) with (S i + j) in * by lia. apply Hge; [done|].
      rewrite He1, decide_False by lia. done.
Qed.

Lemma observe_budget thr k x ok : (0 ≤ k)%Z → budget (k + 1) x → budget k (observe thr x ok).
Proof. unfold budget, observe. destruct ok; cbn; lia. Qed.

(** All rounds: each backend is tracked on its own. *)
Lemma ticks_entries {B C} (backends : list B) (rounds : list (B → attempt C)) self :
  tracks (length backends) self → Forall (calm backends) rounds →
  (∀ j x, entry self j = Some x → budget (Z.of_nat (length rounds)) x) →
  ∃ self', ticks config backends rounds self = (Ret tt, self') ∧
    ∀ i b x, backends !! i = Some b → entry self i = Some x →
      entry self' i =
        Some (foldl (observe (healthy_threshold config)) x (history config b rounds)).
Proof.
  revert self. induction rounds as [|answers rounds IH]; intros self Ht Hq Hb; cbn [ticks].
  { exists self. by split. }
  apply Forall_cons in Hq as [Hq1 Hq].
  destruct (record_checks_entries (length backends) 0
    ((λ b, dial_ok config (answers b)) <$> backends) self Ht) as (self1 & E1 & Ht1 & _ & He1).
  { by rewrite length_fmap. }
  { intros j x _ Hx. pose proof (Hb j x Hx) as Hbx. unfold budget in *. cbn in Hbx. lia. }
  assert (Hstep : ∀ i b x, backends !! i = Some b → entry self i = Some x →
    entry self1 i = Some (observe (healthy_threshold config) x (dial_ok config (answers b)))).
  { intros i b x Hi Hx. apply He1; [|done]. by rewrite list_lookup_fmap, Hi. }
  destruct (IH self1 Ht1 Hq) as (self' & E' & He').
  { intros j x Hx. destruct (backends !! j) as [b|] eqn:Ej.
    - destruct (entry_is_Some _ self j Ht (lookup_lt_Some _ _ _ Ej)) as (m & f & s & _ & _ & _ & Hx0).
      rewrite (Hstep j b _ Ej Hx0) in Hx. injection Hx as <-. apply observe_budget; [lia|].
      specialize (Hb j _ Hx0). cbn in Hb. by replace (Z.of_nat (length rounds) + 1)%Z
        with (Z.of_nat (S (length rounds))) by lia.
    - exfalso. apply lookup_ge_None_1 in Ej. unfold entry in Hx. destruct Ht1 as (Hm & _).
      by rewrite (lookup_ge_None_2 (metrics self1) j) in Hx by lia. }
  exists self'. unfold tick. mrun. rewrite (join_checks_calm _ _ _ Hq1), E1. split; [done|].
  intros i b x Hi Hx. cbn. by apply He', Hstep.
Qed.
End Lemmas.

(** Failures in a row are counted up; the count is shown until enough successes. *)
Lemma observe_failures thr x k :
  (1 ≤ k) →
  let y := foldl (observe thr) x (replicate k false) in
  tr_failures y = (tr_failures x + Z.of_nat k)%Z ∧ tr_successes y = 0%Z ∧
  recent_errors (tr_metrics y) = (tr_failures x + Z.of_nat k)%Z.
Proof.
  intros Hk. destruct k as [|k]; [lia|]. clear Hk. revert x. induction k as [|k IH]; intros x.
  { cbn. lia. }
  cbn [replicate foldl] in *. destruct (IH (observe thr x false)) as (-> & -> & ->). cbn. lia.
Qed.

Lemma observe_successes thr x j :
  let y := foldl (observe thr) x (replicate j true) in
  tr_successes y = (tr_successes x + Z.of_nat j)%Z ∧
  recent_errors (tr_metrics y) =
    if decide (1 ≤ j ∧ (thr ≤ tr_successes x + Z.of_nat j)%Z) then 0%Z else recent_errors (tr_metrics x).
Proof.
  revert x. induction j as [|j IH]; intros x; cbn [replicate foldl].
  { split; [lia|]. by rewrite decide_False by lia. }
  destruct (IH (observe thr x true)) as [-> ->]. cbn. split; [lia|].
  destruct (thr <=? tr_successes x + 1)%Z eqn:Et; breflect; repeat case_decide; try done; lia.
Qed.

Lemma foldl_reset thr x pre : tr_failures x = 0%Z → (pre = [] ∨ last pre = Some true) →
  tr_failures (foldl (observe thr) x pre) = 0%Z.
Proof.
  intros Hx [->|Hl]; [done|]. apply last_Some in Hl as [pre' ->]. by rewrite foldl_app.
Qed.

Lemma init_tracks n ms : length ms = n → tracks n (init n ms).
Proof. intros. unfold tracks, init; cbn. by rewrite !length_replicate. Qed.

Lemma init_entry n ms i x : entry (init n ms) i = Some x → tr_failures x = 0%Z ∧ tr_successes x = 0%Z.
Proof.
  unfold entry, init; cbn. intros (m & Hm & (f & [-> _]%lookup_replicate & (s & [-> _]%lookup_replicate & [= <-])%bind_Some)%bind_Some)%bind_Some.
  done.
Qed.

Lemma record_failure_lookup ms i m :
  ms !! i = Some m → record_dial_result ms i false !! i =
    Some (set_total_errors (saturating_add u64_MAX (total_errors m) 1)
            (set_recent_errors (saturating_add u32_MAX (recent_errors m) 1) m)).
Proof.
  intros Hm. unfold record_dial_result. rewrite Hm.
  by rewrite list_lookup_insert_eq by (by eapply lookup_lt_Some).
Qed.

Lemma failures_recent i n ms m :
  ms !! i = Some m → recent_errors m = 0%Z → (Z.of_nat n ≤ u32_MAX)%Z →
  ∃ m', Nat.iter n (λ ms, record_dial_result ms i false) ms !! i = Some m' ∧
    recent_errors m' = Z.of_nat n.
Proof.
  intros Hm Hr. induction n as [|n IH]; intros Hn; [by exists m|].
  destruct IH as (m1 & Hm1 & Hr1); [lia|].
  change (Nat.iter (S n) ?f ms) with (f (Nat.iter n f ms)). cbv beta.
  rewrite (record_failure_lookup _ _ _ Hm1). eexists. split; [done|].
  cbn. rewrite Hr1. unfold saturating_add. lia.
Qed.

(** ** Properties *)

(** C26: the checker tracks every backend on its own, with hysteresis.  After
    any number of rounds (fewer than 2^32) in which no backend's dial panicked,
    the loop has not panicked, and if a
    backend's last results are [k] failures after a success (or after the
    start) followed by [j] successes, its recent errors are [k] until [j]
    reaches the healthy threshold, and zero from then on; whatever the other
    backends did. *)
Theorem health_checker_hysteresis `{Target} {B C} config (backends : list B)
    (rounds : list (B → attempt C)) ms i b pre k j :
  length ms = length backends → (Z.of_nat (length rounds) ≤ u32_MAX)%Z → Forall (calm backends) rounds →
  backends !! i = Some b →
  history config b rounds = pre ++ replicate k false ++ replicate j true →
  (pre = [] ∨ last pre = Some true) → 1 ≤ k →
  ∃ self' m', ticks config backends rounds (init (length backends) ms) = (Ret tt, self') ∧
    metrics self' !! i = Some m' ∧
    recent_errors m' =
      if decide (1 ≤ j ∧ (healthy_threshold config ≤ Z.of_nat j)%Z) then 0%Z else Z.of_nat k.
Proof.
  intros Hl Hr Hq Hb Hh Hpre Hk. set (self := init (length backends) ms).
  pose proof (init_tracks (length backends) ms Hl) as Ht.
  destruct (ticks_entries config backends rounds self Ht Hq) as (self' & E & He).
  { intros n x Hx. destruct (init_entry _ _ _ _ Hx) as [Hf Hs]. unfold budget. rewrite Hf, Hs. lia. }
  destruct (entry_is_Some _ self i Ht (lookup_lt_Some _ _ _ Hb)) as (m & f & s & _ & _ & _ & Hx).
  destruct (init_entry _ _ _ _ Hx) as [Hf0 _]. specialize (He i b _ Hb Hx).
  rewrite Hh, !foldl_app in He. set (y := foldl _ _ pre) in He.
  assert (Hy : tr_failures y = 0%Z) by (by apply foldl_reset).
  destruct (observe_failures (healthy_threshold config) y k Hk) as (_ & Hs1 & Hr1).
  destruct (observe_successes (healthy_threshold config)
    (foldl (observe (healthy_threshold config)) y (replicate k false)) j) as [_ Hr2].
  unfold entry in He. apply bind_Some in He as (m' & Hm' & He).
  apply bind_Some in He as (f' & _ & He). apply bind_Some in He as (s' & _ & He).
  injection He as He. exists self', m'. split; [done|]. split; [done|].
  rewrite <-He in Hr2. cbn in Hr2. rewrite Hr2, Hs1, Hr1, Hy. by rewrite !Z.add_0_l.
Qed.

(** The passive monitor is the balancer's bookkeeping.  On a success
    [record_dial_result] does to the metrics what [handle_dial_success] does;
    on a failure it does what [handle_dial_error] does, less the release of the
    active connection; and a backend that failed [n] times in a row is healthy
    for a threshold exactly when [n] is below it. *)
Theorem passive_monitor_agrees {B} (lb : LoadBalancer.t B) i m threshold n :
  LoadBalancer.metrics lb !! i = Some m →
  record_dial_result (LoadBalancer.metrics lb) i true =
    LoadBalancer.metrics (LoadBalancer.handle_dial_success i lb).2 ∧
  set_active_connections (saturating_sub (active_connections m) 1) <$>
      record_dial_result (LoadBalancer.metrics lb) i false !! i =
    LoadBalancer.metrics (LoadBalancer.handle_dial_error i Error.no_backends lb).2 !! i ∧
  (recent_errors m = 0%Z → (Z.of_nat n ≤ u32_MAX)%Z →
   (λ m, is_healthy m threshold) <$>
     Nat.iter n (λ ms, record_dial_result ms i false) (LoadBalancer.metrics lb) !! i =
   Some (Z.of_nat n <? threshold)%Z).
Proof.
  intros Hm. split; [|split].
  - unfold record_dial_result. rewrite Hm.
    unfold LoadBalancer.handle_dial_success, LoadBalancer.with_strategy, LoadBalancer.update_metrics.
    mrun. destruct (report_success _ _) as [o d]. cbn. by rewrite (alter_lookup _ _ _ _ Hm).
  - unfold record_dial_result. rewrite Hm.
    unfold LoadBalancer.handle_dial_error, LoadBalancer.with_strategy, LoadBalancer.update_metrics.
    mrun. destruct (report_error _ _) as [o d].
    rewrite list_lookup_insert_eq by (by eapply lookup_lt_Some).
    destruct o; cbn; rewrite list_lookup_alter_eq, Hm; done.
  - intros Hr Hn. destruct (failures_recent i n (LoadBalancer.metrics lb) m Hm Hr Hn) as (m' & Hm' & Hr').
    rewrite Hm'. cbn. unfold is_healthy. by rewrite Hr'.
Qed.

(** ** Witnesses *)

(** Two backends; the first fails twice and then answers twice, the second
    always answers. *)
Definition check_answer (ok : bool) : attempt nat :=
  {| at_result := if ok then Ok 0 else Err (Error.backend "refused"); at_panic := None; at_latency := Some 0%Z;
     at_lag := 0%Z; at_draw := f64_of_Z 0 |}.
Definition check_rounds : list (nat → attempt nat) :=
  (λ ok b, check_answer (ok || bool_decide (b = 20))) <$> [false; false; true; true].

Lemma health_checker_hysteresis_witness :
  ∃ self' m', @ticks nat nat dev64 HealthCheckConfig_default [10; 20] check_rounds
      (init 2 [TunnelMetrics_default; TunnelMetrics_default]) = (Ret tt, self') ∧
    metrics self' !! 0 = Some m' ∧ recent_errors m' = 0%Z.
Proof.
  apply (health_checker_hysteresis (H := dev64) HealthCheckConfig_default [10; 20] check_rounds
    [TunnelMetrics_default; TunnelMetrics_default] 0 10 [] 2 2);
    [reflexivity|vm_compute; discriminate|by repeat constructor|reflexivity|vm_compute; reflexivity|by left|lia].
Defined.

Lemma passive_monitor_agrees_witness :
  record_dial_result [TunnelMetrics_default] 0 true = [TunnelMetrics_default] ∧
  (λ m, is_healthy m 3) <$> Nat.iter 2 (λ ms, record_dial_result ms 0 false) [TunnelMetrics_default] !! 0 =
    Some true.
Proof.
  destruct (passive_monitor_agrees
    (LoadBalancer.init [10] [TunnelMetrics_default] (@Dyn _ Random_strategy Random.new) None None)
    0 TunnelMetrics_default 3 2 eq_refl) as (H1 & _ & H3).
  split; [exact H1|]. apply H3; [reflexivity|vm_compute; discriminate].
Defined.
