(* ===== verification/Discovery.v ===== *)
(** * Service discovery ([src/src/utils/discovery.rs])

    Descriptors, the static, DNS (SRV) and Consul sources, and the [Discover]
    wrapper with its reconciliation of a balancer's pool.  The etcd source is in
    [Etcd], the wrapper's background loop in [Lifecycle].  The resolver, the
    Consul client and the user's factory are parameters: what they answer. *)

From Stdlib Require Import Ascii.
From stdpp Require Import base tactics list numbers strings pretty gmap.
From S2P Require Import Prelude Errors Constants Strategy Float64 Retry Address Balancer.
From S2P Require Import Strategies Registry BalancerFacts BalancerSpec.

Open Scope rota_scope.
Import LoadBalancer.

(** ** Descriptors *)

Record BackendDescriptor := {
  id : string;
  addr : string;
  metadata : gmap string string;
  weight : option Z;
  health_check : option string
}.

Module Descriptor.
Definition new (i a : string) : BackendDescriptor :=
  {| id := i; addr := a; metadata := ∅; weight := None; health_check := None |}.
Definition with_tag (key value : string) (d : BackendDescriptor) : BackendDescriptor :=
  {| id := id d; addr := addr d; metadata := <[key := value]> (metadata d); weight := weight d;
     health_check := health_check d |}.
Definition with_weight (w : Z) (d : BackendDescriptor) : BackendDescriptor :=
  {| id := id d; addr := addr d; metadata := metadata d; weight := Some w;
     health_check := health_check d |}.
Definition with_health_check (h : string) (d : BackendDescriptor) : BackendDescriptor :=
  {| id := id d; addr := addr d; metadata := metadata d; weight := weight d;
     health_check := Some h |}.
End Descriptor.

(** ** Sources *)

(** The trait: one [discover] call, the suggested interval and the two hooks
    (the wrapper calls [on_start] only). *)
Record ServiceDiscovery := {
  discover : outcome (Result (list BackendDescriptor) Error.t);
  poll_interval : Duration;
  on_start : outcome (Result unit Error.t);
  on_stop : outcome (Result unit Error.t)
}.

(** The trait's defaults. *)
Definition discovery_of (r : Result (list BackendDescriptor) Error.t) : ServiceDiscovery :=
  {| discover := Ret r; poll_interval := DEFAULT_HEALTH_CHECK_INTERVAL; on_start := Ret (Ok tt);
     on_stop := Ret (Ok tt) |}.

Module StaticDiscovery.
Record t := { descriptors : list BackendDescriptor }.
Definition new (ds : list BackendDescriptor) : t := {| descriptors := ds |}.
Definition from_tuples (backends : list (string * string * string)) : t :=
  {| descriptors := (λ '(i, _, a), Descriptor.new i a) <$> backends |}.
Definition source (self : t) : ServiceDiscovery := discovery_of (Ok (descriptors self)).
End StaticDiscovery.

(** [trim_end_matches('.')]. *)
Fixpoint trim_end_dots (s : string) : string :=
  match s with
  | EmptyString => EmptyString
  | String a s' =>
      match trim_end_dots s' with
      | EmptyString => if bool_decide (a = "."%char) then EmptyString else String a EmptyString
      | String _ _ as r => String a r
      end
  end.

Module DnsDiscovery.
(** An SRV record of a response. *)
Record srv := { target : string; port : N; srv_weight : Z }.
Record t := { service_name : string; srv_prefix : string }.

(** The resolver's construction is the argument: [Err] is its error text. *)
Definition new (resolver : Result unit string) (name : string) (_port : Z) : Result t Error.t :=
  match resolver with
  | Err e => Err (Error.backend ("DNS resolver: " +:+ e))
  | Ok _ => Ok {| service_name := name; srv_prefix := DEFAULT_SRV_PREFIX |}
  end.
Definition with_srv_prefix (prefix : string) (self : t) : t :=
  {| service_name := service_name self; srv_prefix := prefix |}.

Definition descriptor (r : srv) : BackendDescriptor :=
  {| id := target r +:+ ":" +:+ pretty (port r);
     addr := trim_end_dots (target r) +:+ ":" +:+ pretty (port r);
     metadata := ∅; weight := Some (srv_weight r); health_check := None |}.

(** [srv_lookup] is the resolver's answer to the name it is asked for. *)
Definition discover (srv_lookup : string → Result (list srv) string) (self : t) :
    Result (list BackendDescriptor) Error.t :=
  match srv_lookup (srv_prefix self +:+ "." +:+ service_name self) with
  | Err e => Err (Error.backend ("DNS lookup failed: " +:+ e))
  | Ok rs => Ok (descriptor <$> rs)
  end.
End DnsDiscovery.

Module ConsulDiscovery.
(** An entry of the catalogue's response. *)
Record entry := {
  service_id : option string;
  service_address : option string;
  service_port : option N;
  service_tags : option (list string);
  service_meta : option (gmap string string)
}.
Record t := { service_name : string; tag_filter : option string }.

(** The two constructions of the client library are the arguments. *)
Definition new (settings client : Result unit string) (name : string) : Result t Error.t :=
  match settings with
  | Err e => Err (Error.backend ("consul settings: " +:+ e))
  | Ok _ =>
      match client with
      | Err e => Err (Error.backend ("consul client: " +:+ e))
      | Ok _ => Ok {| service_name := name; tag_filter := None |}
      end
  end.
Definition with_tag (tag : string) (self : t) : t :=
  {| service_name := service_name self; tag_filter := Some tag |}.

(** [tags.join(",")]. *)
Fixpoint join (tags : list string) : string :=
  match tags with
  | [] => ""
  | [s] => s
  | s :: rest => s +:+ "," +:+ join rest
  end.

(** The tag filter: an entry is skipped when it has tags and not this one. *)
Definition skipped_by_tag (self : t) (e : entry) : bool :=
  match tag_filter self, service_tags e with
  | Some tag, Some tags => negb (bool_decide (tag ∈ tags))
  | _, _ => false
  end.

Definition entry_metadata (e : entry) : gmap string string :=
  let m := default ∅ (service_meta e) in
  match service_tags e with Some tags => <["tags" := join tags]> m | None => m end.

(** One iteration of the loop: the descriptor it pushes, if it does not [continue]. *)
Definition descriptor (self : t) (e : entry) : option BackendDescriptor :=
  if skipped_by_tag self e then None
  else
    match service_address e, service_port e with
    | Some address, Some port =>
        if bool_decide (address = "") || bool_decide (port = 0%N) then None
        else Some {| id := default "" (service_id e); addr := address +:+ ":" +:+ pretty port;
                     metadata := entry_metadata e; weight := Some 1%Z; health_check := None |}
    | _, _ => None
    end.

Definition discover (nodes_with_service : string → Result (list entry) string) (self : t) :
    Result (list BackendDescriptor) Error.t :=
  match nodes_with_service (service_name self) with
  | Err e => Err (Error.backend ("consul discovery: " +:+ e))
  | Ok es => Ok (omap (descriptor self) es)
  end.
End ConsulDiscovery.

(** ** Reconciliation *)

Section Reconcile.
Context `{Target} {B : Type}.

(** The first loop: remove the tracked backends that were not discovered. *)
Fixpoint remove_missing (discovered : list string) (current : list (option string)) : M (t B) unit :=
  match current with
  | [] => mret tt
  | None :: rest => remove_missing discovered rest
  | Some i :: rest =>
      if bool_decide (i ∈ discovered) then remove_missing discovered rest
      else remove_backend_by_id i;; remove_missing discovered rest
  end.

(** The second: create and add what is new, until a creation fails. *)
Fixpoint add_new (create : BackendDescriptor → outcome (Result B Error.t))
    (current : list (option string)) (descriptors : list BackendDescriptor) :
    M (t B) (Result unit Error.t) :=
  match descriptors with
  | [] => mret (Ok tt)
  | desc :: rest =>
      if bool_decide (Some (id desc) ∈ current) then add_new create current rest
      else
        r ← lift (create desc);
        match r with
        | Err e => mret (Err e)
        | Ok backend => add_backend_with_id (id desc) backend;; add_new create current rest
        end
  end.

Definition reconcile (create : BackendDescriptor → outcome (Result B Error.t))
    (descriptors : list BackendDescriptor) : M (t B) (Result unit Error.t) :=
  self ← get;
  let current_ids := backend_ids self in
  remove_missing (id <$> descriptors) current_ids;;
  add_new create current_ids descriptors.

(** One tick of the loop: a failed discovery or reconciliation is only logged. *)
Definition discovery_tick (source : ServiceDiscovery)
    (create : BackendDescriptor → outcome (Result B Error.t)) : M (t B) unit :=
  r ← lift (discover source);
  match r with
  | Ok descriptors => reconcile create descriptors;; mret tt
  | Err _ => mret tt
  end.
End Reconcile.

(** ** The wrapper *)

Module Discover.
(** [shutdown_tx] says whether a running loop can be told to stop. *)
Record t (B : Type) := { lb : LoadBalancer.t B; interval : Duration; shutdown_tx : bool }.
Arguments lb {B}.
Arguments interval {B}.
Arguments shutdown_tx {B}.

Section Discover.
Context `{Target} {B : Type}.

Definition new (self : LoadBalancer.t B) (source : ServiceDiscovery) (poll : option Duration) : t B :=
  {| lb := self; interval := default (poll_interval source) poll; shutdown_tx := false |}.

Definition start (source : ServiceDiscovery) : M (t B) (Result unit Error.t) :=
  r ← lift (on_start source);
  match r with
  | Err e => mret (Err e)
  | Ok _ =>
      modify (λ self, {| lb := lb self; interval := interval self; shutdown_tx := true |});;
      mret (Ok tt)
  end.

Definition stop : M (t B) (Result unit Error.t) :=
  modify (λ self, {| lb := lb self; interval := interval self; shutdown_tx := false |});;
  mret (Ok tt).

Definition set_lb (l : LoadBalancer.t B) (self : t B) : t B :=
  {| lb := l; interval := interval self; shutdown_tx := shutdown_tx self |}.

(** [self.lb.lock().await.dial(addr).await]. *)
Definition dial {C} (fuel : nat) (ρ : Rng) (env : Env B C) (a : string) :
    M (t B) (Result (GuardedConnection C) Error.t) :=
  zoom lb set_lb (LoadBalancer.dial fuel ρ env a).
End Discover.
End Discover.

(** ** Specification *)

(** The pool as one list: id, backend and metrics of each entry. *)
Definition entries {B} (self : t B) : list (option string * (B * TunnelMetrics)) :=
  zip (ids self) (zip (backends self) (metrics self)).

(** Untracked backends stay; tracked ones stay when they were discovered. *)
Definition kept (discovered : list string) (i : option string) : bool :=
  match i with None => true | Some i => bool_decide (i ∈ discovered) end.

Definition fresh (current : list (option string)) (d : BackendDescriptor) : bool :=
  negb (bool_decide (Some (id d) ∈ current)).

(** The entry a new descriptor gets. *)
Definition added {B} (make : BackendDescriptor → B) (d : BackendDescriptor) :
    option string * (B * TunnelMetrics) := (Some (id d), (make d, TunnelMetrics_default)).

(** What the factory makes of new descriptors, up to the first it fails on: the
    entries they get, and how the loop over them ends. *)
Fixpoint produce {B} (create : BackendDescriptor → outcome (Result B Error.t)) (ds : list BackendDescriptor) :
    list (option string * (B * TunnelMetrics)) * outcome (Result unit Error.t) :=
  match ds with
  | [] => ([], Ret (Ok tt))
  | d :: rest =>
      match create d with
      | Ret (Ok b) => ((Some (id d), (b, TunnelMetrics_default)) :: (produce create rest).1, (produce create rest).2)
      | Ret (Err e) => ([], Ret (Err e))
      | Panic p => ([], Panic p)
      | Pending => ([], Pending)
      | NoFuel => ([], NoFuel)
      end
  end.

(** The pool [self'] is [self] after a reconciliation with [ds]. *)
Definition reconciled `{Target} {B} (create : BackendDescriptor → outcome (Result B Error.t))
    (ds : list BackendDescriptor) (self self' : t B) : Prop :=
  wf self' ∧
  entries self' =
    filter (λ e, kept (id <$> ds) e.1 = true) (entries self) ++
    (produce create (filter (λ d, fresh (ids self) d = true) ds)).1 ∧
  shutdowns self' =
    shutdowns self ++ (filter (λ e, kept (id <$> ds) e.1 = false) (entries self)).*2.*1 ∧
  strategy self' = strategy self.

(** ** Lemmas *)

Section Lemmas.
Context `{Target} {B : Type}.
Implicit Types self : t B.

Lemma zip_delete {A A'} (l : list A) (k : list A') i :
  length l = length k → zip (delete i l) (delete i k) = delete i (zip l k).
Proof.
  revert k i. induction l as [|x l IH]; intros [|y k] i Hl; cbn in *; try done.
  destruct i as [|i]; cbn; [done|]. f_equal. apply IH. lia.
Qed.

Lemma entries_ids self : wf self → (entries self).*1 = ids self.
Proof.
  intros (Hi & Hm & _). unfold entries. apply fst_zip. rewrite length_zip. lia.
Qed.

Lemma entries_backends self : wf self → (entries self).*2.*1 = backends self.
Proof.
  intros (Hi & Hm & _). unfold entries. rewrite snd_zip by (rewrite length_zip; lia).
  apply fst_zip. lia.
Qed.

(** Removing by an id whose first occurrence is known. *)
Lemma remove_by_id_entries i self pre x post :
  wf self → entries self = pre ++ (Some i, x) :: post → Some i ∉ pre.*1 →
  ∃ self', remove_backend_by_id i self = (Ret true, self') ∧ wf self' ∧
    entries self' = pre ++ post ∧ strategy self' = strategy self ∧
    shutdowns self' = shutdowns self ++ [x.1].
Proof.
  intros Hwf He Hpre. pose proof (entries_ids self Hwf) as Hids.
  rewrite He, fmap_app, fmap_cons in Hids. cbn in Hids.
  destruct (remove_by_id_present i self Hwf) as (n & b & self' & Hn & Hbefore & Hb & E & Hw & Hwf').
  { rewrite <-Hids. set_solver. }
  assert (n = length pre) as ->.
  { rewrite <-Hids in Hn, Hbefore. rewrite <-(length_fmap fst pre).
    destruct (lt_eq_lt_dec n (length pre.*1)) as [[Hlt|?]|Hgt]; [|done|].
    - rewrite lookup_app_l in Hn by done. destruct Hpre. by eapply list_elem_of_lookup_2.
    - destruct (Hbefore (length pre.*1) Hgt). by rewrite list_lookup_middle. }
  exists self'. destruct Hw as (Hb' & Hi' & Hm' & Hs' & Hsd & _). split; [done|]. split; [done|].
  destruct Hwf as (Hl1 & Hl2 & _). split; [|split; [done|]].
  - unfold entries. rewrite Hb', Hi', Hm', !zip_delete by (rewrite ?length_zip; lia).
    fold (entries self). rewrite He. apply delete_middle.
  - rewrite Hsd. do 2 f_equal. apply (f_equal (λ l, snd <$> l)) in He. unfold entries in He.
    rewrite snd_zip in He by (rewrite length_zip; lia). rewrite fmap_app, fmap_cons in He.
    apply (f_equal (λ l, (fst <$> l) !! length pre)) in He. rewrite fst_zip in He by lia.
    rewrite Hb, fmap_app, fmap_cons in He.
    rewrite list_lookup_middle in He by (by rewrite !length_fmap). cbn in He. congruence.
Qed.

(** The removal loop filters the pool. *)
Lemma remove_missing_entries discovered pre post self :
  wf self → entries self = pre ++ post → Forall (λ e, kept discovered e.1 = true) pre →
  ∃ self', remove_missing discovered post.*1 self = (Ret tt, self') ∧ wf self' ∧
    entries self' = pre ++ filter (λ e, kept discovered e.1 = true) post ∧
    strategy self' = strategy self ∧
    shutdowns self' = shutdowns self ++ (filter (λ e, kept discovered e.1 = false) post).*2.*1.
Proof.
  revert pre self. induction post as [|[o x] post IH]; intros pre self Hwf He Hpre.
  { exists self. cbn. rewrite !app_nil_r in *. by split_and!. }
  assert (Hkeep : kept discovered o = true →
    ∃ self', remove_missing discovered post.*1 self = (Ret tt, self') ∧ wf self' ∧
      entries self' = pre ++ (o, x) :: filter (λ e, kept discovered e.1 = true) post ∧
      strategy self' = strategy self ∧
      shutdowns self' = shutdowns self ++ (filter (λ e, kept discovered e.1 = false) post).*2.*1).
  { intros Hk. destruct (IH (pre ++ [(o, x)]) self) as (self' & E & Hwf' & He' & Hr); [done| | |].
    - by rewrite <-app_assoc.
    - apply Forall_app_2; [done|]. by repeat constructor.
    - exists self'. by rewrite <-app_assoc in He'. }
  rewrite !filter_cons. cbn [fst fmap list_fmap remove_missing].
  destruct o as [i|]; cbn [kept] in *; [|by apply Hkeep].
  case_bool_decide as Hin; cbn; [by apply Hkeep|]. clear Hkeep.
  destruct (remove_by_id_entries i self pre x post) as (self1 & E1 & Hwf1 & He1 & Hs1 & Hsd1); [done..| |].
  { intros Hi. apply list_elem_of_fmap in Hi as ([o' x'] & Ho & Hi). cbn in Ho. subst o'.
    rewrite Forall_forall in Hpre. specialize (Hpre _ Hi). cbn in Hpre. by case_bool_decide. }
  destruct (IH pre self1) as (self' & E & Hwf' & He' & Hs' & Hsd'); [done..|].
  exists self'. mrun. rewrite E1, E. rewrite Hs', Hsd', Hs1, Hsd1, <-app_assoc. by split_and!.
Qed.

Lemma zip_snoc {A A'} (l : list A) (k : list A') x y :
  length l = length k → zip (l ++ [x]) (k ++ [y]) = zip l k ++ [(x, y)].
Proof. intros. by rewrite zip_with_app. Qed.

Lemma add_backend_entries i b self :
  wf self → ∃ n self', add_backend_with_id i b self = (Ret n, self') ∧ wf self' ∧
    entries self' = entries self ++ [(Some i, (b, TunnelMetrics_default))] ∧
    strategy self' = strategy self ∧ shutdowns self' = shutdowns self.
Proof.
  intros Hwf. eexists _, _. split; [reflexivity|]. destruct Hwf as (Hi & Hm & Hf & Hg). split.
  - unfold wf; cbn. rewrite !length_app; cbn. split; [lia|]. split; [lia|]. split; [|done].
    apply Forall_app_2; [done|]. by repeat constructor.
  - split; [|done]. unfold entries; cbn. rewrite !zip_snoc by (rewrite ?length_zip; lia). done.
Qed.

(** The loop over the descriptors appends what the factory makes of the new ones. *)
Lemma add_new_produce create current ds self :
  wf self → let r := produce create (filter (λ d, fresh current d = true) ds) in
  ∃ self', add_new create current ds self = (r.2, self') ∧ wf self' ∧
    entries self' = entries self ++ r.1 ∧ strategy self' = strategy self ∧ shutdowns self' = shutdowns self.
Proof.
  revert self. induction ds as [|d ds IH]; intros self Hwf; cbn zeta.
  { exists self. cbn. by rewrite app_nil_r. }
  rewrite filter_cons. cbn [add_new].
  assert (Hfresh : fresh current d = negb (bool_decide (Some (id d) ∈ current))) by done.
  destruct (bool_decide (Some (id d) ∈ current)); cbn in Hfresh;
    [rewrite decide_False by congruence; by apply IH|rewrite decide_True by done].
  cbn [produce]. unfold lift, mbind, M_bind.
  destruct (create d) as [[b|e]|p| |]; [|by exists self; rewrite app_nil_r..].
  destruct (add_backend_entries (id d) b self Hwf) as (n & self1 & E1 & Hwf1 & He1 & Hs1 & Hsd1).
  destruct (IH self1 Hwf1) as (self' & E & Hwf' & He' & Hs' & Hsd').
  exists self'. rewrite E1, E. split; [done|]. split; [done|]. cbn [fst].
  by rewrite He', He1, Hs', Hsd', Hs1, Hsd1, <-app_assoc.
Qed.

(** When the factory can make all of them. *)
Lemma produce_all (make : BackendDescriptor → B) create ds :
  (∀ d, d ∈ ds → create d = Ret (Ok (make d))) → produce create ds = (added make <$> ds, Ret (Ok tt)).
Proof.
  induction ds as [|d ds IH]; intros Hc; [done|]. cbn [produce]. rewrite Hc by (by left).
  rewrite IH; [done|]. intros d' Hd'. apply Hc. by right.
Qed.

Lemma remove_missing_noop discovered current self :
  Forall (λ o, kept discovered o = true) current →
  remove_missing discovered current self = (Ret tt, self).
Proof.
  induction 1 as [|[i|] current Hi _ IH]; cbn in *; [done| |done].
  by rewrite Hi.
Qed.

Lemma add_new_noop create current ds self :
  Forall (λ d, fresh current d = false) ds → add_new create current ds self = (Ret (Ok tt), self).
Proof.
  induction 1 as [|d ds Hd _ IH]; cbn; [done|]. unfold fresh in Hd.
  by destruct (bool_decide (Some (id d) ∈ current)).
Qed.

(** A reconciliation, whatever the factory does. *)
Lemma reconcile_reconciled create ds self :
  wf self → ∃ self',
    reconcile create ds self = ((produce create (filter (λ d, fresh (ids self) d = true) ds)).2, self') ∧
    reconciled create ds self self'.
Proof.
  intros Hwf.
  destruct (remove_missing_entries (id <$> ds) [] (entries self) self)
    as (self1 & E1 & Hwf1 & He1 & Hs1 & Hsd1); [done..|].
  rewrite (entries_ids self Hwf) in E1.
  destruct (add_new_produce create (ids self) ds self1 Hwf1) as (self' & E & Hwf' & He & Hs & Hsd).
  exists self'. unfold reconcile, backend_ids, reconciled. mrun. rewrite E1, E.
  rewrite He, He1, Hs, Hs1, Hsd, Hsd1. by split_and!.
Qed.

(** The new descriptors are the fresh ones. *)
Lemma fresh_all (make : BackendDescriptor → B) create ds self :
  (∀ d, d ∈ ds → fresh (ids self) d = true → create d = Ret (Ok (make d))) →
  produce create (filter (λ d, fresh (ids self) d = true) ds) =
    (added make <$> filter (λ d, fresh (ids self) d = true) ds, Ret (Ok tt)).
Proof. intros Hc. apply produce_all. intros d [Hf Hd]%list_elem_of_filter. by apply Hc. Qed.

(** The ids after a reconciliation that succeeds. *)
Lemma reconcile_ids (make : BackendDescriptor → B) create ds self :
  wf self → (∀ d, d ∈ ds → fresh (ids self) d = true → create d = Ret (Ok (make d))) →
  ∃ self', reconcile create ds self = (Ret (Ok tt), self') ∧ wf self' ∧
    entries self' =
      filter (λ e, kept (id <$> ds) e.1 = true) (entries self) ++
      (added make <$> filter (λ d, fresh (ids self) d = true) ds).
Proof.
  intros Hwf Hc. destruct (reconcile_reconciled create ds self Hwf) as (self' & E & Hwf' & He & _).
  rewrite (fresh_all make create ds self Hc) in E, He. by exists self'.
Qed.

(** After it, every tracked id was discovered and every discovered id is there. *)
Lemma reconciled_ids make create ds self self' :
  wf self → (∀ d, d ∈ ds → fresh (ids self) d = true → create d = Ret (Ok (make d))) →
  reconcile create ds self = (Ret (Ok tt), self') →
  Forall (λ o, kept (id <$> ds) o = true) (ids self') ∧
  Forall (λ d, fresh (ids self') d = false) ds.
Proof.
  intros Hwf Hc E. destruct (reconcile_ids make create ds self Hwf Hc) as (s' & E' & Hwf' & He).
  rewrite E in E'. injection E' as <-. rewrite <-(entries_ids self' Hwf'), He.
  rewrite !Forall_forall. split.
  - intros o [[o' x] [-> Ho]]%list_elem_of_fmap. cbn. apply elem_of_app in Ho as [Ho|Ho].
    + by apply list_elem_of_filter in Ho as [Ho _].
    + apply list_elem_of_fmap in Ho as (d & [= -> ->] & [_ Hd]%list_elem_of_filter). cbn.
      apply bool_decide_true. by apply list_elem_of_fmap_2.
  - intros d Hd. unfold fresh. rewrite bool_decide_true; [done|]. rewrite fmap_app, elem_of_app.
    destruct (fresh (ids self) d) eqn:Hf.
    + right. rewrite <-list_fmap_compose. apply list_elem_of_fmap. exists d. split; [done|].
      by apply list_elem_of_filter.
    + left. unfold fresh in Hf. case_bool_decide as Hin; [|done].
      rewrite <-(entries_ids self Hwf) in Hin. apply list_elem_of_fmap in Hin as ([o x] & Ho & Hin).
      cbn in Ho. subst o. apply list_elem_of_fmap. eexists. split; [|apply list_elem_of_filter; split; [|exact Hin]].
      * done.
      * cbn. apply bool_decide_true. by apply list_elem_of_fmap_2.
Qed.

(** As sets: the discovered ids, and an untracked backend if there was one. *)
Lemma reconciled_id_set make create ds self self' :
  wf self → (∀ d, d ∈ ds → fresh (ids self) d = true → create d = Ret (Ok (make d))) →
  reconcile create ds self = (Ret (Ok tt), self') →
  (∀ j, Some j ∈ ids self' ↔ j ∈ id <$> ds) ∧ (None ∈ ids self' ↔ None ∈ ids self).
Proof.
  intros Hwf Hc E. destruct (reconciled_ids make create ds self self' Hwf Hc E) as [Hk Hf].
  destruct (reconcile_ids make create ds self Hwf Hc) as (s' & E' & Hwf' & He).
  rewrite E in E'. injection E' as <-. rewrite Forall_forall in Hk. rewrite Forall_forall in Hf. split.
  - intros j. split.
    + intros Hj%Hk. cbn in Hj. by case_bool_decide.
    + intros (d & -> & Hd)%list_elem_of_fmap. specialize (Hf d Hd). unfold fresh in Hf.
      by case_bool_decide.
  - rewrite <-(entries_ids self' Hwf'), <-(entries_ids self Hwf), He, !list_elem_of_fmap. split.
    + intros ([o x] & Ho & Hin). cbn in Ho. subst o. apply elem_of_app in Hin as [Hin|Hin].
      * apply list_elem_of_filter in Hin as [_ Hin]. by exists (None, x).
      * apply list_elem_of_fmap in Hin as (d & ? & _). done.
    + intros ([o x] & Ho & Hin). exists (o, x). split; [done|]. apply elem_of_app. left.
      apply list_elem_of_filter. cbn in Ho. by subst o.
Qed.

(** ** Properties *)

(** C10: reconciling follows what was discovered.  Whatever the factory answers:
    the untracked backends and those whose ids are still discovered stay, in
    order and with their metrics (also when the address of a descriptor
    changed); exactly the tracked backends that disappeared are shut down; the
    descriptors whose ids were not there are then made into fresh entries one
    after the other, until the factory fails, panics or hangs on one, and that
    is how the call ends; the strategy and its state are kept.  So when the
    factory makes all of them the call succeeds and all of them are there. *)
Theorem reconcile_converges create ds self :
  wf self → let new := filter (λ d, fresh (ids self) d = true) ds in
  (∃ self', reconcile create ds self = ((produce create new).2, self') ∧
     reconciled create ds self self') ∧
  ∀ make : BackendDescriptor → B, (∀ d, d ∈ new → create d = Ret (Ok (make d))) →
    produce create new = (added make <$> new, Ret (Ok tt)).
Proof. intros Hwf new. split; [by apply reconcile_reconciled|]. intros make. apply produce_all. Qed.

(** C32: reconciling is idempotent.  After a reconciliation for which the factory
    could make every new descriptor, reconciling again with the same descriptors
    changes nothing at all, whatever the factory would answer now. *)
Theorem reconcile_idempotent (make : BackendDescriptor → B) create create' ds self self' :
  wf self → (∀ d, d ∈ ds → fresh (ids self) d = true → create d = Ret (Ok (make d))) →
  reconcile create ds self = (Ret (Ok tt), self') →
  reconcile create' ds self' = (Ret (Ok tt), self').
Proof.
  intros Hwf Hc E. destruct (reconciled_ids make create ds self self' Hwf Hc E) as [Hk Hf].
  unfold reconcile, backend_ids. mrun. rewrite remove_missing_noop by done. by apply add_new_noop.
Qed.

End Lemmas.

(** The DNS source answers with one descriptor per record, in order, whose
    address is the target without its trailing dots and the port; the balancer
    accepts it exactly when a host is left and the port is not 0.  The records
    that say there is no such service (target [.], port 0) are not left out. *)
Theorem dns_descriptors_dialable self lookup rs :
  lookup (DnsDiscovery.srv_prefix self +:+ "." +:+ DnsDiscovery.service_name self) = Ok rs →
  Forall (λ r, (DnsDiscovery.port r ≤ 65535)%N) rs →
  ∃ ds, DnsDiscovery.discover lookup self = Ok ds ∧ length ds = length rs ∧
    ∀ i r, rs !! i = Some r → ∃ d, ds !! i = Some d ∧
      addr d = host_port (trim_end_dots (DnsDiscovery.target r)) (DnsDiscovery.port r) ∧
      (validate_dial_addr (addr d) = Ok tt ↔
        trim_end_dots (DnsDiscovery.target r) ≠ "" ∧ DnsDiscovery.port r ≠ 0%N).
Proof.
  intros Hl Hp. unfold DnsDiscovery.discover. rewrite Hl. eexists. split; [done|]. split; [apply length_fmap|].
  intros i r Hr. exists (DnsDiscovery.descriptor r). rewrite list_lookup_fmap, Hr. split; [done|]. split; [done|].
  apply host_port_dialable. exact (Forall_lookup_1 _ _ _ _ Hp Hr).
Qed.

(** Consul descriptors can be dialled.  Every descriptor of a Consul
    response comes from an entry with a non-empty address and a non-zero port,
    its address is the two joined by a colon, and the balancer accepts it when
    the port is a 16-bit number; but an entry without tags passes any filter. *)
Theorem consul_descriptors_dialable self nodes ds d :
  ConsulDiscovery.discover nodes self = Ok ds → d ∈ ds →
  ∃ es e address port, nodes (ConsulDiscovery.service_name self) = Ok es ∧ e ∈ es ∧
    ConsulDiscovery.service_address e = Some address ∧
    ConsulDiscovery.service_port e = Some port ∧
    address ≠ "" ∧ port ≠ 0%N ∧ addr d = host_port address port ∧
    ((port ≤ 65535)%N → validate_dial_addr (addr d) = Ok tt) ∧
    (∀ tag, ConsulDiscovery.tag_filter self = Some tag →
       ConsulDiscovery.service_tags e = None ∨
       ∃ tags, ConsulDiscovery.service_tags e = Some tags ∧ tag ∈ tags).
Proof.
  unfold ConsulDiscovery.discover. destruct (nodes _) as [es|e]; [|done]. intros [= <-] Hd.
  apply list_elem_of_omap in Hd as (e & He & Hd). unfold ConsulDiscovery.descriptor in Hd.
  destruct (ConsulDiscovery.skipped_by_tag self e) eqn:Htag; [done|].
  destruct (ConsulDiscovery.service_address e) as [a|] eqn:Ha; [|done].
  destruct (ConsulDiscovery.service_port e) as [p|] eqn:Hp; [|done].
  destruct (bool_decide (a = "")) eqn:Ba; [done|]. destruct (bool_decide (p = 0%N)) eqn:Bp; [done|].
  apply bool_decide_eq_false in Ba, Bp. cbn in Hd. injection Hd as <-.
  exists es, e, a, p. split_and!; try done.
  - intros Hle. apply host_port_valid; [done|lia].
  - intros tag Ht. unfold ConsulDiscovery.skipped_by_tag in Htag. rewrite Ht in Htag.
    destruct (ConsulDiscovery.service_tags e) as [tags|]; [right|by left].
    exists tags. split; [done|]. case_bool_decide; done.
Qed.

(** ** Witnesses *)

Definition desc (i : string) : BackendDescriptor := Descriptor.new i (i +:+ ":80").

(** The factory of the examples: a backend is the length of its id. *)
Definition make_len (d : BackendDescriptor) : nat := String.length (id d).

(** A pool with one untracked backend and the tracked "a" and "bb". *)
Definition tracked_pool : t nat :=
  (add_backend_with_id "bb" 2 (add_backend_with_id "a" 1
    (init [10] [TunnelMetrics_default] (@round_robin dev64) None None)).2).2.

Lemma tracked_pool_wf : wf (H := dev64) tracked_pool.
Proof.
  split; [done|]. split; [done|]. split; [solve_wf|]. vm_compute. split; discriminate.
Qed.

(** "a" goes, "bb" stays, "ccc" comes, twice when it is listed twice. *)
Example reconcile_example :
  let r := @reconcile dev64 nat (λ d, Ret (Ok (make_len d))) [desc "bb"; desc "ccc"; desc "ccc"] tracked_pool in
  ids r.2 = [None; Some "bb"; Some "ccc"; Some "ccc"] ∧ backends r.2 = [10; 2; 3; 3] ∧
  shutdowns r.2 = [1].
Proof. vm_compute. auto. Qed.

(** The factory fails on "x": "ccc" before it is added, "dddd" after it is not. *)
Definition picky (d : BackendDescriptor) : outcome (Result nat Error.t) :=
  Ret (if bool_decide (id d = "x") then Err Error.no_backends else Ok (make_len d)).

Lemma reconcile_converges_witness :
  ∃ self', @reconcile dev64 nat picky [desc "ccc"; desc "x"; desc "dddd"] tracked_pool =
      (Ret (Err Error.no_backends), self') ∧
    ids self' = [None; Some "ccc"] ∧ shutdowns self' = [1; 2].
Proof.
  destruct (reconcile_converges (H := dev64) picky [desc "ccc"; desc "x"; desc "dddd"] tracked_pool tracked_pool_wf)
    as [(self' & E & Hwf & He & Hsd & _) _].
  exists self'. split; [exact E|]. rewrite <-(entries_ids self' Hwf), He, Hsd. split; vm_compute; reflexivity.
Defined.

Lemma reconcile_idempotent_witness :
  let self' := (@reconcile dev64 nat (λ d, Ret (Ok (make_len d))) [desc "bb"; desc "ccc"] tracked_pool).2 in
  @reconcile dev64 nat (λ _, Pending) [desc "bb"; desc "ccc"] self' = (Ret (Ok tt), self').
Proof.
  apply (reconcile_idempotent (H := dev64) make_len (λ d, Ret (Ok (make_len d))) (λ _, Pending)
    [desc "bb"; desc "ccc"] tracked_pool); [exact tracked_pool_wf|done|].
  apply run_eq. vm_compute. reflexivity.
Defined.

(** A record that says there is no such service. *)
Example dns_no_service :
  (λ d, validate_dial_addr (addr d)) (DnsDiscovery.descriptor
    {| DnsDiscovery.target := "."; DnsDiscovery.port := 80%N; DnsDiscovery.srv_weight := 0%Z |}) =
  Err (Error.invalid_address ":80" "empty host").
Proof. reflexivity. Qed.

Definition consul_entry : ConsulDiscovery.entry :=
  {| ConsulDiscovery.service_id := Some "s1"; ConsulDiscovery.service_address := Some "10.0.0.1";
     ConsulDiscovery.service_port := Some 8080%N; ConsulDiscovery.service_tags := None;
     ConsulDiscovery.service_meta := None |}.
Definition consul_source : ConsulDiscovery.t :=
  {| ConsulDiscovery.service_name := "web"; ConsulDiscovery.tag_filter := Some "v1" |}.

Lemma consul_descriptors_dialable_witness :
  ∃ d, ConsulDiscovery.discover (λ _, Ok [consul_entry]) consul_source = Ok [d] ∧
    validate_dial_addr (addr d) = Ok tt.
Proof.
  eexists. split; [reflexivity|].
  edestruct (consul_descriptors_dialable consul_source (λ _, Ok [consul_entry]))
    as (es & e & a & p & Hes & He & _ & Hp & _ & _ & _ & Hv & _);
    [reflexivity|by apply list_elem_of_here|apply Hv].
  injection Hes as <-. apply list_elem_of_singleton in He as ->. injection Hp as <-. lia.
Defined.
