(* ===== verification/Etcd.v ===== *)
(** * The etcd source ([etcd] of [src/src/utils/discovery.rs])

    The keys below a prefix name the backends, their values are socket
    addresses.  The etcd client is a parameter: what it answers. *)

From Stdlib Require Import Ascii.
From stdpp Require Import base tactics list numbers strings pretty gmap.
From S2P Require Import Prelude Errors Text Address SocketAddr Discovery.

Open Scope rota_scope.

Module EtcdDiscovery.
Record t := { prefix : string }.
(** A pair of the response: the bytes of the key and of the value. *)
Definition kv : Type := string * string.

(** The connection to the endpoints is the argument: [Err] is its error text. *)
Definition new (connect : Result unit string) (p : string) : Result t Error.t :=
  match connect with
  | Err e => Err (Error.backend ("etcd connect: " +:+ e))
  | Ok _ => Ok {| prefix := p |}
  end.

Definition descriptor (key : string) (a : SocketAddr) : BackendDescriptor :=
  {| id := key; addr := socket_addr_text a; metadata := ∅; weight := Some 1%Z; health_check := None |}.

(** The loop over the response: text that is not UTF-8 aborts it, a value that
    is not a socket address is passed over. *)
Fixpoint collect (kvs : list kv) : Result (list BackendDescriptor) Error.t :=
  match kvs with
  | [] => Ok []
  | (k, v) :: rest =>
      match from_utf8 k with
      | Err e => Err (Error.backend ("etcd key utf8: " +:+ utf8_error_text e))
      | Ok key =>
          match from_utf8 v with
          | Err e => Err (Error.backend ("etcd value utf8: " +:+ utf8_error_text e))
          | Ok value =>
              match collect rest with
              | Err e => Err e
              | Ok ds =>
                  match parse_socket_addr value with
                  | Some a => Ok (descriptor key a :: ds)
                  | None => Ok ds
                  end
              end
          end
      end
  end.

(** [get] is the client's answer to the range read below the prefix. *)
Definition discover (get : string → Result (list kv) string) (self : t) :
    Result (list BackendDescriptor) Error.t :=
  match get (prefix self) with
  | Err e => Err (Error.backend ("etcd get: " +:+ e))
  | Ok kvs => collect kvs
  end.
End EtcdDiscovery.
Import EtcdDiscovery.

(** ** Specification *)

(** A pair whose key and value are text. *)
Definition kv_text (x : kv) : bool := utf8_valid x.1 && utf8_valid x.2.

(** The descriptor of a pair, if its value is an address. *)
Definition kv_descriptor (x : kv) : option BackendDescriptor :=
  descriptor x.1 <$> parse_socket_addr x.2.

(** ** Lemmas *)

Lemma kv_text_from_utf8 k v :
  kv_text (k, v) = true → from_utf8 k = Ok k ∧ from_utf8 v = Ok v.
Proof. intros [Hk Hv]%andb_prop. by split; apply from_utf8_ok. Qed.

(** Text up to a point is collected, and the rest decides the result. *)
Lemma collect_app pre post :
  Forall (λ x, kv_text x = true) pre →
  collect (pre ++ post) =
    match collect post with Ok ds => Ok (omap kv_descriptor pre ++ ds) | Err e => Err e end.
Proof.
  induction 1 as [|[k v] pre Hx _ IH]; cbn [app collect]; [by destruct (collect post)|].
  destruct (kv_text_from_utf8 k v Hx) as [-> ->]. rewrite IH.
  destruct (collect post) as [ds|e]; [|done]. cbn.
  change (kv_descriptor (k, v)) with (descriptor k <$> parse_socket_addr v).
  by destruct (parse_socket_addr v).
Qed.

Lemma collect_ok kvs ds :
  collect kvs = Ok ds ↔ Forall (λ x, kv_text x = true) kvs ∧ ds = omap kv_descriptor kvs.
Proof.
  split.
  - revert ds. induction kvs as [|[k v] kvs IH]; intros ds; cbn [collect].
    { intros [= <-]. by split. }
    destruct (from_utf8 k) as [k'|e] eqn:Ek; [|done]. destruct (from_utf8 v) as [v'|e] eqn:Ev; [|done].
    destruct (collect kvs) as [ds'|e]; [|done]. destruct (IH ds' eq_refl) as [Hf ->].
    apply from_utf8_ok in Ek as [-> Hk]. apply from_utf8_ok in Ev as [-> Hv]. intros E. split.
    + constructor; [|done]. unfold kv_text. cbn. by rewrite Hk, Hv.
    + cbn. change (kv_descriptor (k, v)) with (descriptor k <$> parse_socket_addr v). destruct (parse_socket_addr v); simplify_eq; done.
  - intros [Hf ->]. rewrite <-(app_nil_r kvs), collect_app by done. cbn. by rewrite !app_nil_r.
Qed.

(** Only the port decides whether a printed address can be dialled. *)
Lemma socket_addr_dialable a :
  socket_addr_wf a → validate_dial_addr (socket_addr_text a) = Ok tt ↔ port a ≠ 0%N.
Proof.
  intros Hwf. destruct (socket_addr_host a) as (host & Hne & ->).
  rewrite host_port_dialable by (destruct a; cbn in *; lia). tauto.
Qed.

(** ** Properties *)

(** C28: When the etcd source answers, every descriptor comes from a pair of the
    response whose value is a socket address: its id is the key, its address
    parses back to the same socket address, and it is an address [dial] accepts
    exactly when its port is not 0 (a port the source does not filter out). *)
Theorem etcd_addr_roundtrip get self ds d :
  discover get self = Ok ds → d ∈ ds →
  ∃ kvs k v a, get (prefix self) = Ok kvs ∧ (k, v) ∈ kvs ∧ parse_socket_addr v = Some a ∧
    id d = k ∧ parse_socket_addr (addr d) = Some a ∧
    (validate_dial_addr (addr d) = Ok tt ↔ port a ≠ 0%N).
Proof.
  unfold discover. destruct (get (prefix self)) as [kvs|e]; [|done].
  intros [_ ->]%collect_ok ([k v] & Hin & Hd)%list_elem_of_omap.
  unfold kv_descriptor in Hd. cbn in Hd. destruct (parse_socket_addr v) as [a|] eqn:Ea; [|done].
  injection Hd as <-. destruct (parse_socket_addr_wf v a Ea) as [Hwf Hflow].
  exists kvs, k, v, a. do 4 (split; [done|]).
  split; [by apply parse_socket_addr_text|by apply socket_addr_dialable].
Qed.

(** C37: The etcd source answers exactly when the client does and every key and
    value is UTF-8, and then with the descriptors of the values that are socket
    addresses, in the order of the response; the first pair that is not text
    makes it fail with that error, whatever the other pairs are. *)
Theorem etcd_discover_spec get self kvs :
  get (prefix self) = Ok kvs →
  (∀ ds, discover get self = Ok ds ↔
     Forall (λ x, kv_text x = true) kvs ∧ ds = omap kv_descriptor kvs) ∧
  (∀ pre k v post, kvs = pre ++ (k, v) :: post → Forall (λ x, kv_text x = true) pre →
     kv_text (k, v) = false →
     ∃ which e, discover get self =
       Err (Error.backend ("etcd " +:+ which +:+ " utf8: " +:+ utf8_error_text e)) ∧
       ((which = "key" ∧ from_utf8 k = Err e) ∨
        (which = "value" ∧ from_utf8 k = Ok k ∧ from_utf8 v = Err e))).
Proof.
  unfold discover. intros ->. split; [intros; apply collect_ok|].
  intros pre k v post -> Hpre Hbad. rewrite collect_app by done. cbn [collect].
  destruct (from_utf8 k) as [k'|e] eqn:Ek; [|exists "key", e; auto].
  apply from_utf8_ok in Ek as [-> Hk]. destruct (from_utf8 v) as [v'|e] eqn:Ev.
  - apply from_utf8_ok in Ev as [-> Hv]. unfold kv_text in Hbad. cbn in Hbad. by rewrite Hk, Hv in Hbad.
  - exists "value", e. auto 6.
Qed.

(** ** Witnesses *)

Definition etcd_source : EtcdDiscovery.t := {| prefix := "/svc/" |}.
Definition etcd_kvs : list kv :=
  [("/svc/a", "10.0.0.1:8080"); ("/svc/b", "web.internal:80"); ("/svc/c", "[2001:db8:0:0:0:0:0:1]:0")].
Definition etcd_bad : list kv :=
  [("/svc/a", "10.0.0.1:8080"); ("/svc/x", String (ascii_of_nat 255) "")].

(** A name is passed over, and the address with port 0 is not dialable. *)
Lemma etcd_addr_roundtrip_witness :
  ∃ d, discover (λ _, Ok etcd_kvs) etcd_source = Ok [descriptor "/svc/a"
      (V4 {| oct0 := 10; oct1 := 0; oct2 := 0; oct3 := 1 |} 8080); d] ∧
    addr d = "[2001:db8::1]:0" ∧ validate_dial_addr (addr d) ≠ Ok tt.
Proof.
  eexists. split; [vm_compute; reflexivity|]. split; [vm_compute; reflexivity|].
  edestruct (etcd_addr_roundtrip (λ _, Ok etcd_kvs) etcd_source) as (kvs & k & v & a & _ & _ & _ & _ & Hp & Hd);
    [vm_compute; reflexivity|apply list_elem_of_further, list_elem_of_here|].
  intros E%Hd. vm_compute in Hp. injection Hp as <-. by apply E.
Defined.

Lemma etcd_discover_spec_witness :
  let v := String (ascii_of_nat 255) "" in
  ∃ which e, discover (λ _, Ok etcd_bad) etcd_source =
    Err (Error.backend ("etcd " +:+ which +:+ " utf8: " +:+ utf8_error_text e)) ∧
    ((which = "key" ∧ from_utf8 "/svc/x" = Err e) ∨
     (which = "value" ∧ from_utf8 "/svc/x" = Ok "/svc/x" ∧ from_utf8 v = Err e)).
Proof.
  apply (proj2 (etcd_discover_spec (λ _, Ok etcd_bad) etcd_source etcd_bad eq_refl)
    [("/svc/a", "10.0.0.1:8080")] "/svc/x" (String (ascii_of_nat 255) "") [] eq_refl);
    [by repeat constructor|vm_compute; reflexivity].
Defined.
