(* ===== verification/Lifecycle.v ===== *)
(** * The background loops

    [HealthChecker] ([src/src/utils/health.rs]) and [Discover]
    ([src/src/utils/discovery.rs]) each spawn a loop that waits in a [select!]
    for its interval timer or its shutdown channel.  A loop is a worker that is
    waiting or in the body of a tick; its channel is readable once a message was
    sent or the sender dropped.  Handles, loops and the other users of what they
    share interleave as a step relation. *)

From stdpp Require Import base tactics list numbers strings relations.
From S2P Require Import Prelude Errors Constants Strategy Float64 Retry Address Balancer.
From S2P Require Import Strategies Registry BalancerFacts BalancerSpec Concurrent Health Discovery.

Open Scope rota_scope.

(** ** Loops *)

(** At the [select!], in the body of a tick, in a body that never ends, past the
    [break], or unwound by a panic. *)
Inductive mode := Waiting | Working | Hung | Finished | Crashed (p : panic_reason).

(** [signalled]: the receiver of the shutdown channel is ready. *)
Record worker := { w_mode : mode; signalled : bool }.

Definition spawned : worker := {| w_mode := Waiting; signalled := false |}.
Definition signal (w : worker) : worker := {| w_mode := w_mode w; signalled := true |}.

#[global] Instance mode_eq_dec : EqDecision mode.
Proof. solve_decision. Defined.

(** Where the loop is after a body that ended so. *)
Definition ending {A} (o : outcome A) : option mode :=
  match o with
  | Ret _ => Some Waiting
  | Panic p => Some (Crashed p)
  | Pending => Some Hung
  | NoFuel => None
  end.

(** What a loop does: its timer fires, the body of the tick runs with the
    answers [x] of the world, it takes the [break]. *)
Inductive event X := Tick | Body (x : X) | Stop.
Arguments Tick {X}.
Arguments Body {X} x.
Arguments Stop {X}.

Section Loop.
Context {S X : Type} (body : X → M S unit).

(** The loop on a state [S].  A body is one step: what it awaits before it has
    the lock touches nothing shared, and the rest runs under the lock.  While it
    waits the loop is [Working] and others go on; [Hung] is a body whose answers
    never come, with what it did until then. *)
Inductive worker_step : event X → worker → S → worker → S → Prop :=
| work_tick sg s :
    worker_step Tick {| w_mode := Waiting; signalled := sg |} s {| w_mode := Working; signalled := sg |} s
| work_body sg x s o s' m :
    body x s = (o, s') → ending o = Some m →
    worker_step (Body x) {| w_mode := Working; signalled := sg |} s {| w_mode := m; signalled := sg |} s'
| work_stop s :
    worker_step Stop {| w_mode := Waiting; signalled := true |} s {| w_mode := Finished; signalled := true |} s.

(** The task is over. *)
Definition ended (w : worker) : Prop := w_mode w = Finished ∨ ∃ p, w_mode w = Crashed p.

Lemma worker_signalled e w s w' s' : worker_step e w s w' s' → signalled w' = signalled w.
Proof. by destruct 1. Qed.
End Loop.

(** ** The health checker *)

Module Checker.
Import HealthChecker.

(** What the owner holds: the handle, a [shutdown] call that awaits the task,
    or nothing any more. *)
Inductive handle := Held | Joining | Released.

Record sys := { loop : worker; state : HealthChecker.t; owner : handle }.

(** [HealthChecker::spawn]. *)
Definition spawn {B} (backends : list B) (ms : list TunnelMetrics) : sys :=
  {| loop := spawned; state := init (length backends) ms; owner := Held |}.

Section Checker.
Context `{Target} {B C : Type} (config : HealthCheckConfig) (backends : list B).
(** The answers a backend can give to a check. *)
Context (world : B → attempt C → Prop).

(** The loop's ticks, [shutdown] and its two ways out (the task ended, or the
    five seconds did), dropping the handle, and writes of the others who share
    the metrics. *)
Inductive step : sys → sys → Prop :=
| step_work e w s w' s' o :
    (∀ answers b, e = Body answers → b ∈ backends → world b (answers b)) →
    worker_step (λ answers : B → attempt C, tick config backends answers) e w s w' s' →
    step {| loop := w; state := s; owner := o |} {| loop := w'; state := s'; owner := o |}
| step_shutdown w s :
    step {| loop := w; state := s; owner := Held |} {| loop := signal w; state := s; owner := Joining |}
| step_joined w s :
    ended w →
    step {| loop := w; state := s; owner := Joining |} {| loop := w; state := s; owner := Released |}
| step_expired w s :
    step {| loop := w; state := s; owner := Joining |} {| loop := w; state := s; owner := Released |}
| step_drop w s :
    step {| loop := w; state := s; owner := Held |} {| loop := signal w; state := s; owner := Released |}
| step_write w s ms o :
    Forall TunnelMetrics_wf ms →
    step {| loop := w; state := s; owner := o |}
         {| loop := w; state := set_metrics ms s; owner := o |}.

Definition steps : sys → sys → Prop := rtc step.

(** The values of the types: metrics and counters are in range, the counters
    have one entry per backend. *)
Definition typed (s : HealthChecker.t) : Prop :=
  Forall TunnelMetrics_wf (metrics s) ∧
  length (consecutive_failures s) = length backends ∧
  length (consecutive_successes s) = length backends ∧
  Forall (λ x, 0 ≤ x ≤ u32_MAX)%Z (consecutive_failures s) ∧
  Forall (λ x, 0 ≤ x ≤ u32_MAX)%Z (consecutive_successes s).

(** *** Lemmas *)

Lemma count_typed (xs : list Z) i x :
  Forall (λ x, 0 ≤ x ≤ u32_MAX)%Z xs → (0 ≤ x ≤ u32_MAX)%Z →
  Forall (λ x, 0 ≤ x ≤ u32_MAX)%Z (<[i := x]> xs).
Proof. intros. by apply Forall_insert. Qed.

Lemma u32_count n :
  (0 ≤ n ≤ u32_MAX)%Z →
  (∃ n', u32_add n 1 = Ret n' ∧ (0 ≤ n' ≤ u32_MAX)%Z) ∨
  (overflow_checks = true ∧ u32_add n 1 = Panic Overflow).
Proof.
  intros Hn. unfold u32_add. destruct (fit_panic_or_ret u32_MAX (n + 1)) as [E|[n' E]].
  - right. split; [|done]. unfold fit in E. by repeat case_match.
  - left. exists n'. split; [done|]. eapply fit_range; [..|exact E]; lia.
Qed.

Lemma errors_typed m f :
  TunnelMetrics_wf m → (0 ≤ f ≤ u32_MAX)%Z →
  TunnelMetrics_wf (set_total_errors (saturating_add u64_MAX (total_errors m) 1) (set_recent_errors f m)).
Proof.
  intros (? & ? & ? & ? & ?) ?. repeat split; cbn; unfold saturating_add; done || lia.
Qed.

(** One result: in range, with an index of the checker, whatever the length of
    the shared metrics; the only panic is the counter's overflow. *)
Lemma record_check_typed i ok s :
  typed s → i < length backends →
  typed (record_check config i ok s).2 ∧
  ((record_check config i ok s).1 = Ret tt ∨
   (overflow_checks = true ∧ (record_check config i ok s).1 = Panic Overflow)).
Proof.
  intros Ht Hi. pose proof Ht as (Hm & Hlf & Hls & Hf & Hs). unfold record_check. mrun.
  destruct (metrics s !! i) as [m|] eqn:Em; [|by split; [|left]].
  pose proof (Forall_lookup_1 _ _ _ _ Hm Em) as Hwf.
  assert (H0 : (0 ≤ 0 ≤ u32_MAX)%Z) by done.
  destruct ok.
  - destruct (index_lt (consecutive_successes s) i) as (n & En & ->); [lia|].
    pose proof (Forall_lookup_1 _ _ _ _ Hs En) as Hn. cbn in Hn.
    destruct (u32_count n Hn) as [(n' & -> & Hn')|[Hoc ->]]; [|by split; [|right]].
    destruct (healthy_threshold config <=? n')%Z; (split; [|by left]); unfold typed; cbn;
      rewrite !length_insert; repeat split; auto using count_typed.
    apply Forall_insert; [done|]. by apply reset_wf.
  - destruct (index_lt (consecutive_failures s) i) as (n & En & ->); [lia|].
    pose proof (Forall_lookup_1 _ _ _ _ Hf En) as Hn. cbn in Hn.
    destruct (u32_count n Hn) as [(n' & -> & Hn')|[Hoc ->]]; [|by split; [|right]].
    split; [|by left]. unfold typed; cbn. rewrite !length_insert.
    repeat split; auto using count_typed, Forall_insert, errors_typed.
Qed.

Lemma record_checks_typed i oks s :
  typed s → i + length oks ≤ length backends →
  typed (record_checks config i oks s).2 ∧
  ((record_checks config i oks s).1 = Ret tt ∨
   (overflow_checks = true ∧ (record_checks config i oks s).1 = Panic Overflow)).
Proof.
  revert i s. induction oks as [|ok oks IH]; intros i s Hs Hi; cbn in *; [by split; [|left]|].
  destruct (record_check_typed i ok s Hs) as [Hs1 Ho]; [lia|]. unfold mbind, M_bind.
  destruct (record_check config i ok s) as [o s1]. cbn in *.
  destruct Ho as [->|[Hoc ->]]; [|by split; [|right]]. apply IH; [done|lia].
Qed.

(** A round: the only panics are the counter's overflow and those of a check. *)
Lemma tick_typed (answers : B → attempt C) s :
  typed s →
  typed (tick config backends answers s).2 ∧
  ((tick config backends answers s).1 = Ret tt ∨
   (overflow_checks = true ∧ (tick config backends answers s).1 = Panic Overflow) ∨
   ∃ b p, b ∈ backends ∧ at_panic (answers b) = Some p ∧ (tick config backends answers s).1 = Panic p).
Proof.
  intros Hs. unfold tick, mbind, M_bind, lift.
  destruct (join_checks_cases config answers backends) as [E|(b & p & Hin & Hp & E)]; rewrite E.
  - destruct (record_checks_typed 0 ((λ b, dial_ok config (answers b)) <$> backends) s Hs) as [Ht Ho];
      [by rewrite length_fmap|]. split; [done|]. destruct Ho; auto.
  - split; [done|]. right. right. by exists b, p.
Qed.

(** Why the loop may have unwound. *)
Definition culpable (p : panic_reason) : Prop :=
  (p = Overflow ∧ overflow_checks = true) ∨
  ∃ b a, b ∈ backends ∧ world b a ∧ at_panic a = Some p.

(** What holds of every state: the types, and that the channel is readable
    exactly once the owner let go. *)
Definition sys_ok (y : sys) : Prop :=
  typed (state y) ∧ (signalled (loop y) = false ↔ owner y = Held) ∧
  (∀ p, w_mode (loop y) = Crashed p → culpable p) ∧ w_mode (loop y) ≠ Hung ∧
  (w_mode (loop y) = Finished → owner y ≠ Held).

Lemma spawn_ok ms : Forall TunnelMetrics_wf ms → sys_ok (spawn backends ms).
Proof.
  intros Hm. split; [|done]. unfold typed; cbn. rewrite length_replicate.
  split; [done|]. split; [done|]. split; [done|]. by split; apply Forall_replicate.
Qed.

Lemma work_ok e w s w' s' o :
  (∀ answers b, e = Body answers → b ∈ backends → world b (answers b)) →
  worker_step (λ answers : B → attempt C, tick config backends answers) e w s w' s' →
  sys_ok {| loop := w; state := s; owner := o |} → sys_ok {| loop := w'; state := s'; owner := o |}.
Proof.
  unfold sys_ok. cbn. intros He Hw (Ht & Hsg & Hcr & Hh & Hfi).
  destruct Hw as [sg s|sg x s r s' m E Em|s]; cbn in *.
  - by split_and!.
  - destruct (tick_typed x s Ht) as [Ht' Ho]. rewrite E in Ht', Ho. cbn in *.
    split; [done|]. split; [done|].
    destruct Ho as [->|[[Hoc ->]|(b & p & Hin & Hp & ->)]]; injection Em as <-.
    + by split_and!.
    + split_and!; [|done..]. intros p [= <-]. by left.
    + split_and!; [|done..]. intros p' [= <-]. right. exists b, (x b). split_and!; [done| |done]. by apply He.
  - split_and!; try done. intros _ Ho. by apply Hsg in Ho.
Qed.

Lemma step_ok_sys y y' : step y y' → sys_ok y → sys_ok y'.
Proof.
  destruct 1 as [e w s w' s' o He Hw|w s|w s He|w s|w s|w s ms o Hms]; [by eapply work_ok|..];
    unfold sys_ok; cbn; intros (Ht & Hsg & Hcr & Hh & Hfi).
  1-4: split; [done|]; split; [|done]; split; [|done]; try done; by intros Hx%Hsg.
  split; [|done]. destruct Ht as (_ & Hrest). by split.
Qed.

Lemma steps_ok ms y :
  Forall TunnelMetrics_wf ms → steps (spawn backends ms) y → sys_ok y.
Proof.
  intros Hms Hst. pose proof (spawn_ok ms Hms) as Hok. revert Hok.
  induction Hst as [|y0 y1 y2 Hs _ IH]; [done|]. intros Hok. apply IH. by eapply step_ok_sys.
Qed.

(** *** Properties *)

(** C27: the health checker's task does not end by itself.  Whatever the other
    users of the shared metrics write (also when they shorten or lengthen the
    vector) and whenever the owner shuts it down or drops the handle, the loop
    unwinds only on the overflow of a counter in a build that checks it, or on a
    panic of some backend's [dial], which it does not catch; it never indexes out
    of bounds, never hangs in a round, and takes its [break] only after the owner
    let go. *)
Theorem checker_survives ms y :
  Forall TunnelMetrics_wf ms → steps (spawn backends ms) y →
  (∀ p, w_mode (loop y) = Crashed p →
     (p = Overflow ∧ overflow_checks = true) ∨
     ∃ b a, b ∈ backends ∧ world b a ∧ at_panic a = Some p) ∧
  w_mode (loop y) ≠ Hung ∧
  (w_mode (loop y) = Finished → owner y ≠ Held).
Proof. intros Hms Hst. by destruct (steps_ok ms y Hms Hst) as (_ & _ & Hr). Qed.
End Checker.
End Checker.

(** ** Service discovery *)

Module Discoverer.
Import LoadBalancer.

Section Discoverer.
Context `{Target} {B C : Type}.

(** The wrapper, every loop it ever started, and the loop whose sender it holds
    in [shutdown_tx]. *)
Record sys := { wrap : Discover.t B; loops : list worker; tx : option nat }.

Definition init (self : Discover.t B) : sys := {| wrap := self; loops := []; tx := None |}.

(** Sending on the channel, or dropping its sender. *)
Definition signal_at (i : option nat) (ls : list worker) : list worker :=
  match i with Some i => alter signal i ls | None => ls end.

(** What the source and the factory answer during a tick. *)
Definition answers : Type := ServiceDiscovery * (BackendDescriptor → outcome (Result B Error.t)).
Definition round (x : answers) : M (LoadBalancer.t B) unit := discovery_tick x.1 x.2.

(** A call of the wrapper's users, or an event of loop [i]. *)
Inductive label := Called | Worked (i : nat) (e : event answers).

(** A loop whose factory hangs keeps the balancer's lock ([Locks] has it): then
    the calls below that need it are more than the code does. *)
Inductive step : label → sys → sys → Prop :=
(** [start]: assigning [shutdown_tx] drops the sender it held. *)
| step_start source w w' ls tx :
    Discover.start source w = (Ret (Ok tt), w') →
    step Called {| wrap := w; loops := ls; tx := tx |}
         {| wrap := w'; loops := signal_at tx ls ++ [spawned]; tx := Some (length ls) |}
| step_start_err source e w w' ls tx :
    Discover.start source w = (Ret (Err e), w') →
    step Called {| wrap := w; loops := ls; tx := tx |} {| wrap := w'; loops := ls; tx := tx |}
(** [stop], and likewise dropping the wrapper. *)
| step_stop w w' ls tx :
    Discover.stop w = (Ret (Ok tt), w') →
    step Called {| wrap := w; loops := ls; tx := tx |}
         {| wrap := w'; loops := signal_at tx ls; tx := None |}
(** A loop; the balancer's lock is held while it is reconciled. *)
| step_work w ls tx i e k k' l' :
    ls !! i = Some k → worker_step round e k (Discover.lb w) k' l' →
    step (Worked i e) {| wrap := w; loops := ls; tx := tx |}
         {| wrap := Discover.set_lb l' w; loops := <[i := k']> ls; tx := tx |}
(** A dial through the wrapper, which holds the lock; it may also panic or be
    dropped while it waits. *)
| step_dial fuel ρ (env : Env B C) addr o w w' ls tx :
    Discover.dial fuel ρ env addr w = (o, w') →
    step Called {| wrap := w; loops := ls; tx := tx |} {| wrap := w'; loops := ls; tx := tx |}
(** A call on the balancer itself, through [load_balancer_arc]. *)
| step_direct op w l' ls tx :
    run_reconfig op (Discover.lb w) = (Ret tt, l') →
    step Called {| wrap := w; loops := ls; tx := tx |}
         {| wrap := Discover.set_lb l' w; loops := ls; tx := tx |}.

Definition steps : sys → sys → Prop := rtc (λ y y', ∃ l, step l y y').

(** *** Lemmas *)

Implicit Types self : LoadBalancer.t B.

Lemma remove_by_id_wf i self :
  wf self → ∃ b self', remove_backend_by_id i self = (Ret b, self') ∧ wf self'.
Proof.
  intros Hwf. destruct (decide (Some i ∈ ids self)) as [Hin|Hout].
  - destruct (remove_by_id_present i self Hwf Hin) as (n & b & self' & _ & _ & _ & E & _ & Hwf'). eauto.
  - rewrite (remove_by_id_absent i self Hout). eauto.
Qed.

Lemma remove_missing_wf discovered current self :
  wf self → ∃ self', remove_missing discovered current self = (Ret tt, self') ∧ wf self'.
Proof.
  revert self. induction current as [|[i|] current IH]; intros self Hwf; cbn; [eauto| |by apply IH].
  case_bool_decide; [by apply IH|]. destruct (remove_by_id_wf i self Hwf) as (b & s1 & E & Hwf1).
  unfold mbind, M_bind. rewrite E. by apply IH.
Qed.

Lemma add_new_wf create current ds self : wf self → wf (add_new create current ds self).2.
Proof.
  revert self. induction ds as [|d ds IH]; intros self Hwf; [done|]. cbn [add_new].
  case_bool_decide; [by apply IH|]. unfold mbind, M_bind, lift.
  destruct (create d) as [[b|e]|p| |]; [|done..].
  destruct (add_backend_entries (id d) b self Hwf) as (n & s1 & E & Hwf1 & _). rewrite E. by apply IH.
Qed.

(** A round keeps the pool well formed, whatever the source and the factory do. *)
Lemma round_wf x self : wf self → wf (round x self).2.
Proof.
  intros Hwf. unfold round, discovery_tick. unfold mbind at 1, M_bind at 1, lift.
  destruct (discover x.1) as [[ds|e]|p| |]; [|done..]. unfold reconcile. mrun.
  destruct (remove_missing_wf (id <$> ds) (backend_ids self) self Hwf) as (s1 & E & Hwf1). rewrite E.
  pose proof (add_new_wf x.2 (backend_ids self) ds s1 Hwf1) as Hwf2.
  by destruct (add_new _ _ _ _) as [[]].
Qed.

(** So does a dial, however it ends. *)
Lemma dial_wf fuel ρ (env : Env B C) addr self :
  wf self → wf (LoadBalancer.dial fuel ρ env addr self).2.
Proof.
  intros Hwf. unfold LoadBalancer.dial, dial_with_options.
  destruct (validate_dial_addr addr); [|done]. mrun. case_decide; [done|].
  destruct (select_backend ρ addr self) as [o s1] eqn:Es.
  destruct (select_keeps _ _ _ _ _ Hwf Es) as (Hwf1 & _). destruct o as [i|p| |]; [|done..].
  destruct (dial_with_retry _ _ _ _ _ _ _) as [[conn|e]|p| |]; [| |done..];
    [unfold handle_dial_success|unfold handle_dial_error]; mrun;
    destruct (with_strategy _ _) as [o s2] eqn:Ew; apply with_strategy_inv in Ew as [d ->];
    destruct o; apply wf_alter; auto using reset_wf, count_error_wf.
Qed.

(** What holds of every state: the pool is well formed, and only the loop whose
    sender is held has not been told to stop. *)
Definition sys_ok (y : sys) : Prop :=
  wf (Discover.lb (wrap y)) ∧
  (∀ i, tx y = Some i → i < length (loops y)) ∧
  (∀ i k, loops y !! i = Some k → signalled k = false → tx y = Some i).

Lemma signal_at_ok tx ls i k :
  (∀ i k, ls !! i = Some k → signalled k = false → tx = Some i) →
  signal_at tx ls !! i = Some k → signalled k = true.
Proof.
  intros Hall Hk. destruct tx as [j|]; cbn in Hk.
  - destruct (decide (j = i)) as [->|Hne].
    + rewrite list_lookup_alter_eq in Hk. apply fmap_Some in Hk as (k0 & _ & ->). done.
    + rewrite list_lookup_alter_ne in Hk by done. destruct (signalled k) eqn:Hs; [done|].
      specialize (Hall i k Hk Hs). congruence.
  - destruct (signalled k) eqn:Hs; [done|]. by specialize (Hall i k Hk Hs).
Qed.

Lemma length_signal_at tx ls : length (signal_at tx ls) = length ls.
Proof. destruct tx; [apply length_alter|done]. Qed.

Lemma step_sys_ok l y y' : step l y y' → sys_ok y → sys_ok y'.
Proof.
  intros Hs (Hwf & Htx & Hall).
  destruct Hs as [source w w' ls o E|source e w w' ls o E|w w' ls o E|w ls o i e k k' l' Hk Hw
    |fuel ρ env addr r w w' ls o E|op w l' ls o E]; cbn in *; unfold sys_ok; cbn.
  - split; [|split].
    + unfold Discover.start in E. mrun. by repeat case_match; simplify_eq.
    + intros i [= <-]. rewrite length_app, length_signal_at. cbn. lia.
    + intros i k [Hk|[Hge Hk]]%lookup_app_Some Hsg.
      * by rewrite (signal_at_ok o ls i k Hall Hk) in Hsg.
      * rewrite length_signal_at in *. apply list_lookup_singleton_Some in Hk as [Hi _]. f_equal. lia.
  - split; [|done]. unfold Discover.start in E. mrun. by repeat case_match; simplify_eq.
  - split; [|split; [done|]].
    + unfold Discover.stop in E. mrun. by simplify_eq.
    + intros i k Hk Hsg. by rewrite (signal_at_ok o ls i k Hall Hk) in Hsg.
  - split; [|split].
    + destruct Hw as [|sg x s r s' m E Em|]; try done;
        pose proof (round_wf x _ Hwf) as Hwf'; by rewrite E in Hwf'.
    + intros j Hj. rewrite length_insert. by apply Htx.
    + intros j kj Hj Hsg. destruct (decide (i = j)) as [<-|Hne].
      * rewrite list_lookup_insert_eq in Hj by (by eapply lookup_lt_Some). injection Hj as <-.
        apply (Hall i k Hk). by rewrite <-(worker_signalled _ _ _ _ _ _ Hw).
      * rewrite list_lookup_insert_ne in Hj by done. by eapply Hall.
  - split; [|done]. unfold Discover.dial, zoom in E.
    pose proof (dial_wf fuel ρ env addr _ Hwf) as Hwf'.
    destruct (LoadBalancer.dial _ _ _ _ _) as [r' s']. by simplify_eq.
  - split; [|done]. by eapply reconfig_wf.
Qed.

Lemma init_ok w : wf (Discover.lb w) → sys_ok (init w).
Proof. intros Hwf. split; [done|]. split; [done|]. intros i k Hk. by destruct i. Qed.

Lemma steps_sys_ok y y' : steps y y' → sys_ok y → sys_ok y'.
Proof. induction 1 as [|y0 y1 y2 [l Hs] _ IH]; [done|]. intros Hok. apply IH. by eapply step_sys_ok. Qed.

(** How the source and the factory end a round on the pool [self]. *)
Definition answered source (create : BackendDescriptor → outcome (Result B Error.t)) self :
    outcome (Result unit Error.t) :=
  match discover source with
  | Ret (Ok ds) => (produce create (filter (λ d, fresh (ids self) d = true) ds)).2
  | Ret (Err e) => Ret (Err e)
  | Panic p => Panic p
  | Pending => Pending
  | NoFuel => NoFuel
  end.

(** A round does to the pool what its source and its factory answer. *)
Lemma round_outcome source create self :
  wf self → ∃ l,
    match discover source with
    | Ret (Ok ds) => reconciled create ds self l
    | _ => l = self
    end ∧
    round (source, create) self = ((_ ← answered source create self; Ret tt), l).
Proof.
  intros Hwf. unfold round, discovery_tick, answered. unfold mbind at 1, M_bind at 1, lift. cbn [fst snd].
  destruct (discover source) as [[ds|e]|p| |]; [|by exists self..].
  destruct (reconcile_reconciled create ds self Hwf) as (l & E & Hr). exists l. split; [done|].
  unfold mbind, M_bind. rewrite E. by destruct (produce _ _).2.
Qed.

(** *** Properties *)

(** C29: Discovery keeps the pool consistent and has one live loop.  However
    starts, stops, rounds with any answer of source and factory, dials and
    direct calls interleave, the pool stays well formed, and every loop but the
    one started last has been told to stop (starting again signals the previous
    loop, and [stop] the last one). *)
Theorem discovery_one_live_loop w y :
  wf (Discover.lb w) → steps (init w) y →
  wf (Discover.lb (wrap y)) ∧
  (∀ i k, loops y !! i = Some k → signalled k = false → tx y = Some i) ∧
  (tx y = None → Forall (λ k, signalled k = true) (loops y)).
Proof.
  intros Hwf Hst. destruct (steps_sys_ok _ _ Hst (init_ok w Hwf)) as (Hwf' & _ & Hall).
  split; [done|]. split; [done|]. intros Htx. apply Forall_lookup. intros i k Hk.
  destruct (signalled k) eqn:Hs; [done|]. specialize (Hall i k Hk Hs). congruence.
Qed.

(** C30: what a round does.  For a loop in the body of a tick and any answers of
    source and factory, the round has exactly one result: if discovery fails,
    panics or hangs, the pool is unchanged; if it answers, the pool is reconciled
    with the answer up to the first descriptor on which the factory fails, panics
    or hangs.  A failure of either is only logged and the loop goes on; a panic of
    either ends the loop although nobody stopped it; a hang keeps it there. *)
Theorem discovery_round_outcomes w ls o i sg source
    (create : BackendDescriptor → outcome (Result B Error.t)) :
  wf (Discover.lb w) → ls !! i = Some {| w_mode := Working; signalled := sg |} →
  ∃ l,
    match discover source with
    | Ret (Ok ds) => reconciled create ds (Discover.lb w) l
    | _ => l = Discover.lb w
    end ∧
    ∀ y', step (Worked i (Body (source, create))) {| wrap := w; loops := ls; tx := o |} y' ↔
      ∃ m, ending (answered source create (Discover.lb w)) = Some m ∧
        y' = {| wrap := Discover.set_lb l w;
                loops := <[i := {| w_mode := m; signalled := sg |}]> ls; tx := o |}.
Proof.
  intros Hwf Hi. destruct (round_outcome source create (Discover.lb w) Hwf) as (l & Hl & E).
  exists l. split; [done|].
  assert (Hend : ending (_ ← answered source create (Discover.lb w); Ret tt) =
    ending (answered source create (Discover.lb w))) by (by destruct (answered _ _ _)).
  intros y'. split.
  - intros Hs. inversion Hs as [| | |w0 ls0 tx0 i0 e k k' l' Hk Hw| |]; simplify_eq.
    inversion Hw as [|sg0 x s r s' m E' Em|]; subst.
    assert (Hr : (r, l') = (_ ← answered source create (Discover.lb w); Ret tt, l)) by congruence. simplify_eq.
    rewrite Hend in Em. by exists m.
  - intros (m & Hm & ->). eapply step_work; [done|]. eapply work_body; [exact E|]. by rewrite Hend.
Qed.
End Discoverer.
End Discoverer.

(** ** Witnesses *)

Definition check_config : HealthCheckConfig := HealthCheckConfig_default.
Definition two_metrics : list TunnelMetrics := [TunnelMetrics_default; TunnelMetrics_default].
Definition refuse : nat → attempt nat := λ _,
  {| at_result := Err Error.no_backends; at_panic := None; at_latency := Some 0%Z; at_lag := 0%Z; at_draw := f64_of_Z 0 |}.

(** Backend 20 panics, backend 10 refuses. *)
Definition explode : nat → attempt nat := λ b,
  {| at_result := Err Error.no_backends; at_panic := if decide (b = 20) then Some AssertFailed else None;
     at_latency := Some 0%Z; at_lag := 0%Z; at_draw := f64_of_Z 0 |}.

(** Every backend refuses, or answers as [explode] says. *)
Definition rough : nat → attempt nat → Prop := λ b a, a = refuse b ∨ a = explode b.

Lemma two_metrics_wf : Forall TunnelMetrics_wf two_metrics.
Proof. solve_wf. Qed.

(** A round is recorded; in the next one a backend panics and the task is over
    while its owner still holds the handle. *)
Lemma checker_run :
  ∃ y, Checker.steps (H := dev64) check_config [10; 20] rough (Checker.spawn [10; 20] two_metrics) y ∧
    Checker.owner y = Checker.Held ∧ w_mode (Checker.loop y) = Crashed AssertFailed ∧
    recent_errors <$> HealthChecker.metrics (Checker.state y) = [1%Z; 1%Z].
Proof.
  eexists. split; [|split; [|split]].
  - eapply rtc_l; [by eapply Checker.step_work, work_tick|].
    eapply rtc_l.
    { eapply (Checker.step_work _ _ _ (Body refuse)); [intros ? b [= <-] _; by left|].
      eapply work_body; [apply run_eq; vm_compute; reflexivity|reflexivity]. }
    eapply rtc_l; [by eapply Checker.step_work, work_tick|].
    eapply rtc_l; [|apply rtc_refl].
    eapply (Checker.step_work _ _ _ (Body explode)); [intros ? b [= <-] _; by right|].
    eapply work_body; [apply run_eq; vm_compute; reflexivity|reflexivity].
  - reflexivity.
  - reflexivity.
  - vm_compute. reflexivity.
Qed.

Lemma checker_survives_witness :
  ∃ y b, Checker.steps (H := dev64) check_config [10; 20] rough (Checker.spawn [10; 20] two_metrics) y ∧
    w_mode (Checker.loop y) = Crashed AssertFailed ∧ b ∈ [10; 20].
Proof.
  destruct checker_run as (y & Hy & _ & Hm & _).
  destruct (Checker.checker_survives (H := dev64) check_config [10; 20] rough two_metrics y two_metrics_wf Hy)
    as (Hc & _).
  destruct (Hc AssertFailed Hm) as [[E _]|(b & a & Hb & _)]; [discriminate|].
  exists y, b. split; [exact Hy|]. split; [exact Hm|exact Hb].
Defined.

(** Discovery is started, its first tick fires, it is started again and stopped. *)
Definition found : ServiceDiscovery := discovery_of (Ok [desc "bb"; desc "ccc"]).
Definition tracked_wrapper : Discover.t nat := Discover.new tracked_pool found None.

Lemma discovery_run :
  ∃ y, Discoverer.steps (H := dev64) (C := nat) (Discoverer.init tracked_wrapper) y ∧
    Discoverer.tx y = None ∧
    Discoverer.loops y = [{| w_mode := Working; signalled := true |};
                          {| w_mode := Waiting; signalled := true |}].
Proof.
  eexists. split; [|split].
  - eapply rtc_l; [by eexists; apply (Discoverer.step_start found)|].
    eapply rtc_l; [by eexists; eapply (Discoverer.step_work _ _ _ 0), work_tick|].
    eapply rtc_l; [by eexists; apply (Discoverer.step_start found)|].
    eapply rtc_l; [by eexists; apply Discoverer.step_stop|]. apply rtc_refl.
  - reflexivity.
  - reflexivity.
Qed.

Lemma discovery_one_live_loop_witness :
  ∃ y, Discoverer.steps (H := dev64) (C := nat) (Discoverer.init tracked_wrapper) y ∧
    Forall (λ k, signalled k = true) (Discoverer.loops y).
Proof.
  destruct discovery_run as (y & Hy & Htx & _). exists y. split; [exact Hy|].
  apply (Discoverer.discovery_one_live_loop (H := dev64) (C := nat) tracked_wrapper y);
    [exact tracked_pool_wf|exact Hy|exact Htx].
Defined.

(** The factory panics on "x": the loop is over, "ccc" was added before it. *)
Definition fragile (d : BackendDescriptor) : outcome (Result nat Error.t) :=
  if decide (id d = "x") then Panic AssertFailed else Ret (Ok (make_len d)).

Lemma discovery_round_outcomes_witness :
  let y := {| Discoverer.wrap := tracked_wrapper; Discoverer.loops := [{| w_mode := Working; signalled := false |}];
              Discoverer.tx := Some 0 |} in
  ∃ y', Discoverer.step (H := dev64) (C := nat)
      (Discoverer.Worked 0 (Body (discovery_of (Ok [desc "ccc"; desc "x"]), fragile))) y y' ∧
    Discoverer.loops y' = [{| w_mode := Crashed AssertFailed; signalled := false |}] ∧
    LoadBalancer.ids (Discover.lb (Discoverer.wrap y')) = [None; Some "ccc"].
Proof.
  intros y. destruct (Discoverer.discovery_round_outcomes (H := dev64) (C := nat) tracked_wrapper
    (Discoverer.loops y) (Some 0) 0 false (discovery_of (Ok [desc "ccc"; desc "x"])) fragile tracked_pool_wf eq_refl)
    as (l & (Hwf & He & _) & Hl).
  eexists. split; [apply Hl; exists (Crashed AssertFailed); split; reflexivity|]. split; [reflexivity|].
  cbn. rewrite <-(entries_ids l Hwf), He. vm_compute. reflexivity.
Defined.
