(* ===== verification/Connection.v ===== *)
(** * Connections as byte streams

    [GuardedConnection] ([src/src/services/balancer.rs]) and [TlsConnection]
    ([src/src/configs/tls.rs]) implement tokio's [AsyncRead] and [AsyncWrite] by
    forwarding to what they wrap.  The traits are a class; a connection or a TLS
    stream is any type with an instance.  The wrappers do not define the
    vectored methods of [AsyncWrite], so they have tokio's provided ones. *)

From stdpp Require Import base tactics list numbers strings.
From S2P Require Import Prelude Errors Constants Strategy Float64 Retry Address Balancer.

Open Scope rota_scope.

(** ** The traits *)

Inductive Poll (A : Type) := Ready (a : A) | NotReady.
Arguments Ready {A} a.
Arguments NotReady {A}.

(** What was put into a [ReadBuf] so far, and the room that is left. *)
Record ReadBuf := { filled : string; remaining : nat }.

(** [AsyncRead + AsyncWrite]; [cx] names the waker, an error is its text. *)
Class AsyncConnection (S : Type) := {
  poll_read (cx : nat) : M (ReadBuf * S) (Poll (Result unit string));
  poll_write (cx : nat) (buf : string) : M S (Poll (Result nat string));
  poll_flush (cx : nat) : M S (Poll (Result unit string));
  poll_shutdown (cx : nat) : M S (Poll (Result unit string));
  poll_write_vectored (cx : nat) (bufs : list string) : M S (Poll (Result nat string));
  is_write_vectored : S → bool
}.

(** The provided [poll_write_vectored]: the first buffer that is not empty. *)
Definition first_nonempty (bufs : list string) : string :=
  default "" (head (filter (λ b, b ≠ "") bufs)).
Definition default_write_vectored {S} (write : nat → string → M S (Poll (Result nat string)))
    (cx : nat) (bufs : list string) : M S (Poll (Result nat string)) :=
  write cx (first_nonempty bufs).

(** ** The wrappers *)

(** Run a method of the wrapped value. *)
Definition on_inner {W S A} (gt : W → S) (st : S → W → W) : M S A → M W A := zoom gt st.
Definition on_inner_buf {W S A} (gt : W → S) (st : S → W → W) : M (ReadBuf * S) A → M (ReadBuf * W) A :=
  zoom (λ x, (x.1, gt x.2)) (λ y x, (y.1, st y.2 x.2)).

Definition set_inner {C} (c : C) (self : GuardedConnection C) : GuardedConnection C :=
  {| inner := c; _guard := _guard self |}.

#[global] Instance GuardedConnection_io {C} `{!AsyncConnection C} : AsyncConnection (GuardedConnection C) := {
  poll_read cx := on_inner_buf inner set_inner (poll_read cx);
  poll_write cx buf := on_inner inner set_inner (poll_write cx buf);
  poll_flush cx := on_inner inner set_inner (poll_flush cx);
  poll_shutdown cx := on_inner inner set_inner (poll_shutdown cx);
  poll_write_vectored := default_write_vectored (λ cx buf, on_inner inner set_inner (poll_write cx buf));
  is_write_vectored _ := false
}.

(** [stream] is the library's [TlsStream]. *)
Record TlsConnection (St : Type) := { stream : St }.
Arguments stream {St}.
Definition set_stream {St} (s : St) (self : TlsConnection St) : TlsConnection St := {| stream := s |}.

#[global] Instance TlsConnection_io {St} `{!AsyncConnection St} : AsyncConnection (TlsConnection St) := {
  poll_read cx := on_inner_buf stream set_stream (poll_read cx);
  poll_write cx buf := on_inner stream set_stream (poll_write cx buf);
  poll_flush cx := on_inner stream set_stream (poll_flush cx);
  poll_shutdown cx := on_inner stream set_stream (poll_shutdown cx);
  poll_write_vectored := default_write_vectored (λ cx buf, on_inner stream set_stream (poll_write cx buf));
  is_write_vectored _ := false
}.

(** ** What a caller can observe *)

Inductive io_op :=
| Read (capacity : nat)
| Write (buf : string)
| WriteVectored (bufs : list string)
| Flush
| Shutdown.

(** The answer of an operation, with the bytes a read delivered. *)
Inductive io_answer :=
| Got (r : Poll (Result unit string)) (bytes : string)
| Count (r : Poll (Result nat string))
| Done (r : Poll (Result unit string)).

Definition io_call {S} `{!AsyncConnection S} (cx : nat) (op : io_op) : M S io_answer :=
  match op with
  | Read n => λ s,
      let '(o, (buf, s')) := poll_read cx ({| filled := ""; remaining := n |}, s) in
      (r ← o; Ret (Got r (filled buf)), s')
  | Write b => r ← poll_write cx b; mret (Count r)
  | WriteVectored bs => r ← poll_write_vectored cx bs; mret (Count r)
  | Flush => r ← poll_flush cx; mret (Done r)
  | Shutdown => r ← poll_shutdown cx; mret (Done r)
  end.

Fixpoint io_session {S} `{!AsyncConnection S} (ops : list (nat * io_op)) : M S (list io_answer) :=
  match ops with
  | [] => mret []
  | (cx, op) :: rest => a ← io_call cx op; r ← io_session rest; mret (a :: r)
  end.

(** The calls whose meaning the wrapper takes from the wrapped connection: all
    but vectored writes, unless the connection has the provided ones too. *)
Definition plain_vectored (S : Type) `{!AsyncConnection S} : Prop :=
  ∀ cx bufs s, poll_write_vectored cx bufs s = default_write_vectored poll_write cx bufs s.
Definition forwarded (op : io_op) : bool :=
  match op with WriteVectored _ => false | _ => true end.

(** ** Lemmas *)

(** A wrapper around a connection, with its getter and setter. *)
Section Wrapper.
Context {W S : Type} `{!AsyncConnection W, !AsyncConnection S} (gt : W → S) (st : S → W → W).
Hypothesis gt_st : ∀ s w, gt (st s w) = s.
Hypothesis st_gt : ∀ w, st (gt w) w = w.
Hypothesis st_st : ∀ s s' w, st s (st s' w) = st s w.
Hypothesis fwd_read : ∀ cx, poll_read (S := W) cx = on_inner_buf gt st (poll_read cx).
Hypothesis fwd_write : ∀ cx b, poll_write (S := W) cx b = on_inner gt st (poll_write cx b).
Hypothesis fwd_flush : ∀ cx, poll_flush (S := W) cx = on_inner gt st (poll_flush cx).
Hypothesis fwd_shutdown : ∀ cx, poll_shutdown (S := W) cx = on_inner gt st (poll_shutdown cx).
Hypothesis fwd_vectored : ∀ cx bs s,
  poll_write_vectored (S := W) cx bs s = default_write_vectored poll_write cx bs s.

Lemma wrapper_call cx op w :
  forwarded op = true ∨ plain_vectored S →
  io_call cx op w = on_inner gt st (io_call cx op) w.
Proof.
  intros Hop. unfold on_inner. destruct op as [n|b|bs| |]; cbn [io_call].
  - rewrite fwd_read. unfold on_inner_buf, zoom. cbn.
    by destruct (poll_read cx ({| filled := ""; remaining := n |}, gt w)) as [o [buf s]].
  - rewrite fwd_write. unfold on_inner. mrun. by destruct (poll_write cx b (gt w)) as [[] s].
  - destruct Hop as [?|Hv]; [done|]. mrun. rewrite fwd_vectored, Hv. unfold default_write_vectored.
    rewrite fwd_write. unfold on_inner, zoom. by destruct (poll_write cx _ (gt w)) as [[] s].
  - rewrite fwd_flush. unfold on_inner. mrun. by destruct (poll_flush cx (gt w)) as [[] s].
  - rewrite fwd_shutdown. unfold on_inner. mrun. by destruct (poll_shutdown cx (gt w)) as [[] s].
Qed.

Lemma wrapper_session ops w :
  (Forall (λ x, forwarded x.2 = true) ops ∨ plain_vectored S) →
  io_session ops w = on_inner gt st (io_session ops) w.
Proof.
  revert w. induction ops as [|[cx op] ops IH]; intros w Hops; cbn [io_session].
  { unfold on_inner. mrun. by rewrite st_gt. }
  assert (Hop : (forwarded op = true ∨ plain_vectored S) ∧
                (Forall (λ x, forwarded x.2 = true) ops ∨ plain_vectored S)).
  { destruct Hops as [[? ?]%Forall_cons|?]; auto. }
  destruct Hop as [Hop Hrest]. unfold on_inner, zoom. unfold mbind, M_bind.
  rewrite wrapper_call by done. unfold on_inner, zoom.
  destruct (io_call cx op (gt w)) as [[a|p| |] s]; [|done..].
  rewrite (IH (st s w) Hrest). unfold on_inner, zoom. rewrite gt_st.
  by destruct (io_session ops s) as [[] s']; cbn; rewrite st_st.
Qed.
End Wrapper.

Lemma guarded_session {C} `{!AsyncConnection C} ops (c : GuardedConnection C) :
  (Forall (λ x, forwarded x.2 = true) ops ∨ plain_vectored C) →
  io_session ops c = on_inner inner set_inner (io_session ops) c.
Proof. intros Hops. apply (wrapper_session inner set_inner); try done. by intros []. Qed.

Lemma tls_session {St} `{!AsyncConnection St} ops (c : TlsConnection St) :
  (Forall (λ x, forwarded x.2 = true) ops ∨ plain_vectored St) →
  io_session ops c = on_inner stream set_stream (io_session ops) c.
Proof. intros Hops. apply (wrapper_session stream set_stream); try done. by intros []. Qed.

(** ** Properties *)

(** C34: A guarded TLS connection is the stream it wraps.  Any session of reads,
    writes, flushes and shutdowns, with whatever answers, errors, pending polls
    and panics the stream gives, has the same answers through [TlsConnection]
    and [GuardedConnection], leaves the stream in the same state, and does not
    touch the guard. *)
Theorem connection_is_transparent {St} `{!AsyncConnection St} ops (c : GuardedConnection (TlsConnection St)) :
  Forall (λ x, forwarded x.2 = true) ops →
  io_session ops c =
    let '(o, s) := io_session ops (stream (inner c)) in
    (o, {| inner := {| stream := s |}; _guard := _guard c |}).
Proof.
  intros Hops. rewrite guarded_session by (by left). unfold on_inner, zoom.
  rewrite tls_session by (by left). unfold on_inner, zoom.
  by destruct (io_session ops (stream (inner c))).
Qed.

(** Vectored writes are not forwarded.  The wrappers answer that they have
    no efficient vectored write, whatever the connection can do, and write only
    the first buffer that is not empty; so a session with vectored writes is
    that of the wrapped connection only if it has the provided method too. *)
Theorem vectored_writes_are_plain {C} `{!AsyncConnection C} (c : GuardedConnection C) cx bufs :
  is_write_vectored c = false ∧
  poll_write_vectored cx bufs c = poll_write cx (first_nonempty bufs) c ∧
  (plain_vectored C → ∀ ops, io_session ops c = on_inner inner set_inner (io_session ops) c).
Proof. split; [done|]. split; [done|]. intros Hv ops. apply guarded_session. by right. Qed.

(** ** Witnesses *)

(** A pipe: bytes to read, and the bytes written. *)
Definition pipe : Type := string * string.
Definition pipe_write (buf : string) : M pipe (Poll (Result nat string)) := λ s,
  (Ret (Ready (Ok (String.length buf))), (s.1, s.2 +:+ buf)).
#[global] Instance pipe_io : AsyncConnection pipe := {
  poll_read _ := λ x, let '(buf, s) := x in
    let n := remaining buf in
    (Ret (Ready (Ok tt)),
     ({| filled := filled buf +:+ String.substring 0 n s.1; remaining := n - String.length s.1 |},
      (String.substring n (String.length s.1 - n) s.1, s.2)));
  poll_write _ := pipe_write;
  poll_flush _ := mret (Ready (Ok tt));
  poll_shutdown _ := mret (Ready (Ok tt));
  poll_write_vectored _ bufs := pipe_write (foldr String.append "" bufs);
  is_write_vectored _ := true
}.

Definition guarded_pipe : GuardedConnection (TlsConnection pipe) :=
  {| inner := {| stream := ("hello", "") |}; _guard := {| guard_index := 1; gen_at_creation := 0 |} |}.

Lemma connection_is_transparent_witness :
  io_session [(0, Read 3); (0, Write "ok"); (1, Read 9); (0, Shutdown)] guarded_pipe =
    (Ret [Got (Ready (Ok tt)) "hel"; Count (Ready (Ok 2)); Got (Ready (Ok tt)) "lo";
          Done (Ready (Ok tt))],
     {| inner := {| stream := ("", "ok") |}; _guard := _guard guarded_pipe |}).
Proof.
  rewrite (connection_is_transparent [(0, Read 3); (0, Write "ok"); (1, Read 9); (0, Shutdown)] guarded_pipe)
    by (by repeat constructor).
  vm_compute. reflexivity.
Defined.

(** The pipe takes both buffers at once, the wrapper one. *)
Example vectored_example :
  (poll_write_vectored 0 [""; "ab"; "cd"] ("", "")).2 = ("", "abcd") ∧
  stream (inner (poll_write_vectored 0 [""; "ab"; "cd"] guarded_pipe).2) = ("hello", "ab").
Proof. vm_compute. auto. Qed.

Lemma vectored_writes_are_plain_witness :
  poll_write_vectored 0 [""; "ab"; "cd"] guarded_pipe = poll_write 0 "ab" guarded_pipe.
Proof. exact (proj1 (proj2 (vectored_writes_are_plain guarded_pipe 0 [""; "ab"; "cd"]))). Defined.
