(* ===== verification/Ffi.v ===== *)
(** * The C interface ([src/src/ffi])

    [FfiLoadBalancer] with its two standard mutexes, which a panic under the
    lock poisons for good, the [rota_lb_*] functions on a possibly null handle,
    and the conversion of metrics.  A pointer argument is an [option]; what it
    points at is the list or string it has to cover by the functions' safety
    contract. *)

From Stdlib Require Import Ascii.
From stdpp Require Import base tactics list numbers strings.
From S2P Require Import Prelude Text Constants Strategy Strategies Scored WeightedRoundRobin Registry.

Open Scope rota_scope.

(** ** Data *)

Record RotaVersion := { major : Z; minor : Z; patch : Z; metric_struct_size : Z }.
Definition VERSION : RotaVersion :=
  {| major := 0; minor := 1; patch := 0; metric_struct_size := 32 |}.

Record FfiMetric := {
  rtt_us : Z;
  m_active_connections : Z;
  m_recent_errors : Z;
  m_total_dials : Z;
  m_total_errors : Z
}.

Definition ffi_to_tunnel (m : FfiMetric) : TunnelMetrics :=
  {| rtt := if (rtt_us m =? 0)%Z then None else Some (from_micros (rtt_us m));
     active_connections := m_active_connections m; recent_errors := m_recent_errors m;
     total_dials := m_total_dials m; total_errors := m_total_errors m |}.

(** The conversion back, in [rota_lb_metrics]. *)
Definition FfiMetric_zero : FfiMetric :=
  {| rtt_us := 0; m_active_connections := 0; m_recent_errors := 0; m_total_dials := 0;
     m_total_errors := 0 |}.
Definition tunnel_to_ffi (m : TunnelMetrics) : FfiMetric :=
  {| rtt_us := match rtt m with
               | None => 0
               | Some d => try_from_or u64_MAX (as_micros d) u64_MAX
               end;
     m_active_connections := active_connections m; m_recent_errors := recent_errors m;
     m_total_dials := total_dials m; m_total_errors := total_errors m |}.

(** [std::sync::Mutex]: a value, and whether a holder panicked. *)
Record mutex (A : Type) := { guarded : A; poisoned : bool }.
Arguments guarded {A}.
Arguments poisoned {A}.

Definition mutex_new {A} (a : A) : mutex A := {| guarded := a; poisoned := false |}.

Module FfiLoadBalancer.
Record t := {
  strategy : mutex dyn_strategy;
  backend_count : nat;
  strategy_kind : FfiStrategy.t;
  scratch : mutex (list TunnelMetrics)
}.
End FfiLoadBalancer.
Import FfiLoadBalancer.

Definition set_strategy_mutex (m : mutex dyn_strategy) (self : t) : t :=
  {| strategy := m; backend_count := backend_count self; strategy_kind := strategy_kind self;
     scratch := scratch self |}.
Definition set_scratch (m : mutex (list TunnelMetrics)) (self : t) : t :=
  {| strategy := strategy self; backend_count := backend_count self;
     strategy_kind := strategy_kind self; scratch := m |}.
Definition set_kind (k : FfiStrategy.t) (self : t) : t :=
  {| strategy := strategy self; backend_count := backend_count self; strategy_kind := k;
     scratch := scratch self |}.

(** ** Locks and panics *)

(** [lock()]: [onpoison] if poisoned, else the body; a panic in it poisons. *)
Definition locked {S T A} (lens : S → mutex T) (set : mutex T → S → S) (onpoison : A) (body : M S A) :
    M S A :=
  λ s, if poisoned (lens s) then (Ret onpoison, s)
       else match body s with
            | (Panic p, s') => (Panic p, set {| guarded := guarded (lens s'); poisoned := true |} s')
            | r => r
            end.

Definition with_strategy_lock {A} (onpoison : A) (m : M dyn_strategy A) : M t A :=
  locked strategy set_strategy_mutex onpoison
    (zoom (λ s, guarded (strategy s))
       (λ d s, set_strategy_mutex {| guarded := d; poisoned := poisoned (strategy s) |} s) m).

(** [catch_panic!]. *)
Definition catch_panic {S A} (m : M S A) (default : A) : M S A :=
  λ s, match m s with (Panic _, s') => (Ret default, s') | r => r end.

(** ** The functions *)

Section Api.
Context `{Target, Hasher}.

Definition rota_lb_version (out : option RotaVersion) : Z * option RotaVersion :=
  match out with None => (-1, None)%Z | Some _ => (0%Z, Some VERSION) end.

Definition rota_lb_create (n : Z) (kind : Z) : option t :=
  if (n =? 0)%Z then None
  else
    match FfiStrategy.from_i32 kind with
    | None => None
    | Some k =>
        Some {| strategy := mutex_new (FfiStrategy.build k (Z.to_nat n));
                backend_count := Z.to_nat n; strategy_kind := k; scratch := mutex_new [] |}
    end.

(** The pointee is freed; the pointer is not to be used again. *)
Definition rota_lb_destroy (lb : option t) : option t := None.

Definition select_impl (ρ : Rng) (dial_addr : string) (metrics : list FfiMetric) (n : Z) : M t Z :=
  self ← get;
  if negb (utf8_valid dial_addr) then mret u32_MAX
  else
    let count := Z.to_nat n in
    if decide (count = 0 ∨ count ≠ backend_count self) then mret u32_MAX
    else
      locked scratch set_scratch u32_MAX
        (let view := ffi_to_tunnel <$> take count metrics in
         modify (set_scratch (mutex_new view));;
         with_strategy_lock u32_MAX
           (i ← pick ρ {| dial_addr := dial_addr; metrics := view |};
            mret (try_from_or u32_MAX (Z.of_nat i) u32_MAX))).

Definition rota_lb_select (ρ : Rng) (dial_addr : option string) (metrics : option (list FfiMetric))
    (n : Z) : M (option t) Z :=
  λ lb,
    match lb, dial_addr, metrics with
    | Some self, Some a, Some ms =>
        let '(o, self') := catch_panic (select_impl ρ a ms n) u32_MAX self in (o, Some self')
    | _, _, _ => (Ret u32_MAX, lb)
    end.

(** Run code on a handle that is not null. *)
Definition on_handle {A} (null : A) (m : M t A) : M (option t) A :=
  λ lb, match lb with
        | None => (Ret null, None)
        | Some self => let '(o, self') := m self in (o, Some self')
        end.

Definition rota_lb_report_error (idx : Z) : M (option t) unit :=
  on_handle tt (catch_panic (with_strategy_lock tt (report_error (Z.to_nat idx))) tt).
Definition rota_lb_report_success (idx : Z) : M (option t) unit :=
  on_handle tt (catch_panic (with_strategy_lock tt (report_success (Z.to_nat idx))) tt).

(** The cached table of names, and the lookup. *)
Definition names : list string :=
  FfiStrategy.name <$> omap (λ i, FfiStrategy.from_i32 (Z.of_nat i)) (seq 0 9).
Definition rota_lb_strategy_name (lb : option t) : outcome string :=
  match lb with
  | None => index names 0
  | Some self => index names (Z.to_nat (FfiStrategy.discriminant (strategy_kind self)))
  end.

(** The code, and what is in the buffer after the call. *)
Definition rota_lb_metrics (lb : option t) (out : option (list FfiMetric)) : Z * option (list FfiMetric) :=
  match lb, out with
  | Some self, Some buf =>
      let snapshot := if poisoned (scratch self) then [] else guarded (scratch self) in
      (0%Z,
       Some (((λ i, match snapshot !! i with Some m => tunnel_to_ffi m | None => FfiMetric_zero end)
                <$> seq 0 (backend_count self)) ++ drop (backend_count self) buf))
  | _, _ => ((-1)%Z, out)
  end.

Definition rota_lb_set_strategy (kind : Z) : M (option t) Z :=
  on_handle (-1)%Z
    (match FfiStrategy.from_i32 kind with
     | None => mret (-1)%Z
     | Some k =>
         catch_panic
           (locked strategy set_strategy_mutex (-1)%Z
              (modify (λ self, set_strategy_mutex (mutex_new (FfiStrategy.build k (backend_count self))) self);;
               modify (set_kind k);;
               mret 0%Z)) (-1)%Z
     end).

Definition rota_lb_reset : M (option t) Z :=
  on_handle (-1)%Z
    (catch_panic
       (locked strategy set_strategy_mutex (-1)%Z
          (modify (λ self, set_strategy_mutex
             (mutex_new (FfiStrategy.build (strategy_kind self) (backend_count self))) self);;
           mret 0%Z)) (-1)%Z).

(** ** A session: the calls a host makes on one handle *)

Inductive call :=
| Select (ρ : Rng) (dial_addr : string) (metrics : list FfiMetric)
| ReportError (idx : Z)
| ReportSuccess (idx : Z)
| SetStrategy (kind : FfiStrategy.t)
| Reset.

(** What the host sees of a call; [n] is the pool size it was created with. *)
Definition run_call (n : Z) (c : call) : M (option t) (option Z) :=
  match c with
  | Select ρ a ms => r ← rota_lb_select ρ (Some a) (Some ms) n; mret (Some r)
  | ReportError idx => rota_lb_report_error idx;; mret None
  | ReportSuccess idx => rota_lb_report_success idx;; mret None
  | SetStrategy k => r ← rota_lb_set_strategy (FfiStrategy.discriminant k); mret (Some r)
  | Reset => r ← rota_lb_reset; mret (Some r)
  end.

Fixpoint run_calls (n : Z) (cs : list call) : M (option t) (list (option Z)) :=
  match cs with
  | [] => mret []
  | c :: cs' => r ← run_call n c; rs ← run_calls n cs'; mret (r :: rs)
  end.
End Api.

(** ** Specification *)

(** A metric of the host: every field fits its type, and the RTT is below 2^63 us. *)
Definition metric_ok (m : FfiMetric) : Prop :=
  (0 ≤ rtt_us m < 2 ^ 63 ∧ 0 ≤ m_active_connections m ≤ u32_MAX ∧ 0 ≤ m_recent_errors m ≤ u32_MAX ∧
   0 ≤ m_total_dials m ≤ u64_MAX ∧ 0 ≤ m_total_errors m ≤ u64_MAX)%Z.

Definition call_ok (n : Z) (c : call) : Prop :=
  match c with
  | Select ρ a ms => rng_ok ρ ∧ utf8_valid a = true ∧ (n ≤ Z.of_nat (length ms))%Z ∧ Forall metric_ok ms
  | ReportError idx | ReportSuccess idx => (0 ≤ idx < u32_MAX)%Z
  | SetStrategy _ | Reset => True
  end.

(** What the host is promised of each call. *)
Definition result_ok (n : Z) (c : call) (r : option Z) : Prop :=
  match c with
  | Select _ _ _ => ∃ i, r = Some i ∧ (0 ≤ i < n)%Z
  | ReportError _ | ReportSuccess _ => r = None
  | SetStrategy _ | Reset => r = Some 0%Z
  end.

(** A working handle with [k] picks left. *)
Definition handle_ok `{Target} (n k : Z) (self : t) : Prop :=
  poisoned (strategy self) = false ∧ poisoned (scratch self) = false ∧
  dyn_safe k (guarded (strategy self)) ∧ backend_count self = Z.to_nat n.

(** ** Lemmas *)

Lemma micros_roundtrip us : as_micros (from_micros us) = us.
Proof. unfold as_micros, from_micros. by rewrite Z.div_mul. Qed.

Lemma ffi_to_tunnel_wf m : metric_ok m → TunnelMetrics_wf (ffi_to_tunnel m).
Proof.
  intros (Hr & ? & ? & ? & ?). split; [|done]. cbn. destruct (rtt_us m =? 0)%Z; cbn; [done|].
  unfold Duration_wf, Duration_MAX, from_micros, NANOS_PER_SEC, u64_MAX in *. lia.
Qed.

Lemma ffi_view_ok `{Target} a n ms :
  (0 < n < u32_MAX)%Z → (n ≤ Z.of_nat (length ms))%Z → Forall metric_ok ms →
  let v := {| dial_addr := a; metrics := ffi_to_tunnel <$> take (Z.to_nat n) ms |} in
  view_wf v ∧ rtts_sane v ∧ PoolView_len v = Z.to_nat n.
Proof.
  intros Hn Hl Hms v. assert (Hlen : PoolView_len v = Z.to_nat n).
  { unfold PoolView_len; cbn. rewrite length_fmap, length_take. lia. }
  apply (Forall_take _ (Z.to_nat n)) in Hms. pose proof usize_MAX_ge_u32.
  split; [split; [|rewrite Hlen; lia]|split; [|done]].
  - cbn. apply Forall_fmap. eapply Forall_impl; [exact Hms|]. apply ffi_to_tunnel_wf.
  - unfold rtts_sane; cbn. apply Forall_fmap. eapply Forall_impl; [exact Hms|].
    intros m (Hr & _). cbn. destruct (rtt_us m =? 0)%Z; cbn; [done|]. rewrite micros_roundtrip. lia.
Qed.

Section Lemmas.
Context `{Target, Hasher}.

Lemma select_ok n k ρ a ms self :
  (0 < n < u32_MAX)%Z → (0 ≤ k)%Z → handle_ok n (k + 1) self → call_ok n (Select ρ a ms) →
  ∃ i self', rota_lb_select ρ (Some a) (Some ms) n (Some self) = (Ret (Z.of_nat i), Some self') ∧
    i < Z.to_nat n ∧ handle_ok n k self' ∧
    guarded (scratch self') = ffi_to_tunnel <$> take (Z.to_nat n) ms.
Proof.
  intros Hn Hk (Hps & Hpc & Hsafe & Hc) (Hρ & Hu & Hl & Hms).
  destruct (ffi_view_ok a n ms Hn Hl Hms) as (Hv & Hr & Hlen). cbv zeta in Hv, Hr, Hlen.
  destruct (pick_ok (StrategyLaws0 := dyn_StrategyLaws) k ρ
    {| dial_addr := a; metrics := ffi_to_tunnel <$> take (Z.to_nat n) ms |}
    (guarded (strategy self)) Hk Hsafe) as (i & d & E & Hi & Hd).
  { unfold sane_call. cbn [fst snd]. rewrite Hlen. split_and!; try done; lia. }
  rewrite Hlen in Hi. eexists i, _. split; [|split; [done|]].
  - unfold rota_lb_select, catch_panic, select_impl. mrun. rewrite Hu, Hc. cbn.
    rewrite decide_False by lia. unfold locked. rewrite Hpc. mrun.
    unfold with_strategy_lock, locked. cbn. rewrite Hps. mrun. rewrite E. cbn.
    unfold try_from_or. replace (Z.of_nat i <=? u32_MAX)%Z with true by lia. reflexivity.
  - split; [|done]. unfold handle_ok; cbn. by rewrite Hps.
Qed.

Lemma report_ok n k (m : M dyn_strategy unit) self :
  handle_ok n k self →
  (∃ d, m (guarded (strategy self)) = (Ret tt, d) ∧ dyn_safe k d) →
  ∃ self', on_handle tt (catch_panic (with_strategy_lock tt m) tt) (Some self) = (Ret tt, Some self') ∧
    handle_ok n k self'.
Proof.
  intros (Hps & Hpc & Hsafe & Hc) (d & E & Hd). eexists. split.
  - unfold on_handle, catch_panic, with_strategy_lock, locked. rewrite Hps. mrun. rewrite E. reflexivity.
  - unfold handle_ok; cbn. by rewrite Hps.
Qed.

Lemma run_call_ok n k c self :
  (0 < n < u32_MAX)%Z → (0 ≤ k < PICK_BUDGET)%Z → handle_ok n (k + 1) self → call_ok n c →
  ∃ r self', run_call n c (Some self) = (Ret r, Some self') ∧ result_ok n c r ∧ handle_ok n k self'.
Proof.
  intros Hn [Hk Hb] Hok Hc. destruct c as [ρ a ms|idx|idx|kind|].
  - destruct (select_ok n k ρ a ms self Hn Hk Hok Hc) as (i & self' & E & Hi & Hok' & _).
    eexists _, self'. split; [|split; [exists (Z.of_nat i); split; [done|lia]|done]].
    cbn. unfold mbind, M_bind. by rewrite E.
  - destruct (report_ok n (k + 1) (report_error (Z.to_nat idx)) self Hok) as (self' & E & Hok').
    { apply (report_error_safe (StrategyLaws := dyn_StrategyLaws)); [apply Hok|].
      pose proof usize_MAX_ge_u32. cbn in Hc. lia. }
    exists None, self'. split; [|split; [done|]].
    + cbn. unfold rota_lb_report_error, mbind, M_bind. by rewrite E.
    + destruct Hok' as (? & ? & ? & ?). split_and!; try done.
      eapply (safe_mono (StrategyLaws := dyn_StrategyLaws)); [|done]. lia.
  - destruct (report_ok n (k + 1) (report_success (Z.to_nat idx)) self Hok) as (self' & E & Hok').
    { apply (report_success_safe (StrategyLaws := dyn_StrategyLaws)). apply Hok. }
    exists None, self'. split; [|split; [done|]].
    + cbn. unfold rota_lb_report_success, mbind, M_bind. by rewrite E.
    + destruct Hok' as (? & ? & ? & ?). split_and!; try done.
      eapply (safe_mono (StrategyLaws := dyn_StrategyLaws)); [|done]. lia.
  - destruct Hok as (Hps & Hpc & _ & Hcnt). eexists _, _. split; [|split; [reflexivity|]].
    + cbn [run_call]. unfold rota_lb_set_strategy.
      replace (FfiStrategy.from_i32 (FfiStrategy.discriminant kind)) with (Some kind) by (by destruct kind).
      unfold on_handle, catch_panic, locked. mrun. rewrite Hps. reflexivity.
    + unfold handle_ok; cbn. split_and!; try done.
      eapply (safe_mono (StrategyLaws := dyn_StrategyLaws)); [|apply build_safe]. lia.
  - destruct Hok as (Hps & Hpc & _ & Hcnt). eexists _, _. split; [|split; [reflexivity|]].
    + cbn [run_call]. unfold rota_lb_reset, on_handle, catch_panic, locked. mrun. rewrite Hps. reflexivity.
    + unfold handle_ok; cbn. split_and!; try done.
      eapply (safe_mono (StrategyLaws := dyn_StrategyLaws)); [|apply build_safe]. lia.
Qed.

Lemma run_calls_ok n cs self :
  (0 < n < u32_MAX)%Z → (Z.of_nat (length cs) ≤ PICK_BUDGET)%Z →
  handle_ok n (Z.of_nat (length cs)) self → Forall (call_ok n) cs →
  ∃ rs self', run_calls n cs (Some self) = (Ret rs, Some self') ∧ Forall2 (result_ok n) cs rs.
Proof.
  intros Hn Hb Hok Hcs. revert self Hb Hok. induction Hcs as [|c cs Hc _ IH]; intros self Hb Hok.
  { exists [], self. by split. }
  cbn [length] in *. rewrite Nat2Z.inj_succ, <-Z.add_1_r in *.
  destruct (run_call_ok n (Z.of_nat (length cs)) c self Hn ltac:(lia) Hok Hc) as (r & self1 & E & Hr & Hok1).
  destruct (IH self1 ltac:(lia) Hok1) as (rs & self' & E' & Hrs).
  exists (r :: rs), self'. cbn [run_calls]. unfold mbind, M_bind. rewrite E, E'.
  split; [done|]. by constructor.
Qed.

Lemma tunnel_roundtrip m : metric_ok m → tunnel_to_ffi (ffi_to_tunnel m) = m.
Proof.
  intros (Hr & _). destruct m as [us ac re td te]; unfold tunnel_to_ffi, ffi_to_tunnel; cbn in *.
  destruct (us =? 0)%Z eqn:E; breflect; [by subst us|]. rewrite micros_roundtrip. unfold try_from_or.
  by replace (us <=? u64_MAX)%Z with true by (unfold u64_MAX; lia).
Qed.

Lemma buffer_of_view ms count :
  Forall metric_ok ms → count ≤ length ms →
  (λ i, match (ffi_to_tunnel <$> take count ms) !! i with
        | Some m => tunnel_to_ffi m | None => FfiMetric_zero end) <$> seq 0 count = take count ms.
Proof.
  intros Hms Hc. apply list_eq. intros i. destruct (decide (i < count)) as [Hi|Hi].
  - rewrite list_lookup_fmap, lookup_seq_lt by done. cbn. rewrite list_lookup_fmap, lookup_take_lt by done.
    destruct (lookup_lt_is_Some_2 ms i) as [m Hm]; [lia|]. rewrite Hm. cbn. f_equal.
    apply tunnel_roundtrip. exact (Forall_lookup_1 _ _ _ _ Hms Hm).
  - rewrite !lookup_ge_None_2; [done|rewrite length_take; lia|rewrite length_fmap, length_seq; lia].
Qed.

(** ** Properties *)

(** A host that keeps to the contract never sees an error.  A handle is
    created for every strategy and every pool size; then, over any sequence of
    fewer than [PICK_BUDGET] calls with valid arguments, each selection returns
    an index of the pool, each strategy change and reset succeeds, and no panic
    crosses the boundary or poisons a lock, in both build profiles. *)
Theorem ffi_session_ok n kind cs :
  (0 < n < u32_MAX)%Z → (Z.of_nat (length cs) ≤ PICK_BUDGET)%Z → Forall (call_ok n) cs →
  ∃ self rs self', rota_lb_create n (FfiStrategy.discriminant kind) = Some self ∧
    run_calls n cs (Some self) = (Ret rs, Some self') ∧ Forall2 (result_ok n) cs rs.
Proof.
  intros Hn Hb Hcs. unfold rota_lb_create. replace (n =? 0)%Z with false by lia.
  replace (FfiStrategy.from_i32 (FfiStrategy.discriminant kind)) with (Some kind) by (by destruct kind).
  set (self := Build_t _ _ _ _). assert (Hok : handle_ok n (Z.of_nat (length cs)) self).
  { unfold handle_ok; cbn. split_and!; try done.
    eapply (safe_mono (StrategyLaws := dyn_StrategyLaws)); [exact Hb|apply build_safe]. }
  destruct (run_calls_ok n cs self Hn Hb Hok Hcs) as (rs & self' & E & Hrs). by exists self, rs, self'.
Qed.

(** C33: the host reads back the metrics it passed.  After a valid selection on a
    usable handle, [rota_lb_metrics] fills the caller's buffer with exactly the records given
    to [rota_lb_select] (an RTT of zero standing for none), and leaves the rest
    of the buffer alone. *)
Theorem ffi_metrics_roundtrip n k ρ a ms self r self' buf :
  (0 < n < u32_MAX)%Z → (0 ≤ k)%Z → handle_ok n (k + 1) self → call_ok n (Select ρ a ms) →
  rota_lb_select ρ (Some a) (Some ms) n (Some self) = (r, self') →
  rota_lb_metrics self' (Some buf) =
    (0%Z, Some (take (Z.to_nat n) ms ++ drop (Z.to_nat n) buf)).
Proof.
  intros Hn Hk Hok Hc E.
  destruct (select_ok n k ρ a ms self Hn Hk Hok Hc) as (i & s' & E' & _ & (_ & Hp & _ & Hcnt) & Hs).
  rewrite E in E'. injection E' as _ ->. unfold rota_lb_metrics. rewrite Hp, Hcnt, Hs.
  destruct Hc as (_ & _ & Hl & Hms). rewrite buffer_of_view by (done || lia). done.
Qed.

(** One panic disables a handle for good.  If a pick panics (an overflow in
    a build with overflow checks), the selection reports an error, and from
    then on every selection fails and neither a strategy change nor a reset
    can revive the handle, whatever the arguments. *)
Theorem ffi_panic_is_forever ρ a ms n self p d :
  poisoned (strategy self) = false → poisoned (scratch self) = false → utf8_valid a = true →
  Z.to_nat n = backend_count self → backend_count self ≠ 0 →
  pick ρ {| dial_addr := a; metrics := ffi_to_tunnel <$> take (Z.to_nat n) ms |}
    (guarded (strategy self)) = (Panic p, d) →
  ∃ dead, rota_lb_select ρ (Some a) (Some ms) n (Some self) = (Ret u32_MAX, Some dead) ∧
    (∀ ρ' a' ms' n', rota_lb_select ρ' a' ms' n' (Some dead) = (Ret u32_MAX, Some dead)) ∧
    (∀ kind, rota_lb_set_strategy kind (Some dead) = (Ret (-1)%Z, Some dead)) ∧
    rota_lb_reset (Some dead) = (Ret (-1)%Z, Some dead).
Proof.
  intros Hps Hpc Hu Hn Hne E. eexists. split.
  - unfold rota_lb_select, catch_panic, select_impl. mrun. rewrite Hu. cbn.
    rewrite decide_False by lia. unfold locked. rewrite Hpc. mrun.
    unfold with_strategy_lock, locked. cbn. rewrite Hps. mrun. rewrite E. reflexivity.
  - cbn. split; [|split].
    + intros ρ' [a'|] [ms'|] n'; try done. unfold rota_lb_select, catch_panic, select_impl. mrun.
      destruct (utf8_valid a'); cbn; [|done]. case_decide; done.
    + intros kind. unfold rota_lb_set_strategy, on_handle, catch_panic, locked.
      by destruct (FfiStrategy.from_i32 kind).
    + done.
Qed.
End Lemmas.

(** ** Witnesses *)

Definition host_metrics : list FfiMetric :=
  [{| rtt_us := 30000; m_active_connections := 1; m_recent_errors := 0; m_total_dials := 5; m_total_errors := 0 |};
   {| rtt_us := 0; m_active_connections := 0; m_recent_errors := 2; m_total_dials := 9; m_total_errors := 2 |}].

Lemma host_metrics_ok : Forall metric_ok host_metrics.
Proof.
  repeat constructor; unfold metric_ok, u32_MAX, u64_MAX; cbn; lia.
Qed.

Lemma ffi_session_ok_witness :
  let cs := [Select rng0 "h" host_metrics; ReportError 0; SetStrategy FfiStrategy.Failover; Reset;
             Select rng0 "h" host_metrics] in
  ∃ self rs self', @rota_lb_create dev64 sum_hasher 2 7 = Some self ∧
    @run_calls dev64 sum_hasher 2 cs (Some self) = (Ret rs, Some self') ∧ Forall2 (result_ok 2) cs rs.
Proof.
  apply (ffi_session_ok (H := dev64) (H0 := sum_hasher) 2 FfiStrategy.HealthWeighted);
    [unfold u32_MAX; lia|vm_compute; discriminate|].
  assert (Hsel : call_ok 2 (Select rng0 "h" host_metrics)).
  { split; [intros k Hk; exact Hk|]. split; [done|]. split; [cbn; lia|exact host_metrics_ok]. }
  apply Forall_cons_2; [exact Hsel|]. apply Forall_cons_2; [cbn; unfold u32_MAX; lia|].
  apply Forall_cons_2; [exact I|]. apply Forall_cons_2; [exact I|]. by apply Forall_cons_2.
Defined.

Definition demo_handle : t :=
  {| strategy := mutex_new (@FfiStrategy.build dev64 sum_hasher FfiStrategy.LeastConnections 2);
     backend_count := 2; strategy_kind := FfiStrategy.LeastConnections; scratch := mutex_new [] |}.

Lemma ffi_metrics_roundtrip_witness :
  rota_lb_metrics (rota_lb_select rng0 (Some "h"%string) (Some host_metrics) 2 (Some demo_handle)).2 (Some []) =
    (0%Z, Some host_metrics).
Proof.
  apply (ffi_metrics_roundtrip (H := dev64) 2 0 rng0 "h" host_metrics demo_handle
    (Ret 1%Z) _ []); [unfold u32_MAX; lia|lia| | |].
  - split; [done|]. split; [done|]. split; [|done].
    eapply (safe_mono (H := dev64) (StrategyLaws := dyn_StrategyLaws)); [|apply (build_safe (H := dev64))].
    vm_compute. discriminate.
  - split; [intros k Hk; exact Hk|]. split; [done|]. split; [cbn; lia|exact host_metrics_ok].
  - vm_compute. reflexivity.
Defined.

(** A host that reports an RTT of [u64::MAX] microseconds to a checked build. *)
Definition huge_metric : FfiMetric :=
  {| rtt_us := u64_MAX; m_active_connections := 1; m_recent_errors := 0; m_total_dials := 0; m_total_errors := 0 |}.
Definition health_handle : t :=
  {| strategy := mutex_new (@FfiStrategy.build dev64 sum_hasher FfiStrategy.HealthWeighted 1);
     backend_count := 1; strategy_kind := FfiStrategy.HealthWeighted; scratch := mutex_new [] |}.

Lemma ffi_panic_is_forever_witness :
  ∃ dead, @rota_lb_select rng0 (Some "h"%string) (Some [huge_metric]) 1 (Some health_handle) =
      (Ret u32_MAX, Some dead) ∧
    @rota_lb_reset dev64 sum_hasher (Some dead) = (Ret (-1)%Z, Some dead).
Proof.
  destruct (ffi_panic_is_forever (H := dev64) (H0 := sum_hasher) rng0 "h" [huge_metric] 1 health_handle
    Overflow (pick rng0 {| dial_addr := "h"; metrics := [ffi_to_tunnel huge_metric] |}
                (guarded (strategy health_handle))).2) as (dead & E & _ & _ & Hr);
    [done|done|done|done|done|apply run_eq; vm_compute; reflexivity|].
  exists dead. by split.
Defined.
