(* ===== verification/FfiThreads.v ===== *)
(** * The C interface under threads

    An [FfiLoadBalancer] is shared by the host's threads: the [rota_lb_*]
    functions of [src/src/ffi/api.rs] take a shared handle and lock its two
    mutexes.  The file splits each function at its lock operations and at its
    unlocked access to [strategy_kind], interleaves the calls of any number of
    threads, and compares this with an interface whose calls are atomic.

    A critical section on the strategy mutex is one step: nothing in it reads
    what another thread writes outside of it.  The scratch mutex is held across
    two steps of [rota_lb_select].  The handle is not null and not destroyed
    while calls are in flight, as the functions' safety contract asks. *)

From stdpp Require Import base tactics list numbers strings relations.
From S2P Require Import Prelude Text Constants Strategy Strategies Scored WeightedRoundRobin Registry Ffi.

Open Scope rota_scope.
Import FfiLoadBalancer.

(** ** Calls *)

Inductive op :=
| OSelect (ρ : Rng) (dial_addr : string) (metrics : list FfiMetric) (n : Z)
| OReportError (idx : Z)
| OReportSuccess (idx : Z)
| OSetStrategy (kind : Z)
| OReset
| OMetrics (buf : list FfiMetric)
| OStrategyName.

Inductive reply :=
| RCode (o : outcome Z)
| RUnit (o : outcome unit)
| RMetrics (r : Z * option (list FfiMetric))
| RName (o : outcome string).

Section Threads.
Context `{Target, Hasher}.
Implicit Types self : t.

(** A call through a valid handle, all at once. *)
Definition via {A} (m : M (option t) A) self : outcome A * t :=
  let '(o, h) := m (Some self) in (o, default self h).

Definition exec (o : op) self : reply * t :=
  match o with
  | OSelect ρ a ms n => prod_map RCode id (via (rota_lb_select ρ (Some a) (Some ms) n) self)
  | OReportError idx => prod_map RUnit id (via (rota_lb_report_error idx) self)
  | OReportSuccess idx => prod_map RUnit id (via (rota_lb_report_success idx) self)
  | OSetStrategy kind => prod_map RCode id (via (rota_lb_set_strategy kind) self)
  | OReset => prod_map RCode id (via rota_lb_reset self)
  | OMetrics buf => (RMetrics (rota_lb_metrics (Some self) (Some buf)), self)
  | OStrategyName => (RName (rota_lb_strategy_name (Some self)), self)
  end.

(** *** The parts of [rota_lb_select] *)

(** What it checks before it takes a lock. *)
Definition select_checks (a : string) (n : Z) self : bool :=
  utf8_valid a && bool_decide (Z.to_nat n ≠ 0 ∧ Z.to_nat n = backend_count self).

(** With the scratch lock taken: overwrite the buffer. *)
Definition select_fill (ms : list FfiMetric) (n : Z) self : t :=
  set_scratch (mutex_new (ffi_to_tunnel <$> take (Z.to_nat n) ms)) self.

(** With the scratch lock held: lock the strategy, pick, release both locks;
    a panic poisons both and is caught. *)
Definition select_pick (ρ : Rng) (a : string) : M t Z :=
  catch_panic
    (λ self,
       match with_strategy_lock u32_MAX
               (i ← pick ρ {| dial_addr := a; metrics := guarded (scratch self) |};
                mret (try_from_or u32_MAX (Z.of_nat i) u32_MAX)) self with
       | (Panic p, self') =>
           (Panic p, set_scratch {| guarded := guarded (scratch self'); poisoned := true |} self')
       | r => r
       end) u32_MAX.

(** *** The parts of [rota_lb_reset]: the kind is read before the lock. *)
Definition reset_to (k : FfiStrategy.t) : M t Z :=
  catch_panic
    (locked strategy set_strategy_mutex (-1)%Z
       (modify (λ self, set_strategy_mutex (mutex_new (FfiStrategy.build k (backend_count self))) self);;
        mret 0%Z)) (-1)%Z.

(** ** Threads *)

Inductive thread :=
| Idle
| Called (o : op)
| Filled (ρ : Rng) (dial_addr : string) (metrics : list FfiMetric) (n : Z)
| Resetting (k : FfiStrategy.t)
| Done (r : reply).

Record config := { shared : t; threads : list thread }.

(** Who holds the scratch lock. *)
Definition holds_scratch (th : thread) : bool :=
  match th with Filled _ _ _ _ => true | _ => false end.
Definition scratch_free (ths : list thread) : Prop := Forall (λ th, holds_scratch th = false) ths.

Inductive event :=
| Invoke (i : nat) (o : op)
| Return (i : nat) (r : reply).

(** A call that runs under the strategy lock alone, or under none. *)
Definition one_step (o : op) : bool :=
  match o with
  | OReportError _ | OReportSuccess _ | OSetStrategy _ | OStrategyName => true
  | _ => false
  end.

(** A step of a call in thread state [th], given the other threads. *)
Inductive work (ths : list thread) : thread → t → thread → t → Prop :=
| work_one o self :
    one_step o = true → work ths (Called o) self (Done (exec o self).1) (exec o self).2
| work_select_refused ρ a ms n self :
    select_checks a n self = false →
    work ths (Called (OSelect ρ a ms n)) self (Done (RCode (Ret u32_MAX))) self
| work_select_poisoned ρ a ms n self :
    select_checks a n self = true → scratch_free ths → poisoned (scratch self) = true →
    work ths (Called (OSelect ρ a ms n)) self (Done (RCode (Ret u32_MAX))) self
| work_select_fill ρ a ms n self :
    select_checks a n self = true → scratch_free ths → poisoned (scratch self) = false →
    work ths (Called (OSelect ρ a ms n)) self (Filled ρ a ms n) (select_fill ms n self)
| work_select_pick ρ a ms n self o self' :
    select_pick ρ a self = (o, self') →
    work ths (Filled ρ a ms n) self (Done (RCode o)) self'
| work_metrics buf self :
    scratch_free ths →
    work ths (Called (OMetrics buf)) self (Done (RMetrics (rota_lb_metrics (Some self) (Some buf)))) self
| work_reset_read self :
    work ths (Called OReset) self (Resetting (strategy_kind self)) self
| work_reset_lock k self o self' :
    reset_to k self = (o, self') → work ths (Resetting k) self (Done (RCode o)) self'.

Inductive step : option event → config → config → Prop :=
| step_invoke i o c :
    threads c !! i = Some Idle →
    step (Some (Invoke i o)) c {| shared := shared c; threads := <[i := Called o]> (threads c) |}
| step_work i th th' self' c :
    threads c !! i = Some th → work (threads c) th (shared c) th' self' →
    step None c {| shared := self'; threads := <[i := th']> (threads c) |}
| step_return i r c :
    threads c !! i = Some (Done r) →
    step (Some (Return i r)) c {| shared := shared c; threads := <[i := Idle]> (threads c) |}.

(** The interface with atomic calls: between its invocation and its return a
    call takes effect in one step. *)
Inductive astep : option event → config → config → Prop :=
| astep_invoke i o c :
    threads c !! i = Some Idle →
    astep (Some (Invoke i o)) c {| shared := shared c; threads := <[i := Called o]> (threads c) |}
| astep_exec i o c :
    threads c !! i = Some (Called o) →
    astep None c {| shared := (exec o (shared c)).2;
                    threads := <[i := Done (exec o (shared c)).1]> (threads c) |}
| astep_return i r c :
    threads c !! i = Some (Done r) →
    astep (Some (Return i r)) c {| shared := shared c; threads := <[i := Idle]> (threads c) |}.

(** Runs and the events the host sees. *)
Inductive runs (R : option event → config → config → Prop) (P : config → Prop) :
    config → list event → config → Prop :=
| runs_nil c : P c → runs R P c [] c
| runs_cons e c c1 tr c2 :
    P c → R e c c1 → runs R P c1 tr c2 → runs R P c (option_list e ++ tr) c2.

(** A fresh handle with [m] threads. *)
Definition start (m : nat) self : config := {| shared := self; threads := replicate m Idle |}.

(** No reset is in flight together with a change of the strategy. *)
Definition resets (th : thread) : bool :=
  match th with Called OReset | Resetting _ => true | _ => false end.
Definition sets (th : thread) : bool :=
  match th with Called (OSetStrategy _) => true | _ => false end.
Definition no_reset_race (c : config) : Prop :=
  Forall (λ th, resets th = false) (threads c) ∨ Forall (λ th, sets th = false) (threads c).
End Threads.

(** ** Lemmas: the parts make up the calls *)

Section Lemmas.
Context `{Target, Hasher}.
Implicit Types (self : t) (c a : config).

Lemma select_refused ρ ad ms n self :
  select_checks ad n self = false → exec (OSelect ρ ad ms n) self = (RCode (Ret u32_MAX), self).
Proof.
  unfold select_checks, exec, via, rota_lb_select, catch_panic, select_impl. intros Hc. mrun.
  destruct (utf8_valid ad); cbn in *; [|done].
  rewrite decide_True; [done|]. apply bool_decide_eq_false in Hc.
  destruct (decide (Z.to_nat n = 0)); [by left|right; tauto].
Qed.

Lemma select_split ρ ad ms n self :
  select_checks ad n self = true → poisoned (scratch self) = false →
  exec (OSelect ρ ad ms n) self = prod_map RCode id (select_pick ρ ad (select_fill ms n self)).
Proof.
  unfold select_checks, exec, via, rota_lb_select, select_pick, catch_panic, select_impl. intros Hc Hp. mrun.
  destruct (utf8_valid ad); [|done]. apply bool_decide_eq_true in Hc as [??]. cbn [negb].
  rewrite decide_False by lia. unfold locked at 1. rewrite Hp. mrun.
  change (set_scratch _ self) with (select_fill ms n self).
  destruct (with_strategy_lock _ _ _) as [[] s']; done.
Qed.

Lemma select_poisoned ρ ad ms n self :
  poisoned (scratch self) = true → exec (OSelect ρ ad ms n) self = (RCode (Ret u32_MAX), self).
Proof.
  unfold exec, via, rota_lb_select, catch_panic, select_impl. intros Hp. mrun.
  destruct (utf8_valid ad); [|done]. cbn [negb].
  destruct (decide _); [done|]. unfold locked. by rewrite Hp.
Qed.

Lemma reset_split self :
  exec OReset self = prod_map RCode id (reset_to (strategy_kind self) self).
Proof.
  unfold exec, via, rota_lb_reset, on_handle, reset_to, catch_panic, locked. mrun.
  by destruct (poisoned (strategy self)).
Qed.

(** *** Calls that do not touch the scratch buffer *)

Definition tame (f : t → t) : Prop :=
  ∀ self, scratch (f self) = scratch self ∧ backend_count (f self) = backend_count self ∧
    ∀ m, f (set_scratch m self) = set_scratch m (f self).

Lemma strategy_lock_scratch {A} (onpoison : A) (m : M dyn_strategy A) mu self :
  with_strategy_lock onpoison m (set_scratch mu self) =
    prod_map id (set_scratch mu) (with_strategy_lock onpoison m self).
Proof.
  unfold with_strategy_lock, locked, zoom. cbn. destruct (poisoned (strategy self)); [done|].
  by destruct (m (guarded (strategy self))) as [[] d].
Qed.

Lemma strategy_lock_tame {A} (onpoison : A) (m : M dyn_strategy A) :
  tame (λ self, (with_strategy_lock onpoison m self).2).
Proof.
  intros self. split; [|split].
  - unfold with_strategy_lock, locked, zoom. destruct (poisoned _); [done|]. by destruct (m _) as [[] d].
  - unfold with_strategy_lock, locked, zoom. destruct (poisoned _); [done|]. by destruct (m _) as [[] d].
  - intros mu. by rewrite strategy_lock_scratch.
Qed.

(** Each one-step call, and the end of a reset, does the same to a handle
    whatever its scratch buffer, and leaves the buffer alone. *)
Lemma reset_to_scratch k mu self :
  reset_to k (set_scratch mu self) = prod_map id (set_scratch mu) (reset_to k self).
Proof. unfold reset_to, catch_panic, locked. cbn. by destruct (poisoned (strategy self)). Qed.

Lemma reset_to_tame k : tame (λ self, (reset_to k self).2).
Proof.
  intros self. split; [|split].
  - unfold reset_to, catch_panic, locked. by destruct (poisoned (strategy self)).
  - unfold reset_to, catch_panic, locked. by destruct (poisoned (strategy self)).
  - intros mu. by rewrite reset_to_scratch.
Qed.

Lemma exec_report (m : M dyn_strategy unit) self :
  via (on_handle tt (catch_panic (with_strategy_lock tt m) tt)) self =
    (match (with_strategy_lock tt m self).1 with Panic _ => Ret tt | o => o end,
     (with_strategy_lock tt m self).2).
Proof. unfold via, on_handle, catch_panic. by destruct (with_strategy_lock tt m self) as [[] s']. Qed.

Lemma exec_scratch o mu self :
  one_step o = true → exec o (set_scratch mu self) = prod_map id (set_scratch mu) (exec o self).
Proof.
  destruct o; try done; intros _; unfold exec; cbn [prod_map].
  - unfold rota_lb_report_error. rewrite !exec_report, strategy_lock_scratch. done.
  - unfold rota_lb_report_success. rewrite !exec_report, strategy_lock_scratch. done.
  - unfold via, rota_lb_set_strategy, on_handle. destruct (FfiStrategy.from_i32 kind); [|done].
    unfold catch_panic, locked. cbn. by destruct (poisoned (strategy self)).
Qed.

Lemma exec_tame o : one_step o = true → tame (λ self, (exec o self).2).
Proof.
  intros Ho self. split; [|split; [|intros mu; by rewrite exec_scratch]].
  all: destruct o; try done; unfold exec; cbn [prod_map snd id].
  1, 4: unfold rota_lb_report_error; rewrite exec_report; apply (strategy_lock_tame tt _ self).
  1, 3: unfold rota_lb_report_success; rewrite exec_report; apply (strategy_lock_tame tt _ self).
  all: unfold via, rota_lb_set_strategy, on_handle; destruct (FfiStrategy.from_i32 kind); [|done].
  all: unfold catch_panic, locked; cbn; by destruct (poisoned (strategy self)).
Qed.

(** ** Lemmas: the simulation *)

(** The atomic call a thread state stands for. *)
Definition athread (th : thread) : thread :=
  match th with
  | Filled ρ ad ms n => Called (OSelect ρ ad ms n)
  | Resetting _ => Called OReset
  | _ => th
  end.

(** The handle of the atomic interface: the shared one, with the old scratch
    buffer while a selection is between its two locks. *)
Definition shares (ths : list thread) (cs as_ : t) : Prop :=
  (scratch_free ths ∧ cs = as_) ∨
  ∃ i ρ ad ms n, ths !! i = Some (Filled ρ ad ms n) ∧
    (∀ j th, ths !! j = Some th → j ≠ i → holds_scratch th = false) ∧
    cs = select_fill ms n as_ ∧ select_checks ad n as_ = true ∧ poisoned (scratch as_) = false.

Definition sim c a : Prop :=
  threads a = athread <$> threads c ∧ shares (threads c) (shared c) (shared a) ∧
  ∀ i k, threads c !! i = Some (Resetting k) → k = strategy_kind (shared c).

Lemma free_insert ths i th : scratch_free ths → holds_scratch th = false → scratch_free (<[i := th]> ths).
Proof. intros. by apply Forall_insert. Qed.

(** A step of a thread without the scratch lock. *)
Lemma shares_update ths cs as_ i th th' f :
  shares ths cs as_ → ths !! i = Some th → holds_scratch th = false → holds_scratch th' = false →
  tame f → shares (<[i := th']> ths) (f cs) (f as_).
Proof.
  intros Hsh Hi Hth Hth' Hf. destruct Hsh as [[Hfree ->]|(j & ρ & ad & ms & n & Hj & Hoth & -> & Hc & Hp)].
  - left. split; [by apply free_insert|done].
  - destruct (Hf as_) as (Hscr & Hcnt & Hcomm). right. exists j, ρ, ad, ms, n.
    assert (i ≠ j) by (intros ->; rewrite Hi in Hj; simplify_eq; done).
    split_and!.
    + by rewrite list_lookup_insert_ne.
    + intros x thx [(-> & -> & _)|[_ Hx]]%list_lookup_insert_Some Hne; [done|by eapply Hoth].
    + unfold select_fill. by rewrite Hcomm.
    + unfold select_checks. by rewrite Hcnt.
    + by rewrite Hscr.
Qed.

Lemma shares_scratch ths cs as_ :
  shares ths cs as_ → ∃ mu, cs = set_scratch mu as_.
Proof.
  intros [[_ ->]|(j & ρ & ad & ms & n & _ & _ & -> & _)]; [|by eexists].
  exists (scratch as_). by destruct as_.
Qed.

Lemma shares_free ths cs as_ : shares ths cs as_ → scratch_free ths → cs = as_.
Proof.
  intros [[_ ->]|(j & ρ & ad & ms & n & Hj & _)] Hf; [done|].
  pose proof (Forall_lookup_1 _ _ _ _ Hf Hj). done.
Qed.

(** Threads that are resetting keep the kind they read, unless a step of a
    [rota_lb_set_strategy] changes it. *)
Definition kinds_kept (ths : list thread) self : Prop :=
  ∀ i k, ths !! i = Some (Resetting k) → k = strategy_kind self.

Lemma kinds_update ths i th' self self' :
  kinds_kept ths self → strategy_kind self' = strategy_kind self →
  (∀ k, th' = Resetting k → k = strategy_kind self) → kinds_kept (<[i := th']> ths) self'.
Proof.
  intros Hk Hs Hth j k [(-> & He & _)|[_ Hj]]%list_lookup_insert_Some; rewrite Hs; [by apply Hth|].
  by eapply Hk.
Qed.

Lemma strategy_lock_kind {A} (onpoison : A) (m : M dyn_strategy A) self :
  strategy_kind (with_strategy_lock onpoison m self).2 = strategy_kind self.
Proof.
  unfold with_strategy_lock, locked, zoom. destruct (poisoned _); [done|]. by destruct (m _) as [[] d].
Qed.

Lemma exec_kind o self :
  one_step o = true → sets (Called o) = false → strategy_kind (exec o self).2 = strategy_kind self.
Proof.
  destruct o; try done; intros _ _; unfold exec; cbn [prod_map snd id].
  - unfold rota_lb_report_error. rewrite exec_report. apply strategy_lock_kind.
  - unfold rota_lb_report_success. rewrite exec_report. apply strategy_lock_kind.
Qed.

Lemma select_pick_kind ρ ad self : strategy_kind (select_pick ρ ad self).2 = strategy_kind self.
Proof.
  unfold select_pick, catch_panic.
  pose proof (strategy_lock_kind u32_MAX
    (i ← pick ρ {| dial_addr := ad; metrics := guarded (scratch self) |};
     mret (try_from_or u32_MAX (Z.of_nat i) u32_MAX)) self) as Hk.
  by destruct (with_strategy_lock _ _ self) as [[] s'].
Qed.

Lemma reset_to_kind k self : strategy_kind (reset_to k self).2 = strategy_kind self.
Proof. unfold reset_to, catch_panic, locked. by destruct (poisoned (strategy self)). Qed.

(** The atomic interface answers a step by the call's effect, or by nothing. *)
Definition answers (e : option event) a a' : Prop := astep e a a' ∨ (e = None ∧ a' = a).

Lemma atomic_exec i o c a r :
  threads a = athread <$> threads c → threads c !! i = Some o → athread o = Called r →
  answers None a {| shared := (exec r (shared a)).2;
                    threads := athread <$> <[i := Done (exec r (shared a)).1]> (threads c) |}.
Proof.
  intros Ht Hi Ha. left. rewrite list_fmap_insert, <-Ht. apply (astep_exec i r).
  by rewrite Ht, list_lookup_fmap, Hi; cbn; rewrite Ha.
Qed.

(** A one-step call, on both sides. *)
Lemma sim_one i o c a :
  sim c a → no_reset_race c → threads c !! i = Some (Called o) → one_step o = true →
  sim {| shared := (exec o (shared c)).2; threads := <[i := Done (exec o (shared c)).1]> (threads c) |}
      {| shared := (exec o (shared a)).2;
         threads := athread <$> <[i := Done (exec o (shared a)).1]> (threads c) |}.
Proof.
  intros (Ht & Hsh & Hk) Hrace Hi Ho. destruct (shares_scratch _ _ _ Hsh) as [mu Hmu].
  assert (Hr : (exec o (shared c)).1 = (exec o (shared a)).1) by (by rewrite Hmu, exec_scratch).
  split; [by rewrite Hr|]. split.
  - by apply (shares_update _ _ _ i (Called o) _ (λ self, (exec o self).2) Hsh Hi), exec_tame.
  - destruct (sets (Called o)) eqn:Hs.
    + destruct Hrace as [Hres|Hsets].
      * intros j k [(_ & ? & _)|[_ Hj]]%list_lookup_insert_Some; [done|].
        pose proof (Forall_lookup_1 _ _ _ _ Hres Hj). done.
      * pose proof (Forall_lookup_1 _ _ _ _ Hsets Hi). congruence.
    + apply (kinds_update _ i _ (shared c)); [done|by apply exec_kind|done].
Qed.

(** The end of a selection: the atomic call sees the same handle. *)
Lemma sim_pick i ρ ad ms n c a :
  sim c a → threads c !! i = Some (Filled ρ ad ms n) →
  exec (OSelect ρ ad ms n) (shared a) = prod_map RCode id (select_pick ρ ad (shared c)) ∧
  (∀ th, holds_scratch th = false → scratch_free (<[i := th]> (threads c))).
Proof.
  intros (_ & Hsh & _) Hi. destruct Hsh as [[Hfree _]|(j & ρ' & ad' & ms' & n' & Hj & Hoth & E & Hc & Hp)].
  { pose proof (Forall_lookup_1 _ _ _ _ Hfree Hi). done. }
  assert (i = j) as <-.
  { destruct (decide (i = j)) as [|Hne]; [done|]. specialize (Hoth i _ Hi Hne). done. }
  rewrite Hi in Hj. injection Hj as <- <- <- <-. split.
  - rewrite E. by apply select_split.
  - intros th Hth. apply Forall_lookup_2. intros j thj [(-> & -> & _)|[Hne Hj]]%list_lookup_insert_Some; [done|].
    by eapply Hoth.
Qed.

Lemma sim_work i th th' self' c a :
  sim c a → no_reset_race c → threads c !! i = Some th → work (threads c) th (shared c) th' self' →
  ∃ a', answers None a a' ∧ sim {| shared := self'; threads := <[i := th']> (threads c) |} a'.
Proof.
  intros Hsim Hrace Hi Hw. pose proof Hsim as (Ht & Hsh & Hk).
  assert (Hstay : ∀ th2, holds_scratch th = false → holds_scratch th2 = false →
    shares (<[i := th2]> (threads c)) (shared c) (shared a)).
  { intros th2 H1 H2. by apply (shares_update _ _ _ i th _ id Hsh Hi). }
  assert (Hdone : ∀ r, kinds_kept (<[i := Done r]> (threads c)) (shared c)).
  { intros r. by apply (kinds_update _ i _ (shared c)). }
  remember (threads c) as ths eqn:Eths. remember (shared c) as cs eqn:Ecs.
  destruct Hw as [o self Ho|ρ ad ms n self Hc|ρ ad ms n self Hc Hf Hp|ρ ad ms n self Hc Hf Hp
    |ρ ad ms n self o self' E|buf self Hf|self|k self o self' E]; subst ths self.
  - eexists. split; [by eapply atomic_exec|]. by apply sim_one.
  - eexists. split; [by eapply atomic_exec|].
    destruct (shares_scratch _ _ _ Hsh) as [mu Hmu].
    rewrite select_refused by (by rewrite Hmu in Hc). split; [done|]. split; [by apply Hstay|apply Hdone].
  - eexists. split; [by eapply atomic_exec|]. rewrite <-(shares_free _ _ _ Hsh Hf).
    rewrite select_poisoned by done. split; [done|]. split; [|apply Hdone]. left. by split; [apply free_insert|].
  - exists a. split; [by right|]. rewrite (shares_free _ _ _ Hsh Hf) in *. split; [|split].
    + cbn. rewrite list_fmap_insert, Ht, list_insert_id; [done|]. by rewrite list_lookup_fmap, Hi.
    + right. exists i, ρ, ad, ms, n. cbn. split_and!; try done.
      * apply list_lookup_insert_eq. by eapply lookup_lt_Some.
      * intros j thj [(-> & _)|[_ Hj]]%list_lookup_insert_Some Hne; [done|]. exact (Forall_lookup_1 _ _ _ _ Hf Hj).
    + by apply (kinds_update _ i _ (shared a)).
  - destruct (sim_pick i ρ ad ms n c a Hsim Hi) as [Ex Hfree]. rewrite E in Ex.
    eexists. split; [by eapply atomic_exec|]. rewrite Ex. split; [done|]. split.
    + left. split; [by apply Hfree|done].
    + apply (kinds_update _ i _ (shared c)); [done| |done]. cbn.
      pose proof (select_pick_kind ρ ad (shared c)) as Hkk. by rewrite E in Hkk.
  - eexists. split; [by eapply atomic_exec|]. rewrite <-(shares_free _ _ _ Hsh Hf). split; [done|].
    split; [|apply Hdone]. left. by split; [apply free_insert|].
  - exists a. split; [by right|]. split; [|split].
    + cbn. rewrite list_fmap_insert, Ht, list_insert_id; [done|]. by rewrite list_lookup_fmap, Hi.
    + by apply Hstay.
    + apply (kinds_update _ i _ (shared c)); [done|done|]. by intros k [= <-].
  - pose proof (Hk i k Hi) as ->. eexists. split; [by eapply atomic_exec|].
    destruct (shares_scratch _ _ _ Hsh) as [mu Hmu].
    assert (Hka : strategy_kind (shared a) = strategy_kind (shared c)) by (by rewrite Hmu).
    pose proof (reset_to_scratch (strategy_kind (shared c)) mu (shared a)) as Hrs. rewrite <-Hmu, E in Hrs.
    rewrite reset_split, Hka. split; [|split].
    + cbn. rewrite !list_fmap_insert. do 2 f_equal. by injection Hrs as -> _.
    + pose proof (shares_update _ _ _ i _ (Done (RCode o)) _ Hsh Hi eq_refl eq_refl
        (reset_to_tame (strategy_kind (shared c)))) as Hs.
      cbn beta in Hs. by rewrite E in Hs.
    + apply (kinds_update _ i _ (shared c)); [done| |done].
      pose proof (reset_to_kind (strategy_kind (shared c)) (shared c)) as Hkk. by rewrite E in Hkk.
Qed.

Lemma sim_step e c c' a :
  sim c a → no_reset_race c → step e c c' → ∃ a', answers e a a' ∧ sim c' a'.
Proof.
  intros Hsim Hrace Hst. destruct Hst as [i o c Hi|i th th' self' c Hi Hw|i r c Hi].
  - pose proof Hsim as (Ht & Hsh & Hk). eexists. split.
    + left. apply (astep_invoke i o a). by rewrite Ht, list_lookup_fmap, Hi.
    + split; [cbn; by rewrite Ht, list_fmap_insert|]. split.
      * by apply (shares_update _ _ _ i Idle (Called o) id Hsh Hi).
      * by apply (kinds_update _ i _ (shared c)).
  - by eapply sim_work.
  - pose proof Hsim as (Ht & Hsh & Hk). eexists. split.
    + left. apply (astep_return i r a). by rewrite Ht, list_lookup_fmap, Hi.
    + split; [cbn; by rewrite Ht, list_fmap_insert|]. split.
      * by apply (shares_update _ _ _ i (Done r) Idle id Hsh Hi).
      * by apply (kinds_update _ i _ (shared c)).
Qed.

Lemma sim_runs c tr c' a :
  runs step no_reset_race c tr c' → sim c a → ∃ a', runs astep (λ _, True) a tr a' ∧ sim c' a'.
Proof.
  intros Hr. revert a. induction Hr as [c _|e c c1 tr c2 Hp Hst _ IH]; intros a Hsim.
  { exists a. split; [by constructor|done]. }
  destruct (sim_step e c c1 a Hsim Hp Hst) as (a1 & Ha & Hsim1).
  destruct (IH a1 Hsim1) as (a2 & Hr2 & Hsim2). exists a2. split; [|done].
  destruct Ha as [Ha|[-> ->]]; [by econstructor|exact Hr2].
Qed.

Lemma sim_start m self : sim (start m self) (start m self).
Proof.
  split; [cbn; by rewrite fmap_replicate|]. split.
  - left. split; [by apply Forall_replicate|done].
  - intros i k [? _]%lookup_replicate. done.
Qed.

(** ** Lemmas: what the atomic interface keeps *)

(** The strategy is an instance of the kind the handle names. *)
Definition instance_of (k : FfiStrategy.t) (d : dyn_strategy) : Prop :=
  ∃ n s, d = @Dyn (dyn_type (FfiStrategy.build k n)) (dyn_impl (FfiStrategy.build k n)) s.
Definition agrees self : Prop := instance_of (strategy_kind self) (guarded (strategy self)).

Lemma instance_name k d : instance_of k d → name d = FfiStrategy.name k.
Proof. intros (n & s & ->). by destruct k. Qed.

Lemma instance_build k n : instance_of k (FfiStrategy.build k n).
Proof. exists n, (dyn_state (FfiStrategy.build k n)). by destruct k. Qed.

Lemma instance_call {A} k (m : ∀ S, BalanceStrategy S → M S A) d :
  instance_of k d → instance_of k (dyn_call m d).2.
Proof.
  intros (n & s & ->). unfold dyn_call. cbn.
  destruct (m _ _ s) as [o s']. cbn. by exists n, s'.
Qed.

Lemma strategy_lock_agrees {A} (onpoison : A) (m : M dyn_strategy A) self :
  (∀ d, instance_of (strategy_kind self) d → instance_of (strategy_kind self) (m d).2) →
  agrees self → agrees (with_strategy_lock onpoison m self).2.
Proof.
  unfold agrees. intros Hm Ha. rewrite strategy_lock_kind. specialize (Hm _ Ha).
  unfold with_strategy_lock, locked, zoom. destruct (poisoned _); [done|].
  by destruct (m (guarded (strategy self))) as [[] d].
Qed.

Lemma select_pick_agrees ρ ad self : agrees self → agrees (select_pick ρ ad self).2.
Proof.
  intros Ha. unfold select_pick, catch_panic.
  pose proof (strategy_lock_agrees u32_MAX
    (i ← pick ρ {| dial_addr := ad; metrics := guarded (scratch self) |};
     mret (try_from_or u32_MAX (Z.of_nat i) u32_MAX)) self) as Hs.
  destruct (with_strategy_lock _ _ self) as [[] s']; cbn in *; apply Hs; try done; intros d Hd;
    unfold mbind, M_bind; pose proof (instance_call _ (λ S _, pick ρ {| dial_addr := ad;
      metrics := guarded (scratch self) |}) d Hd) as Hi;
    change (dyn_call _ d) with (pick ρ {| dial_addr := ad; metrics := guarded (scratch self) |} d) in Hi;
    by destruct (pick _ _ d) as [[] d'].
Qed.

Lemma exec_agrees o self : agrees self → agrees (exec o self).2.
Proof.
  intros Ha. destruct o as [ρ ad ms n|idx|idx|kind| |buf|]; try done.
  - destruct (select_checks ad n self) eqn:Hc; [|by rewrite select_refused].
    destruct (poisoned (scratch self)) eqn:Hp; [by rewrite select_poisoned|].
    rewrite select_split by done. by apply select_pick_agrees.
  - unfold exec, rota_lb_report_error. rewrite exec_report. apply strategy_lock_agrees; [|done].
    intros d. apply (instance_call _ (λ S _, report_error (Z.to_nat idx))).
  - unfold exec, rota_lb_report_success. rewrite exec_report. apply strategy_lock_agrees; [|done].
    intros d. apply (instance_call _ (λ S _, report_success (Z.to_nat idx))).
  - unfold exec, via, rota_lb_set_strategy, on_handle. destruct (FfiStrategy.from_i32 kind); [|done].
    unfold catch_panic, locked. cbn. destruct (poisoned (strategy self)); [done|]. apply instance_build.
  - rewrite reset_split. unfold reset_to, catch_panic, locked. destruct (poisoned (strategy self)); [done|].
    apply instance_build.
Qed.

Lemma runs_agrees a tr a' : runs astep (λ _, True) a tr a' → agrees (shared a) → agrees (shared a').
Proof.
  induction 1 as [|e c c1 tr c2 _ Hst _ IH]; [done|]. intros Ha. apply IH.
  destruct Hst; cbn; [done|by apply exec_agrees|done].
Qed.

(** ** Lemmas: threads in contract *)

(** The arguments a host may pass to a handle of [n] backends. *)
Definition op_ok (n : Z) (o : op) : Prop :=
  match o with
  | OSelect ρ ad ms n' => n' = n ∧ call_ok n (Select ρ ad ms)
  | OReportError idx | OReportSuccess idx => (0 ≤ idx < u32_MAX)%Z
  | OSetStrategy kind => is_Some (FfiStrategy.from_i32 kind)
  | OReset | OMetrics _ | OStrategyName => True
  end.

(** A reply that is not an error. *)
Definition reply_fine (n : Z) (r : reply) : Prop :=
  match r with
  | RCode o => ∃ z, o = Ret z ∧ (0 ≤ z < n)%Z
  | RUnit o => o = Ret tt
  | RMetrics r => r.1 = 0%Z
  | RName o => ∃ s, o = Ret s
  end.

Lemma handle_ok_less n k k' self : (k' ≤ k)%Z → handle_ok n k self → handle_ok n k' self.
Proof.
  intros Hk (? & ? & ? & ?). split_and!; try done.
  by eapply (safe_mono (StrategyLaws := dyn_StrategyLaws)).
Qed.

Lemma exec_ok n k o self :
  (0 < n < u32_MAX)%Z → (0 ≤ k < PICK_BUDGET)%Z → handle_ok n (k + 1) self → op_ok n o →
  reply_fine n (exec o self).1 ∧ handle_ok n k (exec o self).2.
Proof.
  intros Hn Hk Hok Ho.
  assert (Hgo : ∀ cl, call_ok n cl → ∃ r self', run_call n cl (Some self) = (Ret r, Some self') ∧
    result_ok n cl r ∧ handle_ok n k self') by (intros cl Hc; by apply run_call_ok).
  destruct o as [ρ ad ms n'|idx|idx|kind| |buf|]; cbn in Ho.
  - destruct Ho as [-> Hc]. destruct (Hgo (Select ρ ad ms) Hc) as (r & self' & E & Hr & Hok'). revert E.
    unfold exec, via. cbn [run_call]. unfold mbind, M_bind.
    destruct (rota_lb_select _ _ _ _ _) as [[] h]; try done. intros [= <- ->]. cbn in *.
    split; [|done]. destruct Hr as (i & [= ->] & Hi). by exists i.
  - destruct (Hgo (ReportError idx) Ho) as (r & self' & E & _ & Hok'). revert E.
    unfold exec, via. cbn [run_call]. unfold mbind, M_bind.
    destruct (rota_lb_report_error _ _) as [[[]| | |] h]; try done. by intros [= <- ->].
  - destruct (Hgo (ReportSuccess idx) Ho) as (r & self' & E & _ & Hok'). revert E.
    unfold exec, via. cbn [run_call]. unfold mbind, M_bind.
    destruct (rota_lb_report_success _ _) as [[[]| | |] h]; try done. by intros [= <- ->].
  - destruct Ho as [k' Hk']. destruct (Hgo (SetStrategy k') I) as (r & self' & E & Hr & Hok'). revert E.
    unfold exec, via. cbn [run_call]. rewrite (proj1 (from_i32_discriminant _ _) Hk'). unfold mbind, M_bind.
    destruct (rota_lb_set_strategy _ _) as [[] h]; try done. intros [= <- ->]. cbn in *.
    split; [|done]. injection Hr as ->. exists 0%Z. split; [done|lia].
  - destruct (Hgo Reset I) as (r & self' & E & Hr & Hok'). revert E.
    unfold exec, via. cbn [run_call]. unfold mbind, M_bind.
    destruct (rota_lb_reset _) as [[] h]; try done. intros [= <- ->]. cbn in *.
    split; [|done]. injection Hr as ->. exists 0%Z. split; [done|lia].
  - split; [done|]. apply (handle_ok_less n (k + 1)); [lia|done].
  - split; [|apply (handle_ok_less n (k + 1)); [lia|done]]. cbn.
    by destruct (strategy_kind self); eexists.
Qed.

(** Calls that are still to take effect. *)
Definition is_called (th : thread) : nat := match th with Called _ => 1 | _ => 0 end.
Definition pending (ths : list thread) : nat := sum_list (is_called <$> ths).

Definition invocations (tr : list event) : nat :=
  length (filter (λ e, match e with Invoke _ _ => true | _ => false end = true) tr).

(** What is known of each thread of a host in contract. *)
Definition thread_ok (n : Z) (th : thread) : Prop :=
  match th with
  | Called o => op_ok n o
  | Done r => reply_fine n r
  | _ => True
  end.
Definition event_ok (n : Z) (e : event) : Prop :=
  match e with Invoke _ o => op_ok n o | Return _ r => True end.
Definition event_fine (n : Z) (e : event) : Prop :=
  match e with Invoke _ _ => True | Return _ r => reply_fine n r end.

Lemma astep_ok n e a a' k :
  (0 < n < u32_MAX)%Z → astep e a a' → Forall (thread_ok n) (threads a) →
  (Z.of_nat (k + pending (threads a) + invocations (option_list e)) ≤ PICK_BUDGET)%Z →
  handle_ok n (Z.of_nat (k + pending (threads a) + invocations (option_list e))) (shared a) →
  Forall (event_ok n) (option_list e) →
  Forall (event_fine n) (option_list e) ∧ Forall (thread_ok n) (threads a') ∧
  handle_ok n (Z.of_nat (k + pending (threads a'))) (shared a').
Proof.
  intros Hn Hst Hth Hb Hok He. destruct Hst as [i o a Hi|i o a Hi|i r a Hi];
    cbn [shared threads] in *.
  - change (invocations (option_list (Some (Invoke i o)))) with 1 in *. apply Forall_cons in He as [He _].
    split; [by constructor|]. split; [by apply Forall_insert|].
    pose proof (sum_insert is_called _ i _ (Called o) Hi) as Hs. cbn in Hs. unfold pending in *.
    eapply handle_ok_less; [|exact Hok]. lia.
  - change (invocations (option_list None)) with 0 in *.
    pose proof (sum_insert is_called _ i _ (Done (exec o (shared a)).1) Hi) as Hs. cbn in Hs. unfold pending in *.
    destruct (exec_ok n (Z.of_nat (k + sum_list (is_called <$> <[i:=Done (exec o (shared a)).1]> (threads a))))
      o (shared a) Hn) as [Hf Hok'].
    + lia.
    + eapply handle_ok_less; [|exact Hok]. cbn. lia.
    + exact (Forall_lookup_1 _ _ _ _ Hth Hi).
    + split; [done|]. split; [by apply Forall_insert|done].
  - change (invocations (option_list (Some (Return i r)))) with 0 in *.
    pose proof (Forall_lookup_1 _ _ _ _ Hth Hi) as Hr. split; [by constructor|]. split; [by apply Forall_insert|].
    pose proof (sum_insert is_called _ i _ Idle Hi) as Hs. cbn in Hs. unfold pending in *.
    eapply handle_ok_less; [|exact Hok]. lia.
Qed.

Lemma invocations_app tr1 tr2 : invocations (tr1 ++ tr2) = invocations tr1 + invocations tr2.
Proof. unfold invocations. by rewrite filter_app, length_app. Qed.

Lemma aruns_ok n a tr a' :
  (0 < n < u32_MAX)%Z → runs astep (λ _, True) a tr a' → Forall (thread_ok n) (threads a) →
  (Z.of_nat (invocations tr + pending (threads a)) ≤ PICK_BUDGET)%Z →
  handle_ok n (Z.of_nat (invocations tr + pending (threads a))) (shared a) →
  Forall (event_ok n) tr → Forall (event_fine n) tr.
Proof.
  intros Hn Hr. induction Hr as [|e a a1 tr a2 _ Hst _ IH]; intros Hth Hb Hok He; [done|].
  rewrite invocations_app in Hb, Hok. apply Forall_app in He as [He1 He2].
  replace (invocations (option_list e) + invocations tr + pending (threads a))
    with (invocations tr + pending (threads a) + invocations (option_list e)) in Hb, Hok by lia.
  destruct (astep_ok n e a a1 (invocations tr) Hn Hst Hth Hb Hok He1) as (Hf & Hth1 & Hok1).
  apply Forall_app. split; [done|]. apply IH; try done.
  destruct Hst as [i o a Hi|i o a Hi|i r a Hi]; cbn [threads] in *.
  - pose proof (sum_insert is_called _ i _ (Called o) Hi) as Hs. cbn in Hs. unfold pending in *.
    change (invocations (option_list (Some (Invoke i o)))) with 1 in *. lia.
  - pose proof (sum_insert is_called _ i _ (Done (exec o (shared a)).1) Hi) as Hs. cbn in Hs.
    unfold pending in *. lia.
  - pose proof (sum_insert is_called _ i _ Idle Hi) as Hs. cbn in Hs. unfold pending in *. lia.
Qed.

(** *** Progress *)

(** Steps a thread has left, its return included. *)
Definition steps_left (th : thread) : nat :=
  match th with
  | Idle => 0
  | Called (OSelect _ _ _ _) | Called OReset => 3
  | Called _ | Filled _ _ _ _ | Resetting _ => 2
  | Done _ => 1
  end.
Definition weight c : nat := sum_list (steps_left <$> threads c).

(** A step of a call that is already in flight. *)
Definition proceeds c c' : Prop := ∃ e, step e c c' ∧ ∀ i o, e ≠ Some (Invoke i o).

Lemma work_less ths th self th' self' : work ths th self th' self' → steps_left th' < steps_left th.
Proof. intros []; cbn; try lia. by destruct o; cbn in *; try lia. Qed.

Lemma proceeds_less c c' : proceeds c c' → weight c' < weight c.
Proof.
  intros (e & Hst & He). destruct Hst as [i o c Hi|i th th' self' c Hi Hw|i r c Hi]; unfold weight; cbn [threads].
  - by destruct (He i o).
  - pose proof (sum_insert steps_left _ i _ th' Hi). apply work_less in Hw. lia.
  - pose proof (sum_insert steps_left _ i _ Idle Hi) as Hs. cbn in Hs. lia.
Qed.

Lemma weight_bound c : weight c ≤ 3 * length (threads c).
Proof.
  unfold weight. induction (threads c) as [|th ths IH]; cbn; [lia|].
  assert (steps_left th ≤ 3) by (destruct th as [|[]| | |]; cbn; lia). lia.
Qed.

Lemma holder_dec ths : scratch_free ths ∨ ∃ i ρ ad ms n, ths !! i = Some (Filled ρ ad ms n).
Proof.
  induction ths as [|th ths [IH|(i & ρ & ad & ms & n & Hi)]]; [left; constructor| |right; exists (S i); eauto 10].
  destruct (holds_scratch th) eqn:Hh; [|left; by constructor]. right. destruct th; try done. exists 0. by do 4 eexists.
Qed.

(** A thread in a call can move, or the holder of the scratch lock can. *)
Lemma can_proceed c i th : threads c !! i = Some th → th ≠ Idle → ∃ c', proceeds c c'.
Proof.
  intros Hi Hne. destruct (holder_dec (threads c)) as [Hf|(j & ρ & ad & ms & n & Hj)].
  2: { destruct (select_pick ρ ad (shared c)) as [o self'] eqn:E. eexists. exists None.
       split; [|done]. eapply step_work; [exact Hj|by apply work_select_pick]. }
  destruct th as [|o|ρ ad ms n|k|r]; [done| | | |].
  - assert (∃ th' self', work (threads c) (Called o) (shared c) th' self') as (th' & self' & Hw).
    { destruct (one_step o) eqn:Ho; [by eexists _, _; apply work_one|].
      destruct o as [ρ ad ms n|idx|idx|kind| |buf|]; try done.
      - destruct (select_checks ad n (shared c)) eqn:Hc; [|by eexists _, _; apply work_select_refused].
        destruct (poisoned (scratch (shared c))) eqn:Hp;
          eexists _, _; [by apply work_select_poisoned|by apply work_select_fill].
      - eexists _, _. apply work_reset_read.
      - eexists _, _. by apply work_metrics. }
    eexists. exists None. split; [by eapply step_work|done].
  - pose proof (Forall_lookup_1 _ _ _ _ Hf Hi). done.
  - destruct (reset_to k (shared c)) as [o self'] eqn:E. eexists. exists None.
    split; [|done]. eapply step_work; [exact Hi|by apply work_reset_lock].
  - eexists. exists (Some (Return i r)). split; [by apply step_return|done].
Qed.

(** ** Properties *)

(** C11: the C interface is linearizable.  Whatever the threads of a host do
    with a handle, as long as no reset is in flight together with a change of
    the strategy, the calls and returns it sees are those of an interface whose
    calls take effect atomically between the two (poisoned locks and caught
    panics included); and whenever no selection is between its two locks, the
    handle is in the state the atomic calls leave. *)
Theorem ffi_linearizable m self tr c :
  runs step no_reset_race (start m self) tr c →
  ∃ a, runs astep (λ _, True) (start m self) tr a ∧
    threads a = athread <$> threads c ∧ (scratch_free (threads c) → shared a = shared c).
Proof.
  intros Hr. destruct (sim_runs _ _ _ _ Hr (sim_start m self)) as (a & Ha & Ht & Hsh & _).
  exists a. split; [done|]. split; [done|]. intros Hf. symmetry. by eapply shares_free.
Qed.

(** C19: threads in contract never see an error.  From a fresh handle of any
    strategy and size, any number of threads may call the functions with valid
    arguments, up to [PICK_BUDGET] calls in all: every selection that returns
    has an index of the pool, and every other call its success code. *)
Theorem ffi_threads_ok m n kind self tr c :
  (0 < n < u32_MAX)%Z → rota_lb_create n (FfiStrategy.discriminant kind) = Some self →
  runs step no_reset_race (start m self) tr c →
  (Z.of_nat (invocations tr) ≤ PICK_BUDGET)%Z → Forall (event_ok n) tr →
  Forall (event_fine n) tr.
Proof.
  intros Hn Hc Hr Hb He. destruct (sim_runs _ _ _ _ Hr (sim_start m self)) as (a & Ha & _).
  assert (Hp : pending (threads (start m self)) = 0).
  { unfold pending. cbn. clear. by induction m. }
  apply (aruns_ok n _ _ _ Hn Ha); rewrite ?Hp, ?Nat.add_0_r; try done.
  { by apply Forall_replicate. }
  revert Hc. unfold rota_lb_create. replace (n =? 0)%Z with false by lia.
  replace (FfiStrategy.from_i32 (FfiStrategy.discriminant kind)) with (Some kind) by (by destruct kind).
  intros [= <-]. unfold handle_ok. cbn. split_and!; try done.
  eapply (safe_mono (StrategyLaws := dyn_StrategyLaws)); [exact Hb|apply build_safe].
Qed.

(** Threads cannot deadlock.  As long as some call is in flight one of the
    calls in flight can take a step, and without new calls the threads take at
    most three steps each until all of them returned. *)
Theorem ffi_calls_settle c :
  (∀ i th, threads c !! i = Some th → th ≠ Idle → ∃ c', proceeds c c') ∧
  (∀ k c', nsteps proceeds k c c' → k ≤ 3 * length (threads c)).
Proof.
  split; [apply can_proceed|]. intros k c' Hn. etrans; [|apply weight_bound].
  enough (k + weight c' ≤ weight c) by lia.
  induction Hn as [c|k c c1 c' Hp _ IH]; [lia|]. apply proceeds_less in Hp. lia.
Qed.

(** The name a handle reports is that of its strategy.  It holds for a fresh
    handle and in every run without a racing reset. *)
Theorem ffi_name_agrees m n kind self tr c :
  rota_lb_create n kind = Some self → runs step no_reset_race (start m self) tr c →
  rota_lb_strategy_name (Some (shared c)) = Ret (name (guarded (strategy (shared c)))).
Proof.
  intros Hc Hr. destruct (sim_runs _ _ _ _ Hr (sim_start m self)) as (a & Ha & _ & Hsh & _).
  apply runs_agrees in Ha.
  - destruct (shares_scratch _ _ _ Hsh) as [mu ->]. apply instance_name in Ha. cbn.
    rewrite Ha. by destruct (strategy_kind (shared a)).
  - revert Hc. unfold rota_lb_create. repeat case_match; try done. intros [= <-]. apply instance_build.
Qed.
End Lemmas.

(** ** Witnesses *)

(** Thread 0 selects while thread 1 reports an error between its two locks. *)
Definition fresh_handle (k : FfiStrategy.t) : t :=
  {| strategy := mutex_new (@FfiStrategy.build dev64 sum_hasher k 2); backend_count := 2;
     strategy_kind := k; scratch := mutex_new [] |}.
Definition a_select : op := OSelect rng0 "h" host_metrics 2.
Definition busy_trace : list event :=
  [Invoke 0 a_select; Invoke 1 (OReportError 0); Return 0 (RCode (Ret 1%Z))].

(** Take the next step of a run: its effects are evaluated. *)
Ltac each_thread := repeat first [apply Forall_nil_2 | apply Forall_cons_2; [reflexivity|]].
Ltac next R e := eapply (runs_cons R _ e); [first [exact I | left; each_thread] | | cbn [option_list app]].

Lemma busy_run :
  ∃ c, runs (@step dev64 sum_hasher) no_reset_race (start 2 (fresh_handle FfiStrategy.LeastConnections)) busy_trace c ∧
    scratch_free (threads c).
Proof.
  eexists. split.
  - next (@step dev64 sum_hasher) (Some (Invoke 0 a_select)); [apply step_invoke; reflexivity|].
    next (@step dev64 sum_hasher) (@None event);
      [eapply (step_work 0); [reflexivity|apply work_select_fill; [reflexivity|each_thread|reflexivity]]|].
    next (@step dev64 sum_hasher) (Some (Invoke 1 (OReportError 0))); [apply step_invoke; reflexivity|].
    next (@step dev64 sum_hasher) (@None event); [eapply (step_work 1); [reflexivity|by apply work_one]|].
    next (@step dev64 sum_hasher) (@None event);
      [eapply (step_work 0); [reflexivity|eapply work_select_pick, run_eq; vm_compute; reflexivity]|].
    next (@step dev64 sum_hasher) (Some (Return 0 (RCode (Ret 1%Z)))); [apply step_return; reflexivity|].
    apply runs_nil. left. each_thread.
  - cbn. each_thread.
Qed.

Lemma ffi_linearizable_witness :
  ∃ a, runs (@astep dev64 sum_hasher) (λ _, True) (start 2 (fresh_handle FfiStrategy.LeastConnections)) busy_trace a.
Proof.
  destruct busy_run as (c & Hr & _).
  destruct (ffi_linearizable (H := dev64) 2 (fresh_handle FfiStrategy.LeastConnections) busy_trace c Hr) as (a & Ha & _).
  exists a. exact Ha.
Defined.

Lemma ffi_threads_ok_witness : Forall (event_fine 2) busy_trace.
Proof.
  destruct busy_run as (c & Hr & _).
  apply (ffi_threads_ok (H := dev64) (H0 := sum_hasher) 2 2 FfiStrategy.LeastConnections
    (fresh_handle FfiStrategy.LeastConnections) busy_trace c);
    [unfold u32_MAX; lia|reflexivity|exact Hr|vm_compute; discriminate|].
  apply Forall_cons_2; [|apply Forall_cons_2; [|apply Forall_cons_2; [exact I|apply Forall_nil_2]]].
  - split; [reflexivity|]. split; [intros k Hk; exact Hk|]. split; [reflexivity|].
    split; [cbn; lia|exact host_metrics_ok].
  - cbn. unfold u32_MAX. lia.
Defined.

Lemma ffi_name_agrees_witness :
  ∃ c, runs (@step dev64 sum_hasher) no_reset_race (start 2 (fresh_handle FfiStrategy.LeastConnections)) busy_trace c ∧
    rota_lb_strategy_name (Some (shared c)) = Ret (name (guarded (strategy (shared c)))).
Proof.
  destruct busy_run as (c & Hr & _). exists c. split; [exact Hr|].
  apply (ffi_name_agrees (H := dev64) (H0 := sum_hasher) 2 2 3 (fresh_handle FfiStrategy.LeastConnections) busy_trace c);
    [reflexivity|exact Hr].
Defined.

(** The race the condition excludes: a reset reads the kind, another thread
    changes the strategy, and the reset then puts the old strategy back.  All
    calls succeed, and the handle reports a strategy it does not run. *)
Definition race_trace : list event :=
  [Invoke 0 OReset; Invoke 1 (OSetStrategy 2); Return 1 (RCode (Ret 0%Z)); Return 0 (RCode (Ret 0%Z))].

Example reset_race :
  ∃ c, runs (@step dev64 sum_hasher) (λ _, True) (start 2 (fresh_handle FfiStrategy.RoundRobin)) race_trace c ∧
    threads c = [Idle; Idle] ∧ rota_lb_strategy_name (Some (shared c)) = Ret "lowest_rtt"%string ∧
    name (guarded (strategy (shared c))) = "round_robin"%string.
Proof.
  eexists. split.
  - next (@step dev64 sum_hasher) (Some (Invoke 0 OReset)); [apply step_invoke; reflexivity|].
    next (@step dev64 sum_hasher) (@None event); [eapply (step_work 0); [reflexivity|apply work_reset_read]|].
    next (@step dev64 sum_hasher) (Some (Invoke 1 (OSetStrategy 2))); [apply step_invoke; reflexivity|].
    next (@step dev64 sum_hasher) (@None event); [eapply (step_work 1); [reflexivity|by apply work_one]|].
    next (@step dev64 sum_hasher) (Some (Return 1 (RCode (Ret 0%Z)))); [apply step_return; reflexivity|].
    next (@step dev64 sum_hasher) (@None event);
      [eapply (step_work 0); [reflexivity|eapply work_reset_lock, run_eq; vm_compute; reflexivity]|].
    next (@step dev64 sum_hasher) (Some (Return 0 (RCode (Ret 0%Z)))); [apply step_return; reflexivity|].
    apply runs_nil. exact I.
  - split; [reflexivity|]. split; vm_compute; reflexivity.
Qed.
