(* ===== verification/Tower.v ===== *)
(** * The tower service ([src/src/tower.rs])

    The request type with its per-call overrides, and the [Service]
    implementation of a shared balancer. *)

From stdpp Require Import base tactics list numbers strings.
From S2P Require Import Prelude Errors Strategy Float64 Retry Address Balancer.
From S2P Require Import Strategies Registry BalancerFacts BalancerSpec.

Open Scope rota_scope.

Module LbRequest.
Record t := {
  addr : string;
  dial_timeout : option Duration;
  retry_policy : option RetryPolicy
}.

Definition new (a : string) : t := {| addr := a; dial_timeout := None; retry_policy := None |}.
Definition with_dial_timeout (d : Duration) (r : t) : t :=
  {| addr := addr r; dial_timeout := Some d; retry_policy := retry_policy r |}.
Definition with_retry_policy (p : RetryPolicy) (r : t) : t :=
  {| addr := addr r; dial_timeout := dial_timeout r; retry_policy := Some p |}.
End LbRequest.

Section Service.
Context `{Target} {B : Type}.

(** [poll_ready] is always [Poll::Ready]. *)
Definition poll_ready (self : LoadBalancer.t B) : Result unit Error.t :=
  if decide (LoadBalancer.backend_count self = 0) then Err Error.no_backends else Ok tt.

Definition call {C} (fuel : nat) (ρ : Rng) (env : Env B C) (req : LbRequest.t) :
    M (LoadBalancer.t B) (Result (GuardedConnection C) Error.t) :=
  LoadBalancer.dial_with_options fuel ρ env (LbRequest.addr req) (LbRequest.dial_timeout req)
    (LbRequest.retry_policy req).

(** ** Properties *)

(** Readiness predicts the call.  A service that is not ready answers
    every request with a valid address with the readiness error and changes
    nothing; a service that is ready never answers with that error of its own:
    one that does got it from the backend. *)
Theorem poll_ready_predicts_call {C} k fuel ρ (env : Env B C) req self :
  (0 ≤ k)%Z → rng_ok ρ → validate_dial_addr (LbRequest.addr req) = Ok tt →
  match poll_ready self with
  | Err e => call fuel ρ env req self = (Ret (Err e), self)
  | Ok _ =>
      ready (k + 1) self →
      (call fuel ρ env req self).1 = Ret (Err Error.no_backends) →
      ∃ i, i < LoadBalancer.backend_count self ∧
        LoadBalancer.dial_with_retry fuel self i (LbRequest.addr req) (LbRequest.dial_timeout req)
          (LbRequest.retry_policy req) env = Ret (Err Error.no_backends)
  end.
Proof.
  intros Hk Hρ Hv. unfold poll_ready, LoadBalancer.backend_count. case_decide as Hc.
  - unfold call, LoadBalancer.dial_with_options. rewrite Hv. mrun. by rewrite decide_True.
  - intros Hr E. unfold call in E.
    destruct (dial_eq k fuel ρ env (LbRequest.addr req) (LbRequest.dial_timeout req)
      (LbRequest.retry_policy req) self Hk Hr Hρ Hv) as (i & m & _ & _ & Hi & Hd).
    exists i. split; [done|].
    destruct (LoadBalancer.dial_with_retry _ _ _ _ _ _ _) as [[conn|e]| | |].
    + destruct Hd as (d & _ & _ & Hd). by rewrite Hd in E.
    + destruct Hd as (d & _ & _ & Hd). rewrite Hd in E. cbn in E. congruence.
    + destruct Hd as (d & Hd). by rewrite Hd in E.
    + destruct Hd as (d & Hd). by rewrite Hd in E.
    + destruct Hd as (d & Hd). by rewrite Hd in E.
Qed.
End Service.

(** ** Witnesses *)

(** A pool whose only backend was removed. *)
Definition emptied : LoadBalancer.t nat :=
  (@LoadBalancer.remove_backend nat dev64 0
     (LoadBalancer.init [10] [TunnelMetrics_default] (@round_robin dev64) None None)).2.

Lemma poll_ready_predicts_call_witness :
  @call dev64 nat nat 1 rng0 demo_env (LbRequest.new "h:80") emptied =
    (Ret (Err Error.no_backends), emptied).
Proof.
  exact (poll_ready_predicts_call (H := dev64) 0 1 rng0 demo_env (LbRequest.new "h:80") emptied
    (Z.le_refl 0) rng0_ok eq_refl).
Defined.
