(* ===== verification/Tls.v ===== *)
(** * TLS for backends ([src/src/configs/tls.rs])

    The configuration and its builders, the construction of the client
    configuration, the verifier that is to skip the host name, and the wrapping
    backend.  [rustls] is a parameter: the class [Rustls] holds the calls the
    code makes and what they answer. *)

From stdpp Require Import base tactics list numbers strings.
From S2P Require Import Prelude Errors Strategy Strategies Registry Float64 Retry Address Balancer.

Open Scope rota_scope.

Definition DEFAULT_ALPN_PROTOCOLS : list string := ["h2"; "http/1.1"].

Inductive TlsError :=
| Rustls_error (e : string)
| Io_error (e : string)
| InvalidServerName (e : string)
| Certificate (e : string).

(** [pki_types::ServerName], as far as the code builds one. *)
Inductive ServerName :=
| DnsName (name : string)
| IpV4 (a b c d : Z).

(** [Ipv4Addr::UNSPECIFIED]. *)
Definition UNSPECIFIED : ServerName := IpV4 0 0 0 0.

(** The calls into [rustls]; an [Err] carries the text of the error. *)
Class Rustls := {
  Cert : Type;
  Key : Type;
  Store : Type;
  WebPki : Type;
  store_empty : Store;
  store_add : Store → Cert → Result Store string;
  load_native_certs : Result (list Cert) string;
  webpki_build : Store → Result WebPki string;
  webpki_verify : WebPki → Cert → list Cert → ServerName → string → Z → Result unit string;
  webpki_tls12 : WebPki → string → Cert → string → Result unit string;
  webpki_tls13 : WebPki → string → Cert → string → Result unit string;
  webpki_schemes : WebPki → list Z;
  client_auth_check : list Cert → Key → Result unit string;
  dns_name : string → Result string string
}.

Section Tls.
Context `{Rustls}.

Record TlsConfig := {
  server_name : string;
  root_certs : option (list Cert);
  client_cert : option (list Cert * Key);
  verify_hostname : bool;
  connect_timeout : option Duration;
  alpn_protocols : list string
}.

Definition TlsConfig_new (name : string) : TlsConfig :=
  {| server_name := name; root_certs := None; client_cert := None; verify_hostname := true;
     connect_timeout := None; alpn_protocols := DEFAULT_ALPN_PROTOCOLS |}.
Definition with_root_certs (certs : list Cert) (c : TlsConfig) : TlsConfig :=
  {| server_name := server_name c; root_certs := Some certs; client_cert := client_cert c;
     verify_hostname := verify_hostname c; connect_timeout := connect_timeout c;
     alpn_protocols := alpn_protocols c |}.
Definition with_client_cert (certs : list Cert) (key : Key) (c : TlsConfig) : TlsConfig :=
  {| server_name := server_name c; root_certs := root_certs c; client_cert := Some (certs, key);
     verify_hostname := verify_hostname c; connect_timeout := connect_timeout c;
     alpn_protocols := alpn_protocols c |}.
Definition danger_bypass_hostname_check_only (c : TlsConfig) : TlsConfig :=
  {| server_name := server_name c; root_certs := root_certs c; client_cert := client_cert c;
     verify_hostname := false; connect_timeout := connect_timeout c;
     alpn_protocols := alpn_protocols c |}.
Definition with_connect_timeout (d : Duration) (c : TlsConfig) : TlsConfig :=
  {| server_name := server_name c; root_certs := root_certs c; client_cert := client_cert c;
     verify_hostname := verify_hostname c; connect_timeout := Some d;
     alpn_protocols := alpn_protocols c |}.
Definition with_alpn_protocols (ps : list string) (c : TlsConfig) : TlsConfig :=
  {| server_name := server_name c; root_certs := root_certs c; client_cert := client_cert c;
     verify_hostname := verify_hostname c; connect_timeout := connect_timeout c;
     alpn_protocols := ps |}.

(** ** The verifier *)

(** [Arc<dyn ServerCertVerifier>]: the library's, or the wrapper of this file. *)
Inductive verifier :=
| WebPkiServerVerifier (w : WebPki)
| NoHostnameVerifier (w : WebPki).

Definition verify_server_cert (v : verifier) (end_entity : Cert) (intermediates : list Cert)
    (name : ServerName) (ocsp : string) (now : Z) : Result unit string :=
  match v with
  | WebPkiServerVerifier w => webpki_verify w end_entity intermediates name ocsp now
  | NoHostnameVerifier w => webpki_verify w end_entity intermediates UNSPECIFIED ocsp now
  end.

(** The other methods forward to the verifier that is wrapped. *)
Definition wrapped (v : verifier) : WebPki :=
  match v with WebPkiServerVerifier w | NoHostnameVerifier w => w end.
Definition verify_tls12_signature (v : verifier) (message : string) (cert : Cert) (dss : string) :
    Result unit string := webpki_tls12 (wrapped v) message cert dss.
Definition verify_tls13_signature (v : verifier) (message : string) (cert : Cert) (dss : string) :
    Result unit string := webpki_tls13 (wrapped v) message cert dss.
Definition supported_verify_schemes (v : verifier) : list Z := webpki_schemes (wrapped v).

(** ** The client configuration *)

Record ClientConfig := {
  cc_verifier : verifier;
  cc_client_auth : option (list Cert * Key);
  cc_alpn_protocols : list string
}.

(** The loops that fill the root store. *)
Fixpoint add_certs (store : Store) (certs : list Cert) : Result Store Error.t :=
  match certs with
  | [] => Ok store
  | c :: rest =>
      match store_add store c with
      | Err e => Err (Error.backend ("failed to add root cert: " +:+ e))
      | Ok store' => add_certs store' rest
      end
  end.

Definition root_store (c : TlsConfig) : Result Store Error.t :=
  match root_certs c with
  | Some certs => add_certs store_empty certs
  | None =>
      match load_native_certs with
      | Err e => Err (Error.backend ("failed to load native certs: " +:+ e))
      | Ok certs => add_certs store_empty certs
      end
  end.

Definition build_client_config (c : TlsConfig) : Result ClientConfig Error.t :=
  match root_store c with
  | Err e => Err e
  | Ok store =>
      match webpki_build store with
      | Err e => Err (Error.backend ("verifier builder: " +:+ e))
      | Ok w =>
          let v := if verify_hostname c then WebPkiServerVerifier w else NoHostnameVerifier w in
          match client_cert c with
          | Some (certs, key) =>
              match client_auth_check certs key with
              | Err e => Err (Error.backend ("client cert: " +:+ e))
              | Ok _ => Ok {| cc_verifier := v; cc_client_auth := Some (certs, key);
                              cc_alpn_protocols := alpn_protocols c |}
              end
          | None => Ok {| cc_verifier := v; cc_client_auth := None;
                          cc_alpn_protocols := alpn_protocols c |}
          end
      end
  end.

(** ** The wrapping backend *)

Record TlsBackend (B : Type) := { tls_inner : B; tls_server_name : string; connector : ClientConfig }.
Arguments tls_inner {B}.
Arguments tls_server_name {B}.
Arguments connector {B}.

Definition TlsBackend_new {B} (inner : B) (c : TlsConfig) : Result (TlsBackend B) Error.t :=
  match build_client_config c with
  | Err e => Err e
  | Ok cfg => Ok {| tls_inner := inner; tls_server_name := server_name c; connector := cfg |}
  end.

(** [handshake] is [TlsConnector::connect]: it may fail with a text. *)
Definition connect_tls {C C'} (handshake : ClientConfig → ServerName → C → Result C' string)
    (cfg : ClientConfig) (name : string) (conn : C) : Result C' Error.t :=
  match dns_name name with
  | Err e => Err (Error.backend ("invalid server name: " +:+ e))
  | Ok n =>
      match handshake cfg (DnsName n) conn with
      | Err e => Err (Error.backend ("TLS handshake failed: " +:+ e))
      | Ok s => Ok s
      end
  end.

(** [Backend::dial] of the wrapper, from what the inner backend's dial gave. *)
Definition TlsBackend_dial {B C C'} (handshake : ClientConfig → ServerName → C → Result C' string)
    (self : TlsBackend B) (inner_result : Result C Error.t) : Result C' Error.t :=
  match inner_result with
  | Err e => Err e
  | Ok conn => connect_tls handshake (connector self) (tls_server_name self) conn
  end.

(** [Backend::shutdown] of the wrapper. *)
Definition TlsBackend_shutdown {B St} (inner_shutdown : B → M St unit) (self : TlsBackend B) : M St unit :=
  inner_shutdown (tls_inner self).

(** What a wrapped backend answers, from what its inner backend does; the
    handshake takes its own time, and may take for ever. *)
Definition tls_env {B C C'} (handshake : ClientConfig → ServerName → C → Result C' string)
    (time : C → option Duration) (env : Env B C) : Env (TlsBackend B) C' := λ self addr n,
  let a := env (tls_inner self) addr n in
  {| at_result := TlsBackend_dial handshake self (at_result a);
     at_panic := at_panic a;
     at_latency := match at_panic a, at_result a, at_latency a with
                   | None, Ok conn, Some l => h ← time conn; Some (l + h)%Z
                   | _, _, l => l
                   end;
     at_lag := at_lag a; at_draw := at_draw a |}.

(** ** Lemmas *)

(** A connection that the retry loop returns is the answer to some attempt. *)
Lemma dial_loop_ok {B C} `{Target} fuel (self : LoadBalancer.t B) idx addr to pol (env : Env B C) n a e conn :
  LoadBalancer.dial_loop fuel self idx addr to pol env n a e = Ret (Ok conn) →
  ∃ b k, LoadBalancer.backends self !! idx = Some b ∧ at_result (env b addr k) = Ok conn.
Proof.
  revert n a e. induction fuel as [|fuel IH]; intros n a e; cbn; [done|].
  destruct (u32_add a 1) as [a'| | |]; [|done..]. cbn. unfold index.
  destruct (LoadBalancer.backends self !! idx) as [b|] eqn:Hb; [|done]. cbn.
  destruct (LoadBalancer.dial_attempt to (env b addr n)) as [[[c|er] l]| | |] eqn:Ed; cbn; [| |done..].
  - intros [= ->]. exists b, n. split; [done|]. unfold LoadBalancer.dial_attempt in Ed.
    unfold LoadBalancer.resolved in Ed. repeat case_match; simplify_eq; done.
  - destruct (LoadBalancer.retry_delay _ _ _ _ _) as [[d|]| | |]; [|done..]. cbn. intros E.
    destruct (IH _ _ _ E) as (b' & k & Hb' & Hk). exists b', k. split; [congruence|done].
Qed.

(** A connection that [dial] returns is some backend's. *)
Lemma dial_conn {B C} `{Target} fuel ρ (env : Env B C) addr to pol (self : LoadBalancer.t B) gc self' :
  LoadBalancer.dial_with_options fuel ρ env addr to pol self = (Ret (Ok gc), self') →
  ∃ b k s1, LoadBalancer.select_backend ρ addr self = (Ret (guard_index (_guard gc)), s1) ∧
    LoadBalancer.backends s1 !! guard_index (_guard gc) = Some b ∧
    at_result (env b addr k) = Ok (inner gc).
Proof.
  unfold LoadBalancer.dial_with_options. destruct (validate_dial_addr addr); [|done]. mrun.
  case_decide; [done|]. destruct (LoadBalancer.select_backend ρ addr self) as [[i| | |] s1]; [|done..].
  destruct (LoadBalancer.dial_with_retry _ _ _ _ _ _ _) as [[conn|e]| | |] eqn:Er; [| |done..].
  - destruct (LoadBalancer.handle_dial_success i s1) as [[]]; [|done..]. intros [= <- _]. cbn.
    unfold LoadBalancer.dial_with_retry in Er. destruct (dial_loop_ok _ _ _ _ _ _ _ _ _ _ _ Er) as (b & k & Hb & Hk).
    exists b, k, s1. done.
  - destruct (LoadBalancer.handle_dial_error i e s1) as [[]]; done.
Qed.

(** ** Properties *)

(** C31: No connection skips TLS.  When every backend of a balancer is wrapped,
    a connection that [dial] returns came out of a handshake, with the client
    configuration of the backend it was dialled on and that backend's own
    server name, over a connection its inner backend opened; nothing falls back
    to the inner connection, whatever fails and is retried. *)
Theorem tls_never_bypassed {B C C'} `{Target} handshake time (env : Env B C) fuel ρ addr to pol
    (self : LoadBalancer.t (TlsBackend B)) (gc : GuardedConnection C') self' :
  LoadBalancer.dial_with_options fuel ρ (tls_env handshake time env) addr to pol self =
    (Ret (Ok gc), self') →
  ∃ s1 b k conn n,
    LoadBalancer.select_backend ρ addr self = (Ret (guard_index (_guard gc)), s1) ∧
    LoadBalancer.backends s1 !! guard_index (_guard gc) = Some b ∧
    at_result (env (tls_inner b) addr k) = Ok conn ∧ dns_name (tls_server_name b) = Ok n ∧
    handshake (connector b) (DnsName n) conn = Ok (inner gc).
Proof.
  intros (b & k & s1 & Es & Hb & Hc)%dial_conn. cbn in Hc. unfold TlsBackend_dial, connect_tls in Hc.
  destruct (at_result (env (tls_inner b) addr k)) as [conn|] eqn:Hi; [|done].
  destruct (dns_name (tls_server_name b)) as [n|] eqn:Hn; [|done].
  destruct (handshake (connector b) (DnsName n) conn) as [c'|] eqn:Hh; [|done]. injection Hc as ->.
  by exists s1, b, k, conn, n.
Qed.

(** [rustls] documents that a certificate is accepted for a name only if it is
    valid for that name. *)
Variable valid_for : Cert → ServerName → Prop.
Hypothesis verify_checks_name : ∀ w c cs name ocsp now,
  webpki_verify w c cs name ocsp now = Ok tt → valid_for c name.

(** Skipping the host name check rejects ordinary certificates.  With
    [danger_bypass_hostname_check_only] the verifier does not skip the name but
    asks for 0.0.0.0: its answer does not depend on the server's name, and a
    certificate that is not issued for that address is refused, even one that
    the normal verifier accepts for the server's own name; the signature checks
    stay those of the verifier it wraps. *)
Theorem bypass_asks_for_unspecified c cfg cert chain name name' ocsp now :
  build_client_config (danger_bypass_hostname_check_only c) = Ok cfg →
  verify_server_cert (cc_verifier cfg) cert chain name ocsp now =
    verify_server_cert (cc_verifier cfg) cert chain name' ocsp now ∧
  (¬ valid_for cert UNSPECIFIED → verify_server_cert (cc_verifier cfg) cert chain name ocsp now ≠ Ok tt) ∧
  (∀ cfg', build_client_config c = Ok cfg' → ∀ message dss,
     verify_tls12_signature (cc_verifier cfg) message cert dss =
       verify_tls12_signature (cc_verifier cfg') message cert dss ∧
     verify_tls13_signature (cc_verifier cfg) message cert dss =
       verify_tls13_signature (cc_verifier cfg') message cert dss ∧
     supported_verify_schemes (cc_verifier cfg) = supported_verify_schemes (cc_verifier cfg')).
Proof.
  intros E. assert (∃ store w, root_store c = Ok store ∧ webpki_build store = Ok w ∧
    cc_verifier cfg = NoHostnameVerifier w) as (store & w & Hs & Hw & ->).
  { unfold build_client_config in E. change (root_store _) with (root_store c) in E. cbn in E.
    repeat case_match; simplify_eq; cbn; by eauto 6. }
  cbn. split; [done|]. split; [intros Hno Hok; by eapply Hno, verify_checks_name|].
  intros cfg' E' message dss. assert (wrapped (cc_verifier cfg') = w) as Hw'.
  { unfold build_client_config in E'. rewrite Hs, Hw in E'. repeat case_match; simplify_eq; done. }
  unfold verify_tls12_signature, verify_tls13_signature, supported_verify_schemes. by rewrite Hw'.
Qed.

(** The client configuration.  It can be built exactly when the roots load,
    the verifier builds and the client certificate is accepted, and then it
    carries the requested protocols and client identity, and the full verifier
    unless the bypass was asked for; the connect timeout has no effect. *)
Theorem build_client_config_spec c :
  (∀ d, build_client_config (with_connect_timeout d c) = build_client_config c) ∧
  (∀ cfg, build_client_config c = Ok cfg ↔
     ∃ store w, root_store c = Ok store ∧ webpki_build store = Ok w ∧
       (∀ certs key, client_cert c = Some (certs, key) → ∃ u, client_auth_check certs key = Ok u) ∧
       cfg = {| cc_verifier := if verify_hostname c then WebPkiServerVerifier w else NoHostnameVerifier w;
                cc_client_auth := client_cert c; cc_alpn_protocols := alpn_protocols c |}).
Proof.
  split; [done|]. intros cfg. unfold build_client_config. split.
  - destruct (root_store c) as [store|]; [|done]. destruct (webpki_build store) as [w|] eqn:Ew; [|done].
    intros E. exists store, w. split; [done|]. split; [done|].
    destruct (client_cert c) as [[certs key]|].
    + destruct (client_auth_check certs key) as [u|] eqn:Ea; [|done]. injection E as <-.
      split; [|done]. intros ? ? [= <- <-]. by exists u.
    + injection E as <-. by split.
  - intros (store & w & -> & -> & Hauth & ->).
    destruct (client_cert c) as [[certs key]|]; [|done].
    by destruct (Hauth certs key eq_refl) as [u ->].
Qed.
End Tls.

(** ** Witnesses *)

(** A verifier that only compares names: a certificate is the name it is for. *)
Definition name_eqb (a b : ServerName) : bool :=
  match a, b with
  | DnsName x, DnsName y => bool_decide (x = y)
  | IpV4 a1 b1 c1 d1, IpV4 a2 b2 c2 d2 => bool_decide ((a1, b1, c1, d1) = (a2, b2, c2, d2))
  | _, _ => false
  end.

Definition toy_rustls : Rustls :=
  {| Cert := ServerName; Key := unit; Store := list ServerName; WebPki := list ServerName;
     store_empty := []; store_add s c := Ok (s ++ [c]); load_native_certs := Ok [];
     webpki_build s := Ok s;
     webpki_verify _ c _ name _ _ := if name_eqb c name then Ok tt else Err "bad name";
     webpki_tls12 _ _ _ _ := Ok tt; webpki_tls13 _ _ _ _ := Ok tt; webpki_schemes _ := [1027%Z];
     client_auth_check _ _ := Ok tt; dns_name s := Ok s |}.

Lemma toy_checks_name w c cs name ocsp now :
  @webpki_verify toy_rustls w c cs name ocsp now = Ok tt → name_eqb c name = true.
Proof. cbn. by destruct (name_eqb c name). Qed.

(** The certificate of "example.com" is refused by the bypass. *)
Lemma bypass_asks_for_unspecified_witness :
  ∃ cfg, @build_client_config toy_rustls
      (@danger_bypass_hostname_check_only toy_rustls (@TlsConfig_new toy_rustls "example.com")) = Ok cfg ∧
    @verify_server_cert toy_rustls (cc_verifier (H := toy_rustls) cfg) (DnsName "example.com") []
      (DnsName "example.com") "" 0 ≠ Ok tt.
Proof.
  eexists. split; [reflexivity|].
  refine (proj1 (proj2 (bypass_asks_for_unspecified (H := toy_rustls) (λ c n, name_eqb c n = true) toy_checks_name
    (@TlsConfig_new toy_rustls "example.com") _ (DnsName "example.com") [] (DnsName "example.com")
    (DnsName "other") "" 0 eq_refl)) _). discriminate.
Defined.

(** A balancer of one wrapped backend, whose inner backend connects at once;
    the handshake keeps the name it was asked for. *)
Definition tls_member : @TlsBackend toy_rustls nat :=
  {| tls_inner := 7; tls_server_name := "example.com";
     connector := {| cc_verifier := @WebPkiServerVerifier toy_rustls []; cc_client_auth := None;
                     cc_alpn_protocols := DEFAULT_ALPN_PROTOCOLS |} |}.
Definition tls_pool : LoadBalancer.t (@TlsBackend toy_rustls nat) :=
  LoadBalancer.init [tls_member] [TunnelMetrics_default] (@round_robin dev64) None None.
Definition toy_handshake : @ClientConfig toy_rustls → ServerName → nat → Result (ServerName * nat) string :=
  λ _ name conn, Ok (name, conn).
Definition plain_env : Env nat nat := λ b _ _,
  {| at_result := Ok b; at_panic := None; at_latency := Some 1%Z; at_lag := 0%Z; at_draw := f64_of_Z 0 |}.

Definition tls_conn : GuardedConnection (ServerName * nat) :=
  {| inner := (DnsName "example.com", 7); _guard := {| guard_index := 0; gen_at_creation := 0 |} |}.

Lemma tls_never_bypassed_witness :
  ∃ b conn n, toy_handshake (@connector toy_rustls nat b) (DnsName n) conn = Ok (inner tls_conn) ∧
    @dns_name toy_rustls (@tls_server_name toy_rustls nat b) = Ok n.
Proof.
  edestruct (tls_never_bypassed (H := toy_rustls) (H0 := dev64) toy_handshake
    (λ _, Some 0%Z) plain_env 3 rng0 "h:80" None None tls_pool tls_conn)
    as (s1 & b & k & conn & n & _ & _ & _ & Hn & Hh);
    [apply run_eq; vm_compute; reflexivity|].
  by exists b, conn, n.
Defined.
