(* ===== verification/Debug.v ===== *)
(** * [Debug] output

    The [Debug] implementations the crate writes by hand, over the parts of
    std's formatting they use: [debug_struct] with [finish] and
    [finish_non_exhaustive], plain ([{:?}]) and pretty ([{:#?}]), and the
    [Debug] of strings, options, numbers and durations.  Output that is derived
    is modelled where such an implementation prints it.

    Strings of a caller end up in this output, and from there in logs: the file
    shows that they cannot break a line. *)

From Stdlib Require Import Ascii.
From stdpp Require Import base tactics list numbers strings pretty.
From S2P Require Import Prelude Text Errors Constants Strategy Float64 Retry Address SocketAddr Balancer.
From S2P Require Import Discovery Etcd Connection Tower Tls.

Open Scope rota_scope.

(** ** std's formatting *)

(** What a value writes, plain or pretty. *)
Definition dbg : Type := bool → string.

(** [PadAdapter]: four spaces at the start of every line. *)
Fixpoint pad (on_newline : bool) (s : string) : string :=
  match s with
  | EmptyString => EmptyString
  | String a s' =>
      (if on_newline then "    " else "") +:+ String a (pad (bool_decide (a = ascii_of_nat 10)) s')
  end.

Definition newline : string := String (ascii_of_nat 10) "".

(** The fields of a [debug_struct], in order, and how it is finished. *)
Fixpoint plain_fields (first : bool) (fields : list (string * dbg)) : string :=
  match fields with
  | [] => ""
  | (n, v) :: rest =>
      (if first then " { " else ", ") +:+ n +:+ ": " +:+ v false +:+ plain_fields false rest
  end.
Fixpoint pretty_fields (fields : list (string * dbg)) : string :=
  match fields with
  | [] => ""
  | (n, v) :: rest => pad true (n +:+ ": " +:+ v true +:+ "," +:+ newline) +:+ pretty_fields rest
  end.

Definition finish (name : string) (fields : list (string * dbg)) : dbg := λ alternate,
  match fields with
  | [] => name
  | _ :: _ =>
      if alternate then name +:+ " {" +:+ newline +:+ pretty_fields fields +:+ "}"
      else name +:+ plain_fields true fields +:+ " }"
  end.
Definition finish_non_exhaustive (name : string) (fields : list (string * dbg)) : dbg := λ alternate,
  match fields with
  | [] => name +:+ " { .. }"
  | _ :: _ =>
      if alternate then
        name +:+ " {" +:+ newline +:+ pretty_fields fields +:+ pad true (".." +:+ newline) +:+ "}"
      else name +:+ plain_fields true fields +:+ ", .. }"
  end.

Definition dbg_option (o : option dbg) : dbg := λ alternate,
  match o with
  | None => "None"
  | Some v =>
      if alternate then "Some(" +:+ newline +:+ pad true (v true +:+ "," +:+ newline) +:+ ")"
      else "Some(" +:+ v false +:+ ")"
  end.
Definition dbg_nat (n : nat) : dbg := λ _, pretty n.
Definition dbg_int (z : Z) : dbg := λ _, pretty z.
Definition dbg_bool (b : bool) : dbg := λ _, if b then "true" else "false".

(** *** Strings *)

(** std escapes what is not printable.  Of the characters above ASCII these are
    the control characters U+0080 to U+009F, the line and the paragraph separator
    ([unprintable] below), and what its Unicode tables say. *)
Class Unicode := { escapes : string → bool }.

Definition hex_digit (n : Z) : ascii :=
  ascii_of_nat (Z.to_nat (if (n <? 10)%Z then 48 + n else 87 + n)).
Fixpoint hex (fuel : nat) (n : Z) : string :=
  match fuel with
  | 0 => ""
  | S fuel' =>
      (if (n <? 16)%Z then "" else hex fuel' (n / 16)%Z) +:+ String (hex_digit (n mod 16)) ""
  end.
(** A code point has at most six digits. *)
Definition unicode_escape (n : Z) : string := "\u{" +:+ hex 6 n +:+ "}".

Definition code (a : ascii) : Z := Z.of_nat (nat_of_ascii a).
(** The code point of the bytes of one character. *)
Definition code_point (c : string) : Z :=
  match c with
  | String a (String b "") => ((code a - 192) * 64 + (code b - 128))%Z
  | String a (String b (String c "")) => ((code a - 224) * 4096 + (code b - 128) * 64 + (code c - 128))%Z
  | String a (String b (String c (String d ""))) =>
      ((code a - 240) * 262144 + (code b - 128) * 4096 + (code c - 128) * 64 + (code d - 128))%Z
  | _ => 0
  end.

Definition unprintable (c : string) : bool :=
  let n := code_point c in
  ((128 <=? n) && (n <=? 159) || (n =? 8232) || (n =? 8233))%Z.

Definition escape_ascii (a : ascii) : string :=
  let n := nat_of_ascii a in
  if decide (n = 0) then "\0"
  else if decide (n = 9) then "\t"
  else if decide (n = 10) then "\n"
  else if decide (n = 13) then "\r"
  else if decide (n = 34) then "\" +:+ String a ""
  else if decide (n = 92) then "\\"
  else if decide (n < 32 ∨ n = 127) then unicode_escape (Z.of_nat n)
  else String a "".

Definition escape_wide `{Unicode} (c : string) : string :=
  if unprintable c || escapes c then unicode_escape (code_point c) else c.

(** The characters of a UTF-8 string, escaped. *)
Fixpoint escape_str `{Unicode} (s : string) : string :=
  match s with
  | EmptyString => ""
  | String a s1 =>
      if byte_in 0 127 a then escape_ascii a +:+ escape_str s1
      else match s1 with
      | EmptyString => String a ""
      | String b s2 =>
          if byte_in 194 223 a then escape_wide (String a (String b "")) +:+ escape_str s2
          else match s2 with
          | EmptyString => String a (String b "")
          | String c s3 =>
              if byte_in 224 239 a then escape_wide (String a (String b (String c ""))) +:+ escape_str s3
              else match s3 with
              | EmptyString => String a (String b (String c ""))
              | String d s4 => escape_wide (String a (String b (String c (String d "")))) +:+ escape_str s4
              end
          end
      end
  end.

Definition quote : string := String (ascii_of_nat 34) "".
Definition dbg_str `{Unicode} (s : string) : dbg := λ _, quote +:+ escape_str s +:+ quote.

(** *** Durations *)

(** The digits after the point, up to the last that is not zero. *)
Fixpoint fraction (fuel : nat) (frac divisor : Z) : string :=
  match fuel with
  | 0 => ""
  | S fuel' =>
      if (frac =? 0)%Z then ""
      else String (hex_digit (frac / divisor)) (fraction fuel' (frac mod divisor) (divisor / 10))
  end.
Definition fmt_decimal (integer frac divisor : Z) (postfix : string) : string :=
  pretty integer +:+ (if (frac =? 0)%Z then "" else "." +:+ fraction 9 frac divisor) +:+ postfix.

Definition dbg_duration (d : Duration) : dbg := λ _,
  let secs := (d / NANOS_PER_SEC)%Z in
  let nanos := (d mod NANOS_PER_SEC)%Z in
  if (0 <? secs)%Z then fmt_decimal secs nanos 100000000 "s"
  else if (1000000 <=? nanos)%Z then fmt_decimal (nanos / 1000000) (nanos mod 1000000) 100000 "ms"
  else if (1000 <=? nanos)%Z then fmt_decimal (nanos / 1000) (nanos mod 1000) 100 "µs"
  else fmt_decimal nanos 0 1 "ns".

(** ** The implementations *)

Section Impls.
Context `{Unicode}.

Definition dbg_TunnelMetrics (m : TunnelMetrics) : dbg :=
  finish "TunnelMetrics"
    [("rtt", dbg_option (dbg_duration <$> rtt m)); ("active_connections", dbg_int (active_connections m));
     ("recent_errors", dbg_int (recent_errors m)); ("total_dials", dbg_int (total_dials m));
     ("total_errors", dbg_int (total_errors m))].

Definition dbg_LoadBalancer {B} (self : LoadBalancer.t B) : dbg :=
  finish_non_exhaustive "LoadBalancer" [("backend_count", dbg_nat (length (LoadBalancer.backends self)))].

Definition dbg_LoadBalancerBuilder {B} (self : LoadBalancerBuilder.t B) : dbg :=
  finish_non_exhaustive "LoadBalancerBuilder"
    [("backends_count", dbg_option (dbg_nat ∘ length <$> LoadBalancerBuilder.b_backends self));
     ("factories_count", dbg_option (dbg_nat ∘ length <$> LoadBalancerBuilder.b_factories self));
     ("has_initial_metrics", dbg_bool (bool_decide (is_Some (LoadBalancerBuilder.b_initial_metrics self))));
     ("has_strategy", dbg_bool (bool_decide (is_Some (LoadBalancerBuilder.b_strategy self))))].

Definition dbg_GuardedConnection {C} (self : GuardedConnection C) : dbg :=
  finish_non_exhaustive "GuardedConnection" [].

Definition dbg_BackendOutput {B} (self : BackendOutput B) : dbg :=
  finish "BackendOutput"
    [("backend", dbg_str "<dyn Backend>"); ("initial_metrics", dbg_TunnelMetrics (initial_metrics self))].

Definition dbg_TlsConnection {St} (self : TlsConnection St) : dbg := finish_non_exhaustive "TlsConnection" [].

Definition dbg_RetryOnError (inner : RetryPolicy) (predicate : Error.t → bool) : dbg :=
  finish_non_exhaustive "RetryOnError" [].
Definition dbg_RetryPolicyBuilder (self : RetryPolicyBuilder.t) : dbg :=
  finish_non_exhaustive "RetryPolicyBuilder" [].

Definition dbg_Discover {B} (self : Discover.t B) : dbg :=
  finish_non_exhaustive "Discover" [("backend_count", dbg_str "<locked>")].

Definition dbg_DnsDiscovery (self : DnsDiscovery.t) : dbg :=
  finish_non_exhaustive "DnsDiscovery" [("service_name", dbg_str (DnsDiscovery.service_name self))].

Definition dbg_ConsulDiscovery (self : ConsulDiscovery.t) : dbg :=
  finish_non_exhaustive "ConsulDiscovery"
    [("service_name", dbg_str (ConsulDiscovery.service_name self));
     ("tag_filter", dbg_option (dbg_str <$> ConsulDiscovery.tag_filter self))].

Definition dbg_EtcdDiscovery (self : EtcdDiscovery.t) : dbg :=
  finish_non_exhaustive "EtcdDiscovery" [("prefix", dbg_str (EtcdDiscovery.prefix self))].

Definition dbg_LbRequest (self : LbRequest.t) : dbg :=
  finish_non_exhaustive "LbRequest"
    [("addr", dbg_str (LbRequest.addr self));
     ("dial_timeout", dbg_option (dbg_duration <$> LbRequest.dial_timeout self))].

Definition dbg_TlsBackend `{Rustls} {B} (self : TlsBackend B) : dbg :=
  finish_non_exhaustive "TlsBackend" [("server_name", dbg_str (tls_server_name B self))].
End Impls.

(** ** Lemmas *)

(** A control character (ASCII or not) or a line or paragraph separator at the
    start of a UTF-8 text. *)
Definition control_at (s : string) : bool :=
  match s with
  | EmptyString => false
  | String a s1 =>
      byte_in 0 31 a || byte_in 127 127 a ||
      match s1 with
      | EmptyString => false
      | String b s2 =>
          byte_in 194 194 a && byte_in 128 159 b ||
          match s2 with
          | EmptyString => false
          | String c _ => byte_in 226 226 a && byte_in 128 128 b && byte_in 168 169 c
          end
      end
  end.
(** None anywhere. *)
Fixpoint clean (s : string) : bool :=
  match s with EmptyString => true | String _ s' => negb (control_at s) && clean s' end.

(** Text that adds none, wherever it is put. *)
Definition harmless (t : string) : Prop := ∀ rest, clean (t +:+ rest) = clean rest.

Lemma harmless_clean t : harmless t → clean t = true.
Proof. intros Ht. specialize (Ht ""). by rewrite string_app_nil in Ht. Qed.

Lemma harmless_nil : harmless "".
Proof. by intros rest. Qed.

Lemma harmless_app s t : harmless s → harmless t → harmless (s +:+ t).
Proof. intros Hs Ht rest. by rewrite string_app_assoc, Hs, Ht. Qed.

Lemma byte_in_iff lo hi a : byte_in lo hi a = true ↔ (lo ≤ nat_of_ascii a ≤ hi).
Proof. unfold byte_in. by rewrite andb_true_iff, !Nat.leb_le. Qed.

Lemma byte_in_out lo hi a : ~ (lo ≤ nat_of_ascii a ≤ hi) → byte_in lo hi a = false.
Proof. intros Hn. destruct (byte_in lo hi a) eqn:E; [|done]. by apply byte_in_iff in E. Qed.

(** Printable ASCII, and the bytes that start no character. *)
Lemma clean_byte a rest :
  byte_in 32 126 a = true ∨ cont a = true → clean (String a rest) = clean rest.
Proof.
  unfold cont. rewrite !byte_in_iff. intros Ha. cbn [clean control_at].
  rewrite !(byte_in_out _ _ a) by lia. by destruct rest as [|b [|c rest]].
Qed.

Lemma harmless_cons a t : byte_in 32 126 a = true → harmless t → harmless (String a t).
Proof.
  intros Ha Ht rest. change (String a t +:+ rest) with (String a (t +:+ rest)).
  rewrite clean_byte by auto. apply Ht.
Qed.

(** Printable ASCII text. *)
Fixpoint printable (s : string) : bool :=
  match s with EmptyString => true | String a s' => byte_in 32 126 a && printable s' end.
Lemma harmless_printable s : printable s = true → harmless s.
Proof.
  induction s as [|a s IH]; [intros _; apply harmless_nil|]. cbn. intros [Ha Hs]%andb_true_iff.
  by apply harmless_cons; auto.
Qed.
Ltac literal := by apply harmless_printable.

Lemma harmless_pretty_go x t : harmless t → harmless (pretty_N_go x t).
Proof.
  revert t. induction (N.lt_wf_0 x) as [x _ IH]; intros t Ht.
  destruct (decide (x = 0%N)) as [->|Hne]; [by rewrite pretty_N_go_0|].
  rewrite pretty_N_go_step by lia. apply IH; [apply N.div_lt; lia|]. apply harmless_cons; [|done].
  by unfold pretty_N_char; repeat case_match.
Qed.

Lemma harmless_pretty_N (x : N) : harmless (pretty x).
Proof. unfold pretty, pretty_N. case_decide; [literal|]. by apply harmless_pretty_go. Qed.

Lemma harmless_pretty_Z (z : Z) : harmless (pretty z).
Proof.
  destruct z as [|p|p]; unfold pretty, pretty_Z; [literal|apply harmless_pretty_N|].
  apply harmless_app; [literal|apply (harmless_pretty_N (Npos p))].
Qed.

Lemma hex_digit_printable n : (0 ≤ n < 16)%Z → byte_in 32 126 (hex_digit n) = true.
Proof.
  intros Hn. apply byte_in_iff. unfold hex_digit. destruct (Z.ltb_spec n 10); rewrite nat_ascii_embedding; lia.
Qed.

Lemma harmless_hex fuel n : (0 ≤ n)%Z → harmless (hex fuel n).
Proof.
  revert n. induction fuel as [|fuel IH]; intros n Hn; cbn [hex]; [apply harmless_nil|]. apply harmless_app.
  - destruct (n <? 16)%Z; [apply harmless_nil|]. apply IH, Z.div_pos; lia.
  - apply harmless_cons; [|apply harmless_nil]. by apply hex_digit_printable, Z.mod_pos_bound.
Qed.

Lemma harmless_fraction fuel k frac :
  (0 ≤ frac < 10 ^ (Z.of_nat k + 1))%Z → harmless (fraction fuel frac (10 ^ Z.of_nat k)).
Proof.
  revert k frac. induction fuel as [|fuel IH]; intros k frac Hf; cbn [fraction]; [apply harmless_nil|].
  destruct (frac =? 0)%Z; [apply harmless_nil|]. rewrite Z.pow_add_r in Hf by lia.
  assert (Hp : (0 < 10 ^ Z.of_nat k)%Z) by (apply Z.pow_pos_nonneg; lia).
  apply harmless_cons.
  { apply hex_digit_printable. split; [apply Z.div_pos; lia|]. apply Z.lt_trans with 10%Z; [|done].
    apply Z.div_lt_upper_bound; lia. }
  destruct k as [|k].
  { rewrite Z.pow_0_r, Z.mod_1_r. destruct fuel; apply harmless_nil. }
  rewrite (Nat2Z.inj_succ k), Z.pow_succ_r, (Z.mul_comm 10), Z.div_mul by lia. apply IH.
  rewrite Z.pow_add_r by lia. apply Z.mod_pos_bound. rewrite Nat2Z.inj_succ, Z.pow_succ_r in Hp by lia. lia.
Qed.

Lemma harmless_fmt_decimal integer frac k postfix :
  (0 ≤ frac < 10 ^ (Z.of_nat k + 1))%Z → harmless postfix →
  harmless (fmt_decimal integer frac (10 ^ Z.of_nat k) postfix).
Proof.
  intros Hf Hp. apply harmless_app; [apply harmless_pretty_Z|]. apply harmless_app; [|done].
  destruct (frac =? 0)%Z; [apply harmless_nil|]. apply harmless_app; [literal|]. by apply harmless_fraction.
Qed.

(** *** Strings *)

Lemma harmless_unicode_escape n : (0 ≤ n)%Z → harmless (unicode_escape n).
Proof.
  intros Hn. unfold unicode_escape. apply harmless_app; [literal|].
  apply harmless_app; [by apply harmless_hex|literal].
Qed.

Lemma harmless_escape_ascii a : byte_in 0 127 a = true → harmless (escape_ascii a).
Proof. destruct a as [[] [] [] [] [] [] [] []]; intros E; vm_compute in E; try done; literal. Qed.

(** The bytes of one character above ASCII. *)
Definition wide (c : string) : bool :=
  match c with
  | String a (String b "") => byte_in 194 223 a && cont b
  | String a (String b (String c "")) => byte_in 224 239 a && cont b && cont c
  | String a (String b (String c (String d ""))) => byte_in 240 244 a && cont b && cont c && cont d
  | _ => false
  end.

Lemma second3_cont a b : second3 a b = true → cont b = true.
Proof. unfold second3, cont. repeat case_match; rewrite !byte_in_iff; lia. Qed.
Lemma second4_cont a b : second4 a b = true → cont b = true.
Proof. unfold second4, cont. repeat case_match; rewrite !byte_in_iff; lia. Qed.

Ltac wide_cases c :=
  destruct c as [|a [|b [|c [|d [|]]]]]; cbn [wide]; try discriminate;
  rewrite ?andb_true_iff; intros Hw; decompose [and] Hw; clear Hw.
Ltac byte_ranges :=
  unfold cont in *; repeat match goal with E : byte_in _ _ _ = true |- _ => apply byte_in_iff in E end.

Lemma wide_code_point c : wide c = true → (0 ≤ code_point c)%Z.
Proof.
  wide_cases c; cbn [code_point]; unfold code; byte_ranges; lia.
Qed.

(** The first byte of a wide character starts no control character if it is
    printable. *)
Lemma control_at_wide c rest : wide c = true → unprintable c = false → control_at (c +:+ rest) = false.
Proof.
  wide_cases c; unfold unprintable, code_point, code; rewrite !orb_false_iff, andb_false_iff;
    byte_ranges; rewrite !Z.leb_gt, !Z.eqb_neq; intros Hp; lazy beta iota fix match delta [String.append control_at];
    rewrite !(byte_in_out _ _ a), !orb_false_l by lia.
  - destruct (byte_in 194 194 a) eqn:Ea; [apply byte_in_iff in Ea; rewrite (byte_in_out _ _ b) by lia|];
      destruct rest; try done; by rewrite (byte_in_out 226 226 a) by lia.
  - rewrite ?(byte_in_out 194 194 a) by lia. cbn [andb orb].
    destruct (byte_in 226 226 a) eqn:Ea, (byte_in 128 128 b) eqn:Eb; try done.
    apply byte_in_iff in Ea, Eb. cbn. apply byte_in_out. lia.
  - by rewrite ?(byte_in_out 194 194 a), ?(byte_in_out 226 226 a) by lia.
Qed.

Lemma harmless_wide c : wide c = true → unprintable c = false → harmless c.
Proof.
  intros Hc Hp rest. pose proof (control_at_wide c rest Hc Hp) as Hat. revert Hc Hat.
  wide_cases c; intros Hat; lazy beta iota fix match delta [String.append] in *; cbn [clean]; rewrite Hat; cbn [negb andb];
    repeat match goal with |- context [negb (control_at (String ?x ?r)) && clean ?r] =>
      change (negb (control_at (String x r)) && clean r) with (clean (String x r)) end;
    rewrite !clean_byte by auto; done.
Qed.

Lemma harmless_duration d : harmless (dbg_duration d false).
Proof.
  unfold dbg_duration. pose proof (Z.mod_pos_bound d NANOS_PER_SEC ltac:(done)) as Hn.
  destruct (0 <? d / NANOS_PER_SEC)%Z; [apply (harmless_fmt_decimal _ _ 8); [done|literal]|].
  destruct (1000000 <=? d mod NANOS_PER_SEC)%Z.
  { apply (harmless_fmt_decimal _ _ 5); [by apply Z.mod_pos_bound|literal]. }
  destruct (1000 <=? d mod NANOS_PER_SEC)%Z; [|apply (harmless_fmt_decimal _ 0 0); [done|literal]].
  apply (harmless_fmt_decimal _ _ 2); [by apply Z.mod_pos_bound|].
  apply (harmless_app "µ" "s"); [by apply harmless_wide|literal].
Qed.

(** The text between quotes up to the one that closes them. *)
Fixpoint close_quote (escaped : bool) (s : string) : option string :=
  match s with
  | EmptyString => None
  | String a s' =>
      if escaped then close_quote false s'
      else if bool_decide (nat_of_ascii a = 92) then close_quote true s'
      else if bool_decide (nat_of_ascii a = 34) then Some s'
      else close_quote false s'
  end.
(** Text that does not close the quotes it is in. *)
Definition sealed (t : string) : Prop := ∀ rest, close_quote false (t +:+ rest) = close_quote false rest.

Lemma sealed_app s t : sealed s → sealed t → sealed (s +:+ t).
Proof. intros Hs Ht rest. by rewrite string_app_assoc, Hs, Ht. Qed.
Lemma sealed_byte a : (code a ≠ 92)%Z → (code a ≠ 34)%Z → sealed (String a "").
Proof.
  intros H1 H2 rest. unfold code in *. change (String a "" +:+ rest) with (String a rest). cbn [close_quote].
  by rewrite !bool_decide_eq_false_2 by lia.
Qed.
Lemma sealed_cons a t : (code a ≠ 92)%Z → (code a ≠ 34)%Z → sealed t → sealed (String a t).
Proof. intros H1 H2 Ht. apply (sealed_app (String a "") t); [by apply sealed_byte|done]. Qed.
Lemma sealed_wide c : wide c = true → sealed c.
Proof.
  wide_cases c; byte_ranges; repeat (apply sealed_cons; [unfold code; lia..|]); by intros rest.
Qed.
Lemma sealed_hex fuel n : (0 ≤ n)%Z → sealed (hex fuel n).
Proof.
  revert n. induction fuel as [|fuel IH]; intros n Hn; cbn [hex]; [done|]. apply sealed_app.
  - destruct (n <? 16)%Z; [done|]. apply IH, Z.div_pos; lia.
  - pose proof (Z.mod_pos_bound n 16 ltac:(lia)) as Hm. unfold hex_digit.
    assert (Hd : ∀ k, 48 ≤ k < 58 ∨ 97 ≤ k < 103 → sealed (String (ascii_of_nat k) "")).
    { intros k Hk. apply sealed_byte; unfold code; rewrite nat_ascii_embedding; lia. }
    apply Hd. destruct (Z.ltb_spec (n mod 16) 10); lia.
Qed.
Lemma sealed_unicode_escape n : (0 ≤ n)%Z → sealed (unicode_escape n).
Proof.
  intros Hn. unfold unicode_escape. apply sealed_app; [done|]. apply sealed_app; [by apply sealed_hex|].
  by apply sealed_byte.
Qed.
(** The state after a text that does not close them. *)
Fixpoint quote_state (escaped : bool) (t : string) : option bool :=
  match t with
  | EmptyString => Some escaped
  | String a t' =>
      if escaped then quote_state false t'
      else if bool_decide (nat_of_ascii a = 92) then quote_state true t'
      else if bool_decide (nat_of_ascii a = 34) then None
      else quote_state false t'
  end.
Lemma quote_state_sound b t b' rest :
  quote_state b t = Some b' → close_quote b (t +:+ rest) = close_quote b' rest.
Proof.
  revert b. induction t as [|a t IH]; intros b; [by intros [= ->]|].
  change (String a t +:+ rest) with (String a (t +:+ rest)). cbn. repeat case_match; auto. done.
Qed.
Lemma sealed_escape_ascii a : byte_in 0 127 a = true → sealed (escape_ascii a).
Proof.
  intros _ rest. apply quote_state_sound. by destruct a as [[] [] [] [] [] [] [] []]; vm_compute.
Qed.

Section Escape.
Context `{Unicode}.

(** What holds of every piece of the escaped text and of their
    concatenations holds of the text. *)
Lemma escape_str_all (P : string → Prop) s :
  P "" → (∀ t u, P t → P u → P (t +:+ u)) → (∀ a, byte_in 0 127 a = true → P (escape_ascii a)) →
  (∀ c, wide c = true → unprintable c = false → P c) → (∀ n, (0 ≤ n)%Z → P (unicode_escape n)) →
  utf8_valid s = true → P (escape_str s).
Proof.
  intros H0 Happ Hascii Hwide Hesc.
  assert (Hw : ∀ c, wide c = true → P (escape_wide c)).
  { intros c Hc. unfold escape_wide. destruct (unprintable c) eqn:Hp; [by apply Hesc, wide_code_point|].
    destruct (escapes c); [by apply Hesc, wide_code_point|auto]. }
  induction s as [s IH] using string_length_ind. destruct s as [|a s1]; [done|]. cbn [utf8_valid escape_str].
  destruct (byte_in 0 127 a) eqn:Ea.
  { intros Hs. apply Happ; [auto|]. apply IH; [cbn; lia|done]. }
  destruct s1 as [|b s2]; [done|]. destruct (byte_in 194 223 a) eqn:Ea2.
  { intros [Hb Hs]%andb_true_iff. apply Happ; [|apply IH; [cbn; lia|done]].
    apply Hw. cbn. by rewrite Ea2, Hb. }
  destruct s2 as [|c s3]; [done|]. destruct (byte_in 224 239 a) eqn:Ea3.
  { intros [[Hb%second3_cont Hc]%andb_true_iff Hs]%andb_true_iff.
    apply Happ; [|apply IH; [cbn; lia|done]]. apply Hw. cbn. by rewrite Ea3, Hb, Hc. }
  destruct s3 as [|d s4]; [done|].
  intros [[[[Ha Hb%second4_cont]%andb_true_iff Hc]%andb_true_iff Hd]%andb_true_iff Hs]%andb_true_iff.
  apply Happ; [|apply IH; [cbn; lia|done]]. apply Hw. cbn. by rewrite Ha, Hb, Hc, Hd.
Qed.

Lemma harmless_str s : utf8_valid s = true → harmless (dbg_str s false).
Proof.
  intros Hs. apply harmless_app; [literal|]. apply harmless_app; [|literal].
  apply (escape_str_all harmless);
    auto using harmless_nil, harmless_app, harmless_escape_ascii, harmless_wide, harmless_unicode_escape.
Qed.

Lemma sealed_escape_str s : utf8_valid s = true → sealed (escape_str s).
Proof.
  apply (escape_str_all sealed); auto using sealed_app, sealed_escape_ascii, sealed_wide, sealed_unicode_escape.
  by intros rest.
Qed.

Lemma dbg_str_closes s rest :
  utf8_valid s = true → ∃ text, dbg_str s false +:+ rest = quote +:+ text ∧ close_quote false text = Some rest.
Proof.
  intros Hs. exists (escape_str s +:+ quote +:+ rest). split.
  - unfold dbg_str. by rewrite !string_app_assoc.
  - by rewrite (sealed_escape_str s Hs).
Qed.
End Escape.

(** *** Structs *)

Definition harmless_field (f : string * dbg) : Prop := harmless (f.1) ∧ harmless (f.2 false).

Lemma harmless_plain_fields first fields : Forall harmless_field fields → harmless (plain_fields first fields).
Proof.
  intros Hf. revert first. induction Hf as [|[n v] fields [Hn Hv] _ IH]; intros first; [apply harmless_nil|].
  cbn [plain_fields]. cbn in Hn, Hv. repeat apply harmless_app; auto; [by destruct first; literal|literal].
Qed.

Lemma clean_finish_non_exhaustive name fields :
  harmless name → Forall harmless_field fields → clean (finish_non_exhaustive name fields false) = true.
Proof.
  intros Hn Hf. apply harmless_clean. unfold finish_non_exhaustive.
  destruct fields as [|f fields]; repeat apply harmless_app; auto using harmless_plain_fields; literal.
Qed.

Lemma harmless_option (o : option dbg) :
  (∀ v, o = Some v → harmless (v false)) → harmless (dbg_option o false).
Proof.
  intros Ho. destruct o as [v|]; [|literal]. repeat apply harmless_app; auto; literal.
Qed.

Ltac clean_struct :=
  apply clean_finish_non_exhaustive; [literal|];
  repeat first [apply Forall_nil_2 | apply Forall_cons_2]; (split; [literal|cbn [fst snd]]).

(** ** Theorems *)

Section Theorems.
Context `{Unicode} `{Rustls} {B : Type}.

(** C40: whatever the strings of the caller are, the plain debug output of a
    request, of the discovery sources and of a TLS backend is one line: it has no
    control character (ASCII, or U+0080 to U+009F with the next-line character)
    and no line or paragraph separator.  The quotes around the address of a
    request are closed only where the address ends: what follows is the timeout,
    so an address cannot forge a field or a line of a log.  It holds whatever the
    Unicode tables say of other characters. *)
Theorem debug_is_one_line (r : LbRequest.t) (d : DnsDiscovery.t) (c : ConsulDiscovery.t) (e : EtcdDiscovery.t)
    (t : TlsBackend B)
    (Haddr : utf8_valid (LbRequest.addr r) = true) (Hdns : utf8_valid (DnsDiscovery.service_name d) = true)
    (Hconsul : utf8_valid (ConsulDiscovery.service_name c) = true)
    (Htag : ∀ tag, ConsulDiscovery.tag_filter c = Some tag → utf8_valid tag = true)
    (Hetcd : utf8_valid (EtcdDiscovery.prefix e) = true) (Htls : utf8_valid (tls_server_name B t) = true) :
  clean (dbg_LbRequest r false) = true ∧ clean (dbg_DnsDiscovery d false) = true ∧
  clean (dbg_ConsulDiscovery c false) = true ∧ clean (dbg_EtcdDiscovery e false) = true ∧
  clean (dbg_TlsBackend t false) = true ∧
  ∃ text, dbg_LbRequest r false = "LbRequest { addr: " +:+ quote +:+ text ∧
    close_quote false text =
      Some (", dial_timeout: " +:+ dbg_option (dbg_duration <$> LbRequest.dial_timeout r) false +:+ ", .. }").
Proof.
  repeat split; [clean_struct..|].
  - by apply harmless_str.
  - apply harmless_option. intros v Hv. apply fmap_Some in Hv as (x & _ & ->). apply harmless_duration.
  - by apply harmless_str.
  - by apply harmless_str.
  - apply harmless_option. intros v Hv. apply fmap_Some in Hv as (x & Hx & ->). by apply harmless_str, Htag.
  - by apply harmless_str.
  - by apply harmless_str.
  - destruct (dbg_str_closes (LbRequest.addr r)
      (", dial_timeout: " +:+ dbg_option (dbg_duration <$> LbRequest.dial_timeout r) false +:+ ", .. }") Haddr)
      as (text & Htext & Hclose).
    exists text. split; [|exact Hclose]. rewrite <- Htext. unfold dbg_LbRequest, finish_non_exhaustive.
    cbn [plain_fields]. rewrite !string_app_assoc. done.
Qed.
End Theorems.

(** *** Witness and examples *)

(** Tables that escape nothing else. *)
Definition escape_none : Unicode := {| escapes := λ _, false |}.

(** An address with a line break, a quote, the next-line character U+0085, the
    line separator U+2028 and an e with an acute accent. *)
Definition bytes (l : list nat) : string := String.string_of_list_ascii (ascii_of_nat <$> l).
Definition hostile : string :=
  "a" +:+ newline +:+ "b" +:+ quote +:+ ", x: " +:+ bytes [194; 133; 226; 128; 168; 195; 169] +:+ ":80".
Definition hostile_request : LbRequest.t := LbRequest.with_dial_timeout 1500000000%Z (LbRequest.new hostile).
Definition hostile_consul : ConsulDiscovery.t :=
  {| ConsulDiscovery.service_name := hostile; ConsulDiscovery.tag_filter := Some hostile |}.

Lemma debug_is_one_line_witness :
  clean (dbg_LbRequest (H := escape_none) hostile_request false) = true ∧ clean hostile = false.
Proof.
  split; [|reflexivity].
  apply (debug_is_one_line (H := escape_none) (H0 := toy_rustls) hostile_request
    {| DnsDiscovery.service_name := hostile; DnsDiscovery.srv_prefix := "_tcp" |} hostile_consul
    {| EtcdDiscovery.prefix := hostile |} tls_member).
  1-3,5-6: vm_compute; reflexivity.
  intros tag [= <-]. vm_compute. reflexivity.
Defined.

Example lb_request_text :
  dbg_LbRequest (H := escape_none) hostile_request false =
  "LbRequest { addr: " +:+ quote +:+ "a\nb\" +:+ quote +:+ ", x: \u{85}\u{2028}" +:+ bytes [195; 169] +:+ ":80" +:+ quote +:+ ", dial_timeout: Some(1.5s), .. }".
Proof. vm_compute. reflexivity. Qed.

Example builder_text :
  dbg_LoadBalancerBuilder (B := nat) LoadBalancerBuilder.default true =
  "LoadBalancerBuilder {" +:+ newline +:+ "    backends_count: None," +:+ newline +:+
  "    factories_count: None," +:+ newline +:+ "    has_initial_metrics: false," +:+ newline +:+
  "    has_strategy: false," +:+ newline +:+ "    .." +:+ newline +:+ "}".
Proof. vm_compute. reflexivity. Qed.

Example metrics_text :
  dbg_TunnelMetrics {| rtt := Some 20000000%Z; active_connections := 3; recent_errors := 0;
                       total_dials := 7; total_errors := 1 |} false =
  "TunnelMetrics { rtt: Some(20ms), active_connections: 3, recent_errors: 0, total_dials: 7, total_errors: 1 }".
Proof. vm_compute. reflexivity. Qed.
