(* ===== verification/UnitTests.v ===== *)
(** * The crate's unit tests, on the model

    The [#[test]] functions inside [src/src/strategies/] and
    [src/src/services/balancer.rs], transcribed as programs on the strategies'
    states whose assertions panic as Rust's do, and run in the profile of
    [cargo test] with std's hash.  That they pass ties the model to behaviour
    the crate pins down itself. *)

From stdpp Require Import base tactics list numbers strings pretty.
From S2P Require Import Prelude Errors Constants Strategy Strategies Scored WeightedRoundRobin Registry.
From S2P Require Import Address SipHash.

Open Scope rota_scope.

(** ** Assertions *)

Definition assert {S} (b : bool) : M S unit := lift (if b then Ret tt else Panic AssertFailed).
Definition assert_eq {S A} `{!EqDecision A} (x y : A) : M S unit := assert (bool_decide (x = y)).

(** [for _ in 0..n { body }]. *)
Fixpoint repeat_times {S} (n : nat) (body : M S unit) : M S unit :=
  match n with 0 => mret tt | S n' => body;; repeat_times n' body end.

(** The test passes when it returns. *)
Definition passes {S} (test : M S unit) (s : S) : Prop := (test s).1 = Ret tt.

(** The indices of [n] picks from one view, and how often each was picked. *)
Definition picks {S} `{!BalanceStrategy S} (ρ : Rng) (n : nat) (v : PoolView) : M S (list nat) :=
  pick_many (replicate n (ρ, v)).
Definition hits (js : list nat) (i : nat) : nat := length (filter (eq i) js).

#[local] Existing Instance dev64.
#[local] Existing Instance DefaultHasher.

Definition ms (l : list Z) (counts : list Z) : PoolView := test_view (Some <$> l) counts.

Section Tests.
Context (ρ : Rng).

(** ** [strategies/round_robin.rs] *)

Definition round_robin_walks_and_wraps : M RoundRobin.t unit :=
  let v := ms [10; 20; 30]%Z [0; 0; 0]%Z in
  a ← pick ρ v; assert_eq a 0;;
  b ← pick ρ v; assert_eq b 1;;
  c ← pick ρ v; assert_eq c 2;;
  d ← pick ρ v; assert_eq d 0.

(** ** [strategies/random.rs] *)

Definition random_picks_in_range : M Random.t unit :=
  let v := ms [10; 20; 30]%Z [0; 0; 0]%Z in
  repeat_times 100 (i ← pick ρ v; assert (i <? 3)%nat).

(** ** [strategies/lowest_rtt.rs] *)

Definition lowest_rtt_picks_fastest : M LowestRtt.t unit :=
  i ← pick ρ (ms [30; 10; 20]%Z [0; 0; 0]%Z); assert_eq i 1.

Definition lowest_rtt_with_no_rtts_picks_first : M LowestRtt.t unit :=
  i ← pick ρ (test_view [None; None; None] [0; 0; 0]%Z); assert_eq i 0.

(** ** [strategies/least_connections.rs] *)

Definition least_connections_picks_min : M LeastConnections.t unit :=
  i ← pick ρ (ms [10; 10; 10]%Z [5; 2; 8]%Z); assert_eq i 1.

Definition least_connections_tiebreaks_by_rtt : M LeastConnections.t unit :=
  i ← pick ρ (ms [10; 20; 30]%Z [2; 2; 2]%Z); assert_eq i 0.

(** ** [strategies/hash_by_addr.rs] *)

Definition hash_view (addr : string) : PoolView :=
  {| dial_addr := addr; metrics := make_metrics [Some 10%Z; Some 20%Z; Some 30%Z] [0; 0; 0]%Z |}.

Definition hash_by_addr_is_sticky : M HashByAddr.t unit :=
  let v := hash_view "api.example.com:443" in
  a ← pick ρ v; b ← pick ρ v; assert_eq a b.

Definition hash_by_addr_distributes : M HashByAddr.t unit :=
  js ← pick_many ((λ i, (ρ, hash_view ("host" +:+ pretty i +:+ ".example.com:80"))) <$> seq 0 30);
  assert (forallb (λ i, 0 <? hits js i)%nat [0; 1; 2]).

(** ** [strategies/weighted_round_robin.rs] *)

Definition weighted_round_robin_favors_fast_tunnel : M WeightedRoundRobin.t unit :=
  js ← picks ρ 111 (ms [10; 100; 1000]%Z [0; 0; 0]%Z);
  assert (hits js 1 <? hits js 0)%nat;;
  assert (hits js 2 <? hits js 1)%nat.

Definition weighted_round_robin_walks_through_sequence : M WeightedRoundRobin.t unit :=
  js ← picks ρ 5 (ms [333; 1000; 1000]%Z [0; 0; 0]%Z);
  assert_eq js [0; 1; 2; 0; 0].

(** ** [strategies/failover.rs] *)

Definition failover_returns_primary : M Failover.t unit :=
  let v := ms [10; 20; 30]%Z [0; 0; 0]%Z in
  a ← pick ρ v; assert_eq a 0;;
  b ← pick ρ v; assert_eq b 0.

Definition failover_rotates_on_error : M Failover.t unit :=
  let v := ms [10; 20; 30]%Z [0; 0; 0]%Z in
  pick ρ v;;
  report_error 0;; a ← pick ρ v; assert_eq a 1;;
  report_error 1;; b ← pick ρ v; assert_eq b 2;;
  report_error 2;; c ← pick ρ v; assert_eq c 0.

Definition failover_ignores_unrelated_errors : M Failover.t unit :=
  let v := ms [10; 20; 30]%Z [0; 0; 0]%Z in
  pick ρ v;; report_error 1;; a ← pick ρ v; assert_eq a 0.

(** ** [strategies/health_weighted.rs] *)

Definition health_weighted_picks_fastest_with_no_errors : M HealthWeighted.t unit :=
  i ← pick ρ (ms [30; 10; 20]%Z [0; 0; 0]%Z); assert_eq i 1.

Definition tunnel (active errors : Z) : TunnelMetrics :=
  {| rtt := Some (from_millis 10); active_connections := active; recent_errors := errors;
     total_dials := 0; total_errors := 0 |}.

Definition health_weighted_demotes_erroring_tunnel : M HealthWeighted.t unit :=
  i ← pick ρ {| dial_addr := "h"; metrics := [tunnel 0 0; tunnel 0 1] |}; assert_eq i 0.

Definition health_weighted_adds_load_penalty : M HealthWeighted.t unit :=
  i ← pick ρ {| dial_addr := "h"; metrics := [tunnel 0 0; tunnel 5 0] |}; assert_eq i 0.

(** ** [strategies/sticky.rs] *)

Definition sticky_picks_lowest_rtt_on_first_call : M Sticky.t unit :=
  i ← pick ρ (ms [30; 10; 20]%Z [0; 0; 0]%Z); assert_eq i 1.

Definition sticky_pins_to_first_choice : M Sticky.t unit :=
  let v := ms [30; 10; 20]%Z [0; 0; 0]%Z in
  first ← pick ρ v; repeat_times 100 (i ← pick ρ v; assert_eq i first).

Definition sticky_does_not_repick_when_metrics_change : M Sticky.t unit :=
  first ← pick ρ (ms [30; 10; 20]%Z [0; 0; 0]%Z);
  assert_eq first 1;;
  repeat_times 10 (i ← pick ρ (ms [5; 100; 200]%Z [0; 0; 0]%Z); assert_eq i 1).

Definition sticky_report_error_does_not_release_pin : M Sticky.t unit :=
  let v := ms [30; 10; 20]%Z [0; 0; 0]%Z in
  first ← pick ρ v; report_error first;; report_error first;;
  i ← pick ρ v; assert_eq i first.

Definition sticky_picks_first_when_no_rtts : M Sticky.t unit :=
  let v := test_view [None; None; None] [0; 0; 0]%Z in
  i ← pick ρ v; assert_eq i 0;;
  repeat_times 5 (i ← pick ρ v; assert_eq i 0).

(** ** [strategies/mod.rs] *)

Definition constructed : list dyn_strategy :=
  [round_robin; random; lowest_rtt; least_connections; hash_by_addr; weighted_round_robin; failover;
   health_weighted; sticky].

Definition free_constructors_return_boxed_strategies : Prop :=
  Forall (λ s, passes (i ← pick ρ (ms [10; 20]%Z []); assert (i <? 2)%nat) s) constructed ∧
  length constructed = 9.
End Tests.

(** ** [services/balancer.rs] *)

Definition validate_dial_addr_accepts_host_port : bool :=
  forallb (is_ok ∘ validate_dial_addr) ["example.com:443"; "10.0.0.1:80"].

Definition validate_dial_addr_rejects_malformed : bool :=
  forallb (negb ∘ is_ok ∘ validate_dial_addr)
    ["example.com"; ":443"; "example.com:0"; "example.com:notaport"].

(** ** They pass *)

Lemma random_picks n ρ : rng_ok ρ →
  passes (repeat_times n (i ← pick ρ (ms [10; 20; 30]%Z [0; 0; 0]%Z); assert (i <? 3)%nat)) Random.new.
Proof.
  intros Hρ. pose proof (Hρ 3 ltac:(lia)) as Hlt. apply Nat.ltb_lt in Hlt. unfold passes.
  induction n as [|n IH]; [done|]. cbn [repeat_times].
  assert (E : (i ← pick ρ (ms [10; 20; 30]%Z [0; 0; 0]%Z); assert (i <? 3)%nat) Random.new =
    (Ret tt, Random.new)).
  { transitivity (assert (ρ 3 <? 3)%nat Random.new); [reflexivity|].
    unfold assert, lift. by rewrite Hlt. }
  unfold mbind at 1, M_bind at 1. rewrite E. exact IH.
Qed.

(** The crate's unit tests pass on the model, whatever a generator that
    stays in range draws: every test of the strategies and their constructors,
    with std's SipHash behind [HashByAddr], and those of the address check. *)
Theorem unit_tests_pass ρ :
  rng_ok ρ →
  passes (round_robin_walks_and_wraps ρ) RoundRobin.new ∧
  passes (random_picks_in_range ρ) Random.new ∧
  (passes (lowest_rtt_picks_fastest ρ) LowestRtt.new ∧
   passes (lowest_rtt_with_no_rtts_picks_first ρ) LowestRtt.new) ∧
  (passes (least_connections_picks_min ρ) LeastConnections.new ∧
   passes (least_connections_tiebreaks_by_rtt ρ) LeastConnections.new) ∧
  (passes (hash_by_addr_is_sticky ρ) HashByAddr.new ∧
   passes (hash_by_addr_distributes ρ) HashByAddr.new) ∧
  (passes (weighted_round_robin_favors_fast_tunnel ρ) WeightedRoundRobin.new ∧
   passes (weighted_round_robin_walks_through_sequence ρ) WeightedRoundRobin.new) ∧
  (passes (failover_returns_primary ρ) Failover.new ∧
   passes (failover_rotates_on_error ρ) Failover.new ∧
   passes (failover_ignores_unrelated_errors ρ) Failover.new) ∧
  (passes (health_weighted_picks_fastest_with_no_errors ρ) HealthWeighted.new ∧
   passes (health_weighted_demotes_erroring_tunnel ρ) HealthWeighted.new ∧
   passes (health_weighted_adds_load_penalty ρ) HealthWeighted.new) ∧
  (passes (sticky_picks_lowest_rtt_on_first_call ρ) Sticky.new ∧
   passes (sticky_pins_to_first_choice ρ) Sticky.new ∧
   passes (sticky_does_not_repick_when_metrics_change ρ) Sticky.new ∧
   passes (sticky_report_error_does_not_release_pin ρ) Sticky.new ∧
   passes (sticky_picks_first_when_no_rtts ρ) Sticky.new) ∧
  free_constructors_return_boxed_strategies ρ ∧
  validate_dial_addr_accepts_host_port = true ∧ validate_dial_addr_rejects_malformed = true.
Proof.
  intros Hρ. split; [vm_compute; reflexivity|]. split; [by apply random_picks|].
  do 7 (split; [repeat match goal with |- _ ∧ _ => split end; vm_compute; reflexivity|]).
  split; [|split; vm_compute; reflexivity]. split; [|done].
  pose proof (Hρ 2 ltac:(lia)) as Hlt. apply Nat.ltb_lt in Hlt.
  repeat apply Forall_cons_2; try apply Forall_nil_2; try (vm_compute; reflexivity).
  unfold passes. transitivity ((assert (ρ 2 <? 2)%nat random).1); [reflexivity|].
  unfold assert, lift. by rewrite Hlt.
Qed.

Lemma unit_tests_pass_witness : passes (random_picks_in_range (λ _, 0)) Random.new.
Proof. apply (unit_tests_pass (λ _, 0)). by intros n Hn. Defined.
